(* ===== verification/_CoqProject ===== *)
-Q . S2P
Prelude.v
GoStd.v
Redis.v
Lease.v
MemoryRegistry.v
RedisRegistry.v
Ownership.v
Cluster.v
CommandBus.v
Rfc3339.v
Json.v
JsonText.v
ResultJson.v
RegistryProperties.v
BusProperties.v
RateLimit.v
GoText.v
GoNet.v
TrustedProxy.v
Commands.v
CommandAPI.v
EndToEnd.v
Probe.v
StationStore.v
Handlers.v
Observability.v
Config.v
Migrate.v
Server.v
Process.v
Kube.v
Operator.v
OperatorProperties.v
Deployed.v
Controller.v
DeepCopy.v
