(* ===== verification/Prelude.v ===== *)
(** * Verification of csms-platform

    A charging station management system: stations hold WebSocket sessions with one
    of several runtimes, a registry says which runtime owns which station, commands
    reach the owner over a bus, and notifications are stored in a repository.  An
    operator deploys the runtimes in a Kubernetes cluster.  This development translates
    the Go code under src/ into definitions and proves what the parts promise each other.

    ** The parts and where they are

    - Prelude.v: results, state passing with errors, 64-bit wrap-around, tactics
      ([bool_to_prop], [cases], [by_evaluation]), the hint database [csms], lemmas on
      strings and association lists.
    - GoStd.v, GoText.v, GoNet.v, Rfc3339.v, Json.v: what the sources use of the Go
      standard library: times, contexts, [strconv], [strings], [time.ParseDuration],
      [net.ParseIP], [net.ParseCIDR], [net.SplitHostPort], RFC 3339 dates and
      [encoding/json].  JsonText.v: texts inside texts (raw members and elements,
      [compact]) and quoting of UTF-8.
    - Redis.v: Redis and its client, which are not part of the repository: a class
      [Redis] of commands, a class [RedisLaws] of their documented effects, and
      [RefRedis], a server that satisfies the laws and on which witnesses evaluate.
      A call is described by a [delivery]: which attempts reach the server and when,
      and whether the reply comes back, so lost replies and resends are covered.
    - Lease.v: sessionregistry/registry.go.  [Lease], the [Registry] interface as a
      class, and [RegistryContract], what a registry promises: fenced, exclusive
      leases.
    - MemoryRegistry.v: sessionregistry/memory.go, an instance of the contract.
    - RedisRegistry.v: sessionregistry/redisstore/registry.go, the three Lua scripts as
      command sequences, an instance of the contract over any lawful Redis.
    - RegistryProperties.v: what whole calls of the two registries guarantee.
    - Ownership.v: runtime/ownership.go.  The manager with its entries as shared
      objects in a heap, one definition per critical section ([connect_claim],
      [connect_install], [renew_tick], [disconnect_detach]) and their compositions
      [onConnect], [renew], [onDisconnect]; [owns].
    - Cluster.v: any number of runtimes over one registry as a step relation in which
      critical sections interleave; proved against [RegistryContract].
    - CommandBus.v: commandbus/bus.go and commandbus/redisbus/bus.go.  [Publish],
      [AwaitResult], [RunConsumer] with recovery, [complete] and [completed].  A turn of
      the waiting loop has the moments at which its call begins and ends and its tick is
      there, and what other clients did to the server meanwhile; [select_ctx] is the
      [select].
    - ResultJson.v: [json.Marshal] and [json.Unmarshal] of a [Result], the instance of
      the class [ResultCodec] that CommandBus.v and BusProperties.v are stated over.
    - BusProperties.v: what the bus guarantees.
    - RateLimit.v: runtime/rate_limit.go.
    - Commands.v: runtime/commands.go, the handler the consumer runs.
    - CommandAPI.v: runtime/command_api.go, the HTTP handler, over the [Registry] class.
    - EndToEnd.v: CommandAPI, CommandBus and Commands composed: a request at one runtime,
      the streams and results between them ([fabric]), the consumer of the owner.  The
      stream commands of Redis are the class [Streams] with [StreamLaws]; [RefStreams] is
      an instance.
    - Probe.v: cmd/csms-probe/main.go, the client that checks a connection, over a socket
      ([call], [answerServerCalls], [main]).
    - TrustedProxy.v: runtime/trustedproxy.go.
    - Config.v: runtime/config.go, [loadConfig] over the environment as a function.
    - StationStore.v: stationstore (interface, validation, in-memory repository) and
      stationstore/mysqlstore, with the tables and keys of
      migrations/001_initial.sql; [RepositoryLaws] is what an adapter promises, with an
      instance for each adapter.
    - Handlers.v: handlers/core.go, the nine OCPP handlers and their registration, over
      the [Repository] class.
    - Observability.v: runtime/metrics.go and runtime/health.go.
    - Migrate.v: mysqlstore/migrate.go.
    - Server.v: runtime/server.go.  [New] with a ledger of the connections it opens and
      closes, [buildTLSConfig], [Authenticator], the [routes] of the mux; Module [Life]:
      [serve] and [runCommandConsumer] as a step relation over the goroutines.
    - Process.v: cmd/csms-server/main.go, from the environment to the exit status, and the
      end of [serve].
    - Kube.v: the Kubernetes objects and the calls of the reconciler, which are not part
      of the repository: the classes [Kube] and [KubeLaws], and [RefKube], a cluster that
      satisfies the laws.  A call is answered, refused, or has its effect while the
      answer is lost; an update that would change the selector of a Deployment is
      rejected.
    - Operator.v: api/v1alpha1 (the resource with its defaults and validation) and
      internal/controller/csms_controller.go ([Reconcile] and its steps).
    - OperatorProperties.v: what the reconciler guarantees over any lawful cluster.
    - Controller.v: [SetupWithManager], cmd/operator/main.go, and the manager around the
      reconciler as a step relation: the cache its client reads from, the notifications on
      their way, the queue of requests, and other writers of the cluster that come between
      the calls of a run; [uninterrupted_run] ties it to [Reconcile].
    - Deployed.v: the objects of one resource together, and the runtime (Config.v,
      Server.v) inside the Pods of the operator; [Kubelet] is what Kubernetes does for a
      Pod, with the instance [RefKubelet].
    - DeepCopy.v: api/v1alpha1/zz_generated.deepcopy.go, the structs with their metadata,
      pointers, maps and slices in a heap.

    A request of the command API goes through CommandAPI, RateLimit, Lease (lookup) and
    CommandBus (publish); the consumer of the owner runs Commands, which asks
    Ownership and calls the station; the result comes back over CommandBus.  Server
    wires these parts together and supervises the consumer; Operator deploys it.

    ** What the theorems show

    - Fencing (Cluster.v): a generation accepted by [owns] identifies one runtime and
      one station in every reachable state; a runtime whose lease was replaced refuses
      commands with the current generation.  A runtime that has not noticed the
      takeover still answers for its old generation.
    - Registries (RegistryProperties.v): a claim excludes others until it expires, a
      lookup returns it, a stale renewal is refused without effect in Redis.  The
      in-memory registry instead deletes the current lease on a stale renewal; a
      claim whose reply was lost conflicts with itself.
    - Ownership (Ownership.v): outcomes of connecting and disconnecting, in the manager and
      in the registry, also when the reply of a claim is lost; the disconnection of a
      refused second session evicts the open one.
    - Bus (BusProperties.v): round trips of commands and results, a recorded command is
      not run again, acknowledgement only after recording; waiting ends when the context
      does, with a timeout or with the result that was recorded in time; a command that
      could not be recorded runs again.
    - Commands and API (Commands.v, CommandAPI.v): a station is called only for a
      cleared command and by one runtime; a command is published only after every
      check, a refusal has the status of the first check that fails, the command arrives
      intact and the answer matches the outcome; credentials and paths are accepted exactly
      as specified; the JSON payload makes the round trip.
    - From the request to the answer (EndToEnd.v): the response of the API is the result of
      the owner's handler on the command of the request, when Redis answers in time.
    - Rate limit (RateLimit.v): at most the limit per window and twice the limit per
      span, under resends that reach the server within a window length; a request that
      arrives later is counted anew; the first requests are admitted; the bound is reached.
    - Storage (StationStore.v, Handlers.v): transactions are all or nothing and keep the
      keys; MySQL refines the in-memory repository on identities the collation tells
      apart, and merges stations where it does not; whatever messages arrive, the
      repository holds the newest records of those that were stored, which include all
      that were confirmed; a boot that is stored is answered with the configured interval
      and a readable time.
    - Configuration and proxies (Config.v, TrustedProxy.v): a configuration that loads
      can be run with; only trusted peers choose the address they are limited by;
      trust is prefix equality.
    - Metrics (Observability.v): the number of time series is bounded, and the client
      library is never called in a way it panics on.
    - JSON of results (ResultJson.v): the round trip, to the byte and the nanosecond.
    - Server (Server.v): construction releases everything it opened when a step fails;
      client certificates bind a station to its identity; readiness follows what the
      supervisor of the command consumer has noticed while the server serves; shutdown
      closes the connections.  The readiness flag can be set after shutdown, and a failing
      HTTP server leaves connections open.
    - Operator (OperatorProperties.v): a run without an error leaves the cluster as the
      resource asks from any state, a further run changes nothing, a run that is
      answered succeeds after any failures, objects of other controllers and Deployments
      with another selector are kept, except objects the resource does not ask for, which
      are deleted whoever owns them.
    - Controller (Controller.v): no drift goes unnoticed: a resource whose objects are not
      in order has a request in the queue, notifications on their way that lead to one, or
      a run under way, whoever writes when and however far the cache lags behind; left
      alone, answered runs for these requests, in any order, end without errors with
      everything in order.
    - Processes (Process.v, Probe.v): the runtime ends after a signal within eight steps of
      [serve], with its connections closed unless its HTTP server ended first, and exits
      with 1 or 2 if it cannot serve; the
      probe completes exactly when both its calls were answered under their IDs, and
      answers every call of the server once.
    - Deep copies (DeepCopy.v): the copies of all six types have the value of the original
      and no memory in common with it, metadata included.
    - Deployment (Deployed.v): the objects refer to each other consistently, and the
      runtime finds its identity, port, probes and certificates where the operator put
      them, as long as the variables of these conventions are not set otherwise.

    ** Conventions

    Instants are nanoseconds since the Unix epoch and durations nanoseconds, both in
    [Z], with wrap-around where the source converts to 64 bits ([Time.UnixNano],
    generations, [wrap_uint64]).  Redis times are milliseconds.  Go strings are byte
    strings.  A Go pair of value and error is [result] where the value is dropped on
    error and a pair with an [option] where it is not.  Clocks, contexts and the fate
    of calls to other services are arguments.  A mutex makes a section atomic, so a
    section is one definition.  Logging is left out.

    Code outside src/ is a parameter: Redis (classes with laws), MySQL's collation,
    column precision and column widths, the OCPP library (sessions, calls, router,
    versions), the WebSocket of the probe (what arrives and which writes fail), Prometheus (the sequence of calls made to it), Kubernetes and
    controller-runtime (classes with laws), the file system and the certificates of a
    machine, SHA-256 and the random source.

    ** Bounds and fuel

    - [Strconv.digits] has one unit per digit and is given the bit length of the number,
      which is never less; [FormatUint_value] shows the digits are complete.
    - [trim] and [Duration.components] are given the length of the text, and every step
      consumes a byte ([trim_ends]).
    - [ipv6_groups] has the eight groups an address can have.
    - [Json.parse_value] is given twice the length of the text ([Json.enough]): every
      call consumes a byte within two units.  The limit of 10000 nested values that
      [encoding/json] has is not modelled; no text of 4096 bytes can reach it.
    - Consumer and waiting loops run over an explicit list of turns, each with what
      happens to its calls; [await_ends_with_context] bounds the turns of a wait by the
      time its context has left.
    - [answerLoop] of the probe has one unit more than there are messages to read, so it
      runs out only when the read has not returned.

    ** Not modelled

    Log lines; parsing of command line flags and dialing in the probe (arguments of
    [Probe.main]); the registration of the types with the scheme of controller-runtime and
    the options of its manager; the sizes of the connection pool and the options of the OCPP
    library in [New]; the nesting limit of [encoding/json].  In Controller.v a call on an
    object is one step: it reads the cache and writes only if that is what there is, which
    is the conflict check of the API server.  Finalizers, which would delay a deletion, are
    not modelled; the operator sets none. *)

From stdpp Require Export gmap strings list fin_maps.
From Stdlib Require Export ZArith Lia Ascii.

Open Scope Z_scope.

Declare Scope go_scope.
Delimit Scope go_scope with go.

(** ** Fallible results: Go's [(value, error)] when the value is dropped on error. *)

Inductive result (E A : Type) : Type :=
  | Ok (a : A)
  | Err (e : E).
Arguments Ok {E A} a.
Arguments Err {E A} e.

Notation "'let!' x ':=' e 'in' k" :=
  (match e with Ok x => k | Err err => Err err end)
  (at level 10, x name, e at level 100, k at level 200) : go_scope.

(** ** Stateful fallible code: explicit state passing with an error result.

    An error does not undo the state changes made before it, which is how a
    sequence of Redis commands or of Go statements behaves. *)

Definition M (S E A : Type) : Type := S → S * result E A.

#[export] Instance M_ret S E : MRet (M S E) := λ A a s, (s, Ok a).
#[export] Instance M_bind S E : MBind (M S E) := λ A B k m s,
  match m s with
  | (s', Ok a) => k a s'
  | (s', Err e) => (s', Err e)
  end.

Definition fail {S E A} (e : E) : M S E A := λ s, (s, Err e).
(** Reads that do not change the state. *)
Definition gets {S E A} (f : S → A) : M S E A := λ s, (s, Ok (f s)).
(** Lift a pure fallible value. *)
Definition lift {S E A} (r : result E A) : M S E A := λ s, (s, r).
(** Lift a command that returns the new state and a fallible reply. *)
Definition command {S E A} (f : S → S * result E A) : M S E A := f.

Section monad_laws.
Context {S E : Type}.

Lemma bind_ok {A B} (m : M S E A) (k : A → M S E B) s s' a :
  m s = (s', Ok a) → (m ≫= k) s = k a s'.
Proof. unfold mbind, M_bind. by intros ->. Qed.

Lemma bind_err {A B} (m : M S E A) (k : A → M S E B) s s' e :
  m s = (s', Err e) → (m ≫= k) s = (s', Err e).
Proof. unfold mbind, M_bind. by intros ->. Qed.

Lemma bind_inv_ok {A B} (m : M S E A) (k : A → M S E B) s s2 b :
  (m ≫= k) s = (s2, Ok b) →
  ∃ s1 a, m s = (s1, Ok a) ∧ k a s1 = (s2, Ok b).
Proof.
  unfold mbind, M_bind. destruct (m s) as [s1 [a|e]]; naive_solver.
Qed.
End monad_laws.

(** ** Machine integers *)

Definition int64_min : Z := - 2 ^ 63.
Definition int64_max : Z := 2 ^ 63 - 1.
Definition uint64_max : Z := 2 ^ 64 - 1.

Definition in_int64 (z : Z) : Prop := int64_min ≤ z ≤ int64_max.
Definition in_uint64 (z : Z) : Prop := 0 ≤ z ≤ uint64_max.

(** Unsigned and signed 64-bit wrap-around. *)
Definition wrap_uint64 (z : Z) : Z := z `mod` 2 ^ 64.
Definition wrap_int64 (z : Z) : Z := (z + 2 ^ 63) `mod` 2 ^ 64 - 2 ^ 63.

Lemma wrap_uint64_small z : in_uint64 z → wrap_uint64 z = z.
Proof. unfold in_uint64, uint64_max, wrap_uint64. intros. apply Z.mod_small. lia. Qed.

Lemma wrap_uint64_range z : in_uint64 (wrap_uint64 z).
Proof.
  unfold in_uint64, uint64_max, wrap_uint64.
  pose proof (Z.mod_pos_bound z (2 ^ 64)). lia.
Qed.

Lemma wrap_int64_small z : in_int64 z → wrap_int64 z = z.
Proof.
  unfold in_int64, int64_min, int64_max, wrap_int64. intros.
  rewrite Z.mod_small; lia.
Qed.

Lemma wrap_int64_range z : in_int64 (wrap_int64 z).
Proof.
  unfold in_int64, int64_min, int64_max, wrap_int64.
  pose proof (Z.mod_pos_bound (z + 2 ^ 63) (2 ^ 64)). lia.
Qed.

(** ** Tactics of the development *)

(** Split every boolean connective and comparison in the context into its
    propositional reading. *)
Ltac bool_to_prop :=
  repeat match goal with
  | H : andb _ _ = true |- _ => apply andb_true_iff in H as [? ?]
  | H : andb _ _ = false |- _ => apply andb_false_iff in H
  | H : orb _ _ = true |- _ => apply orb_true_iff in H
  | H : orb _ _ = false |- _ => apply orb_false_iff in H as [? ?]
  | H : negb _ = true |- _ => apply negb_true_iff in H
  | H : negb _ = false |- _ => apply negb_false_iff in H
  | H : bool_decide _ = true |- _ => apply bool_decide_eq_true in H
  | H : bool_decide _ = false |- _ => apply bool_decide_eq_false in H
  | H : Z.ltb _ _ = true |- _ => apply Z.ltb_lt in H
  | H : Z.ltb _ _ = false |- _ => apply Z.ltb_ge in H
  | H : Z.leb _ _ = true |- _ => apply Z.leb_le in H
  | H : Z.leb _ _ = false |- _ => apply Z.leb_gt in H
  | H : Z.eqb _ _ = true |- _ => apply Z.eqb_eq in H
  | H : Z.eqb _ _ = false |- _ => apply Z.eqb_neq in H
  | H : String.eqb _ _ = true |- _ => apply String.eqb_eq in H
  | H : String.eqb _ _ = false |- _ => apply String.eqb_neq in H
  end.

(** Case analysis on every [match] of the goal and of the hypotheses, closing
    the contradictory branches. *)
Ltac cases :=
  repeat (case_match; simplify_eq/=; try done).

(** An equation between closed terms, checked by the kernel's virtual machine
    without reading the values back. *)
Ltac by_evaluation :=
  match goal with |- _ = ?b => vm_cast_no_check (@eq_refl _ b) end.

Create HintDb csms.
Create Rewrite HintDb csms.
#[export] Hint Resolve wrap_uint64_range wrap_int64_range : csms.

(** ** Association lists read as maps *)

Lemma option_bind_Some {A B} (f : A → option B) (o : option A) b :
  o ≫= f = Some b → ∃ a, o = Some a ∧ f a = Some b.
Proof. destruct o; naive_solver. Qed.

(** ** Strings *)

Lemma string_app_cons c (s t : string) : String c s +:+ t = String c (s +:+ t).
Proof. done. Qed.

Lemma string_app_nil_l (s : string) : "" +:+ s = s.
Proof. done. Qed.

Lemma string_app_nil_r (s : string) : s +:+ "" = s.
Proof. induction s as [|c s IH]; [done|]. by rewrite string_app_cons, IH. Qed.

Lemma string_app_assoc (a b c : string) : a +:+ (b +:+ c) = (a +:+ b) +:+ c.
Proof. induction a as [|x a IH]; [done|]. by rewrite !string_app_cons, IH. Qed.

Lemma string_length_app (s t : string) :
  String.length (s +:+ t) = (String.length s + String.length t)%nat.
Proof. induction s as [|x s IH]; [done|]. rewrite string_app_cons. cbn. by rewrite IH. Qed.

Lemma string_app_inj_l (p s t : string) : p +:+ s = p +:+ t → s = t.
Proof. apply (inj (String.app p)). Qed.

#[export] Hint Rewrite string_app_cons string_app_nil_l : csms.
