(* ===== verification/GoStd.v ===== *)
(** * What the sources use of the Go language and its standard library

    Times, durations and contexts; [strconv] on decimal integers; the
    functions of [strings]; [fmt.Sprint] on the dynamic values a Redis reply
    carries.  Every definition is executable. *)

From S2P Require Import Prelude.

(** ** [time.Time] and [time.Duration] *)

Module Time.
(** An instant, in nanoseconds since the Unix epoch; a duration is an
    [int64] number of nanoseconds. *)
Definition t : Type := Z.
Definition Duration : Type := Z.

Definition Nanosecond : Duration := 1.
Definition Microsecond : Duration := 1000.
Definition Millisecond : Duration := 1000000.
Definition Second : Duration := 1000000000.
Definition Minute : Duration := 60 * Second.
Definition Hour : Duration := 60 * Minute.

(** The zero [Time] is January 1, year 1, 00:00:00 UTC. *)
Definition zero : t := - 62135596800 * Second.
Definition IsZero (x : t) : bool := x =? zero.
Definition After (x y : t) : bool := y <? x.
Definition Add (x : t) (d : Duration) : t := x + d.

(** [UnixNano] is an [int64]: it wraps outside the years 1678 to 2262. *)
Definition UnixNano (x : t) : Z := wrap_int64 x.
(** [time.Unix(0, n)] *)
Definition Unix0 (n : Z) : t := n.

(** [d.Milliseconds()] truncates toward zero. *)
Definition Milliseconds (d : Duration) : Z := d `quot` Millisecond.
End Time.

(** ** Contexts

    A context is described by the moment it is done and why, or [None] when it
    is never done. *)

Inductive ctx_error : Type := Canceled | DeadlineExceeded.

#[export] Instance ctx_error_eq_dec : EqDecision ctx_error.
Proof. solve_decision. Defined.

Module Ctx.
Definition t : Type := option (Time.t * ctx_error).

Definition Background : t := None.

(** [ctx.Err()] read at time [now]. *)
Definition Err (ctx : t) (now : Time.t) : option ctx_error :=
  match ctx with
  | Some (at_, e) => if at_ <=? now then Some e else None
  | None => None
  end.

(** [context.WithDeadline(parent, d)]: done at whichever comes first. *)
Definition WithDeadline (parent : t) (d : Time.t) : t :=
  match parent with
  | Some (at_, e) => if at_ <=? d then parent else Some (d, DeadlineExceeded)
  | None => Some (d, DeadlineExceeded)
  end.

Lemma Err_WithDeadline parent d now :
  Err (WithDeadline parent d) now = None ↔ Err parent now = None ∧ now < d.
Proof.
  unfold Err, WithDeadline. destruct parent as [[a e]|].
  - destruct (Z.leb_spec a d), (Z.leb_spec a now), (Z.leb_spec d now);
      intuition (try discriminate; lia).
  - destruct (Z.leb_spec d now); intuition (try discriminate; lia).
Qed.
End Ctx.

(** ** [strconv] on base 10 *)

Module Strconv.
Definition digit_char (d : Z) : ascii := ascii_of_nat (48 + Z.to_nat d).
Definition digit_val (c : ascii) : option Z :=
  let n := Z.of_nat (nat_of_ascii c) in
  if (48 <=? n) && (n <=? 57) then Some (n - 48) else None.

#[global] Arguments digit_char : simpl never.
#[global] Arguments digit_val : simpl never.

(** Digits of [n] in front of [acc]; one unit of fuel per digit. *)
Fixpoint digits (fuel : nat) (n : Z) (acc : string) : string :=
  match fuel with
  | O => acc
  | S fuel =>
      let acc' := String (digit_char (n `mod` 10)) acc in
      if n <? 10 then acc' else digits fuel (n / 10) acc'
  end.

Definition FormatUint (n : Z) : string :=
  digits (S (Z.to_nat (Z.log2 n))) n "".
Definition FormatInt (n : Z) : string :=
  if n <? 0 then String "-" (FormatUint (- n)) else FormatUint n.

Fixpoint digits_value (acc : Z) (s : string) : option Z :=
  match s with
  | "" => Some acc
  | String c s =>
      match digit_val c with
      | Some d => digits_value (acc * 10 + d) s
      | None => None
      end
  end.

(** [ParseUint(s, 10, 64)] and [ParseInt(s, 10, 64)]; [None] is any error. *)
Definition ParseUint (s : string) : option Z :=
  if String.eqb s "" then None
  else match digits_value 0 s with
       | Some n => if n <=? uint64_max then Some n else None
       | None => None
       end.

Definition ParseInt (s : string) : option Z :=
  match s with
  | "" => None
  | String c rest =>
      let neg := Ascii.eqb c "-" in
      let body := if neg || Ascii.eqb c "+" then rest else s in
      match ParseUint body with
      | None => None
      | Some un =>
          if neg then (if 2 ^ 63 <? un then None else Some (- un))
          else (if 2 ^ 63 <=? un then None else Some un)
      end
  end.

(** [Atoi] on a 64-bit platform. *)
Definition Atoi (s : string) : option Z := ParseInt s.

Lemma digit_val_char d : 0 ≤ d < 10 → digit_val (digit_char d) = Some d.
Proof.
  intros Hd. assert (d ∈ [0;1;2;3;4;5;6;7;8;9]) as Hin.
  { rewrite !elem_of_cons. lia. }
  clear Hd. repeat (apply elem_of_cons in Hin as [->|Hin]; [done|]).
  by apply elem_of_nil in Hin.
Qed.

Lemma digits_value_digits fuel n acc :
  0 ≤ n < 2 ^ Z.of_nat fuel →
  digits_value 0 (digits fuel n acc) = digits_value n acc.
Proof.
  revert n acc. induction fuel as [|fuel IH]; intros n acc Hn.
  { change (2 ^ Z.of_nat 0) with 1 in Hn. by assert (n = 0) as -> by lia. }
  rewrite Nat2Z.inj_succ, Z.pow_succ_r in Hn by lia. cbn [digits].
  assert (0 ≤ n `mod` 10 < 10) by (apply Z.mod_pos_bound; lia).
  destruct (Z.ltb_spec n 10) as [Hlt|Hge].
  - cbn [digits_value]. rewrite digit_val_char by done.
    rewrite Z.mod_small by lia. f_equal; lia.
  - rewrite IH by (split; [apply Z.div_pos; lia|apply Z.div_lt_upper_bound; lia]).
    cbn [digits_value]. rewrite digit_val_char by done. f_equal.
    pose proof (Z.div_mod n 10). lia.
Qed.

Lemma FormatUint_value n : 0 ≤ n → digits_value 0 (FormatUint n) = Some n.
Proof.
  intros Hn. unfold FormatUint. rewrite digits_value_digits; [done|].
  split; [done|]. rewrite Nat2Z.inj_succ, Z2Nat.id by apply Z.log2_nonneg.
  destruct (decide (n = 0)) as [->|]; [done|]. apply Z.log2_spec. lia.
Qed.

Lemma digits_cons fuel n acc :
  0 ≤ n →
  ∃ d s, 0 ≤ d < 10 ∧ digits (S fuel) n acc = String (digit_char d) s.
Proof.
  revert n acc. induction fuel as [|fuel IH]; intros n acc Hn.
  - cbn [digits]. exists (n `mod` 10), acc. split; [apply Z.mod_pos_bound; lia|].
    by case_match.
  - change (digits (S (S fuel)) n acc) with
      (if n <? 10 then String (digit_char (n `mod` 10)) acc
       else digits (S fuel) (n / 10) (String (digit_char (n `mod` 10)) acc)).
    case_match.
    + eexists _, _. split; [|done]. apply Z.mod_pos_bound; lia.
    + apply IH. apply Z.div_pos; lia.
Qed.

Lemma FormatUint_cons n :
  0 ≤ n → ∃ d s, 0 ≤ d < 10 ∧ FormatUint n = String (digit_char d) s.
Proof. apply digits_cons. Qed.

Lemma FormatUint_nonempty n : 0 ≤ n → FormatUint n ≠ "".
Proof. intros (d & s & _ & ->)%FormatUint_cons. done. Qed.

(** [ParseUint] inverts decimal printing on [uint64]. *)
Lemma ParseUint_FormatUint n : in_uint64 n → ParseUint (FormatUint n) = Some n.
Proof.
  intros [Hlo Hhi]. unfold ParseUint.
  pose proof (FormatUint_nonempty n Hlo) as Hne.
  apply String.eqb_neq in Hne. rewrite Hne, FormatUint_value by done.
  by apply Z.leb_le in Hhi as ->.
Qed.

Lemma digit_char_not_sign d :
  0 ≤ d < 10 → Ascii.eqb (digit_char d) "-" = false ∧ Ascii.eqb (digit_char d) "+" = false.
Proof.
  intros Hd%digit_val_char. split; apply Ascii.eqb_neq; intros E; by rewrite E in Hd.
Qed.

(** [ParseInt] inverts decimal printing on [int64]. *)
Lemma ParseInt_FormatInt n : in_int64 n → ParseInt (FormatInt n) = Some n.
Proof.
  unfold in_int64, int64_min, int64_max, FormatInt. intros Hn.
  destruct (Z.ltb_spec n 0).
  - unfold ParseInt. change (Ascii.eqb "-" "-") with true. cbn [orb].
    rewrite ParseUint_FormatUint; [|unfold in_uint64, uint64_max; lia].
    case_match; bool_to_prop; [lia|]. f_equal; lia.
  - destruct (FormatUint_cons n) as (d & s & Hd & E); [lia|].
    unfold ParseInt. rewrite E.
    destruct (digit_char_not_sign d Hd) as [-> ->]. cbn [orb]. rewrite <- E.
    rewrite ParseUint_FormatUint; [|unfold in_uint64, uint64_max; lia].
    case_match; bool_to_prop; [lia|done].
Qed.

(** A non-negative [int64] reads back the same as signed and as unsigned. *)
Lemma ParseInt_FormatUint n : 0 ≤ n ≤ int64_max → ParseInt (FormatUint n) = Some n.
Proof.
  intros Hn. assert (FormatUint n = FormatInt n) as ->.
  { unfold FormatInt. case_match; bool_to_prop; [lia|done]. }
  apply ParseInt_FormatInt. unfold in_int64, int64_min. lia.
Qed.

Lemma digits_value_nonneg s acc n : 0 ≤ acc → digits_value acc s = Some n → 0 ≤ n.
Proof.
  revert acc. induction s as [|c s IH]; cbn [digits_value]; intros acc Ha H; [by simplify_eq|].
  destruct (digit_val c) as [d|] eqn:Ed; [|done]. eapply IH; [|done].
  unfold digit_val in Ed. case_match; simplify_eq. bool_to_prop. lia.
Qed.

Lemma ParseUint_range s n : ParseUint s = Some n → in_uint64 n.
Proof.
  unfold ParseUint. case_match; [done|].
  destruct (digits_value 0 s) as [m|] eqn:E; [|done].
  case_match; [|done]. intros [= <-]. bool_to_prop.
  split; [by eapply digits_value_nonneg|done].
Qed.

Lemma ParseInt_range s n : ParseInt s = Some n → in_int64 n.
Proof.
  unfold ParseInt. destruct s as [|c s]; [done|].
  destruct (ParseUint _) as [u|] eqn:E; [|done]. apply ParseUint_range in E as [Hlo Hhi].
  unfold in_int64, int64_min, int64_max.
  repeat case_match; intros [= <-]; bool_to_prop; lia.
Qed.

Lemma FormatUint_inj n m : 0 ≤ n → 0 ≤ m → FormatUint n = FormatUint m → n = m.
Proof.
  intros Hn Hm E. apply FormatUint_value in Hn, Hm. rewrite E in Hn. congruence.
Qed.

#[global] Arguments FormatUint : simpl never.
#[global] Arguments FormatInt : simpl never.
#[global] Arguments ParseUint : simpl never.
#[global] Arguments ParseInt : simpl never.
End Strconv.

(** ** [strings] *)

Module Strings.
(** [s] without the leading [p], when it starts with it. *)
Fixpoint strip_prefix (p s : string) : option string :=
  match p, s with
  | "", _ => Some s
  | String a p, String b s => if Ascii.eqb a b then strip_prefix p s else None
  | String _ _, "" => None
  end.

(** [s] without the trailing [p], when it ends with it. *)
Fixpoint strip_suffix (p s : string) : option string :=
  if String.eqb s p then Some ""
  else match s with
       | "" => None
       | String c s => String c <$> strip_suffix p s
       end.

Definition HasPrefix (s p : string) : bool := bool_decide (is_Some (strip_prefix p s)).
Definition HasSuffix (s p : string) : bool := bool_decide (is_Some (strip_suffix p s)).
Definition TrimPrefix (s p : string) : string := default s (strip_prefix p s).
Definition TrimSuffix (s p : string) : string := default s (strip_suffix p s).

Fixpoint Contains (s sub : string) : bool :=
  HasPrefix s sub ||
  match s with "" => false | String _ s => Contains s sub end.

Lemma strip_prefix_spec p s r : strip_prefix p s = Some r ↔ s = (p +:+ r).
Proof.
  revert s. induction p as [|a p IH]; intros s; [split; intros; by simplify_eq/=|].
  destruct s as [|b s]; cbn; [split; intros; by simplify_eq/=|].
  destruct (Ascii.eqb_spec a b) as [->|Hab].
  - rewrite IH, string_app_cons. split; [by intros ->|by intros [= ->]].
  - split; [done|]. rewrite string_app_cons. by intros [= -> _].
Qed.

Lemma app_nil_inv (s r : string) : s = r +:+ s → r = "".
Proof.
  intros E%(f_equal String.length). rewrite string_length_app in E.
  destruct r; [done|cbn in E; lia].
Qed.

Lemma strip_suffix_spec p s r : strip_suffix p s = Some r ↔ s = (r +:+ p).
Proof.
  revert r. induction s as [|c s IH]; intros r.
  - cbn. destruct p; cbn; [split; [by intros [= <-]|]|split; [done|by destruct r]].
    by destruct r.
  - unfold strip_suffix; fold strip_suffix.
    destruct (String.eqb_spec (String c s) p) as [<-|Hne].
    + split; [by intros [= <-]|]. intros E%app_nil_inv. by subst.
    + rewrite fmap_Some. setoid_rewrite IH. split.
      * by intros (r' & -> & ->).
      * destruct r as [|c' r']; [by rewrite string_app_nil_l|].
        rewrite string_app_cons. intros [= <- ->]. eauto.
Qed.

Lemma HasPrefix_true s p : HasPrefix s p = true ↔ ∃ r, s = (p +:+ r).
Proof.
  unfold HasPrefix. rewrite bool_decide_eq_true. unfold is_Some.
  by setoid_rewrite strip_prefix_spec.
Qed.

Lemma HasSuffix_true s p : HasSuffix s p = true ↔ ∃ r, s = (r +:+ p).
Proof.
  unfold HasSuffix. rewrite bool_decide_eq_true. unfold is_Some.
  by setoid_rewrite strip_suffix_spec.
Qed.

Lemma TrimPrefix_app p r : TrimPrefix (p +:+ r) p = r.
Proof. unfold TrimPrefix. by rewrite (proj2 (strip_prefix_spec p _ r) eq_refl). Qed.

Lemma TrimSuffix_app p r : TrimSuffix (r +:+ p) p = r.
Proof. unfold TrimSuffix. by rewrite (proj2 (strip_suffix_spec p _ r) eq_refl). Qed.

Lemma HasPrefix_false s p : HasPrefix s p = false ↔ ∀ r, s ≠ (p +:+ r).
Proof. rewrite <- not_true_iff_false, HasPrefix_true. naive_solver. Qed.

Lemma Contains_true s sub : Contains s sub = true ↔ ∃ a b, s = (a +:+ sub +:+ b).
Proof.
  induction s as [|c s IH]; cbn [Contains]; rewrite orb_true_iff, HasPrefix_true.
  - split; [intros [[r E]|?]; [by exists "", r|done]|].
    intros ([|x a] & b & E); [left; by exists b|by rewrite string_app_cons in E].
  - rewrite IH. split.
    + intros [[r E]|(a & b & ->)]; [by exists "", r|]. by exists (String c a), b.
    + intros ([|x a] & b & E); [left; by exists b|].
      right. exists a, b. rewrite string_app_cons in E. by injection E.
Qed.

Lemma TrimSuffix_absent s p : strip_suffix p s = None → TrimSuffix s p = s.
Proof. unfold TrimSuffix. by intros ->. Qed.

(** Two ways to split the same string. *)
Lemma app_split a b x y :
  a +:+ b = x +:+ y →
  (∃ u, y = u +:+ b ∧ a = x +:+ u) ∨ (∃ u, b = u +:+ y ∧ x = a +:+ u).
Proof.
  revert x. induction a as [|c a IH]; intros [|d x] E.
  - left. by exists "".
  - right. by exists (String d x).
  - left. exists (String c a). by rewrite string_app_nil_l in E.
  - rewrite !string_app_cons in E. injection E as -> E.
    destruct (IH x E) as [(u & -> & ->)|(u & -> & ->)]; [left|right]; by exists u.
Qed.
End Strings.

(** ** Dynamic values ([any]) as they come out of a Redis reply *)

Inductive go_any : Type :=
  | ANil
  | AInt (n : Z)
  | AString (s : string).

(** [fmt.Sprint] of one such value; a nil interface prints as ["<nil>"]. *)
Definition Sprint (v : go_any) : string :=
  match v with
  | ANil => "<nil>"
  | AInt n => Strconv.FormatInt n
  | AString s => s
  end.
