(* ===== verification/Redis.v ===== *)
(** * The Redis service and its Go client, as an interface

    Redis and go-redis are not part of the repository.  The commands the
    sources issue are the fields of the class [Redis]; what the sources rely on
    is the class [RedisLaws], one law per command, each stating the documented
    effect of the command on the key it addresses.  The keyspace is observed
    through [look], which gives the live entry of a key at a server time (in
    milliseconds).  [RefRedis] is a concrete server that satisfies every law,
    on which the witnesses evaluate. *)

From S2P Require Import Prelude GoStd.

(** ** Values and replies *)

Inductive rvalue : Type :=
  | RString (s : string)
  | RHash (h : gmap string string)
  | RList (l : list string).

Record entry : Type := Entry {
  e_value : rvalue;
  e_deadline : option Z  (** absolute expiry, in server milliseconds *)
}.

Inductive redis_error : Type :=
  | WRONGTYPE       (** command on a key of another type *)
  | NotAnInteger    (** INCR of a string that is not a 64-bit integer *)
  | WouldOverflow.  (** INCR past the largest 64-bit integer *)

Abbreviation reply A := (result redis_error A).

(** ** The documented effect of each command on the entry of its key

    Every function maps the live entry of the key (or [None]) to the entry
    after the command and the reply. *)

Definition write A : Type := option entry → option entry * reply A.

Definition incr_effect : write Z := λ o,
  match o with
  | None => (Some (Entry (RString "1") None), Ok 1)
  | Some (Entry (RString s) dl) =>
      match Strconv.ParseInt s with
      | None => (o, Err NotAnInteger)
      | Some n =>
          if n =? int64_max then (o, Err WouldOverflow)
          else (Some (Entry (RString (Strconv.FormatInt (n + 1))) dl), Ok (n + 1))
      end
  | Some _ => (o, Err WRONGTYPE)
  end.

Definition hset_fields (fvs : list (string * string)) (h : gmap string string) :
    gmap string string :=
  fold_left (λ h fv, <[fv.1 := fv.2]> h) fvs h.

Definition hset_effect (fvs : list (string * string)) : write unit := λ o,
  match o with
  | None => (Some (Entry (RHash (hset_fields fvs ∅)) None), Ok tt)
  | Some (Entry (RHash h) dl) => (Some (Entry (RHash (hset_fields fvs h)) dl), Ok tt)
  | Some _ => (o, Err WRONGTYPE)
  end.

(** A non-positive time to live deletes the key. *)
Definition pexpire_effect (t ms : Z) : write Z := λ o,
  match o with
  | None => (None, Ok 0)
  | Some e =>
      if ms <=? 0 then (None, Ok 1)
      else (Some (Entry (e_value e) (Some (t + ms))), Ok 1)
  end.

Definition del_effect : write Z := λ o,
  match o with None => (None, Ok 0) | Some _ => (None, Ok 1) end.

(** [SET key value] with a time to live replaces whatever was there. *)
Definition set_effect (t ms : Z) (v : string) : write unit := λ _,
  (Some (Entry (RString v) (Some (t + ms))), Ok tt).

Definition lpush_effect (v : string) : write Z := λ o,
  match o with
  | None => (Some (Entry (RList [v]) None), Ok 1)
  | Some (Entry (RList l) dl) =>
      (Some (Entry (RList (v :: l)) dl), Ok (Z.of_nat (S (length l))))
  | Some _ => (o, Err WRONGTYPE)
  end.

(** An emptied list is removed with its key. *)
Definition rpop_effect : write (option string) := λ o,
  match o with
  | None => (None, Ok None)
  | Some (Entry (RList l) dl) =>
      match reverse l with
      | [] => (None, Ok None)
      | v :: rest =>
          (match rest with [] => None | _ => Some (Entry (RList (reverse rest)) dl) end,
           Ok (Some v))
      end
  | Some _ => (o, Err WRONGTYPE)
  end.

Definition hget_reply (f : string) (o : option entry) : reply (option string) :=
  match o with
  | None => Ok None
  | Some (Entry (RHash h) _) => Ok (h !! f)
  | Some _ => Err WRONGTYPE
  end.

Definition get_reply (o : option entry) : reply (option string) :=
  match o with
  | None => Ok None
  | Some (Entry (RString s) _) => Ok (Some s)
  | Some _ => Err WRONGTYPE
  end.

Definition pttl_reply (t : Z) (o : option entry) : Z :=
  match o with
  | None => -2
  | Some (Entry _ None) => -1
  | Some (Entry _ (Some d)) => d - t
  end.

(** ** The server *)

(** The commands the sources use.  The first argument is the server time in
    milliseconds at which the command executes. *)
Class Redis : Type := {
  rstate : Type;
  EXISTS : Z → string → rstate → Z;
  PTTL : Z → string → rstate → Z;
  HGET : Z → string → string → rstate → reply (option string);
  GET : Z → string → rstate → reply (option string);
  INCR : Z → string → rstate → rstate * reply Z;
  HSET : Z → string → list (string * string) → rstate → rstate * reply unit;
  PEXPIRE : Z → string → Z → rstate → rstate * reply Z;
  DEL : Z → string → rstate → rstate * reply Z;
  SETEX : Z → string → string → Time.Duration → rstate → rstate * reply unit;
  LPUSH : Z → string → string → rstate → rstate * reply Z;
  EXPIRE : Z → string → Time.Duration → rstate → rstate * reply Z;
  RPOP : Z → string → rstate → rstate * reply (option string);
}.

(** What is live of an entry at a later time, for a given expiry test. *)
Definition keep_live (expired : Z → Z → bool) (t : Z) (o : option entry) : option entry :=
  match o with
  | Some (Entry v (Some d)) => if expired d t then None else o
  | _ => o
  end.

(** A write command acts on one key as its effect says and leaves the others. *)
Definition acts {R : Redis} (look : rstate → Z → string → option entry)
    {A} (f : rstate → rstate * reply A) (t : Z) (k : string) (eff : write A) : Prop :=
  ∀ s, ∃ s',
    f s = (s', (eff (look s t k)).2) ∧
    look s' t k = (eff (look s t k)).1 ∧
    ∀ k', k' ≠ k → look s' t k' = look s t k'.

(** Documented behaviour.  The instant at which a key with deadline [d] stops
    being visible is only known up to the millisecond [d] itself; a Go duration
    given as a time to live is rounded to the resolution of the command, exactly
    when it is a whole number of seconds. *)
Class RedisLaws (R : Redis) : Type := {
  look : rstate → Z → string → option entry;
  expired : Z → Z → bool;
  set_ms : Time.Duration → Z;
  expire_ms : Time.Duration → Z;
  expired_after d t : d < t → expired d t = true;
  expired_before d t : t < d → expired d t = false;
  set_ms_pos d : 0 < d → 0 < set_ms d;
  expire_ms_pos d : 0 < d → 0 < expire_ms d;
  set_ms_seconds n : 0 < n → set_ms (n * Time.Second) = n * 1000;
  expire_ms_seconds n : 0 < n → expire_ms (n * Time.Second) = n * 1000;
  look_live s t k v d : look s t k = Some (Entry v (Some d)) → expired d t = false;
  look_later s t t' k : t ≤ t' → look s t' k = keep_live expired t' (look s t k);
  EXISTS_law t k s : EXISTS t k s = match look s t k with Some _ => 1 | None => 0 end;
  PTTL_law t k s : PTTL t k s = pttl_reply t (look s t k);
  HGET_law t k f s : HGET t k f s = hget_reply f (look s t k);
  GET_law t k s : GET t k s = get_reply (look s t k);
  INCR_law t k : acts look (INCR t k) t k incr_effect;
  HSET_law t k fvs : acts look (HSET t k fvs) t k (hset_effect fvs);
  PEXPIRE_law t k ms : acts look (PEXPIRE t k ms) t k (pexpire_effect t ms);
  DEL_law t k : acts look (DEL t k) t k del_effect;
  SETEX_law t k v d : 0 < d → acts look (SETEX t k v d) t k (set_effect t (set_ms d) v);
  LPUSH_law t k v : acts look (LPUSH t k v) t k (lpush_effect v);
  EXPIRE_law t k d : acts look (EXPIRE t k d) t k (pexpire_effect t (expire_ms d));
  RPOP_law t k : acts look (RPOP t k) t k rpop_effect;
}.

(** ** A concrete server satisfying the laws *)

Module RefRedis.
(** Expired entries stay in the map and are not visible. *)
Definition past (d t : Z) : bool := d <? t.
Definition live (m : gmap string entry) (t : Z) (k : string) : option entry :=
  keep_live past t (m !! k).

Definition exec {A} (eff : write A) (t : Z) (k : string) (m : gmap string entry) :
    gmap string entry * reply A :=
  let '(o, r) := eff (live m t k) in
  (match o with Some e => <[k := e]> m | None => delete k m end, r).

Definition px (d : Time.Duration) : Z := Z.max 1 (d / Time.Millisecond).
Definition ex (d : Time.Duration) : Z := Z.max 1 (d / Time.Second) * 1000.

#[export] Instance server : Redis := {|
  rstate := gmap string entry;
  EXISTS t k m := match live m t k with Some _ => 1 | None => 0 end;
  PTTL t k m := pttl_reply t (live m t k);
  HGET t k f m := hget_reply f (live m t k);
  GET t k m := get_reply (live m t k);
  INCR t k := exec incr_effect t k;
  HSET t k fvs := exec (hset_effect fvs) t k;
  PEXPIRE t k ms := exec (pexpire_effect t ms) t k;
  DEL t k := exec del_effect t k;
  SETEX t k v d := exec (set_effect t (px d) v) t k;
  LPUSH t k v := exec (lpush_effect v) t k;
  EXPIRE t k d := exec (pexpire_effect t (ex d)) t k;
  RPOP t k := exec rpop_effect t k;
|}.

(** An effect that only produces entries live at its own time. *)
Definition stays_live {A} (eff : write A) (t : Z) : Prop :=
  ∀ o, keep_live past t o = o → keep_live past t (eff o).1 = (eff o).1.

Lemma keep_live_idem t o : keep_live past t (keep_live past t o) = keep_live past t o.
Proof. destruct o as [[v [d|]]|]; cbn; [|done..]. destruct (past d t) eqn:E; cbn; by rewrite ?E. Qed.

Lemma exec_acts {A} (eff : write A) t k :
  stays_live eff t → acts live (exec eff t k) t k eff.
Proof.
  intros Hlive m. unfold exec. destruct (eff (live m t k)) as [o r] eqn:E. cbn.
  eexists. split; [done|].
  pose proof (Hlive (live m t k) (keep_live_idem _ _)) as Ho. rewrite E in Ho. cbn in Ho.
  split.
  - unfold live. destruct o; [by rewrite lookup_insert_eq|by rewrite lookup_delete_eq].
  - intros k' Hk. unfold live.
    destruct o; [by rewrite lookup_insert_ne|by rewrite lookup_delete_ne].
Qed.

Lemma past_plus t ms : 0 < ms → past (t + ms) t = false.
Proof. intros. apply Z.ltb_ge. lia. Qed.

Lemma pexpire_stays_live t ms : stays_live (pexpire_effect t ms) t.
Proof.
  intros [e|] He; [|done]. unfold pexpire_effect. case_match; [done|]. bool_to_prop.
  cbn. by rewrite past_plus.
Qed.

Lemma rpop_stays_live t : stays_live rpop_effect t.
Proof.
  intros [[[s|h|l] dl]|] He; try done. unfold rpop_effect.
  destruct (reverse l) as [|v [|w rest]]; [done..|]. cbn.
  destruct dl as [d|]; [|done]. cbn in He. by destruct (past d t).
Qed.

(** Effects that keep the deadline, or set none. *)
Lemma incr_stays_live t : stays_live incr_effect t.
Proof.
  intros [[[s|h|l] dl]|] He; try done. unfold incr_effect. repeat case_match; try done.
  cbn in *. destruct dl as [d|]; [|done]. by destruct (past d t).
Qed.

Lemma hset_stays_live t fvs : stays_live (hset_effect fvs) t.
Proof. intros [[[s|h|l] [d|]]|] He; try done. cbn in *. by destruct (past d t). Qed.

Lemma lpush_stays_live t v : stays_live (lpush_effect v) t.
Proof. intros [[[s|h|l] [d|]]|] He; try done. cbn in *. by destruct (past d t). Qed.

Lemma set_stays_live t ms v : 0 < ms → stays_live (set_effect t ms v) t.
Proof. intros Hms o _. cbn. by rewrite past_plus. Qed.

Lemma live_not_past (m : gmap string entry) t k v d :
  live m t k = Some (Entry v (Some d)) → past d t = false.
Proof.
  unfold live. destruct (m !! k) as [[v' [d'|]]|]; cbn; intros Hl; simplify_eq.
  destruct (past d' t) eqn:E; naive_solver.
Qed.

Lemma live_later (m : gmap string entry) t t' k :
  t ≤ t' → live m t' k = keep_live past t' (live m t k).
Proof.
  intros Ht. unfold live. destruct (m !! k) as [[v [d|]]|]; cbn; [|done..].
  destruct (past d t) eqn:E; cbn; [|done].
  assert (past d t' = true) as ->; [|done]. apply Z.ltb_lt in E. apply Z.ltb_lt. lia.
Qed.

#[export] Program Instance laws : RedisLaws server := {|
  look m t k := live m t k;
  expired := past;
  set_ms := px;
  expire_ms := ex;
|}.
Next Obligation. intros d t Hd. by apply Z.ltb_lt. Qed.
Next Obligation. intros d t Hd. apply Z.ltb_ge. lia. Qed.
Next Obligation. intros d _. unfold px. lia. Qed.
Next Obligation. intros d _. unfold ex. lia. Qed.
Next Obligation.
  intros n Hn. unfold px, Time.Second, Time.Millisecond.
  replace (n * 1000000000) with ((n * 1000) * 1000000) by lia.
  rewrite Z.div_mul by done. lia.
Qed.
Next Obligation.
  intros n Hn. unfold ex, Time.Second. rewrite Z.div_mul by done. lia.
Qed.
Next Obligation. exact live_not_past. Qed.
Next Obligation. exact live_later. Qed.
Next Obligation. done. Qed.
Next Obligation. done. Qed.
Next Obligation. done. Qed.
Next Obligation. done. Qed.
Next Obligation. intros t k. apply exec_acts, incr_stays_live. Qed.
Next Obligation. intros t k fvs. apply exec_acts, hset_stays_live. Qed.
Next Obligation. intros t k ms. apply exec_acts, pexpire_stays_live. Qed.
Next Obligation. intros t k. apply exec_acts. by intros [e|]. Qed.
Next Obligation. intros t k v d Hd. apply exec_acts, set_stays_live. unfold px. lia. Qed.
Next Obligation. intros t k v. apply exec_acts, lpush_stays_live. Qed.
Next Obligation. intros t k d. apply exec_acts, pexpire_stays_live. Qed.
Next Obligation. intros t k. apply exec_acts, rpop_stays_live. Qed.
End RefRedis.

(** ** Lua scripts

    A script is a sequence of commands that run at one server time; an error in
    one of them aborts the script and keeps the earlier effects. *)

(** An integer reply becomes a Lua number, a double: exact up to 2^53, rounded
    to the nearest multiple of a power of two (ties to even) beyond. *)
Definition lua_number (n : Z) : Z :=
  if Z.abs n <=? 2 ^ 53 then n
  else
    let q := 2 ^ (Z.log2 (Z.abs n) - 52) in
    let lo := n / q in
    let r := n - lo * q in
    (if (2 * r <? q) || ((2 * r =? q) && Z.even lo) then lo else lo + 1) * q.

Lemma lua_number_exact n : 0 ≤ n ≤ 2 ^ 53 → lua_number n = n.
Proof. intros. unfold lua_number. case_match; bool_to_prop; lia. Qed.

Section scripts.
Context {R : Redis}.
Abbreviation script := (M rstate redis_error).

Definition exists_ (t : Z) (k : string) : script Z := gets (EXISTS t k).
Definition pttl (t : Z) (k : string) : script Z := gets (PTTL t k).
Definition hget (t : Z) (k f : string) : script (option string) := λ s, (s, HGET t k f s).
Definition incr (t : Z) (k : string) : script Z := INCR t k.
Definition hset (t : Z) (k : string) (fvs : list (string * string)) : script unit :=
  HSET t k fvs.
Definition pexpire (t : Z) (k : string) (ms : Z) : script Z := PEXPIRE t k ms.
Definition del (t : Z) (k : string) : script Z := DEL t k.
End scripts.

(** ** The client

    A command is sent one or several times: the client resends a command whose
    reply was lost, so the server may have executed it at the times [lost]
    before the attempt whose outcome the caller sees. *)

Inductive outcome : Type :=
  | Replied                     (** the reply of the last attempt arrived *)
  | NotSent (e : ctx_error)     (** the last attempt never reached the server *)
  | ReplyLost (e : ctx_error)   (** it was executed but its reply never arrived *)
  | Unreachable.                (** connection failure before reaching the server *)

Record delivery : Type := Delivery {
  lost : list Z;
  at_ms : Z;
  seen : outcome
}.

Inductive client_error : Type :=
  | Server (e : redis_error)
  | Context (e : ctx_error)
  | Network.

Section client.
Context {R : Redis}.

(** Executions whose reply the caller never sees. *)
Definition replay {A} (m : Z → M rstate redis_error A) (ts : list Z) (s : rstate) : rstate :=
  fold_left (λ s t, (m t s).1) ts s.

Definition call {A} (d : delivery) (m : Z → M rstate redis_error A) :
    M rstate client_error A := λ s,
  let s := replay m (lost d) s in
  match seen d with
  | Replied =>
      match m (at_ms d) s with
      | (s', Ok a) => (s', Ok a)
      | (s', Err e) => (s', Err (Server e))
      end
  | NotSent e => (s, Err (Context e))
  | ReplyLost e => ((m (at_ms d) s).1, Err (Context e))
  | Unreachable => (s, Err Network)
  end.

(** A command delivered once, at once, with its reply. *)
Definition clean (t : Z) : delivery := Delivery [] t Replied.

Lemma call_clean {A} t (m : Z → M rstate redis_error A) s s' a :
  m t s = (s', Ok a) → call (clean t) m s = (s', Ok a).
Proof. unfold call. cbn. by intros ->. Qed.

(** [MULTI]/[EXEC]: every queued command executes; the first error is reported. *)
Fixpoint exec_tx (cmds : list (M rstate redis_error unit)) : M rstate redis_error unit :=
  match cmds with
  | [] => mret tt
  | c :: cmds => λ s,
      let '(s1, r1) := c s in
      let '(s2, r2) := exec_tx cmds s1 in
      (s2, match r1 with Err e => Err e | Ok _ => r2 end)
  end.

(** Times of the attempts, in order, from [t] up to [t']. *)
Fixpoint chain (t : Z) (ts : list Z) (t' : Z) : Prop :=
  match ts with
  | [] => t ≤ t'
  | x :: ts => t ≤ x ∧ chain x ts t'
  end.

Lemma chain_le t ts t' : chain t ts t' → t ≤ t'.
Proof. revert t. induction ts as [|x ts IH]; cbn; [done|]. intros t [? ?%IH]. lia. Qed.

Lemma chain_snoc t ts t' : chain t ts t' → chain t (ts ++ [t']) t'.
Proof.
  revert t. induction ts as [|x ts IH]; cbn; intros t H; [split; lia|].
  destruct H. split; [done|by apply IH].
Qed.

(** A property that survives the passing of time and one execution survives
    any number of executions. *)
Lemma replay_inv {A} (m : Z → M rstate redis_error A) (P : rstate → Z → Prop) :
  (∀ s t t', t ≤ t' → P s t → P s t') →
  (∀ s t, P s t → P (m t s).1 t) →
  ∀ ts s t t', chain t ts t' → P s t → P (replay m ts s) t'.
Proof.
  intros Hlater Hstep ts. induction ts as [|x ts IH]; cbn; intros s t t' Hc HP.
  - by apply (Hlater s t).
  - destruct Hc as [Hx Hc]. apply (IH _ x); [done|]. apply Hstep. by apply (Hlater s t).
Qed.

(** The server state after a call is that of the executions that took place. *)
Lemma call_replay {A} d (m : Z → M rstate redis_error A) s t :
  chain t (lost d) (at_ms d) →
  ∃ ts, (call d m s).1 = replay m ts s ∧ chain t ts (at_ms d) ∧
        (length ts ≤ S (length (lost d)))%nat.
Proof.
  intros Hc.
  assert ((m (at_ms d) (replay m (lost d) s)).1 = replay m (lost d ++ [at_ms d]) s) as E.
  { unfold replay. by rewrite fold_left_app. }
  assert (length (lost d ++ [at_ms d]) = S (length (lost d))) by (rewrite length_app; cbn; lia).
  unfold call. destruct (seen d).
  - exists (lost d ++ [at_ms d]). rewrite <- E.
    destruct (m (at_ms d) (replay m (lost d) s)) as [s' [a|e]];
      split_and!; [done|by apply chain_snoc|lia|done|by apply chain_snoc|lia].
  - exists (lost d). split_and!; [done|done|lia].
  - exists (lost d ++ [at_ms d]). rewrite <- E. split_and!; [done|by apply chain_snoc|lia].
  - exists (lost d). split_and!; [done|done|lia].
Qed.

(** A reply the caller sees comes from the last attempt. *)
Lemma call_ok {A} d (m : Z → M rstate redis_error A) s s' a :
  call d m s = (s', Ok a) →
  m (at_ms d) (replay m (lost d) s) = (s', Ok a).
Proof.
  unfold call. destruct (seen d); try done.
  destruct (m (at_ms d) (replay m (lost d) s)) as [s1 [b|e]]; naive_solver.
Qed.

(** Calls made of reads leave the server as it was. *)
Lemma replay_reads {A} (m : Z → M rstate redis_error A) ts s :
  (∀ t s, (m t s).1 = s) → replay m ts s = s.
Proof.
  intros Hm. revert s. induction ts as [|x ts IH]; intros s; cbn; [done|].
  rewrite Hm. apply IH.
Qed.

Lemma call_reads {A} d (m : Z → M rstate redis_error A) s :
  (∀ t s, (m t s).1 = s) → (call d m s).1 = s.
Proof.
  intros Hm. unfold call. rewrite replay_reads by done. specialize (Hm (at_ms d) s).
  destruct (seen d); [|done..]. by destruct (m (at_ms d) s) as [? [?|?]].
Qed.
End client.
