(* ===== verification/Lease.v ===== *)
(** * Session leases: the [sessionregistry] package

    [Lease] and the errors of registry.go, the [Registry] interface as a class,
    and the contract a registry promises to its clients: fenced, exclusive
    leases.  The clients (Ownership.v, Cluster.v) are proved against the
    contract; MemoryRegistry.v and RedisRegistry.v discharge it. *)

From S2P Require Import Prelude GoStd Redis.

Record Lease : Type := mkLease {
  StationIdentity : string;
  OwnerID : string;
  Generation : Z;       (** uint64 *)
  ExpiresAt : Time.t
}.

#[export] Instance Lease_eq_dec : EqDecision Lease.
Proof. solve_decision. Defined.

(** [Lease{}], what the code returns beside an error. *)
Definition noLease : Lease := mkLease "" "" 0 Time.zero.

(** The lease with a new expiry. *)
Definition set_expires (l : Lease) (at_ : Time.t) : Lease :=
  mkLease (StationIdentity l) (OwnerID l) (Generation l) at_.

(** The owner and the fencing generation: what identifies a claim. *)
Definition fence (l : Lease) : string * Z := (OwnerID l, Generation l).

Inductive error : Type :=
  | ErrOwnershipConflict (owner : string) (generation : Z)
  | ErrLeaseLost
  | ErrNotFound
  | ErrContext (e : ctx_error)
  | ErrArgument (message : string)
  | ErrRedis (doing : string) (e : client_error)
  | ErrReply (message : string).

(** ** The [Registry] interface

    An operation runs in an environment (its context, the clock it reads, the
    fate of its network calls) against the state of the registry. *)
Class Registry (Env S : Type) : Type := {
  Claim : Env → string → string → Time.Duration → S → S * (Lease * option error);
  Renew : Env → Lease → Time.Duration → S → S * (Lease * option error);
  Release : Env → Lease → S → S * option error;
  Lookup : Env → string → S → S * (Lease * option error);
}.

(** ** What a registry promises

    [holder s t id] is the owner and generation of the live lease of [id] at
    time [t]; [issued s t] is the last generation handed out.  [room e s t] says
    that the generation counter cannot be exhausted by the operation. *)
Class RegistryContract (Env S : Type) `{!Registry Env S} : Type := {
  wf : S → Z → Prop;
  issued : S → Z → Z;
  holder : S → Z → string → option (string * Z);
  clock : Env → Z;
  within : Z → Env → Prop;
  room : Env → S → Z → Prop;
  servable : string → Prop;

  within_clock t e : within t e → t ≤ clock e;
  wf_later s t t' : t ≤ t' → wf s t → wf s t';
  issued_later s t t' : t ≤ t' → wf s t → issued s t' = issued s t;
  holder_later s t t' id x : t ≤ t' → holder s t' id = Some x → holder s t id = Some x;

  (** A successful claim carries a generation larger than any issued before,
      happened while nobody held the station, and evicts nobody. *)
  claim_ok e id o ttl s s' l t :
    wf s t → within t e → room e s t → servable id →
    Claim e id o ttl s = (s', (l, None)) →
    wf s' (clock e) ∧ StationIdentity l = id ∧ OwnerID l = o ∧
    issued s t < Generation l ∧ Generation l = issued s' (clock e) ∧
    holder s (clock e) id = None ∧
    (Time.Millisecond ≤ ttl → holder s' (clock e) id = Some (o, Generation l)) ∧
    (∀ x, holder s' (clock e) id = Some x → x = (o, Generation l)) ∧
    (∀ id' x, holder s (clock e) id' = Some x → holder s' (clock e) id' = Some x);
  (** A failed claim never lowers the counter and evicts nobody. *)
  claim_err e id o ttl s s' l err t :
    wf s t → within t e → room e s t → servable id →
    Claim e id o ttl s = (s', (l, Some err)) →
    wf s' (clock e) ∧ issued s t ≤ issued s' (clock e) ∧
    (∀ id' x, holder s (clock e) id' = Some x → holder s' (clock e) id' = Some x);

  (** Whoever holds a station after a claim held it before, or is the claimant with
      a generation that had not been issued. *)
  claim_fresh e id o ttl s s' r t id' x :
    wf s t → within t e → room e s t → servable id →
    Claim e id o ttl s = (s', r) → holder s' (clock e) id' = Some x →
    holder s (clock e) id' = Some x ∨ (id' = id ∧ x.1 = o ∧ issued s t < x.2);

  (** Renewal keeps the fence and succeeds only for the lease on record. *)
  renew_ok e l ttl s s' l' t :
    wf s t → within t e → servable (StationIdentity l) → 0 ≤ Generation l →
    Renew e l ttl s = (s', (l', None)) →
    wf s' (clock e) ∧ issued s' (clock e) = issued s t ∧
    StationIdentity l' = StationIdentity l ∧ fence l' = fence l ∧
    holder s t (StationIdentity l) = Some (fence l) ∧
    (Time.Millisecond ≤ ttl → holder s' (clock e) (StationIdentity l) = Some (fence l));
  renew_err e l ttl s s' l' err t :
    wf s t → within t e → servable (StationIdentity l) → 0 ≤ Generation l →
    Renew e l ttl s = (s', (l', Some err)) →
    wf s' (clock e) ∧ issued s' (clock e) = issued s t;
  (** Renewal touches no other station. *)
  renew_others e l ttl s s' r t id :
    wf s t → within t e → servable (StationIdentity l) → 0 ≤ Generation l →
    id ≠ StationIdentity l →
    Renew e l ttl s = (s', r) → holder s' (clock e) id = holder s (clock e) id;

  (** Neither renewal nor release makes a new holder. *)
  renew_no_new e l ttl s s' r t id x :
    wf s t → within t e → servable (StationIdentity l) → 0 ≤ Generation l →
    Renew e l ttl s = (s', r) → holder s' (clock e) id = Some x → holder s t id = Some x;
  release_no_new e l s s' r t id x :
    wf s t → within t e → servable (StationIdentity l) → 0 ≤ Generation l →
    Release e l s = (s', r) → holder s' (clock e) id = Some x → holder s t id = Some x;

  (** Release removes at most the caller's own lease. *)
  release_own e l s s' r t :
    wf s t → within t e → servable (StationIdentity l) → 0 ≤ Generation l →
    Release e l s = (s', r) →
    wf s' (clock e) ∧ issued s' (clock e) = issued s t ∧
    (r = None → holder s' (clock e) (StationIdentity l) = None) ∧
    (∀ id x, holder s (clock e) id = Some x →
       holder s' (clock e) id = Some x ∨ (id = StationIdentity l ∧ x = fence l));

  (** Lookup reports the live holder and changes nothing visible. *)
  lookup_any e id s s' r t :
    wf s t → within t e → Lookup e id s = (s', r) →
    wf s' (clock e) ∧ issued s' (clock e) = issued s t ∧
    (∀ id', holder s' (clock e) id' = holder s (clock e) id');
  lookup_ok e id s s' l t :
    wf s t → within t e → servable id → Lookup e id s = (s', (l, None)) →
    StationIdentity l = id ∧ holder s t id = Some (fence l);
}.

(** The stricter promise that a refused renewal evicts no other owner. *)
Class StrictRenewal (Env S : Type) `{C : RegistryContract Env S} : Prop :=
  renew_refused e l ttl s s' l' err t :
    wf s t → within t e → servable (StationIdentity l) → 0 ≤ Generation l →
    Renew e l ttl s = (s', (l', Some err)) →
    ∀ id x, holder s (clock e) id = Some x → (id = StationIdentity l → x ≠ fence l) →
      holder s' (clock e) id = Some x.
