(* ===== verification/MemoryRegistry.v ===== *)
(** * The in-memory registry (sessionregistry/memory.go) *)

From S2P Require Import Prelude GoStd Redis Lease.

Module Memory.
(** [type Memory struct]; the mutex makes every operation atomic and [now] is
    read from the environment of the operation. *)
Record t : Type := mkMemory {
  generation : Z;              (** uint64 *)
  leases : gmap string Lease
}.

Record env : Type := Env { ctx : Ctx.t; now : Time.t }.

Definition NewMemory : t := mkMemory 0 ∅.

Definition validate (e : env) (stationIdentity ownerID : string) (ttl : Time.Duration) :
    option error :=
  match Ctx.Err (ctx e) (now e) with
  | Some err => Some (ErrContext err)
  | None =>
      if String.eqb stationIdentity "" || String.eqb ownerID "" then
        Some (ErrArgument "station identity and owner ID are required")
      else if ttl <=? 0 then Some (ErrArgument "lease TTL must be positive")
      else None
  end.

(** [current.ExpiresAt.After(now)] for the lease on record. *)
Definition live (l : Lease) (at_ : Time.t) : bool := Time.After (ExpiresAt l) at_.

Definition Claim (e : env) (stationIdentity ownerID : string) (ttl : Time.Duration)
    (registry : t) : t * (Lease * option error) :=
  match validate e stationIdentity ownerID ttl with
  | Some err => (registry, (noLease, Some err))
  | None =>
      let grant :=
        let generation' := wrap_uint64 (generation registry + 1) in
        let lease := mkLease stationIdentity ownerID generation' (Time.Add (now e) ttl) in
        (mkMemory generation' (<[stationIdentity := lease]> (leases registry)), (lease, None)) in
      match leases registry !! stationIdentity with
      | Some current =>
          if live current (now e) then
            (registry,
             (current, Some (ErrOwnershipConflict (OwnerID current) (Generation current))))
          else grant
      | None => grant
      end
  end.

Definition Renew (e : env) (lease : Lease) (ttl : Time.Duration) (registry : t) :
    t * (Lease * option error) :=
  match validate e (StationIdentity lease) (OwnerID lease) ttl with
  | Some err => (registry, (noLease, Some err))
  | None =>
      let lost :=
        (mkMemory (generation registry) (delete (StationIdentity lease) (leases registry)),
         (noLease, Some ErrLeaseLost)) in
      match leases registry !! StationIdentity lease with
      | None => lost
      | Some current =>
          if negb (live current (now e)) || negb (String.eqb (OwnerID current) (OwnerID lease))
             || negb (Generation current =? Generation lease)
          then lost
          else
            let current := set_expires current (Time.Add (now e) ttl) in
            (mkMemory (generation registry)
               (<[StationIdentity lease := current]> (leases registry)), (current, None))
      end
  end.

Definition Release (e : env) (lease : Lease) (registry : t) : t * option error :=
  match Ctx.Err (ctx e) (now e) with
  | Some err => (registry, Some (ErrContext err))
  | None =>
      match leases registry !! StationIdentity lease with
      | None => (registry, None)
      | Some current =>
          if negb (String.eqb (OwnerID current) (OwnerID lease))
             || negb (Generation current =? Generation lease)
          then (registry, Some ErrLeaseLost)
          else (mkMemory (generation registry)
                  (delete (StationIdentity lease) (leases registry)), None)
      end
  end.

Definition Lookup (e : env) (stationIdentity : string) (registry : t) :
    t * (Lease * option error) :=
  match Ctx.Err (ctx e) (now e) with
  | Some err => (registry, (noLease, Some (ErrContext err)))
  | None =>
      if String.eqb stationIdentity "" then
        (registry, (noLease, Some (ErrArgument "station identity is required")))
      else
        let gone :=
          (mkMemory (generation registry) (delete stationIdentity (leases registry)),
           (noLease, Some ErrNotFound)) in
        match leases registry !! stationIdentity with
        | None => gone
        | Some lease => if live lease (now e) then (registry, (lease, None)) else gone
        end
  end.

#[export] Instance registry : Registry env t := {|
  Lease.Claim := Claim; Lease.Renew := Renew;
  Lease.Release := Release; Lease.Lookup := Lookup
|}.

(** ** Invariant and observations *)

(** Every stored lease is filed under its own station and carries a generation
    that was issued. *)
Record wf (s : t) : Prop := mkWf {
  wf_generation : in_uint64 (generation s);
  wf_identity id l : leases s !! id = Some l → StationIdentity l = id;
  wf_issued id l : leases s !! id = Some l → 0 < Generation l ≤ generation s
}.

Definition holder (s : t) (at_ : Z) (id : string) : option (string * Z) :=
  match leases s !! id with
  | Some l => if live l at_ then Some (fence l) else None
  | None => None
  end.

Lemma wf_NewMemory : wf NewMemory.
Proof. split; cbn; [by split|by intros ?? ?%lookup_empty_Some..]. Qed.

Lemma wf_insert s g id l :
  wf s → generation s ≤ g ≤ uint64_max → StationIdentity l = id → 0 < Generation l ≤ g →
  wf (mkMemory g (<[id := l]> (leases s))).
Proof.
  intros [[Hlo Hhi] Hid Hiss] Hg Hl Hgen. split; cbn; [split; lia|..].
  - intros id' l' [[<- <-]|[_ ?]]%lookup_insert_Some; eauto.
  - intros id' l' [[<- <-]|[_ Hl']]%lookup_insert_Some; [done|].
    apply Hiss in Hl'. lia.
Qed.

Lemma wf_delete s id : wf s → wf (mkMemory (generation s) (delete id (leases s))).
Proof.
  intros [Hg Hid Hiss]. split; cbn; [done|..];
    intros id' l' [_ ?]%lookup_delete_Some; eauto.
Qed.

Lemma wf_pos s : wf s → 0 ≤ generation s.
Proof. by intros [[??] _ _]. Qed.

Lemma memory_holder_later s t1 t2 id x :
  t1 ≤ t2 → holder s t2 id = Some x → holder s t1 id = Some x.
Proof.
  unfold holder, live, Time.After. intros Ht. destruct (leases s !! id) as [l|]; [|done].
  destruct (Z.ltb_spec t2 (ExpiresAt l)); [|done].
  intros Hx. by destruct (Z.ltb_spec t1 (ExpiresAt l)); [|lia].
Qed.

Lemma holder_live s at_ id l :
  leases s !! id = Some l → live l at_ = true → holder s at_ id = Some (fence l).
Proof. unfold holder. by intros -> ->. Qed.

Lemma holder_dead s at_ id l :
  leases s !! id = Some l → live l at_ = false → holder s at_ id = None.
Proof. unfold holder. by intros -> ->. Qed.

Lemma holder_absent s at_ id : leases s !! id = None → holder s at_ id = None.
Proof. unfold holder. by intros ->. Qed.

Lemma holder_insert_eq g m at_ id l :
  live l at_ = true → holder (mkMemory g (<[id := l]> m)) at_ id = Some (fence l).
Proof. intros Hl. by apply holder_live; [apply lookup_insert_eq|]. Qed.

Lemma holder_insert_ne g m at_ id id' l :
  id ≠ id' →
  holder (mkMemory g (<[id := l]> m)) at_ id' = holder (mkMemory g m) at_ id'.
Proof. intros Hne. unfold holder. cbn. by rewrite lookup_insert_ne. Qed.

Lemma holder_delete_eq g m at_ id : holder (mkMemory g (delete id m)) at_ id = None.
Proof. apply holder_absent, lookup_delete_eq. Qed.

Lemma holder_delete_ne g m at_ id id' :
  id ≠ id' →
  holder (mkMemory g (delete id m)) at_ id' = holder (mkMemory g m) at_ id'.
Proof. intros Hne. unfold holder. cbn. by rewrite lookup_delete_ne. Qed.

(** Only the map matters for who holds what. *)
Lemma holder_generation g m at_ id :
  holder (mkMemory g m) at_ id = holder (mkMemory 0 m) at_ id.
Proof. done. Qed.

Lemma live_added e ttl o g id :
  0 < ttl → live (mkLease id o g (Time.Add (now e) ttl)) (now e) = true.
Proof. intros. unfold live, Time.After, Time.Add. cbn. apply Z.ltb_lt. lia. Qed.

Lemma validate_ttl e id o ttl : validate e id o ttl = None → 0 < ttl.
Proof.
  unfold validate. destruct (Ctx.Err _ _); [done|]. repeat case_match; try done.
  intros _. by bool_to_prop.
Qed.

(** ** The operations, branch by branch *)

(** What [Claim] does once the arguments are valid. *)
Lemma Claim_cases e id o ttl s :
  validate e id o ttl = None →
  (∃ l, leases s !! id = Some l ∧ live l (now e) = true ∧
     Claim e id o ttl s = (s, (l, Some (ErrOwnershipConflict (OwnerID l) (Generation l))))) ∨
  (holder s (now e) id = None ∧
     let g := wrap_uint64 (generation s + 1) in
     let l := mkLease id o g (Time.Add (now e) ttl) in
     Claim e id o ttl s = (mkMemory g (<[id := l]> (leases s)), (l, None))).
Proof.
  intros Hv. unfold Claim. rewrite Hv.
  destruct (leases s !! id) as [l|] eqn:El; [destruct (live l (now e)) eqn:Elive|].
  - left. eauto.
  - right. split; [by eapply holder_dead|done].
  - right. split; [by apply holder_absent|done].
Qed.

Lemma Renew_cases e l ttl s :
  validate e (StationIdentity l) (OwnerID l) ttl = None →
  (∃ c, leases s !! StationIdentity l = Some c ∧ live c (now e) = true ∧ fence c = fence l ∧
     let c' := set_expires c (Time.Add (now e) ttl) in
     Renew e l ttl s =
       (mkMemory (generation s) (<[StationIdentity l := c']> (leases s)), (c', None))) ∨
  (holder s (now e) (StationIdentity l) ≠ Some (fence l) ∧
     Renew e l ttl s =
       (mkMemory (generation s) (delete (StationIdentity l) (leases s)),
        (noLease, Some ErrLeaseLost))).
Proof.
  intros Hv. unfold Renew. rewrite Hv.
  destruct (leases s !! StationIdentity l) as [c|] eqn:Ec; last first.
  { right. by rewrite (holder_absent _ _ _ Ec). }
  destruct (live c (now e)) eqn:Elive; cbn; last first.
  { right. by rewrite (holder_dead _ _ _ _ Ec Elive). }
  rewrite (holder_live _ _ _ _ Ec Elive). unfold fence.
  destruct (String.eqb_spec (OwnerID c) (OwnerID l)) as [Ho|Ho]; cbn.
  - destruct (Z.eqb_spec (Generation c) (Generation l)) as [Hg|Hg]; cbn.
    + left. exists c. rewrite Ho, Hg. done.
    + right. split; [by intros [=]|done].
  - right. split; [by intros [=]|done].
Qed.

(** ** The contract *)

Definition room (e : env) (s : t) (_ : Z) : Prop := generation s < uint64_max.

Lemma memory_Claim_ok e id o ttl s s' l t0 :
  wf s → t0 ≤ now e → room e s t0 →
  Claim e id o ttl s = (s', (l, None)) →
  wf s' ∧ StationIdentity l = id ∧ OwnerID l = o ∧
  generation s < Generation l ∧ Generation l = generation s' ∧
  holder s (now e) id = None ∧
  holder s' (now e) id = Some (o, Generation l) ∧
  (∀ id' x, holder s (now e) id' = Some x → holder s' (now e) id' = Some x).
Proof.
  intros Hwf Ht Hroom Hc. pose proof (wf_pos _ Hwf).
  destruct (validate e id o ttl) eqn:Hv; [unfold Claim in Hc; by rewrite Hv in Hc|].
  pose proof (validate_ttl _ _ _ _ Hv) as Httl.
  destruct (Claim_cases e id o ttl s Hv) as [(c & _ & _ & E)|[Hnone E]];
    rewrite E in Hc; simplify_eq. unfold room in Hroom.
  rewrite wrap_uint64_small by (unfold in_uint64, uint64_max in *; lia). cbn [Generation].
  split_and!; try done; try (cbn; lia).
  - apply wf_insert; [done|lia|done|cbn; lia].
  - by rewrite holder_insert_eq by (by apply live_added).
  - intros id' x Hx. destruct (decide (id = id')) as [->|Hne]; [congruence|].
    by rewrite holder_insert_ne.
Qed.

Lemma Claim_err e id o ttl s s' l err :
  wf s → Claim e id o ttl s = (s', (l, Some err)) → s' = s.
Proof.
  intros Hwf Hc. destruct (validate e id o ttl) eqn:Hv.
  { unfold Claim in Hc. rewrite Hv in Hc. by simplify_eq. }
  destruct (Claim_cases e id o ttl s Hv) as [(c & _ & _ & E)|[_ E]];
    rewrite E in Hc; by simplify_eq.
Qed.

Lemma memory_Renew_ok e l ttl s s' l' t0 :
  wf s → t0 ≤ now e →
  Renew e l ttl s = (s', (l', None)) →
  wf s' ∧ generation s' = generation s ∧
  StationIdentity l' = StationIdentity l ∧ fence l' = fence l ∧
  holder s t0 (StationIdentity l) = Some (fence l) ∧
  holder s' (now e) (StationIdentity l) = Some (fence l).
Proof.
  intros Hwf Ht Hr.
  destruct (validate e (StationIdentity l) (OwnerID l) ttl) eqn:Hv;
    [unfold Renew in Hr; by rewrite Hv in Hr|].
  pose proof (validate_ttl _ _ _ _ Hv) as Httl.
  destruct (Renew_cases e l ttl s Hv) as [(c & Hc & Hlive & Hf & E)|[_ E]];
    rewrite E in Hr; [injection Hr as <- <-|done].
  pose proof (wf_identity s Hwf _ _ Hc) as Hid.
  pose proof (wf_issued s Hwf _ _ Hc) as Hg.
  split_and!; try done.
  - apply wf_insert; [done|pose proof (wf_generation s Hwf) as [??]; lia|done|done].
  - apply (memory_holder_later _ t0 (now e)); [done|]. rewrite <- Hf. by apply holder_live.
  - rewrite holder_insert_eq; [by rewrite <- Hf|]. by apply live_added.
Qed.

(** A refused renewal keeps the counter; it may remove the station's lease. *)
Lemma Renew_err e l ttl s s' l' err :
  wf s → Renew e l ttl s = (s', (l', Some err)) →
  wf s' ∧ generation s' = generation s.
Proof.
  intros Hwf Hr.
  destruct (validate e (StationIdentity l) (OwnerID l) ttl) eqn:Hv.
  { unfold Renew in Hr. rewrite Hv in Hr. by simplify_eq. }
  destruct (Renew_cases e l ttl s Hv) as [(c & Hc & Hlive & Hf & E)|[_ E]];
    rewrite E in Hr; simplify_eq. split; [by apply wf_delete|done].
Qed.

Lemma Renew_others e l ttl s s' r id :
  id ≠ StationIdentity l →
  Renew e l ttl s = (s', r) → holder s' (now e) id = holder s (now e) id.
Proof.
  intros Hid Hr.
  destruct (validate e (StationIdentity l) (OwnerID l) ttl) eqn:Hv.
  { unfold Renew in Hr. rewrite Hv in Hr. by simplify_eq. }
  destruct (Renew_cases e l ttl s Hv) as [(c & Hc & Hlive & Hf & E)|[_ E]];
    rewrite E in Hr; simplify_eq;
    [by rewrite holder_insert_ne by done|by rewrite holder_delete_ne by done].
Qed.

Lemma Release_own e l s s' r :
  wf s → Release e l s = (s', r) →
  wf s' ∧ generation s' = generation s ∧
  (r = None → holder s' (now e) (StationIdentity l) = None) ∧
  (∀ id x, holder s (now e) id = Some x →
     holder s' (now e) id = Some x ∨ (id = StationIdentity l ∧ x = fence l)).
Proof.
  intros Hwf. unfold Release. destruct (Ctx.Err _ _).
  { intros. simplify_eq. naive_solver. }
  destruct (leases s !! StationIdentity l) as [c|] eqn:Ec; last first.
  { intros. simplify_eq. split_and!; eauto using holder_absent. }
  destruct (String.eqb_spec (OwnerID c) (OwnerID l)) as [Ho|Ho]; cbn;
    [destruct (Z.eqb_spec (Generation c) (Generation l)) as [Hg|Hg]; cbn|];
    intros ?; simplify_eq; [|naive_solver..].
  split_and!; [by apply wf_delete|done|intros _; apply holder_delete_eq|].
  intros id x Hx. destruct (decide (StationIdentity l = id)) as [<-|Hne].
  - right. split; [done|]. unfold holder in Hx. rewrite Ec in Hx.
    destruct (live c (now e)); [|done]. injection Hx as <-. unfold fence. congruence.
  - left. by rewrite holder_delete_ne.
Qed.

Lemma Claim_fresh e id o ttl s s' r t0 id' x :
  wf s → t0 ≤ now e → room e s t0 →
  Claim e id o ttl s = (s', r) → holder s' (now e) id' = Some x →
  holder s (now e) id' = Some x ∨ (id' = id ∧ x.1 = o ∧ generation s < x.2).
Proof.
  intros Hwf Ht Hroom Hc Hx. destruct r as [l [err|]].
  { apply Claim_err in Hc as ->; [by left|done]. }
  destruct (memory_Claim_ok _ _ _ _ _ _ _ _ Hwf Ht Hroom Hc) as (_&_&_&?&_&_&Hh&_).
  destruct (decide (id' = id)) as [->|Hne].
  - right. split; [done|]. rewrite Hh in Hx. by injection Hx as <-.
  - left. rewrite <- Hx. unfold Claim in Hc. repeat case_match; simplify_eq;
      by rewrite holder_insert_ne by done.
Qed.

(** Deleting or extending the lease of one station makes no new holder. *)
Lemma Renew_no_new e l ttl s s' r t0 id x :
  wf s → t0 ≤ now e → Renew e l ttl s = (s', r) →
  holder s' (now e) id = Some x → holder s t0 id = Some x.
Proof.
  intros Hwf Ht Hr Hx. destruct (decide (id = StationIdentity l)) as [->|Hne].
  - destruct r as [l' [err|]].
    + apply (memory_holder_later _ t0 (now e)); [done|]. rewrite <- Hx. unfold Renew in Hr.
      destruct (validate _ _ _ _); [by simplify_eq|].
      repeat case_match; simplify_eq; by rewrite holder_delete_eq in Hx.
    + destruct (memory_Renew_ok _ _ _ _ _ _ _ Hwf Ht Hr) as (_&_&_&_&?&?). congruence.
  - rewrite (Renew_others _ _ _ _ _ _ _ Hne Hr) in Hx.
    by apply (memory_holder_later _ t0 (now e)).
Qed.

Lemma Release_no_new e l s s' r t0 id x :
  t0 ≤ now e → Release e l s = (s', r) →
  holder s' (now e) id = Some x → holder s t0 id = Some x.
Proof.
  intros Ht Hr Hx. apply (memory_holder_later _ t0 (now e)); [done|]. rewrite <- Hx.
  unfold Release in Hr. repeat case_match; simplify_eq; try done.
  destruct (decide (id = StationIdentity l)) as [->|Hne];
    [by rewrite holder_delete_eq in Hx|by rewrite holder_delete_ne].
Qed.

Lemma Lookup_any e id s s' r :
  wf s → Lookup e id s = (s', r) →
  wf s' ∧ generation s' = generation s ∧
  (∀ id', holder s' (now e) id' = holder s (now e) id').
Proof.
  intros Hwf. unfold Lookup. destruct (Ctx.Err _ _); [intros; by simplify_eq|].
  destruct (String.eqb id ""); [intros; by simplify_eq|].
  assert (∀ id', holder s (now e) id = None →
    holder (mkMemory (generation s) (delete id (leases s))) (now e) id'
    = holder s (now e) id') as Hdel.
  { intros id' Hn. destruct (decide (id = id')) as [<-|Hne];
      [by rewrite holder_delete_eq|by rewrite holder_delete_ne]. }
  destruct (leases s !! id) as [l|] eqn:El; [destruct (live l (now e)) eqn:Elive|];
    intros ?; simplify_eq; [by eauto|..];
    (split_and!; [by apply wf_delete|done|intros id'; apply Hdel]).
  - by eapply holder_dead.
  - by apply holder_absent.
Qed.

Lemma memory_Lookup_ok e id s s' l t0 :
  wf s → t0 ≤ now e → Lookup e id s = (s', (l, None)) →
  StationIdentity l = id ∧ holder s t0 id = Some (fence l).
Proof.
  intros Hwf Ht. unfold Lookup. destruct (Ctx.Err _ _); [done|].
  destruct (String.eqb id ""); [done|].
  destruct (leases s !! id) as [c|] eqn:Ec; [|done].
  destruct (live c (now e)) eqn:Elive; [|done]. intros ?; simplify_eq.
  split; [by eapply wf_identity|].
  apply (memory_holder_later _ t0 (now e)); [done|by apply holder_live].
Qed.

#[export] Program Instance contract : RegistryContract env t := {|
  Lease.wf s _ := wf s;
  Lease.issued s _ := generation s;
  Lease.holder := holder;
  Lease.clock := now;
  Lease.within t0 e := t0 ≤ now e;
  Lease.room := room;
  Lease.servable _ := True;
|}.
Next Obligation. done. Qed.
Next Obligation. done. Qed.
Next Obligation. done. Qed.
Next Obligation. intros. by eapply memory_holder_later. Qed.
Next Obligation.
  intros e id o ttl s s' l t0 Hwf Hin Hroom _ Hc.
  destruct (memory_Claim_ok _ _ _ _ _ _ _ _ Hwf Hin Hroom Hc) as (?&?&?&?&?&?&?&?).
  cbn. split_and!; eauto. congruence.
Qed.
Next Obligation.
  intros e id o ttl s s' l err t0 Hwf Hin Hroom _ Hc.
  apply Claim_err in Hc as ->; [|exact Hwf]. cbn. split_and!; eauto. lia.
Qed.
Next Obligation.
  intros e id o ttl s s' r t0 id' x Hwf Hin Hroom _ Hc Hx.
  exact (Claim_fresh _ _ _ _ _ _ _ _ _ _ Hwf Hin Hroom Hc Hx).
Qed.
Next Obligation.
  intros e l ttl s s' l' t0 Hwf Hin _ _ Hr.
  destruct (memory_Renew_ok _ _ _ _ _ _ _ Hwf Hin Hr) as (?&?&?&?&?&?).
  cbn. split_and!; eauto.
Qed.
Next Obligation. intros; eapply Renew_err; eassumption. Qed.
Next Obligation. intros; eapply Renew_others; eassumption. Qed.
Next Obligation.
  intros e l ttl s s' r t0 id x Hwf Hin _ _ Hr Hx.
  exact (Renew_no_new _ _ _ _ _ _ _ _ _ Hwf Hin Hr Hx).
Qed.
Next Obligation.
  intros e l s s' r t0 id x _ Hin _ _ Hr Hx.
  exact (Release_no_new _ _ _ _ _ _ _ _ Hin Hr Hx).
Qed.
Next Obligation. intros; eapply Release_own; eassumption. Qed.
Next Obligation. intros; eapply Lookup_any; eassumption. Qed.
Next Obligation.
  intros e id s s1 l t0 Hwf Hin _ Hl. exact (memory_Lookup_ok _ _ _ _ _ _ Hwf Hin Hl).
Qed.
End Memory.
