(* ===== verification/RedisRegistry.v ===== *)
(** * The Redis registry (sessionregistry/redisstore/registry.go)

    The Lua scripts are sequences of Redis commands that run at one server time;
    an error in one of them aborts the script and keeps the earlier effects. *)

From S2P Require Import Prelude GoStd Redis Lease.

Module RedisStore.
Section store.
Context {R : Redis}.

(** ** Keys *)

Definition leaseKey (prefix identity : string) : string :=
  prefix +:+ ":session:" +:+ identity.
Definition generationKey (prefix : string) : string :=
  prefix +:+ ":session:generation".

(** ** Scripts *)

Abbreviation script := (M rstate redis_error).

(** A missing hash field is [false] in Lua and a nil in the reply. *)
Definition of_field (o : option string) : go_any :=
  match o with Some v => AString v | None => ANil end.

Definition claimScript (KEYS1 KEYS2 ARGV1 : string) (ARGV2 : Z) (t : Z) :
    script (list go_any) :=
  present ← exists_ t KEYS1;
  if present =? 1 then
    owner ← hget t KEYS1 "owner";
    generation ← hget t KEYS1 "generation";
    remaining ← pttl t KEYS1;
    mret [AInt 0; of_field owner; of_field generation; AInt remaining]
  else
    generation ← incr t KEYS2;
    let generation := lua_number generation in
    hset t KEYS1 [("owner", ARGV1); ("generation", Strconv.FormatInt generation)];;
    pexpire t KEYS1 ARGV2;;
    mret [AInt 1; AString ARGV1; AInt generation; AInt (lua_number ARGV2)].

(** [HGET k f ~= v] *)
Definition differs (o : option string) (v : string) : bool :=
  match o with Some w => negb (String.eqb w v) | None => true end.

(** The guard the renew and release scripts share. *)
Definition notOwner (KEYS1 ARGV1 ARGV2 : string) (t : Z) : script bool :=
  owner ← hget t KEYS1 "owner";
  if differs owner ARGV1 then mret true
  else generation ← hget t KEYS1 "generation"; mret (differs generation ARGV2).

Definition renewScript (KEYS1 ARGV1 ARGV2 : string) (ARGV3 : Z) (t : Z) : script Z :=
  stale ← notOwner KEYS1 ARGV1 ARGV2 t;
  if stale : bool then mret 0
  else pexpire t KEYS1 ARGV3;; mret 1.

Definition releaseScript (KEYS1 ARGV1 ARGV2 : string) (t : Z) : script Z :=
  stale ← notOwner KEYS1 ARGV1 ARGV2 t;
  if stale : bool then mret 0 else del t KEYS1.

(** ** Replies *)

Definition parseClaimResult (reply_ : list go_any) :
    result error (bool * string * Z * Time.Duration) :=
  match reply_ with
  | [r0; r1; r2; r3] =>
      match Strconv.ParseInt (Sprint r0) with
      | None => Err (ErrReply "parse Redis claim status")
      | Some status =>
          match Strconv.ParseUint (Sprint r2) with
          | None => Err (ErrReply "parse Redis claim generation")
          | Some generation =>
              match Strconv.ParseInt (Sprint r3) with
              | None => Err (ErrReply "parse Redis claim TTL")
              | Some milliseconds =>
                  Ok (status =? 1, Sprint r1, generation,
                      wrap_int64 (milliseconds * Time.Millisecond))
              end
          end
      end
  | _ => Err (ErrReply "invalid Redis claim result")
  end.

(** ** The operations *)

(** [New]: the client it was given (nil or not) and the key prefix. *)
Definition New {client : Type} (c : option client) (prefix : string) :
    result error (client * string) :=
  match c with
  | None => Err (ErrArgument "redis client is nil")
  | Some c => Ok (c, if String.eqb prefix "" then "csms" else prefix)
  end.

(** [now] is the runtime's clock, read once the reply has arrived; [send] and
    [send2] are the fates of the first and, for a lookup, the second call. *)
Record env : Type := Env { now : Time.t; send : delivery; send2 : delivery }.

Definition Claim (prefix : string) (e : env) (stationIdentity ownerID : string)
    (ttl : Time.Duration) (s : rstate) : rstate * (Lease * option error) :=
  if String.eqb stationIdentity "" || String.eqb ownerID "" || (ttl <=? 0) then
    (s, (noLease,
         Some (ErrArgument "station identity, owner ID and positive TTL are required")))
  else
    match call (send e) (claimScript (leaseKey prefix stationIdentity) (generationKey prefix)
                           ownerID (Time.Milliseconds ttl)) s with
    | (s', Err err) => (s', (noLease, Some (ErrRedis "claim redis session lease" err)))
    | (s', Ok result) =>
        match parseClaimResult result with
        | Err err => (s', (noLease, Some err))
        | Ok (claimed, owner, generation, remaining) =>
            let lease := mkLease stationIdentity owner generation (Time.Add (now e) remaining) in
            (s', (lease,
                  if claimed then None else Some (ErrOwnershipConflict owner generation)))
        end
    end.

Definition Renew (prefix : string) (e : env) (lease : Lease) (ttl : Time.Duration)
    (s : rstate) : rstate * (Lease * option error) :=
  if ttl <=? 0 then (s, (noLease, Some (ErrArgument "lease TTL must be positive")))
  else
    match call (send e) (renewScript (leaseKey prefix (StationIdentity lease)) (OwnerID lease)
                           (Strconv.FormatUint (Generation lease)) (Time.Milliseconds ttl)) s with
    | (s', Err err) => (s', (noLease, Some (ErrRedis "renew redis session lease" err)))
    | (s', Ok result) =>
        if negb (result =? 1) then (s', (noLease, Some ErrLeaseLost))
        else (s', (set_expires lease (Time.Add (now e) ttl), None))
    end.

Definition Release (prefix : string) (e : env) (lease : Lease) (s : rstate) :
    rstate * option error :=
  match call (send e) (releaseScript (leaseKey prefix (StationIdentity lease)) (OwnerID lease)
                         (Strconv.FormatUint (Generation lease))) s with
  | (s', Err err) => (s', Some (ErrRedis "release redis session lease" err))
  | (s', Ok result) => (s', if negb (result =? 1) then Some ErrLeaseLost else None)
  end.

(** [HMGET key owner generation]. *)
Definition hmget (k : string) (t : Z) : script (option string * option string) :=
  owner ← hget t k "owner"; generation ← hget t k "generation"; mret (owner, generation).

(** The client returns a non-negative PTTL as that many milliseconds, and the
    markers -1 and -2 as nanoseconds. *)
Definition pttl_duration (n : Z) : Time.Duration :=
  if (n =? -1) || (n =? -2) then n else wrap_int64 (n * Time.Millisecond).

(** The tail of [Lookup], once both replies are in. *)
Definition lookupLease (stationIdentity : string) (at_ : Time.t)
    (values : option string * option string) (remaining : Time.Duration) :
    Lease * option error :=
  match values with
  | (Some owner, Some generation) =>
      if remaining <=? 0 then (noLease, Some ErrNotFound)
      else match Strconv.ParseUint generation with
           | None => (noLease, Some (ErrReply "parse redis session generation"))
           | Some generation =>
               (mkLease stationIdentity owner generation (Time.Add at_ remaining), None)
           end
  | _ => (noLease, Some ErrNotFound)
  end.

Definition Lookup (prefix : string) (e : env) (stationIdentity : string) (s : rstate) :
    rstate * (Lease * option error) :=
  match call (send e) (hmget (leaseKey prefix stationIdentity)) s with
  | (s', Err err) => (s', (noLease, Some (ErrRedis "lookup redis session lease" err)))
  | (s', Ok values) =>
      match call (send2 e) (λ t, pttl t (leaseKey prefix stationIdentity)) s' with
      | (s'', Err err) => (s'', (noLease, Some (ErrRedis "lookup redis session TTL" err)))
      | (s'', Ok n) => (s'', lookupLease stationIdentity (now e) values (pttl_duration n))
      end
  end.
End store.

(** ** Invariant and observations *)

Section laws.
Context {R : Redis} `{L : !RedisLaws R} (prefix : string).

Lemma leaseKey_inj a b : leaseKey prefix a = leaseKey prefix b → a = b.
Proof. unfold leaseKey. intros E%string_app_inj_l. by injection E. Qed.

Lemma leaseKey_generation id : leaseKey prefix id = generationKey prefix ↔ id = "generation".
Proof.
  split; [|by intros ->]. intros E. by apply leaseKey_inj.
Qed.

(** The counter read from the entry of the generation key. *)
Definition counter_of (o : option entry) : Z :=
  match o with
  | Some (Entry (RString x) _) => default 0 (Strconv.ParseInt x)
  | _ => 0
  end.
Definition issued (s : rstate) (t : Z) : Z := counter_of (look s t (generationKey prefix)).

(** The owner and generation read from the entry of a lease key. *)
Definition fields_of (o : option entry) : option (string * Z) :=
  match o with
  | Some (Entry (RHash h) _) =>
      match h !! "owner", h !! "generation" with
      | Some owner, Some g =>
          match Strconv.ParseUint g with Some n => Some (owner, n) | None => None end
      | _, _ => None
      end
  | _ => None
  end.
Definition holder (s : rstate) (t : Z) (id : string) : option (string * Z) :=
  fields_of (look s t (leaseKey prefix id)).

Definition counter_entry (n : Z) : entry := Entry (RString (Strconv.FormatInt n)) None.
Definition lease_hash (o : string) (g : Z) : gmap string string :=
  hset_fields [("owner", o); ("generation", Strconv.FormatInt g)] ∅.

(** A lease key holds a complete hash with a deadline, or nothing. *)
Definition lease_ok (top : Z) (o : option entry) : Prop :=
  o = None ∨
  ∃ own g d, o = Some (Entry (RHash (lease_hash own g)) (Some d)) ∧ 1 ≤ g ≤ top.
Definition counter_ok (o : option entry) : Prop :=
  o = None ∨ ∃ n, 1 ≤ n ≤ 2 ^ 53 ∧ o = Some (counter_entry n).

Record wf (s : rstate) (t : Z) : Prop := mkWf {
  wf_counter : counter_ok (look s t (generationKey prefix));
  wf_lease id : id ≠ "generation" → lease_ok (issued s t) (look s t (leaseKey prefix id))
}.

(** *** Entries over time *)

Lemma look_None_later s t t' k : t ≤ t' → look s t k = None → look s t' k = None.
Proof. intros Ht E. by rewrite (look_later _ _ _ _ Ht), E. Qed.

Lemma look_Some_earlier s t t' k e : t ≤ t' → look s t' k = Some e → look s t k = Some e.
Proof.
  intros Ht. rewrite (look_later _ _ _ _ Ht).
  destruct (look s t k) as [[v [d|]]|]; cbn; [case_match|..]; naive_solver.
Qed.

Lemma look_permanent s t t' k v :
  t ≤ t' → look s t k = Some (Entry v None) → look s t' k = Some (Entry v None).
Proof. intros Ht E. by rewrite (look_later _ _ _ _ Ht), E. Qed.

Lemma look_later_cases s t t' k :
  t ≤ t' → look s t' k = None ∨ look s t' k = look s t k.
Proof.
  intros Ht. rewrite (look_later _ _ _ _ Ht).
  destruct (look s t k) as [[v [d|]]|]; cbn; [case_match|..]; eauto.
Qed.

Lemma counter_entry_value n : 1 ≤ n ≤ 2 ^ 53 → counter_of (Some (counter_entry n)) = n.
Proof.
  intros Hn. cbn. rewrite Strconv.ParseInt_FormatInt; [done|].
  unfold in_int64, int64_min, int64_max. lia.
Qed.

Lemma counter_ok_value o : counter_ok o → 0 ≤ counter_of o ≤ 2 ^ 53.
Proof. intros [->|(n & Hn & ->)]; [cbn; lia|]. rewrite counter_entry_value; lia. Qed.

Lemma issued_range s t : wf s t → 0 ≤ issued s t ≤ 2 ^ 53.
Proof. intros [Hc _]. by apply counter_ok_value. Qed.

Lemma issued_later s t t' : t ≤ t' → wf s t → issued s t' = issued s t.
Proof.
  intros Ht [[E|(n & Hn & E)] _]; unfold issued.
  - by rewrite E, (look_None_later _ _ _ _ Ht E).
  - by rewrite E, (look_permanent _ _ _ _ _ Ht E).
Qed.

Lemma wf_later s t t' : t ≤ t' → wf s t → wf s t'.
Proof.
  intros Ht Hwf. pose proof (issued_later _ _ _ Ht Hwf) as Hi. destruct Hwf as [Hc Hl].
  split.
  - destruct (look_later_cases s t t' (generationKey prefix) Ht) as [->| ->];
      [by left|done].
  - intros id Hid. rewrite Hi.
    destruct (look_later_cases s t t' (leaseKey prefix id) Ht) as [->| ->];
      [by left|by apply Hl].
Qed.

Lemma holder_later s t t' id x : t ≤ t' → holder s t' id = Some x → holder s t id = Some x.
Proof.
  intros Ht. unfold holder.
  by destruct (look_later_cases s t t' (leaseKey prefix id) Ht) as [->| ->].
Qed.

(** *** The lease hash *)

Lemma lease_hash_owner o g : lease_hash o g !! "owner" = Some o.
Proof. done. Qed.
Lemma lease_hash_generation o g : lease_hash o g !! "generation" = Some (Strconv.FormatInt g).
Proof. done. Qed.

Lemma FormatInt_Uint g : 0 ≤ g → Strconv.FormatInt g = Strconv.FormatUint g.
Proof. intros. unfold Strconv.FormatInt. case_match; bool_to_prop; [lia|done]. Qed.

Lemma ParseUint_generation g :
  1 ≤ g ≤ 2 ^ 53 → Strconv.ParseUint (Strconv.FormatInt g) = Some g.
Proof.
  intros Hg. rewrite FormatInt_Uint by lia. apply Strconv.ParseUint_FormatUint.
  unfold in_uint64, uint64_max. lia.
Qed.

Lemma fields_of_lease o g dl :
  1 ≤ g ≤ 2 ^ 53 → fields_of (Some (Entry (RHash (lease_hash o g)) dl)) = Some (o, g).
Proof.
  intros Hg. unfold fields_of. rewrite lease_hash_owner, lease_hash_generation.
  by rewrite ParseUint_generation.
Qed.

(** A station is held exactly when its key is live. *)
Lemma wf_holder s t id :
  wf s t → id ≠ "generation" →
  (look s t (leaseKey prefix id) = None ∧ holder s t id = None) ∨
  ∃ o g d, look s t (leaseKey prefix id) = Some (Entry (RHash (lease_hash o g)) (Some d)) ∧
           1 ≤ g ≤ issued s t ∧ holder s t id = Some (o, g).
Proof.
  intros Hwf Hid. pose proof (issued_range _ _ Hwf).
  destruct (wf_lease _ _ Hwf id Hid) as [E|(o & g & d & E & Hg)].
  - left. unfold holder. by rewrite E.
  - right. exists o, g, d. unfold holder. rewrite E, fields_of_lease; [done|lia].
Qed.

(** *** One execution of each script *)

Lemma incr_run s t :
  wf s t → issued s t < 2 ^ 53 →
  ∃ s', INCR t (generationKey prefix) s = (s', Ok (issued s t + 1)) ∧
    look s' t (generationKey prefix) = Some (counter_entry (issued s t + 1)) ∧
    ∀ k, k ≠ generationKey prefix → look s' t k = look s t k.
Proof.
  intros [Hc _] Hlt. destruct (INCR_law t (generationKey prefix) s) as (s' & E & El & Eo).
  exists s'. rewrite E, El. unfold issued in *. destruct Hc as [->|(n & Hn & ->)]; [done|].
  rewrite counter_entry_value in * by done. unfold counter_entry at 1 3. cbn.
  rewrite Strconv.ParseInt_FormatInt by (unfold in_int64, int64_min, int64_max; lia).
  case_match; bool_to_prop; [unfold int64_max in *; lia|done].
Qed.

(** The state after a granted claim. *)
Definition granted (s s' : rstate) (t : Z) (id o : string) (ms : Z) : Prop :=
  look s' t (generationKey prefix) = Some (counter_entry (issued s t + 1)) ∧
  look s' t (leaseKey prefix id) =
    (if ms <=? 0 then None
     else Some (Entry (RHash (lease_hash o (issued s t + 1))) (Some (t + ms)))) ∧
  ∀ k, k ≠ generationKey prefix → k ≠ leaseKey prefix id → look s' t k = look s t k.

Lemma claim_run_free s t id o ms :
  wf s t → id ≠ "generation" → issued s t < 2 ^ 53 →
  look s t (leaseKey prefix id) = None →
  ∃ s', claimScript (leaseKey prefix id) (generationKey prefix) o ms t s =
          (s', Ok [AInt 1; AString o; AInt (issued s t + 1); AInt (lua_number ms)]) ∧
        granted s s' t id o ms.
Proof.
  intros Hwf Hid Hlt Hfree. pose proof (issued_range _ _ Hwf) as Hr.
  assert (leaseKey prefix id ≠ generationKey prefix) as Hk by (by rewrite leaseKey_generation).
  destruct (incr_run s t Hwf Hlt) as (s1 & E1 & G1 & O1).
  destruct (HSET_law t (leaseKey prefix id)
    [("owner", o); ("generation", Strconv.FormatInt (issued s t + 1))] s1) as (s2 & E2 & G2 & O2).
  rewrite (O1 _ Hk), Hfree in E2, G2. cbn in E2, G2.
  destruct (PEXPIRE_law t (leaseKey prefix id) ms s2) as (s3 & E3 & G3 & O3).
  rewrite G2 in E3, G3. cbn in E3, G3.
  exists s3. split.
  - unfold claimScript, mbind, M_bind, exists_, gets, incr, hset, pexpire, mret, M_ret.
    rewrite EXISTS_law, Hfree. cbn. rewrite E1, lua_number_exact by lia. rewrite E2, E3.
    by case_match.
  - split_and!.
    + by rewrite O3, O2 by done.
    + rewrite G3. by case_match.
    + intros k Hg Hl. by rewrite O3, O2, O1 by done.
Qed.

Lemma claim_run_held s t id o ms own g d :
  look s t (leaseKey prefix id) = Some (Entry (RHash (lease_hash own g)) (Some d)) →
  claimScript (leaseKey prefix id) (generationKey prefix) o ms t s =
    (s, Ok [AInt 0; AString own; AString (Strconv.FormatInt g); AInt (d - t)]).
Proof.
  intros E. unfold claimScript, mbind, M_bind, exists_, gets, hget, pttl, mret, M_ret.
  rewrite EXISTS_law, E. cbn. rewrite HGET_law, E. cbn. rewrite HGET_law, E. cbn.
  by rewrite PTTL_law, E.
Qed.

(** The guard of renew and release compares with the fence on record. *)
Lemma notOwner_run s t id o g :
  wf s t → id ≠ "generation" → 0 ≤ g →
  notOwner (leaseKey prefix id) o (Strconv.FormatUint g) t s =
    (s, Ok (bool_decide (holder s t id ≠ Some (o, g)))).
Proof.
  intros Hwf Hid Hg. unfold notOwner, mbind, M_bind, hget, mret, M_ret.
  rewrite HGET_law.
  destruct (wf_holder s t id Hwf Hid) as [[E H]|(own & n & d & E & Hn & H)]; rewrite E, H.
  { cbn. by rewrite bool_decide_eq_true_2. }
  unfold hget_reply at 1. rewrite lease_hash_owner. unfold differs at 1.
  destruct (String.eqb_spec own o) as [->|Hne]; cbn.
  - rewrite HGET_law, E. unfold hget_reply. rewrite lease_hash_generation.
    unfold differs. rewrite FormatInt_Uint by lia.
    f_equal. f_equal. destruct (decide (n = g)) as [->|Hne].
    + rewrite String.eqb_refl. by rewrite bool_decide_eq_false_2 by (intros Hn'; by apply Hn').
    + rewrite bool_decide_eq_true_2 by congruence.
      destruct (String.eqb_spec (Strconv.FormatUint n) (Strconv.FormatUint g)) as [E'|]; [|done].
      apply Strconv.FormatUint_inj in E'; lia.
  - rewrite bool_decide_eq_true_2; [done|]. congruence.
Qed.

Lemma renew_run s t id o g ms :
  wf s t → id ≠ "generation" → 0 ≤ g →
  ∃ s', renewScript (leaseKey prefix id) o (Strconv.FormatUint g) ms t s =
          (s', Ok (if bool_decide (holder s t id = Some (o, g)) then 1 else 0)) ∧
    (holder s t id ≠ Some (o, g) → s' = s) ∧
    (holder s t id = Some (o, g) →
       look s' t (leaseKey prefix id) =
         (if ms <=? 0 then None
          else Some (Entry (RHash (lease_hash o g)) (Some (t + ms))))) ∧
    ∀ k, k ≠ leaseKey prefix id → look s' t k = look s t k.
Proof.
  intros Hwf Hid Hg. unfold renewScript.
  rewrite (bind_ok _ _ _ _ _ (notOwner_run s t id o g Hwf Hid Hg)).
  destruct (decide (holder s t id = Some (o, g))) as [Hh|Hh].
  - rewrite bool_decide_eq_false_2, bool_decide_eq_true_2 by naive_solver.
    destruct (PEXPIRE_law t (leaseKey prefix id) ms s) as (s' & E & El & Eo).
    destruct (wf_holder s t id Hwf Hid) as [[_ ?]|(own & n & d & E' & Hn & H)]; [congruence|].
    rewrite Hh in H. injection H as <- <-. rewrite E' in E, El. cbn in E, El.
    exists s'. split_and!; [|done| |done].
    + unfold pexpire, mbind, M_bind. rewrite E. by case_match.
    + intros _. rewrite El. by case_match.
  - rewrite bool_decide_eq_true_2, bool_decide_eq_false_2 by naive_solver.
    exists s. by split_and!.
Qed.

Lemma release_run s t id o g :
  wf s t → id ≠ "generation" → 0 ≤ g →
  ∃ s', releaseScript (leaseKey prefix id) o (Strconv.FormatUint g) t s =
          (s', Ok (if bool_decide (holder s t id = Some (o, g)) then 1 else 0)) ∧
    (holder s t id ≠ Some (o, g) → s' = s) ∧
    (holder s t id = Some (o, g) → look s' t (leaseKey prefix id) = None) ∧
    ∀ k, k ≠ leaseKey prefix id → look s' t k = look s t k.
Proof.
  intros Hwf Hid Hg. unfold releaseScript.
  rewrite (bind_ok _ _ _ _ _ (notOwner_run s t id o g Hwf Hid Hg)).
  destruct (decide (holder s t id = Some (o, g))) as [Hh|Hh].
  - rewrite bool_decide_eq_false_2, bool_decide_eq_true_2 by naive_solver.
    destruct (DEL_law t (leaseKey prefix id) s) as (s' & E & El & Eo).
    destruct (wf_holder s t id Hwf Hid) as [[_ ?]|(own & n & d & E' & Hn & H)]; [congruence|].
    rewrite E' in E, El. exists s'. by split_and!.
  - rewrite bool_decide_eq_true_2, bool_decide_eq_false_2 by naive_solver.
    exists s. by split_and!.
Qed.

(** *** What an execution changes *)

(** Every live lease of [s] is live and unchanged in [s']. *)
Definition extends (s s' : rstate) (t : Z) : Prop :=
  ∀ id e, id ≠ "generation" →
    look s t (leaseKey prefix id) = Some e → look s' t (leaseKey prefix id) = Some e.

(** Only the key of [id] may have changed. *)
Definition only (id : string) (s s' : rstate) (t : Z) : Prop :=
  ∀ k, k ≠ leaseKey prefix id → look s' t k = look s t k.

(** Every live lease of [s'] was live in [s], or is one of [o] for [id] and carries a
    generation above [n]. *)
Definition born (id o : string) (n : Z) (s s' : rstate) (t : Z) : Prop :=
  ∀ id' e, id' ≠ "generation" → look s' t (leaseKey prefix id') = Some e →
    look s t (leaseKey prefix id') = Some e ∨
    (id' = id ∧ ∀ x, fields_of (Some e) = Some x → x.1 = o ∧ n < x.2).

Lemma born_refl id o n s t : born id o n s s t.
Proof. intros id' e _ E. by left. Qed.

Lemma born_later id o n s s' t t' : t ≤ t' → born id o n s s' t → born id o n s s' t'.
Proof.
  intros Ht Hb id' e Hid E. pose proof (look_Some_earlier _ _ _ _ _ Ht E) as E1.
  destruct (Hb id' e Hid E1) as [E2|?]; [|by right]. left.
  rewrite (look_later _ _ _ _ Ht) in E. rewrite (look_later _ _ _ _ Ht). congruence.
Qed.

Lemma born_trans id o n m s1 s2 s3 t :
  n ≤ m → born id o n s1 s2 t → born id o m s2 s3 t → born id o n s1 s3 t.
Proof.
  intros Hnm H1 H2 id' e Hid E. destruct (H2 id' e Hid E) as [E2|[-> Hx]]; [by apply H1|].
  right. split; [done|]. intros x [? ?]%Hx. split; [done|lia].
Qed.

Lemma extends_refl s t : extends s s t.
Proof. by intros id e. Qed.

Lemma extends_later s s' t t' : t ≤ t' → extends s s' t → extends s s' t'.
Proof.
  intros Ht He id e Hid E. pose proof (look_Some_earlier _ _ _ _ _ Ht E) as E1.
  pose proof (He id e Hid E1) as E2. rewrite (look_later _ _ _ _ Ht) in E.
  rewrite (look_later _ _ _ _ Ht). congruence.
Qed.

Lemma extends_trans s1 s2 s3 t : extends s1 s2 t → extends s2 s3 t → extends s1 s3 t.
Proof. intros H1 H2 id e Hid E. apply H2, H1; done. Qed.

Lemma only_later id s s' t t' : t ≤ t' → only id s s' t → only id s s' t'.
Proof. intros Ht Ho k Hk. by rewrite (look_later s' _ _ _ Ht), (Ho k Hk), <- look_later. Qed.

Lemma only_trans id s1 s2 s3 t : only id s1 s2 t → only id s2 s3 t → only id s1 s3 t.
Proof. intros H1 H2 k Hk. by rewrite (H2 k Hk), (H1 k Hk). Qed.

Lemma only_holder id id' s s' t : only id s s' t → id' ≠ id → holder s' t id' = holder s t id'.
Proof. intros Ho Hne. unfold holder. rewrite Ho; [done|]. by intros ?%leaseKey_inj. Qed.

Lemma only_issued id s s' t : id ≠ "generation" → only id s s' t → issued s' t = issued s t.
Proof.
  intros Hid Ho. unfold issued. rewrite Ho; [done|]. intros E. symmetry in E.
  by apply leaseKey_generation in E.
Qed.

(** A change of one lease key to a valid value keeps the invariant. *)
Lemma only_wf id s s' t :
  id ≠ "generation" → wf s t → only id s s' t →
  lease_ok (issued s t) (look s' t (leaseKey prefix id)) → wf s' t.
Proof.
  intros Hid Hwf Ho Hl. pose proof (only_issued _ _ _ _ Hid Ho) as Hi. split.
  - rewrite Ho; [by apply wf_counter|]. intros E. symmetry in E.
    by apply leaseKey_generation in E.
  - intros id' Hid'. rewrite Hi. destruct (decide (id' = id)) as [->|Hne]; [done|].
    rewrite Ho; [by apply wf_lease|]. by intros ?%leaseKey_inj.
Qed.

Lemma extends_holder s s' t id x :
  wf s t → extends s s' t → holder s t id = Some x → holder s' t id = Some x.
Proof.
  intros Hwf He Hh. destruct (decide (id = "generation")) as [->|Hid].
  - unfold holder in Hh. change (leaseKey prefix "generation") with (generationKey prefix) in Hh.
    destruct (wf_counter _ _ Hwf) as [E|(n & _ & E)]; by rewrite E in Hh.
  - destruct (wf_holder s t id Hwf Hid) as [[_ ?]|(o & g & d & E & Hg & H)]; [congruence|].
    apply (He _ _ Hid) in E as E'. rewrite <- Hh. unfold holder. by rewrite E, E'.
Qed.

Lemma granted_wf s s' t id o ms :
  wf s t → id ≠ "generation" → issued s t < 2 ^ 53 →
  look s t (leaseKey prefix id) = None → granted s s' t id o ms →
  wf s' t ∧ issued s' t = issued s t + 1 ∧ extends s s' t ∧ born id o (issued s t) s s' t ∧
  (0 < ms → holder s' t id = Some (o, issued s t + 1)) ∧
  (∀ x, holder s' t id = Some x → x = (o, issued s t + 1)).
Proof.
  intros Hwf Hid Hlt Hfree (Hc & Hl & Hk). pose proof (issued_range _ _ Hwf) as Hr.
  assert (issued s' t = issued s t + 1) as Hi.
  { unfold issued at 1. rewrite Hc. apply counter_entry_value. lia. }
  split_and!; [split| done | | | |].
  - right. exists (issued s t + 1). split; [lia|done].
  - intros id' Hid'. rewrite Hi. destruct (decide (id' = id)) as [->|Hne].
    + rewrite Hl. case_match; [by left|]. right. eexists _, _, _. split; [done|]. lia.
    + rewrite Hk; [|by rewrite leaseKey_generation|by intros ?%leaseKey_inj].
      destruct (wf_lease _ _ Hwf id' Hid') as [->|(own & g & d & -> & Hg)]; [by left|].
      right. eexists _, _, _. split; [done|lia].
  - intros id' e Hid' E. destruct (decide (id' = id)) as [->|Hne]; [congruence|].
    rewrite Hk; [done|by rewrite leaseKey_generation|by intros ?%leaseKey_inj].
  - intros id' e Hid' E. destruct (decide (id' = id)) as [->|Hne].
    + right. split; [done|]. rewrite Hl in E. case_match; [done|]. simplify_eq.
      intros x Hx. rewrite fields_of_lease in Hx by lia. simplify_eq. cbn. split; [done|lia].
    + left. rewrite Hk in E; [done|by rewrite leaseKey_generation|by intros ?%leaseKey_inj].
  - intros Hms. unfold holder. rewrite Hl. case_match; bool_to_prop; [lia|].
    apply fields_of_lease. lia.
  - intros x. unfold holder. rewrite Hl. case_match; [done|].
    rewrite fields_of_lease by lia. congruence.
Qed.

Lemma born_holder id o n s s' t id' x :
  wf s' t → born id o n s s' t → holder s' t id' = Some x →
  holder s t id' = Some x ∨ (id' = id ∧ x.1 = o ∧ n < x.2).
Proof.
  intros Hwf Hb Hh. destruct (decide (id' = "generation")) as [->|Hid].
  - unfold holder in Hh. change (leaseKey prefix "generation") with (generationKey prefix) in Hh.
    destruct (wf_counter _ _ Hwf) as [E|(m & _ & E)]; by rewrite E in Hh.
  - destruct (wf_holder s' t id' Hwf Hid) as [[_ ?]|(own & g & d & E & Hg & H)]; [congruence|].
    destruct (Hb _ _ Hid E) as [E'|[-> Hx]].
    + left. unfold holder. rewrite E', <- E. exact Hh.
    + right. split; [done|]. apply Hx. rewrite <- E. exact Hh.
Qed.

(** *** Claim under retries *)

Abbreviation claim_at id o ms := (claimScript (leaseKey prefix id) (generationKey prefix) o ms).

Lemma claim_step s t id o ms :
  wf s t → id ≠ "generation" → issued s t < 2 ^ 53 →
  let s' := (claim_at id o ms t s).1 in
  wf s' t ∧ issued s t ≤ issued s' t ≤ issued s t + 1 ∧ extends s s' t ∧
  born id o (issued s t) s s' t.
Proof.
  intros Hwf Hid Hlt.
  destruct (wf_holder s t id Hwf Hid) as [[E _]|(own & g & d & E & _ & _)].
  - destruct (claim_run_free s t id o ms Hwf Hid Hlt E) as (s' & -> & Hg). cbn.
    destruct (granted_wf _ _ _ _ _ _ Hwf Hid Hlt E Hg) as (? & ? & ? & ? & _).
    split_and!; [done|lia|lia|done|done].
  - rewrite (claim_run_held s t id o ms own g d E). cbn.
    split_and!; [done|lia|lia|apply extends_refl|apply born_refl].
Qed.

Lemma claim_replay ts id o ms :
  id ≠ "generation" →
  ∀ s t t', wf s t → issued s t + Z.of_nat (length ts) ≤ 2 ^ 53 → chain t ts t' →
  let s' := replay (claim_at id o ms) ts s in
  wf s' t' ∧ issued s t ≤ issued s' t' ≤ issued s t + Z.of_nat (length ts) ∧
  extends s s' t' ∧ born id o (issued s t) s s' t'.
Proof.
  intros Hid. induction ts as [|x ts IH]; intros s t t' Hwf Hroom Hc.
  - cbn in *. rewrite (issued_later _ _ _ Hc Hwf).
    split_and!; [by eapply wf_later|lia|lia|apply extends_refl|apply born_refl].
  - change (length (x :: ts)) with (S (length ts)) in *. rewrite Nat2Z.inj_succ in *.
    destruct Hc as [Hx Hc]. pose proof (chain_le _ _ _ Hc) as Hx'.
    pose proof (wf_later _ _ _ Hx Hwf) as Hwf1.
    pose proof (issued_later _ _ _ Hx Hwf) as Hi.
    destruct (claim_step s x id o ms Hwf1 Hid) as (Hwf2 & Hi2 & He & Hb); [lia|].
    destruct (IH _ x t' Hwf2) as (Hwf3 & Hi3 & He3 & Hb3); [lia|done|].
    change (replay _ (x :: ts) s) with
      (replay (claim_at id o ms) ts (claim_at id o ms x s).1).
    split_and!; [done|lia|lia| |].
    + eapply extends_trans; [|exact He3]. by apply (extends_later _ _ x).
    + rewrite Hi in Hb. eapply born_trans; [|apply (born_later _ _ _ _ _ x _ Hx' Hb)|exact Hb3].
      lia.
Qed.

(** *** Renew and release under retries *)

(** An execution that can only touch the lease [f] of station [id]. *)
Definition own_only (id : string) (f : string * Z) (s s' : rstate) (t : Z) : Prop :=
  only id s s' t ∧
  lease_ok (issued s t) (look s' t (leaseKey prefix id)) ∧
  (∀ x, holder s' t id = Some x → holder s t id = Some x) ∧
  (holder s t id ≠ Some f → look s' t (leaseKey prefix id) = look s t (leaseKey prefix id)).

Lemma own_only_same s t id f : wf s t → id ≠ "generation" → own_only id f s s t.
Proof. intros Hwf Hid. split_and!; try done. by apply wf_lease. Qed.

Lemma renew_own s t id o g ms :
  wf s t → id ≠ "generation" → 0 ≤ g →
  own_only id (o, g) s
    (renewScript (leaseKey prefix id) o (Strconv.FormatUint g) ms t s).1 t.
Proof.
  intros Hwf Hid Hg. destruct (renew_run s t id o g ms Hwf Hid Hg) as (s' & -> & Hno & Hyes & Ho).
  cbn. destruct (decide (holder s t id = Some (o, g))) as [Hh|Hh];
    [|rewrite (Hno Hh); by apply own_only_same].
  specialize (Hyes Hh).
  destruct (wf_holder s t id Hwf Hid) as [[_ ?]|(own & n & d & E & Hn & H)]; [congruence|].
  assert (own = o ∧ n = g) as [-> ->] by (split; congruence).
  pose proof (issued_range _ _ Hwf).
  split_and!; [done| | |done].
  - rewrite Hyes. case_match; [by left|]. right. by eexists _, _, _.
  - intros x. unfold holder at 1. rewrite Hyes, H. case_match; [done|].
    by rewrite fields_of_lease by lia.
Qed.

Lemma release_own s t id o g :
  wf s t → id ≠ "generation" → 0 ≤ g →
  own_only id (o, g) s
    (releaseScript (leaseKey prefix id) o (Strconv.FormatUint g) t s).1 t.
Proof.
  intros Hwf Hid Hg. destruct (release_run s t id o g Hwf Hid Hg) as (s' & -> & Hno & Hyes & Ho).
  cbn. destruct (decide (holder s t id = Some (o, g))) as [Hh|Hh];
    [|rewrite (Hno Hh); by apply own_only_same].
  specialize (Hyes Hh). split_and!; [done| | |done].
  - rewrite Hyes. by left.
  - intros x. unfold holder at 1. by rewrite Hyes.
Qed.

(** The effect of a call made of such executions, whatever was lost or resent. *)
Record own_call (id : string) (f : string * Z) (s s' : rstate) (t t' : Z) : Prop := {
  oc_wf : wf s' t';
  oc_only : only id s s' t';
  oc_holder x : holder s' t' id = Some x → holder s t id = Some x;
  oc_keep x : holder s t' id = Some x → x ≠ f →
    look s' t' (leaseKey prefix id) = look s t' (leaseKey prefix id)
}.

Lemma own_replay {A} (m : Z → M rstate redis_error A) id f :
  id ≠ "generation" →
  (∀ s t, wf s t → own_only id f s (m t s).1 t) →
  ∀ ts s t t', wf s t → chain t ts t' → own_call id f s (replay m ts s) t t'.
Proof.
  intros Hid Hm ts s t t' Hwf Hc.
  enough (own_call id f s (replay m ts s) t t' ∧ t ≤ t') by tauto.
  apply (replay_inv m (λ s1 t1, own_call id f s s1 t t1 ∧ t ≤ t1)) with (t := t); [| |done|].
  - intros s1 t1 t2 Ht [[Hw Ho Hh Hk] Hle]. split; [split|lia].
    + by eapply wf_later.
    + by apply (only_later _ _ _ t1).
    + intros x Hx. apply Hh. by apply (holder_later _ t1 t2).
    + intros x Hx Hne. apply (holder_later _ _ _ _ _ Ht) in Hx as Hx1.
      by rewrite (look_later s1 _ _ _ Ht), (Hk x Hx1 Hne), <- look_later.
  - intros s1 t1 [[Hw Ho Hh Hk] Hle]. destruct (Hm s1 t1 Hw) as (Ho1 & Hl1 & Hh1 & Hk1).
    split; [split|done].
    + by eapply only_wf.
    + by eapply only_trans.
    + intros x Hx. by apply Hh, Hh1.
    + intros x Hx Hne. specialize (Hk x Hx Hne). rewrite Hk1; [done|].
      intros Hf. apply Hne. unfold holder in Hx, Hf. rewrite Hk in Hf. congruence.
  - split; [split|lia]; done.
Qed.

Lemma own_call_later id f s t t' :
  wf s t → t ≤ t' → own_call id f s s t t'.
Proof.
  intros Hwf Ht. split; [by eapply wf_later|by intros k Hk| |done].
  intros x Hx. by apply (holder_later _ t t').
Qed.

Lemma own_call_of {A} (m : Z → M rstate redis_error A) id f d s t :
  id ≠ "generation" →
  (∀ s t, wf s t → own_only id f s (m t s).1 t) →
  wf s t → chain t (lost d) (at_ms d) →
  own_call id f s (call d m s).1 t (at_ms d).
Proof.
  intros Hid Hm Hwf Hc. destruct (call_replay d m s t Hc) as (ts & -> & Hts & _).
  by apply own_replay.
Qed.

Lemma own_call_issued id f s s' t t' :
  id ≠ "generation" → wf s t → t ≤ t' → own_call id f s s' t t' → issued s' t' = issued s t.
Proof.
  intros Hid Hwf Ht [_ Ho _ _]. rewrite (only_issued _ _ _ _ Hid Ho). by apply issued_later.
Qed.

Lemma own_call_no_new id f s s' t t' id' x :
  t ≤ t' → own_call id f s s' t t' → holder s' t' id' = Some x → holder s t id' = Some x.
Proof.
  intros Ht Hoc Hx. destruct (decide (id' = id)) as [->|Hne]; [by eapply oc_holder|].
  rewrite (only_holder _ _ _ _ _ (oc_only _ _ _ _ _ _ Hoc) Hne) in Hx.
  by apply (holder_later _ t t').
Qed.

(** ** The contract *)

Definition within (t : Z) (e : env) : Prop := chain t (lost (send e)) (at_ms (send e)).
Definition clock (e : env) : Z := at_ms (send e).
Definition room (e : env) (s : rstate) (t : Z) : Prop :=
  issued s t + Z.of_nat (length (lost (send e))) + 1 ≤ 2 ^ 53.
(** The one station name whose lease key is the generation counter. *)
Definition servable (id : string) : Prop := id ≠ "generation".

Lemma within_clock t e : within t e → t ≤ clock e.
Proof. apply chain_le. Qed.

Lemma parse_status st o g r3 c own gen rem :
  parseClaimResult [AInt st; AString o; g; r3] = Ok (c, own, gen, rem) →
  in_int64 st → c = (st =? 1) ∧ own = o ∧ Strconv.ParseUint (Sprint g) = Some gen.
Proof.
  intros Hp Hst. unfold parseClaimResult in Hp.
  change (Sprint (AInt st)) with (Strconv.FormatInt st) in Hp.
  rewrite Strconv.ParseInt_FormatInt in Hp by done.
  destruct (Strconv.ParseUint (Sprint g)); [|done].
  destruct (Strconv.ParseInt (Sprint r3)); [|done]. by injection Hp as <- <- <- <-.
Qed.

(** The state after any claim, successful or not. *)
Lemma Claim_state e id o ttl s s' r t :
  wf s t → within t e → room e s t → servable id →
  Claim prefix e id o ttl s = (s', r) →
  wf s' (clock e) ∧ issued s t ≤ issued s' (clock e) ∧ extends s s' (clock e) ∧
  born id o (issued s t) s s' (clock e).
Proof.
  intros Hwf Hin Hroom Hid Hc. pose proof (within_clock _ _ Hin) as Ht.
  unfold Claim in Hc. case_match.
  { simplify_eq. rewrite (issued_later _ _ _ Ht Hwf).
    split_and!; [by eapply wf_later|lia|apply extends_refl|apply born_refl]. }
  destruct (call_replay (send e) (claim_at id o (Time.Milliseconds ttl)) s t Hin)
    as (ts & Ets & Hts & Hlen).
  destruct (call (send e) _ s) as [s1 r1]. cbn in Ets. subst s1.
  assert (s' = replay (claim_at id o (Time.Milliseconds ttl)) ts s) as ->.
  { repeat case_match; by simplify_eq. }
  unfold room in Hroom.
  destruct (claim_replay ts id o (Time.Milliseconds ttl) Hid s t (clock e))
    as (? & ? & ? & ?); [done|lia|done|]. split_and!; [done|lia|done|done].
Qed.

(** A successful claim is a grant in a state in which the station was free:
    the initial one, after the executions whose reply was lost. *)
Lemma Claim_granted e id o ttl s s' l t :
  wf s t → within t e → room e s t → servable id →
  Claim prefix e id o ttl s = (s', (l, None)) →
  ∃ s0, wf s0 (clock e) ∧ issued s t ≤ issued s0 (clock e) < 2 ^ 53 ∧
    extends s s0 (clock e) ∧ look s0 (clock e) (leaseKey prefix id) = None ∧
    granted s0 s' (clock e) id o (Time.Milliseconds ttl) ∧
    StationIdentity l = id ∧ OwnerID l = o ∧ Generation l = issued s0 (clock e) + 1.
Proof.
  intros Hwf Hin Hroom Hid Hc. unfold Claim in Hc. case_match; [done|].
  destruct (call (send e) _ s) as [s1 [reply_|]] eqn:Ecall; [|by simplify_eq].
  apply call_ok in Ecall.
  destruct (claim_replay (lost (send e)) id o (Time.Milliseconds ttl) Hid s t (clock e))
    as (Hwf1 & Hi1 & He1 & _); [done|unfold room in Hroom; lia|done|].
  set (s0 := replay (claim_at id o (Time.Milliseconds ttl)) (lost (send e)) s) in *.
  assert (issued s0 (clock e) < 2 ^ 53) as Hlt by (unfold room in Hroom; lia).
  pose proof (issued_range _ _ Hwf1) as Hr1.
  change (at_ms (send e)) with (clock e) in Ecall.
  destruct (wf_holder s0 (clock e) id Hwf1 Hid) as [[E _]|(own & g & d & E & _ & _)]; last first.
  { rewrite (claim_run_held _ _ _ _ _ _ _ _ E) in Ecall. simplify_eq.
    destruct (parseClaimResult _) as [[[[c own'] gen] rem]|] eqn:Ep; [|by simplify_eq].
    apply parse_status in Ep as (-> & _ & _); [by simplify_eq|].
    unfold in_int64, int64_min, int64_max. lia. }
  destruct (claim_run_free s0 (clock e) id o (Time.Milliseconds ttl) Hwf1 Hid Hlt E)
    as (s2 & E2 & Hg).
  rewrite E2 in Ecall. simplify_eq.
  destruct (parseClaimResult _) as [[[[c own'] gen] rem]|] eqn:Ep; [|by simplify_eq].
  apply parse_status in Ep as (-> & -> & Hgen); [|unfold in_int64, int64_min, int64_max; lia].
  change (Sprint (AInt ?x)) with (Strconv.FormatInt x) in Hgen.
  rewrite ParseUint_generation in Hgen by lia. simplify_eq.
  exists s0. split_and!; done || lia.
Qed.

Lemma Milliseconds_pos d : Time.Millisecond ≤ d → 0 < Time.Milliseconds d.
Proof.
  unfold Time.Milliseconds, Time.Millisecond in *. intros. apply Z.quot_str_pos. lia.
Qed.

Lemma Claim_ok e id o ttl s s' l t :
  wf s t → within t e → room e s t → servable id →
  Claim prefix e id o ttl s = (s', (l, None)) →
  StationIdentity l = id ∧ OwnerID l = o ∧
  issued s t < Generation l ∧ Generation l = issued s' (clock e) ∧
  holder s (clock e) id = None ∧
  (Time.Millisecond ≤ ttl → holder s' (clock e) id = Some (o, Generation l)) ∧
  (∀ x, holder s' (clock e) id = Some x → x = (o, Generation l)).
Proof.
  intros Hwf Hin Hroom Hid Hc.
  destruct (Claim_granted _ _ _ _ _ _ _ _ Hwf Hin Hroom Hid Hc)
    as (s0 & Hwf0 & Hi0 & He0 & Hfree & Hg & Hl & Ho & Hgen).
  destruct (granted_wf _ _ _ _ _ _ Hwf0 Hid (proj2 Hi0) Hfree Hg) as (_ & Hi2 & _ & _ & Hh2 & Hh3).
  rewrite Hgen. split_and!; [done|done|lia|lia| |intros ?%Milliseconds_pos; auto|auto].
  destruct (holder s (clock e) id) as [x|] eqn:Ehold; [|done]. exfalso.
  apply (extends_holder s s0) in Ehold;
    [|by apply (wf_later s t); [apply within_clock|]|done].
  unfold holder in Ehold. by rewrite Hfree in Ehold.
Qed.

Lemma Renew_state e l ttl s s' r t :
  wf s t → within t e → servable (StationIdentity l) → 0 ≤ Generation l →
  Renew prefix e l ttl s = (s', r) →
  own_call (StationIdentity l) (fence l) s s' t (clock e).
Proof.
  intros Hwf Hin Hid Hg Hr. unfold Renew in Hr. case_match.
  { simplify_eq. apply own_call_later; [done|by apply within_clock]. }
  pose proof (own_call_of _ _ (fence l) (send e) s t Hid
    (λ s t Hwf, renew_own s t _ (OwnerID l) (Generation l) (Time.Milliseconds ttl) Hwf Hid Hg)
    Hwf Hin) as Hoc.
  destruct (call (send e) _ s) as [s1 r1]. cbn in Hoc.
  assert (s' = s1) as -> by (repeat case_match; by simplify_eq). done.
Qed.

Lemma Renew_ok e l ttl s s' l' t :
  wf s t → within t e → servable (StationIdentity l) → 0 ≤ Generation l →
  Renew prefix e l ttl s = (s', (l', None)) →
  l' = set_expires l (Time.Add (now e) ttl) ∧
  holder s t (StationIdentity l) = Some (fence l) ∧
  (Time.Millisecond ≤ ttl → holder s' (clock e) (StationIdentity l) = Some (fence l)).
Proof.
  intros Hwf Hin Hid Hg Hr. unfold Renew in Hr. case_match; [done|].
  destruct (call (send e) _ s) as [s1 [n|]] eqn:Ecall; [|by simplify_eq].
  destruct (Z.eqb_spec n 1) as [->|]; [|done]. cbn in Hr. simplify_eq.
  apply call_ok in Ecall. change (at_ms (send e)) with (clock e) in Ecall.
  pose proof (own_replay _ _ (fence l) Hid
    (λ s t Hwf, renew_own s t _ (OwnerID l) (Generation l) (Time.Milliseconds ttl) Hwf Hid Hg)
    _ s t (clock e) Hwf Hin) as [Hwf0 _ Hh0 _].
  set (s0 := replay _ _ s) in *.
  destruct (renew_run s0 (clock e) _ (OwnerID l) (Generation l) (Time.Milliseconds ttl)
    Hwf0 Hid Hg) as (s2 & E2 & _ & Hyes & _).
  rewrite E2 in Ecall. case_bool_decide as Hh; [|by simplify_eq].
  simplify_eq. split_and!; [done|by apply Hh0|]. intros Httl.
  unfold holder at 1. rewrite (Hyes Hh).
  apply Milliseconds_pos in Httl.
  case_match; bool_to_prop; [lia|]. apply fields_of_lease.
  destruct (wf_holder s0 (clock e) _ Hwf0 Hid) as [[_ ?]|(o & g & d & _ & Hn & H')]; [congruence|].
  pose proof (issued_range _ _ Hwf0). assert (g = Generation l) by congruence. lia.
Qed.

Lemma Release_state e l s s' r t :
  wf s t → within t e → servable (StationIdentity l) → 0 ≤ Generation l →
  Release prefix e l s = (s', r) →
  own_call (StationIdentity l) (fence l) s s' t (clock e) ∧
  (r = None → holder s' (clock e) (StationIdentity l) = None).
Proof.
  intros Hwf Hin Hid Hg Hr. unfold Release in Hr.
  pose proof (own_call_of _ _ (fence l) (send e) s t Hid
    (λ s t Hwf, release_own s t _ (OwnerID l) (Generation l) Hwf Hid Hg) Hwf Hin) as Hoc.
  destruct (call (send e) _ s) as [s1 [n|]] eqn:Ecall; simplify_eq; [|done].
  cbn in Hoc. split; [done|]. destruct (Z.eqb_spec n 1) as [->|]; [|done]. intros _.
  apply call_ok in Ecall. change (at_ms (send e)) with (clock e) in Ecall.
  pose proof (own_replay _ _ (fence l) Hid
    (λ s t Hwf, release_own s t _ (OwnerID l) (Generation l) Hwf Hid Hg)
    _ s t (clock e) Hwf Hin) as [Hwf0 _ _ _].
  set (s0 := replay _ _ s) in *.
  destruct (release_run s0 (clock e) _ (OwnerID l) (Generation l) Hwf0 Hid Hg)
    as (s2 & E2 & _ & Hyes & _).
  rewrite E2 in Ecall. case_bool_decide as Hh; [|by simplify_eq]. simplify_eq.
  unfold holder. by rewrite (Hyes Hh).
Qed.

Lemma hmget_reads k t s : (hmget k t s).1 = s.
Proof.
  unfold hmget, hget, mbind, M_bind, mret, M_ret.
  destruct (HGET t k "owner" s); [|done]. cbn. by destruct (HGET t k "generation" s).
Qed.

Lemma hmget_run k t s o g s' :
  hmget k t s = (s', Ok (Some o, Some g)) →
  ∃ h dl, look s t k = Some (Entry (RHash h) dl) ∧ h !! "owner" = Some o ∧
          h !! "generation" = Some g.
Proof.
  unfold hmget, hget, mbind, M_bind, mret, M_ret.
  rewrite HGET_law. destruct (look s t k) as [[[x|h|x] dl]|] eqn:E; cbn; try done.
  - rewrite HGET_law, E. cbn. intros ?; simplify_eq. eauto.
  - rewrite HGET_law, E. cbn. intros ?; simplify_eq.
Qed.

Lemma Lookup_state e id s : (Lookup prefix e id s).1 = s.
Proof.
  unfold Lookup.
  pose proof (call_reads (send e) (hmget (leaseKey prefix id)) s (hmget_reads _)) as H1.
  destruct (call (send e) _ s) as [s1 [v|]]; cbn in H1; subst s1; [|done].
  pose proof (call_reads (send2 e) (λ t, pttl t (leaseKey prefix id)) s (λ _ _, eq_refl)) as H2.
  by destruct (call (send2 e) _ s) as [s2 [n|]].
Qed.

(** The tail of a lookup only reports the fields it was given. *)
Lemma lookupLease_ok id at_ values remaining l :
  lookupLease id at_ values remaining = (l, None) →
  ∃ o g, values = (Some o, Some g) ∧ 0 < remaining ∧ StationIdentity l = id ∧
         OwnerID l = o ∧ Strconv.ParseUint g = Some (Generation l).
Proof.
  unfold lookupLease. destruct values as [[o|] [g|]]; try done.
  destruct (Z.leb_spec remaining 0); [done|].
  destruct (Strconv.ParseUint g) as [n|] eqn:E; [|done]. intros ?; simplify_eq.
  by exists o, g.
Qed.

Lemma Lookup_ok e id s s' l t :
  within t e → Lookup prefix e id s = (s', (l, None)) →
  StationIdentity l = id ∧ holder s t id = Some (fence l).
Proof.
  intros Hin. unfold Lookup.
  destruct (call (send e) _ s) as [s1 [v|]] eqn:E1; [|done].
  destruct (call (send2 e) _ s1) as [s2 [n|]] eqn:E2; [|done].
  intros [= _ Hl]. apply lookupLease_ok in Hl as (o & g & -> & _ & Hid & Ho & Hg).
  split; [done|]. apply call_ok in E1.
  rewrite (replay_reads _ _ _ (hmget_reads _)) in E1.
  apply hmget_run in E1 as (h & dl & E & Eo & Eg).
  apply (holder_later _ t (clock e)); [by apply within_clock|].
  unfold holder, clock. rewrite E. unfold fields_of. rewrite Eo, Eg, Hg. by subst.
Qed.

#[export] Instance registry : Registry env rstate := {|
  Lease.Claim := Claim prefix; Lease.Renew := Renew prefix;
  Lease.Release := Release prefix; Lease.Lookup := Lookup prefix
|}.

Lemma fence_set_expires l at_ : fence (set_expires l at_) = fence l.
Proof. done. Qed.

#[export] Program Instance contract : RegistryContract env rstate := {|
  Lease.wf := wf; Lease.issued := issued; Lease.holder := holder; Lease.clock := clock;
  Lease.within := within; Lease.room := room; Lease.servable := servable;
|}.
Next Obligation. exact within_clock. Qed.
Next Obligation. exact wf_later. Qed.
Next Obligation. exact issued_later. Qed.
Next Obligation. exact holder_later. Qed.
Next Obligation.
  intros e id o ttl s s' l t Hwf Hin Hroom Hid Hc.
  destruct (Claim_state _ _ _ _ _ _ _ _ Hwf Hin Hroom Hid Hc) as (? & _ & He & _).
  destruct (Claim_ok _ _ _ _ _ _ _ _ Hwf Hin Hroom Hid Hc) as (?&?&?&?&?&?&?).
  split_and!; try done. intros id' x.
  apply extends_holder; [by apply (wf_later s t); [apply within_clock|]|done].
Qed.
Next Obligation.
  intros e id o ttl s s' l err t Hwf Hin Hroom Hid Hc.
  destruct (Claim_state _ _ _ _ _ _ _ _ Hwf Hin Hroom Hid Hc) as (? & ? & He & _).
  split_and!; try done. intros id' x.
  apply extends_holder; [by apply (wf_later s t); [apply within_clock|]|done].
Qed.
Next Obligation.
  intros e id o ttl s s' r t id' x Hwf Hin Hroom Hid Hc Hx.
  destruct (Claim_state _ _ _ _ _ _ _ _ Hwf Hin Hroom Hid Hc) as (? & _ & _ & Hb).
  by eapply born_holder.
Qed.
Next Obligation.
  intros e l ttl s s' l' t Hwf Hin Hid Hg Hr.
  pose proof (Renew_state _ _ _ _ _ _ _ Hwf Hin Hid Hg Hr) as Hoc.
  destruct (Renew_ok _ _ _ _ _ _ _ Hwf Hin Hid Hg Hr) as (-> & ? & ?).
  split_and!; try done; [by apply Hoc|].
  eapply own_call_issued; [exact Hid|done|by apply within_clock|done].
Qed.
Next Obligation.
  intros e l ttl s s' l' err t Hwf Hin Hid Hg Hr.
  pose proof (Renew_state _ _ _ _ _ _ _ Hwf Hin Hid Hg Hr) as Hoc.
  split; [by apply Hoc|].
  eapply own_call_issued; [exact Hid|done|by apply within_clock|done].
Qed.
Next Obligation.
  intros e l ttl s s' r t id Hwf Hin Hid Hg Hne Hr.
  destruct (Renew_state _ _ _ _ _ _ _ Hwf Hin Hid Hg Hr) as [_ Ho _ _].
  by apply (only_holder (StationIdentity l)).
Qed.
Next Obligation.
  intros e l ttl s s' r t id x Hwf Hin Hid Hg Hr Hx.
  exact (own_call_no_new _ _ _ _ _ _ _ _ (within_clock _ _ Hin)
    (Renew_state _ _ _ _ _ _ _ Hwf Hin Hid Hg Hr) Hx).
Qed.
Next Obligation.
  intros e l s s' r t id x Hwf Hin Hid Hg Hr Hx.
  exact (own_call_no_new _ _ _ _ _ _ _ _ (within_clock _ _ Hin)
    (proj1 (Release_state _ _ _ _ _ _ Hwf Hin Hid Hg Hr)) Hx).
Qed.
Next Obligation.
  intros e l s s' r t Hwf Hin Hid Hg Hr.
  destruct (Release_state _ _ _ _ _ _ Hwf Hin Hid Hg Hr) as [Hoc Hnone].
  split_and!; [by apply Hoc| |done|].
  - eapply own_call_issued; [exact Hid|done|by apply within_clock|done].
  - intros id x Hx. destruct (decide (id = StationIdentity l)) as [->|Hne].
    + destruct (decide (x = fence l)) as [->|Hne]; [by right|]. left.
      unfold holder. rewrite (oc_keep _ _ _ _ _ _ Hoc x Hx Hne). exact Hx.
    + left. by rewrite (only_holder _ _ _ _ _ (oc_only _ _ _ _ _ _ Hoc) Hne).
Qed.
Next Obligation.
  intros e id s s' r t Hwf Hin Hr. pose proof (Lookup_state e id s) as E.
  cbn in Hr. rewrite Hr in E. cbn in E. subst s'.
  split_and!; [|by apply issued_later; [apply within_clock|]|done].
  apply (wf_later s t); [by apply within_clock|done].
Qed.
Next Obligation. intros e id s s' l t _ Hin _ Hl. exact (Lookup_ok _ _ _ _ _ _ Hin Hl). Qed.

#[export] Instance strict : StrictRenewal env rstate.
Proof.
  intros e l ttl s s' l' err t Hwf Hin Hid Hg Hr id x Hx Hne.
  pose proof (Renew_state _ _ _ _ _ _ _ Hwf Hin Hid Hg Hr) as Hoc.
  destruct (decide (id = StationIdentity l)) as [->|Hid'].
  - change (holder s' (clock e) (StationIdentity l) = Some x). unfold holder.
    rewrite (oc_keep _ _ _ _ _ _ Hoc x Hx (Hne eq_refl)). exact Hx.
  - change (holder s' (clock e) id = Some x).
    by rewrite (only_holder _ _ _ _ _ (oc_only _ _ _ _ _ _ Hoc) Hid').
Qed.
End laws.
End RedisStore.

(** The registry of the concrete server, as server.go configures it (prefix
    ["csms"]), with calls that are delivered once. *)
Module Deployed.
Import RefRedis.
Abbreviation env := RedisStore.env.

#[export] Instance reg : Registry env rstate := RedisStore.registry "csms".
#[export] Instance con : RegistryContract env rstate := RedisStore.contract "csms".

Definition at_ (t : Z) : env :=
  RedisStore.Env (t * Time.Millisecond) (clean t) (clean t).
Definition empty : rstate := (∅ : gmap string entry).

Lemma empty_wf t : wf empty t.
Proof. split; [by left|]. intros id _. by left. Qed.
End Deployed.
