(* ===== verification/Ownership.v ===== *)
(** * The ownership manager of a runtime (runtime/ownership.go)

    A manager keeps one entry per connected station.  Entries are shared objects:
    the map holds a pointer and the renewal goroutine of the session holds the
    same pointer, so the model has a heap of entries.  Each definition below is
    one critical section of the code; [onConnect] and [onDisconnect] are their
    compositions. *)

From S2P Require Import Prelude GoStd Redis Lease RedisRegistry.

(** What the runtime sees of a [*csms.Session]: which object it is and the
    station identity it was opened with. *)
Record Session : Type := mkSession { handle : nat; Identity : string }.

#[export] Instance Session_eq_dec : EqDecision Session.
Proof. solve_decision. Defined.

Record ownershipEntry : Type := mkOwnershipEntry {
  lease : Lease;
  cancelled : bool   (** [entry.cancel()] was called *)
}.

Record ownershipManager : Type := mkManager {
  ownerID : string;
  ttl : Time.Duration;
  renewInterval : Time.Duration;
  entries : gmap string nat;         (** identity to entry pointer *)
  heap : gmap nat ownershipEntry;    (** the entries ever allocated *)
  next : nat                         (** first unused pointer *)
}.

Definition newOwnershipManager (ownerID : string) (ttl renewInterval : Time.Duration) :
    ownershipManager :=
  mkManager ownerID ttl renewInterval ∅ ∅ 0.

Definition set_entries (m : ownershipManager) (es : gmap string nat) : ownershipManager :=
  mkManager (ownerID m) (ttl m) (renewInterval m) es (heap m) (next m).
Definition set_heap (m : ownershipManager) (h : gmap nat ownershipEntry) : ownershipManager :=
  mkManager (ownerID m) (ttl m) (renewInterval m) (entries m) h (next m).

(** What a callback asks of the rest of the runtime. *)
Inductive effect : Type :=
  | CloseSession (s : Session)            (** [session.Close()] *)
  | GoRenew (s : Session) (p : nat).      (** [go manager.renew(ctx, session, entry)] *)

Section manager.
Context {Env S : Type} `{!Registry Env S}.

(** The claim at the head of [onConnect]. *)
Definition connect_claim (e : Env) (session : Session) (m : ownershipManager) (reg : S) :
    S * result error Lease :=
  match Claim e (Identity session) (ownerID m) (ttl m) reg with
  | (reg', (l, None)) => (reg', Ok l)
  | (reg', (_, Some err)) => (reg', Err err)
  end.

(** The rest of a successful [onConnect]: allocate the entry, publish it in the
    map under the mutex, start its renewal. *)
Definition connect_install (session : Session) (l : Lease) (m : ownershipManager) :
    ownershipManager * list effect :=
  let p := next m in
  (mkManager (ownerID m) (ttl m) (renewInterval m)
     (<[Identity session := p]> (entries m))
     (<[p := mkOwnershipEntry l false]> (heap m)) (Datatypes.S p),
   [GoRenew session p]).

Definition onConnect (e : Env) (session : Session) (m : ownershipManager) (reg : S) :
    ownershipManager * S * list effect :=
  match connect_claim e session m reg with
  | (reg', Err _) => (m, reg', [CloseSession session])
  | (reg', Ok l) =>
      let '(m', effs) := connect_install session l m in (m', reg', effs)
  end.

(** One turn of the loop in [renew] that took the ticker branch.  The result
    says whether the loop goes on. *)
Definition renew_tick (e : Env) (session : Session) (p : nat) (m : ownershipManager) (reg : S) :
    ownershipManager * S * bool * list effect :=
  match heap m !! p with
  | None => (m, reg, false, [])
  | Some entry =>
      match Renew e (lease entry) (ttl m) reg with
      | (reg', (renewed, None)) =>
          (set_heap m (<[p := mkOwnershipEntry renewed (cancelled entry)]> (heap m)),
           reg', true, [])
      | (reg', (_, Some _)) => (m, reg', false, [CloseSession session])
      end
  end.

(** What the [select] of the loop can see. *)
Inductive wakeup : Type := CtxDone | Tick (e : Env).

(** The goroutine, over the wake-ups it gets. *)
Fixpoint renew (ws : list wakeup) (session : Session) (p : nat) (m : ownershipManager) (reg : S) :
    ownershipManager * S * list effect :=
  match ws with
  | [] => (m, reg, [])
  | CtxDone :: _ => (m, reg, [])
  | Tick e :: ws =>
      let '(m', reg', go, effs) := renew_tick e session p m reg in
      if go : bool then
        let '(m'', reg'', effs') := renew ws session p m' reg' in (m'', reg'', effs ++ effs')
      else (m', reg', effs)
  end.

(** The first half of [onDisconnect]: take the entry out of the map, cancel it
    and read its lease; [None] when there was no entry. *)
Definition disconnect_detach (session : Session) (m : ownershipManager) :
    ownershipManager * option Lease :=
  let m' := set_entries m (delete (Identity session) (entries m)) in
  match entries m !! Identity session with
  | None => (m', None)
  | Some p =>
      match heap m !! p with
      | None => (m', None)
      | Some entry =>
          (set_heap m' (<[p := mkOwnershipEntry (lease entry) true]> (heap m)),
           Some (lease entry))
      end
  end.

Definition onDisconnect (e : Env) (session : Session) (m : ownershipManager) (reg : S) :
    ownershipManager * S * option error :=
  match disconnect_detach session m with
  | (m', None) => (m', reg, None)
  | (m', Some l) => let '(reg', err) := Release e l reg in (m', reg', err)
  end.

Definition owns (m : ownershipManager) (identity : string) (generation : Z) : bool :=
  match entries m !! identity with
  | None => false
  | Some p =>
      match heap m !! p with
      | None => false
      | Some entry =>
          String.eqb (OwnerID (lease entry)) (ownerID m)
          && (Generation (lease entry) =? generation)
      end
  end.
End manager.
Arguments wakeup : clear implicits.
Arguments CtxDone {Env}.
Arguments Tick {Env} e.

(** ** The shape of a manager *)

(** Pointers are allocated, and the map files an entry under the station of its
    lease. *)
Record manager_ok (m : ownershipManager) : Prop := {
  mo_fresh p en : heap m !! p = Some en → (p < next m)%nat;
  mo_entries id p : entries m !! id = Some p →
    ∃ en, heap m !! p = Some en ∧ StationIdentity (lease en) = id;
}.

Lemma manager_ok_new o d i : manager_ok (newOwnershipManager o d i).
Proof. split; cbn; intros ?? Hl; by rewrite lookup_empty in Hl. Qed.

Lemma manager_ok_install s l m :
  manager_ok m → StationIdentity l = Identity s → manager_ok (connect_install s l m).1.
Proof.
  intros [Hf He] Hl. split; cbn.
  - intros p en [[<- _]|[_ ?%Hf]]%lookup_insert_Some; lia.
  - intros id p [[<- <-]|[_ (en & Hp & Hen)%He]]%lookup_insert_Some.
    + rewrite lookup_insert_eq. eauto.
    + exists en. rewrite lookup_insert_ne; [done|]. apply Hf in Hp. lia.
Qed.

(** Replacing the lease of an entry by one of the same station. *)
Lemma manager_ok_update p en en' m :
  manager_ok m → heap m !! p = Some en →
  StationIdentity (lease en') = StationIdentity (lease en) →
  manager_ok (set_heap m (<[p := en']> (heap m))).
Proof.
  intros [Hf He] Hp Hid. split; cbn.
  - intros q qe [[<- _]|[_ ?]]%lookup_insert_Some; eauto.
  - intros id q (qe & Hq & Hqe)%He. destruct (decide (p = q)) as [->|Hne].
    + rewrite lookup_insert_eq. exists en'. split; [done|]. congruence.
    + rewrite lookup_insert_ne by done. eauto.
Qed.

Lemma manager_ok_detach s m : manager_ok m → manager_ok (disconnect_detach s m).1.
Proof.
  intros Hm. assert (manager_ok (set_entries m (delete (Identity s) (entries m)))) as Hm'.
  { destruct Hm as [Hf He]. split; cbn; [done|]. intros id p [_ ?]%lookup_delete_Some. eauto. }
  unfold disconnect_detach. destruct (entries m !! Identity s) as [p|]; [|done].
  destruct (heap m !! p) as [en|] eqn:Hp; [|done].
  by apply (manager_ok_update p en _ _ Hm').
Qed.

(** [owns] answers for the entry on file. *)
Lemma owns_true m id g :
  owns m id g = true ↔
  ∃ p en, entries m !! id = Some p ∧ heap m !! p = Some en ∧
          OwnerID (lease en) = ownerID m ∧ Generation (lease en) = g.
Proof.
  unfold owns. split.
  - destruct (entries m !! id) as [p|] eqn:Ep; [|done].
    destruct (heap m !! p) as [en|] eqn:Eh; [|done]. intros H. bool_to_prop. eauto 10.
  - intros (p & en & -> & -> & -> & ->). by rewrite String.eqb_refl, Z.eqb_refl.
Qed.

(** ** The callbacks *)

Section callbacks.
Context {Env S : Type} `{C : RegistryContract Env S}.



(** What [disconnect_detach] finds for a station that is owned. *)
Lemma detach_owned s m g :
  owns m (Identity s) g = true →
  ∃ m' l, disconnect_detach s m = (m', Some l) ∧ Generation l = g ∧
          OwnerID l = ownerID m ∧ entries m' = delete (Identity s) (entries m).
Proof.
  intros (p & en & Hp & Hen & Ho & Hg)%owns_true. unfold disconnect_detach.
  rewrite Hp, Hen. eexists _, _. split_and!; done.
Qed.

Lemma detach_station s m m' l :
  manager_ok m → disconnect_detach s m = (m', Some l) → StationIdentity l = Identity s.
Proof.
  intros Hm. unfold disconnect_detach. destruct (entries m !! Identity s) as [p|] eqn:Ep; [|done].
  destruct (mo_entries _ Hm _ _ Ep) as (en & Hen & Hid). rewrite Hen. by intros [= _ <-].
Qed.

Lemma owns_deleted m id g : entries m !! id = None → owns m id g = false.
Proof. unfold owns. by intros ->. Qed.

(** A disconnect that releases the lease of the entry on file. *)
Lemma disconnect_released e s m reg m' reg' g t :
  manager_ok m → wf reg t → within t e → servable (Identity s) → 0 ≤ g →
  owns m (Identity s) g = true →
  onDisconnect e s m reg = (m', reg', None) →
  entries m' = delete (Identity s) (entries m) ∧
  holder reg' (clock e) (Identity s) = None ∧
  (∀ id x, holder reg (clock e) id = Some x →
     holder reg' (clock e) id = Some x ∨ (id = Identity s ∧ x = (ownerID m, g))).
Proof.
  intros Hm Hwf Hin Hsv Hg O. unfold onDisconnect.
  destruct (detach_owned _ _ _ O) as (m1 & l & E & El & Eo & Hes). rewrite E.
  destruct (Release e l reg) as [reg1 err] eqn:Er. intros [= <- <- ->].
  pose proof (detach_station _ _ _ _ Hm E) as Hid. rewrite <- Hid in *. rewrite <- El in *.
  destruct (release_own _ _ _ _ _ _ Hwf Hin Hsv Hg Er) as (_ & _ & Hnone & Hothers).
  split_and!; [by rewrite Hes|by apply Hnone|]. intros id x Hx. rewrite <- Eo. by apply Hothers.
Qed.


(** C25: a disconnect whose release succeeds leaves the station free, both for
    this runtime and in the registry, and takes nobody else's lease away. *)
Theorem onDisconnect_frees e s m reg m' reg' g t :
  manager_ok m → wf reg t → within t e → servable (Identity s) → 0 ≤ g →
  owns m (Identity s) g = true →
  onDisconnect e s m reg = (m', reg', None) →
  (∀ g', owns m' (Identity s) g' = false) ∧
  holder reg' (clock e) (Identity s) = None ∧
  (∀ id x, holder reg (clock e) id = Some x →
     holder reg' (clock e) id = Some x ∨ (id = Identity s ∧ x = (ownerID m, g))).
Proof.
  intros Hm Hwf Hin Hsv Hg O Hd.
  destruct (disconnect_released _ _ _ _ _ _ _ _ Hm Hwf Hin Hsv Hg O Hd) as (Hes & Hnone & Hx).
  split_and!; [|done|done]. intros g'. apply owns_deleted. by rewrite Hes, lookup_delete_eq.
Qed.

(** The entry is found by station identity, not by session: when a second
    session of a station this runtime already serves is refused by the
    registry, and its disconnection is reported, the entry and the lease of
    the session that is still open are released. *)
Theorem refused_session_evicts_open_one e e' old new m reg reg1 m' reg' g t :
  Identity new = Identity old → handle new ≠ handle old →
  manager_ok m → wf reg t → within t e → room e reg t →
  within (clock e) e' → servable (Identity old) → 0 ≤ g →
  owns m (Identity old) g = true →
  onConnect e new m reg = (m, reg1, [CloseSession new]) →
  onDisconnect e' new m reg1 = (m', reg', None) →
  owns m' (Identity old) g = false ∧ holder reg' (clock e') (Identity old) = None.
Proof.
  intros Hid _ Hm Hwf Hin Hroom Hin' Hsv Hg O Hcon. rewrite <- Hid in *.
  assert (wf reg1 (clock e)) as Hwf1.
  { unfold onConnect, connect_claim in Hcon.
    destruct (Claim e _ _ _ _) as [r1 [l [err|]]] eqn:Ec; simplify_eq.
    by destruct (claim_err _ _ _ _ _ _ _ _ _ Hwf Hin Hroom Hsv Ec). }
  intros Hd.
  destruct (disconnect_released _ _ _ _ _ _ _ _ Hm Hwf1 Hin' Hsv Hg O Hd) as (Hes & Hnone & _).
  split; [|done]. apply owns_deleted. by rewrite Hes, lookup_delete_eq.
Qed.
End callbacks.

(** ** A station that connects twice to one runtime *)
Module Reconnect.
Import RefRedis Deployed.

Definition pod : ownershipManager :=
  newOwnershipManager "a" (30 * Time.Second) (10 * Time.Second).
Definition old : Session := mkSession 0 "CP1".
Definition new : Session := mkSession 1 "CP1".

Definition opened : ownershipManager * rstate * list effect := onConnect (at_ 1) old pod empty.
Definition m1 : ownershipManager := opened.1.1.
Definition reg1 : rstate := opened.1.2.
Definition refused : rstate := (onConnect (at_ 2) new m1 reg1).1.2.
Definition closed : ownershipManager * rstate * option error :=
  onDisconnect (at_ 3) new m1 refused.

Lemma pod_ok : manager_ok pod.
Proof. apply manager_ok_new. Qed.

Lemma room_at t s : RedisStore.issued "csms" s t < 2 ^ 52 → room (at_ t) s t.
Proof. intros. change (RedisStore.issued "csms" s t + 0 + 1 ≤ 2 ^ 53). lia. Qed.

Lemma opened_ok : manager_ok m1 ∧ wf reg1 1.
Proof.
  assert (connect_claim (at_ 1) old pod empty = (reg1, Ok (mkLease "CP1" "a" 1 30001000000)))
    as E by (vm_compute; reflexivity).
  split.
  - change m1 with (connect_install old (mkLease "CP1" "a" 1 30001000000) pod).1.
    apply manager_ok_install; [apply pod_ok|done].
  - assert (Claim (at_ 1) "CP1" "a" (30 * Time.Second) empty =
      (reg1, (mkLease "CP1" "a" 1 30001000000, None))) as Ec by (vm_compute; reflexivity).
    eapply claim_ok in Ec as [Hwf _]; [exact Hwf|apply (empty_wf 1)| |by apply room_at|done].
    change (1 ≤ 1). lia.
Qed.


Lemma onDisconnect_frees_witness :
  owns m1 "CP1" 1 = true ∧
  holder (onDisconnect (at_ 2) old m1 reg1).1.2 2 "CP1" = None.
Proof.
  split; [vm_compute; reflexivity|].
  destruct (onDisconnect_frees (at_ 2) old m1 reg1 (onDisconnect (at_ 2) old m1 reg1).1.1
    (onDisconnect (at_ 2) old m1 reg1).1.2 1 1) as (_ & Hfree & _);
    [apply opened_ok|apply opened_ok|discriminate|discriminate|discriminate|
     vm_compute; reflexivity|vm_compute; reflexivity|exact Hfree].
Defined.

Lemma refused_session_evicts_witness :
  owns m1 "CP1" 1 = true ∧ onConnect (at_ 2) new m1 reg1 = (m1, refused, [CloseSession new]) ∧
  owns closed.1.1 (Identity old) 1 = false ∧
  holder closed.1.2 (clock (at_ 3)) (Identity old) = None.
Proof.
  split; [vm_compute; reflexivity|]. split; [vm_compute; reflexivity|].
  apply (refused_session_evicts_open_one (at_ 2) (at_ 3) old new m1 reg1 refused
    closed.1.1 closed.1.2 1 1).
  - reflexivity.
  - discriminate.
  - apply opened_ok.
  - apply opened_ok.
  - discriminate.
  - change (RedisStore.issued "csms" reg1 1 + 0 + 1 ≤ 2 ^ 53). vm_compute. discriminate.
  - discriminate.
  - discriminate.
  - discriminate.
  - vm_compute. reflexivity.
  - vm_compute. reflexivity.
  - vm_compute. reflexivity.
Defined.
End Reconnect.
