(* ===== verification/Cluster.v ===== *)
(** * Several runtimes over one registry

    The distributed part of the ownership protocol: any number of runtimes, each
    with its own manager and its own goroutines, share one registry.  A step is
    one critical section of ownership.go or one registry call; they interleave in
    any order.  The registry is any implementation of the contract of Lease.v, so
    calls may fail, be resent or time out. *)

From S2P Require Import Prelude GoStd Redis Lease RedisRegistry Ownership.

Section cluster.
Context {Env S : Type} `{C : RegistryContract Env S}.

(** Goroutines between two critical sections. *)
Inductive task : Type :=
  | TInstall (r : nat) (s : Session) (l : Lease)  (** claimed, entry not yet published *)
  | TRenew (r : nat) (s : Session) (p : nat)      (** a renewal loop *)
  | TRelease (r : nat) (l : Lease).               (** detached, release not yet sent *)

(** [claims] is a ghost record: for every generation handed to a runtime, the
    runtime, the session and the station. *)
Record cluster : Type := mkCluster {
  registry : S;
  now : Z;
  runtimes : gmap nat ownershipManager;
  tasks : list task;
  claims : gmap Z (nat * nat * string)
}.

Definition with_runtime (c : cluster) (r : nat) (m : ownershipManager) (ts : list task) : cluster :=
  mkCluster (registry c) (now c) (<[r := m]> (runtimes c)) ts (claims c).
Definition with_registry (c : cluster) (reg : S) (t : Z) (ts : list task) : cluster :=
  mkCluster reg t (runtimes c) ts (claims c).

Inductive step : cluster → cluster → Prop :=
  | step_connect c r m s e reg' l :
      (** [onConnect]: the claim succeeded *)
      runtimes c !! r = Some m →
      within (now c) e → room e (registry c) (now c) → servable (Identity s) →
      connect_claim e s m (registry c) = (reg', Ok l) →
      step c (mkCluster reg' (clock e) (runtimes c) (TInstall r s l :: tasks c)
                (<[Generation l := (r, handle s, Identity s)]> (claims c)))
  | step_refused c r m s e reg' err :
      (** [onConnect]: the claim failed and the session is closed *)
      runtimes c !! r = Some m →
      within (now c) e → room e (registry c) (now c) → servable (Identity s) →
      connect_claim e s m (registry c) = (reg', Err err) →
      step c (with_registry c reg' (clock e) (tasks c))
  | step_install c r m s l ts1 ts2 m' p :
      (** [onConnect]: the entry is published and its renewal started *)
      runtimes c !! r = Some m → tasks c = ts1 ++ TInstall r s l :: ts2 →
      connect_install s l m = (m', [GoRenew s p]) →
      step c (with_runtime c r m' (TRenew r s p :: ts1 ++ ts2))
  | step_renew c r m s p e m' reg' go effs ts1 ts2 :
      (** [renew]: the ticker fired *)
      runtimes c !! r = Some m → tasks c = ts1 ++ TRenew r s p :: ts2 →
      within (now c) e →
      renew_tick e s p m (registry c) = (m', reg', go, effs) →
      step c (mkCluster reg' (clock e) (<[r := m']> (runtimes c))
                (if go : bool then tasks c else ts1 ++ ts2) (claims c))
  | step_renew_done c r s p ts1 ts2 :
      (** [renew]: the context is done *)
      tasks c = ts1 ++ TRenew r s p :: ts2 →
      step c (with_registry c (registry c) (now c) (ts1 ++ ts2))
  | step_detach c r m s m' o :
      (** [onDisconnect]: the entry is taken out of the map *)
      runtimes c !! r = Some m → disconnect_detach s m = (m', o) →
      step c (with_runtime c r m'
                (match o with Some l => TRelease r l :: tasks c | None => tasks c end))
  | step_release c r l e reg' err ts1 ts2 :
      (** [onDisconnect]: the lease is released *)
      tasks c = ts1 ++ TRelease r l :: ts2 →
      within (now c) e →
      Release e l (registry c) = (reg', err) →
      step c (with_registry c reg' (clock e) (ts1 ++ ts2))
  | step_lookup c id e reg' res :
      (** the command API looks up the owner of a station *)
      within (now c) e → Lookup e id (registry c) = (reg', res) →
      step c (with_registry c reg' (clock e) (tasks c))
  | step_wait c t :
      now c ≤ t → step c (with_registry c (registry c) t (tasks c)).

(** Initially nothing is connected; the registry may have a past. *)
Definition initial (c : cluster) : Prop :=
  wf (registry c) (now c) ∧ 0 ≤ issued (registry c) (now c) ∧
  tasks c = [] ∧ claims c = ∅ ∧
  ∀ r m, runtimes c !! r = Some m → entries m = ∅ ∧ heap m = ∅.

Definition reachable (c : cluster) : Prop := ∃ c0, initial c0 ∧ rtc step c0 c.

(** ** Invariant *)

(** The lease was handed to runtime [r] and nobody else. *)
Definition granted_to (c : cluster) (r : nat) (l : Lease) : Prop :=
  ∃ h, claims c !! Generation l = Some (r, h, StationIdentity l).

Definition task_ok (c : cluster) (k : task) : Prop :=
  match k with
  | TInstall r s l => granted_to c r l ∧ StationIdentity l = Identity s
  | TRelease r l => granted_to c r l
  | TRenew _ _ _ => True
  end.

Record inv (c : cluster) : Prop := {
  inv_wf : wf (registry c) (now c);
  inv_issued : 0 ≤ issued (registry c) (now c);
  inv_claims g x : claims c !! g = Some x → 0 < g ≤ issued (registry c) (now c);
  inv_servable g r h id : claims c !! g = Some (r, h, id) → servable id;
  inv_latest id o g : holder (registry c) (now c) id = Some (o, g) →
    ∀ g' r h, claims c !! g' = Some (r, h, id) → g' ≤ g;
  inv_manager r m : runtimes c !! r = Some m → manager_ok m;
  inv_heap r m p en : runtimes c !! r = Some m → heap m !! p = Some en →
    granted_to c r (lease en);
  inv_tasks k : k ∈ tasks c → task_ok c k;
}.

Lemma inv_initial c : initial c → inv c.
Proof.
  intros (Hwf & Hpos & Ht & Hc & Hm). split; try done.
  - intros g x. by rewrite Hc, lookup_empty.
  - intros g r h id. by rewrite Hc, lookup_empty.
  - intros id o g _ g' r h. by rewrite Hc, lookup_empty.
  - intros r m [He Hh]%Hm. split; intros ??; by rewrite ?He, ?Hh, lookup_empty.
  - intros r m p en [_ Hh]%Hm. by rewrite Hh, lookup_empty.
  - intros k. rewrite Ht. by intros ?%elem_of_nil.
Qed.

Lemma granted_pos c r l : inv c → granted_to c r l → 0 ≤ Generation l.
Proof. intros Hi [h Hg]. apply (inv_claims _ Hi) in Hg. lia. Qed.

Lemma granted_servable c r l : inv c → granted_to c r l → servable (StationIdentity l).
Proof. intros Hi [h Hg]. by apply (inv_servable _ Hi) in Hg. Qed.

(** A registry call that keeps the counter and makes no new holder. *)
Lemma inv_registry c reg' t' ts :
  inv c → now c ≤ t' → wf reg' t' → issued reg' t' = issued (registry c) (now c) →
  (∀ id x, holder reg' t' id = Some x → holder (registry c) (now c) id = Some x) →
  (∀ k, k ∈ ts → k ∈ tasks c) →
  inv (with_registry c reg' t' ts).
Proof.
  intros Hi Ht Hwf Hiss Hh Hts. split; cbn; try apply Hi; [done|rewrite Hiss; apply Hi|..].
  - intros g x Hg. rewrite Hiss. by eapply (inv_claims _ Hi).
  - intros id o g Hx%Hh. by eapply (inv_latest _ Hi).
  - intros k Hk%Hts. by apply (inv_tasks _ Hi).
Qed.

Lemma inv_wait c t' ts :
  inv c → now c ≤ t' → (∀ k, k ∈ ts → k ∈ tasks c) →
  inv (with_registry c (registry c) t' ts).
Proof.
  intros Hi Ht Hts. apply inv_registry; [done|done| | | |done].
  - eapply wf_later; [done|apply Hi].
  - eapply issued_later; [done|apply Hi].
  - intros id x. by apply holder_later.
Qed.

(** A change of one manager that keeps its shape and its leases. *)
Lemma inv_runtime c r m' ts :
  inv c → manager_ok m' →
  (∀ p en, heap m' !! p = Some en → granted_to c r (lease en)) →
  (∀ k, k ∈ ts → task_ok c k) →
  inv (with_runtime c r m' ts).
Proof.
  intros Hi Hm Hh Hts. split; cbn; try apply Hi.
  - intros r' m1 [[<- <-]|[_ ?]]%lookup_insert_Some; [done|].
    by eapply (inv_manager _ Hi).
  - intros r' m1 p en [[<- <-]|[_ Hr]]%lookup_insert_Some; [apply Hh|].
    by eapply (inv_heap _ Hi).
  - intros k Hk. by apply Hts.
Qed.

Lemma task_in {A} (x y : A) ts1 ts2 : y ∈ ts1 ++ ts2 → y ∈ ts1 ++ x :: ts2.
Proof. rewrite !elem_of_app, elem_of_cons. tauto. Qed.

Lemma inv_connect c r m s e reg' l :
  inv c → within (now c) e → room e (registry c) (now c) → servable (Identity s) →
  connect_claim e s m (registry c) = (reg', Ok l) →
  inv (mkCluster reg' (clock e) (runtimes c) (TInstall r s l :: tasks c)
         (<[Generation l := (r, handle s, Identity s)]> (claims c))).
Proof.
  intros Hi Hin Hroom Hsv Hc. unfold connect_claim in Hc.
  destruct (Claim e _ _ _ _) as [reg1 [l1 [err|]]] eqn:Ec; simplify_eq.
  pose proof (inv_issued _ Hi) as Hpos.
  destruct (claim_ok _ _ _ _ _ _ _ _ (inv_wf _ Hi) Hin Hroom Hsv Ec)
    as (Hwf & Hid & _ & Hlt & Hg & Hfree & _ & Hown & _).
  assert (∀ g x, claims c !! g = Some x → g ≠ Generation l) as Hfresh.
  { intros g x Hx. apply (inv_claims _ Hi) in Hx. lia. }
  assert (∀ r' l', granted_to c r' l' → granted_to (mkCluster reg' (clock e) (runtimes c)
    (TInstall r s l :: tasks c)
    (<[Generation l := (r, handle s, Identity s)]> (claims c))) r' l') as Hold.
  { intros r' l' [h Hh]. exists h. cbn. rewrite lookup_insert_ne; [done|].
    apply Hfresh in Hh. done. }
  split; cbn [registry now runtimes tasks claims].
  - done.
  - lia.
  - intros g x [[<- _]|[_ Hx]]%lookup_insert_Some; [lia|].
    apply (inv_claims _ Hi) in Hx. lia.
  - intros g r' h id [[_ ?]|[_ Hx]]%lookup_insert_Some; [by simplify_eq|].
    by eapply (inv_servable _ Hi).
  - intros id o g Hh g' r' h Hcl.
    destruct (claim_fresh _ _ _ _ _ _ _ _ _ _ (inv_wf _ Hi) Hin Hroom Hsv Ec Hh)
      as [Hh'|(-> & _ & Hnew)].
    + apply lookup_insert_Some in Hcl as [[_ ?]|[_ Hcl]]; [simplify_eq; congruence|].
      eapply (inv_latest _ Hi); [|done].
      eapply holder_later; [by apply within_clock|done].
    + apply Hown in Hh. simplify_eq. cbn in Hnew.
      apply lookup_insert_Some in Hcl as [[<- _]|[_ Hcl]]; [lia|].
      apply (inv_claims _ Hi) in Hcl. lia.
  - intros r' m' Hr. by eapply (inv_manager _ Hi).
  - intros r' m' p en Hr Hp. by eapply Hold, (inv_heap _ Hi).
  - intros k [->|Hk]%elem_of_cons.
    + split; [|done]. exists (handle s). cbn. by rewrite lookup_insert_eq, Hid.
    + apply (inv_tasks _ Hi) in Hk. destruct k; cbn in *; [split; [apply Hold, Hk|apply Hk]|done|].
      by apply Hold.
Qed.

Lemma inv_refused c m s e reg' err ts :
  inv c → within (now c) e → room e (registry c) (now c) → servable (Identity s) →
  connect_claim e s m (registry c) = (reg', Err err) → ts = tasks c →
  inv (with_registry c reg' (clock e) ts).
Proof.
  intros Hi Hin Hroom Hsv Hc ->. unfold connect_claim in Hc.
  destruct (Claim e _ _ _ _) as [reg1 [l1 [err1|]]] eqn:Ec; simplify_eq.
  destruct (claim_err _ _ _ _ _ _ _ _ _ (inv_wf _ Hi) Hin Hroom Hsv Ec) as (Hwf & Hle & _).
  split; cbn; try apply Hi; [done|pose proof (inv_issued _ Hi); lia|..].
  - intros g x Hx%(inv_claims _ Hi). lia.
  - intros id o g Hh g' r h Hcl.
    destruct (claim_fresh _ _ _ _ _ _ _ _ _ _ (inv_wf _ Hi) Hin Hroom Hsv Ec Hh)
      as [Hh'|(_ & _ & Hnew)].
    + eapply (inv_latest _ Hi); [|done].
      eapply holder_later; [by apply within_clock|done].
    + apply (inv_claims _ Hi) in Hcl. cbn in Hnew. lia.
Qed.

Lemma inv_renew c r m s p e m' reg' go effs ts :
  inv c → runtimes c !! r = Some m → within (now c) e →
  renew_tick e s p m (registry c) = (m', reg', go, effs) →
  (∀ k, k ∈ ts → k ∈ tasks c) →
  inv (mkCluster reg' (clock e) (<[r := m']> (runtimes c)) ts (claims c)).
Proof.
  intros Hi Hr Hin Ht Hts. unfold renew_tick in Ht.
  destruct (heap m !! p) as [en|] eqn:Ep; last first.
  { simplify_eq. pose proof (inv_wait c (clock e) ts Hi (within_clock _ _ Hin) Hts) as Hi1.
    apply (inv_runtime (with_registry c (registry c) (clock e) ts) r m'); [done| | |].
    - by eapply (inv_manager _ Hi).
    - intros q qe. by eapply (inv_heap _ Hi).
    - intros k Hk. by apply (inv_tasks _ Hi1). }
  pose proof (inv_heap _ Hi _ _ _ _ Hr Ep) as Hg.
  pose proof (granted_pos _ _ _ Hi Hg) as Hpos.
  pose proof (granted_servable _ _ _ Hi Hg) as Hsv.
  destruct (Renew e (lease en) (ttl m) (registry c)) as [reg1 [l1 oerr]] eqn:Ern.
  assert (wf reg1 (clock e) ∧ issued reg1 (clock e) = issued (registry c) (now c)) as [Hwf Hiss].
  { destruct oerr.
    - by eapply renew_err in Ern as [? ?]; [|apply Hi|..].
    - by eapply renew_ok in Ern as (? & ? & _); [|apply Hi|..]. }
  assert (inv (with_registry c reg1 (clock e) ts)) as Hi1.
  { apply inv_registry; [done|by apply within_clock|done|done| |done].
    intros id x. eapply renew_no_new; [apply Hi|done..]. }
  destruct oerr as [err|]; simplify_eq.
  - apply (inv_runtime (with_registry c reg' (clock e) ts) r m'); [done|by eapply (inv_manager _ Hi)| |].
    + intros q qe. by eapply (inv_heap _ Hi).
    + intros k Hk. by apply (inv_tasks _ Hi1).
  - eapply renew_ok in Ern as (_ & _ & Hid & Hf & _); [|apply Hi|done..].
    apply (inv_runtime (with_registry c reg' (clock e) ts) r); [done| | |].
    + eapply manager_ok_update; [by eapply (inv_manager _ Hi)|done|done].
    + cbn. intros q qe [[<- <-]|[_ Hq]]%lookup_insert_Some; [|by eapply (inv_heap _ Hi)].
      destruct Hg as [h Hg]. exists h. cbn. injection Hf as _ ->. by rewrite Hid.
    + intros k Hk. by apply (inv_tasks _ Hi1).
Qed.

(** The three critical sections that only touch one manager or one lease. *)
Lemma inv_install c r m s l m' effs ts p ts1 ts2 :
  inv c → runtimes c !! r = Some m → tasks c = ts1 ++ TInstall r s l :: ts2 →
  connect_install s l m = (m', effs) → ts = TRenew r s p :: ts1 ++ ts2 →
  inv (with_runtime c r m' ts).
Proof.
  intros Hi Hr Ht Hc ->.
  assert (task_ok c (TInstall r s l)) as [Hg Hid].
  { apply (inv_tasks _ Hi). rewrite Ht. set_solver. }
  pose proof (manager_ok_install s l m (inv_manager _ Hi _ _ Hr) Hid) as Hm.
  rewrite Hc in Hm. apply inv_runtime; [done|done| |].
  - unfold connect_install in Hc. simplify_eq. cbn.
    intros q qe [[<- <-]|[_ Hq]]%lookup_insert_Some; [done|by eapply (inv_heap _ Hi)].
  - intros k [->|Hk]%elem_of_cons; [done|]. apply (inv_tasks _ Hi).
    rewrite Ht. by apply task_in.
Qed.

(** Detaching keeps every lease and hands back one that was on file. *)
Lemma detach_leases s m m' o :
  disconnect_detach s m = (m', o) →
  (∀ q qe, heap m' !! q = Some qe → ∃ p en, heap m !! p = Some en ∧ lease qe = lease en) ∧
  (∀ l, o = Some l → ∃ p en, heap m !! p = Some en ∧ l = lease en).
Proof.
  unfold disconnect_detach. destruct (entries m !! Identity s) as [p|];
    [destruct (heap m !! p) as [en|] eqn:Ep|]; intros ?; simplify_eq/=;
    (split; [|naive_solver]); [|naive_solver..].
  intros q qe [[<- <-]|[_ Hq]]%lookup_insert_Some; eauto.
Qed.

Lemma inv_detach c r m s m' o ts :
  inv c → runtimes c !! r = Some m → disconnect_detach s m = (m', o) →
  ts = match o with Some l => TRelease r l :: tasks c | None => tasks c end →
  inv (with_runtime c r m' ts).
Proof.
  intros Hi Hr Hc ->.
  pose proof (manager_ok_detach s m (inv_manager _ Hi _ _ Hr)) as Hm. rewrite Hc in Hm.
  destruct (detach_leases _ _ _ _ Hc) as [Hheap Hout].
  apply inv_runtime; [done|done| |].
  - intros q qe (p & en & Hp & ->)%Hheap. by eapply (inv_heap _ Hi).
  - destruct o as [l|]; [|by apply Hi].
    intros k [->|Hk]%elem_of_cons; [|by apply Hi].
    destruct (Hout l eq_refl) as (p & en & Hp & ->). by eapply (inv_heap _ Hi).
Qed.

Lemma inv_release c r l e reg' err ts1 ts2 :
  inv c → tasks c = ts1 ++ TRelease r l :: ts2 → within (now c) e →
  Release e l (registry c) = (reg', err) →
  inv (with_registry c reg' (clock e) (ts1 ++ ts2)).
Proof.
  intros Hi Ht Hin Hc. assert (granted_to c r l) as Hg.
  { apply (inv_tasks _ Hi (TRelease r l)). rewrite Ht. set_solver. }
  pose proof (granted_pos _ _ _ Hi Hg). pose proof (granted_servable _ _ _ Hi Hg).
  destruct (release_own _ _ _ _ _ _ (inv_wf _ Hi) Hin ltac:(done) ltac:(done) Hc)
    as (? & ? & _).
  apply inv_registry; [done|by apply within_clock|done|done| |].
  - intros id x. eapply release_no_new; [apply Hi|done..].
  - intros k. rewrite Ht. apply task_in.
Qed.

Lemma inv_lookup c id e reg' res :
  inv c → within (now c) e → Lookup e id (registry c) = (reg', res) →
  inv (with_registry c reg' (clock e) (tasks c)).
Proof.
  intros Hi Hin Hc.
  destruct (lookup_any _ _ _ _ _ _ (inv_wf _ Hi) Hin Hc) as (? & ? & Hh).
  apply inv_registry; [done|by apply within_clock|done|done| |done].
  intros id' x. rewrite Hh. apply holder_later. by apply within_clock.
Qed.

Lemma inv_step c c' : inv c → step c c' → inv c'.
Proof.
  intros Hi Hs. destruct Hs as
    [| | |c r m s p e m' reg' go effs ts1 ts2 Hr Ht Hin Hc|c r s p ts1 ts2 Ht| | | |].
  - by eapply inv_connect.
  - by eapply inv_refused.
  - by eapply inv_install.
  - eapply inv_renew; [done..|]. intros k. destruct go; [done|]. rewrite Ht. apply task_in.
  - apply inv_wait; [done|lia|]. intros k. rewrite Ht. apply task_in.
  - by eapply inv_detach.
  - by eapply inv_release.
  - by eapply inv_lookup.
  - by apply inv_wait.
Qed.

Lemma reachable_inv c : reachable c → inv c.
Proof.
  intros (c0 & H0 & Hsteps). apply inv_initial in H0.
  induction Hsteps; eauto using inv_step.
Qed.

(** A station a runtime believes it owns was granted to it. *)
Lemma owns_granted c r m id g :
  inv c → runtimes c !! r = Some m → owns m id g = true →
  ∃ h, claims c !! g = Some (r, h, id).
Proof.
  intros Hi Hr (p & en & Hp & Hen & _ & <-)%owns_true.
  destruct (mo_entries _ (inv_manager _ Hi _ _ Hr) _ _ Hp) as (en' & Hen' & Hid).
  simplify_eq. destruct (inv_heap _ Hi _ _ _ _ Hr Hen) as [h Hh]. eauto.
Qed.

(** A command is addressed with the generation that a lookup reported. *)
Definition addressed (c : cluster) (id : string) (g : Z) : Prop :=
  ∃ e reg' l, within (now c) e ∧ servable id ∧
    Lookup e id (registry c) = (reg', (l, None)) ∧ Generation l = g.

Lemma addressed_holder c id g :
  inv c → addressed c id g → ∃ o, holder (registry c) (now c) id = Some (o, g).
Proof.
  intros Hi (e & reg' & l & Hin & Hsv & Hl & <-).
  destruct (lookup_ok _ _ _ _ _ _ (inv_wf _ Hi) Hin Hsv Hl) as [_ ?]. unfold fence in *. eauto.
Qed.

(** ** Fencing *)

(** C1: two runtimes never own the same fencing generation: in every reachable
    state of any number of runtimes over a shared registry, whatever the
    interleaving of connections, renewals, expiries, releases and failed or
    resent registry calls, a generation accepted by [owns] identifies one
    runtime and one station. *)
Theorem fencing_unique c r1 r2 m1 m2 id1 id2 g :
  reachable c → runtimes c !! r1 = Some m1 → runtimes c !! r2 = Some m2 →
  owns m1 id1 g = true → owns m2 id2 g = true →
  r1 = r2 ∧ id1 = id2.
Proof.
  intros Hi%reachable_inv H1 H2 O1 O2.
  destruct (owns_granted _ _ _ _ _ Hi H1 O1) as [h1 E1].
  destruct (owns_granted _ _ _ _ _ Hi H2 O2) as [h2 E2]. by simplify_eq.
Qed.

(** C2: no runtime owns a station with a generation newer than the one the
    registry reports to the command API, so a command addressed with the
    reported generation is refused by every runtime whose ownership is
    older. *)
Theorem stale_owner_is_fenced c r m id g g' :
  reachable c → runtimes c !! r = Some m →
  addressed c id g → owns m id g' = true →
  g' ≤ g ∧ (g' < g → owns m id g = false).
Proof.
  intros Hi%reachable_inv Hr Ha O.
  destruct (addressed_holder _ _ _ Hi Ha) as [o Hh].
  destruct (owns_granted _ _ _ _ _ Hi Hr O) as [h Hg].
  split; [by eapply (inv_latest _ Hi)|]. intros Hlt.
  destruct (owns m id g) eqn:O'; [|done].
  apply owns_true in O as (p & en & Hp & Hen & _ & <-).
  apply owns_true in O' as (p' & en' & Hp' & Hen' & _ & <-). simplify_eq. lia.
Qed.
End cluster.
Arguments cluster : clear implicits.

(** ** A takeover, step by step

    Two runtimes over the Redis registry of the concrete server: the lease of
    the first expires while its session is still open, the second claims. *)
Module Takeover.
Import RefRedis Deployed.

Definition pod (name : string) : ownershipManager :=
  newOwnershipManager name (30 * Time.Second) (10 * Time.Second).
Definition first : Session := mkSession 0 "CP1".
Definition second : Session := mkSession 1 "CP1".

Definition pods : gmap nat ownershipManager := {[ 0%nat := pod "a"; 1%nat := pod "b" ]}.
Definition idle : cluster rstate := mkCluster empty 0 pods [] ∅.

Definition connect (r : nat) (m : ownershipManager) (s : Session) (t : Z) (c : cluster rstate) :
    cluster rstate :=
  match connect_claim (at_ t) s m (registry c) with
  | (reg', Ok l) =>
      with_runtime
        (mkCluster reg' t (runtimes c) (tasks c)
           (<[Generation l := (r, handle s, Identity s)]> (claims c)))
        r (connect_install s l m).1 (TRenew r s (next m) :: tasks c)
  | (_, Err _) => c
  end.

Definition connected : cluster rstate := connect 0 (pod "a") first 1 idle.
Definition expired : cluster rstate :=
  with_registry connected (registry connected) 40000 (tasks connected).
Definition taken : cluster rstate := connect 1 (pod "b") second 40000 expired.

(** A connection that succeeds is a claim step and an install step. *)
Lemma connect_steps r m s t (c : cluster rstate) reg' l :
  runtimes c !! r = Some m → now c ≤ t → RedisStore.issued "csms" (registry c) (now c) < 2 ^ 52 →
  Identity s ≠ "generation" →
  connect_claim (at_ t) s m (registry c) = (reg', Ok l) →
  rtc step c (connect r m s t c).
Proof.
  intros Hr Ht Hroom Hid Hc. unfold connect. rewrite Hc.
  eapply rtc_l; [eapply (step_connect c r m s (at_ t)); [done| | |done|exact Hc]|].
  - exact Ht.
  - change (RedisStore.issued "csms" (registry c) (now c) + 0 + 1 ≤ 2 ^ 53). lia.
  - eapply rtc_l; [|apply rtc_refl].
    exact (step_install
      (mkCluster reg' t (runtimes c) (TInstall r s l :: tasks c)
        (<[Generation l := (r, handle s, Identity s)]> (claims c)))
      r m s l [] (tasks c) (connect_install s l m).1 (next m) Hr eq_refl eq_refl).
Qed.

Lemma idle_initial : initial idle.
Proof.
  unfold initial. cbn [registry now tasks claims runtimes idle]. split_and!; [|done..|].
  - apply empty_wf.
  - intros r m Hm. unfold pods in Hm.
    apply lookup_insert_Some in Hm as [[_ <-]|[_ Hm]]; [done|].
    apply lookup_singleton_Some in Hm as [_ <-]. done.
Qed.

Lemma taken_reachable : reachable taken.
Proof.
  exists idle. split; [apply idle_initial|].
  transitivity connected.
  { eapply (connect_steps 0 (pod "a") first 1); [done..| |done|]; vm_compute; reflexivity. }
  eapply rtc_l; [by apply (step_wait connected 40000)|].
  eapply (connect_steps 1 (pod "b") second 40000 expired); [done..| |done|];
    vm_compute; reflexivity.
Qed.

Definition runtime (r : nat) (c : cluster rstate) : ownershipManager :=
  default (pod "") (runtimes c !! r).

Lemma fencing_unique_witness :
  owns (runtime 1 taken) "CP1" 2 = true ∧ 1%nat = 1%nat ∧ "CP1" = "CP1".
Proof.
  split; [vm_compute; reflexivity|].
  apply (fencing_unique taken 1 1 (runtime 1 taken) (runtime 1 taken) "CP1" "CP1" 2);
    [exact taken_reachable|vm_compute; reflexivity..].
Defined.

Lemma taken_addressed : addressed taken "CP1" 2.
Proof.
  eexists (at_ 40001), _, _. split_and!; [|done|vm_compute; reflexivity|reflexivity].
  change (40000 ≤ 40001). lia.
Qed.

Lemma stale_owner_is_fenced_witness :
  owns (runtime 0 taken) "CP1" 1 = true ∧
  1 ≤ 2 ∧ (1 < 2 → owns (runtime 0 taken) "CP1" 2 = false).
Proof.
  split; [vm_compute; reflexivity|].
  apply (stale_owner_is_fenced taken 0 (runtime 0 taken) "CP1" 2 1);
    [exact taken_reachable|vm_compute; reflexivity|exact taken_addressed|
     vm_compute; reflexivity].
Defined.

(** A runtime goes on answering that it owns a station after its lease has
    expired and another runtime has claimed the station: the check before a
    command is executed compares the command with the lease cached in this
    runtime, without its expiry and without asking the registry.  A state with
    two owners of one station, of different generations, is reachable. *)
Theorem owner_unaware_of_takeover :
  reachable taken ∧
  owns (runtime 0 taken) "CP1" 1 = true ∧ owns (runtime 1 taken) "CP1" 2 = true ∧
  holder (registry taken) (now taken) "CP1" = Some ("b", 2).
Proof. split; [exact taken_reachable|]. split_and!; vm_compute; reflexivity. Qed.
End Takeover.
