(* ===== verification/CommandBus.v ===== *)
(** * The command bus (commandbus/bus.go and commandbus/redisbus/bus.go)

    Commands travel to the owner of a station on a Redis stream; results come
    back on a list.  A completion record per command keeps a redelivered command
    from being executed again. *)

From S2P Require Import Prelude GoStd Redis.

(** ** Commands and results *)

Record Command : Type := mkCommand {
  ID : string;
  StationIdentity : string;
  OwnerID : string;
  OwnerGeneration : Z;     (** uint64 *)
  Action : string;
  Payload : string;        (** json.RawMessage *)
  CreatedAt : Time.t;
  Deadline : Time.t
}.

#[export] Instance Command_eq_dec : EqDecision Command.
Proof. solve_decision. Defined.

(** [ResultPayload] is [None] for a nil [json.RawMessage]. *)
Record Result : Type := mkResult {
  CommandID : string;
  Success : bool;
  ResultPayload : option string;
  ErrorCode : string;
  ErrorDescription : string;
  CompletedAt : Time.t
}.

#[export] Instance Result_eq_dec : EqDecision Result.
Proof. solve_decision. Defined.

Definition noResult : Result := mkResult "" false None "" "" Time.zero.

Inductive bus_error : Type :=
  | ErrInvalidCommand (message : string)
  | ErrResultTimeout
  | ErrBusRedis (doing : string) (e : client_error)
  | ErrDecode (message : string)
  | ErrEncode
  | ErrBusArgument (message : string).

Definition set_id (r : Result) (id : string) : Result :=
  mkResult id (Success r) (ResultPayload r) (ErrorCode r) (ErrorDescription r) (CompletedAt r).
Definition set_completed_at (r : Result) (t : Time.t) : Result :=
  mkResult (CommandID r) (Success r) (ResultPayload r) (ErrorCode r) (ErrorDescription r) t.

(** [if result.CompletedAt.IsZero() { result.CompletedAt = time.Now().UTC() }] *)
Definition stamp (r : Result) (now : Time.t) : Result :=
  if Time.IsZero (CompletedAt r) then set_completed_at r now else r.

(** ** Encoding of a command as stream fields *)

Definition validateCommand (c : Command) : option bus_error :=
  if String.eqb (ID c) "" || String.eqb (StationIdentity c) "" || String.eqb (OwnerID c) ""
     || (OwnerGeneration c =? 0) || String.eqb (Action c) "" || Time.IsZero (CreatedAt c)
  then Some (ErrInvalidCommand
    "ID, station identity, owner ID, owner generation, action and creation time are required")
  else if negb (Time.IsZero (Deadline c)) && negb (Time.After (Deadline c) (CreatedAt c))
  then Some (ErrInvalidCommand "deadline must be after creation time")
  else None.

Definition timestamp (value : Time.t) : Z :=
  if Time.IsZero value then 0 else Time.UnixNano value.

(** The [values] map of [Publish]; Redis stores every field as text. *)
Definition commandFields (c : Command) : gmap string string :=
  list_to_map [
    ("id", ID c); ("station_identity", StationIdentity c); ("owner_id", OwnerID c);
    ("owner_generation", Strconv.FormatUint (OwnerGeneration c));
    ("action", Action c); ("payload", Payload c);
    ("created_at", Strconv.FormatInt (Time.UnixNano (CreatedAt c)));
    ("deadline", Strconv.FormatInt (timestamp (Deadline c)))
  ].

(** A stream entry as the client hands it over: every field a string. *)
Definition entryValues (fields : gmap string string) : gmap string go_any := AString <$> fields.

(** [values[key]]: the zero value of [any] for a missing key. *)
Definition get_any (values : gmap string go_any) (key : string) : go_any :=
  default ANil (values !! key).

Definition stringField (values : gmap string go_any) (key : string) : string :=
  match values !! key with
  | None | Some ANil => ""
  | Some raw => Sprint raw
  end.

Definition decodeGeneration (value : go_any) : result bus_error Z :=
  match Strconv.ParseInt (Sprint value) with
  | Some generation =>
      if generation <? 0 then Err (ErrDecode "decode Redis command owner generation")
      else Ok generation
  | None => Err (ErrDecode "decode Redis command owner generation")
  end.

Definition unixNano (value : go_any) : result bus_error Time.t :=
  match Strconv.ParseInt (Sprint value) with
  | None => Err (ErrDecode "decode Redis command timestamp")
  | Some nanoseconds =>
      if nanoseconds =? 0 then Ok Time.zero else Ok (Time.Unix0 nanoseconds)
  end.

Definition decodeCommand (values : gmap string go_any) : result bus_error Command :=
  (let! generation := decodeGeneration (get_any values "owner_generation") in
   let! createdAt := unixNano (get_any values "created_at") in
   let! deadline := unixNano (get_any values "deadline") in
   let command := mkCommand
     (stringField values "id") (stringField values "station_identity")
     (stringField values "owner_id") (wrap_uint64 generation) (stringField values "action")
     (stringField values "payload") createdAt deadline in
   match validateCommand command with
   | Some err => Err err
   | None => Ok command
   end)%go.

(** ** Keys *)

Definition commandStream (prefix ownerID : string) : string := prefix +:+ ":commands:" +:+ ownerID.
Definition resultKey (prefix id : string) : string := prefix +:+ ":command-results:" +:+ id.
Definition completionKey (prefix id : string) : string := prefix +:+ ":command-completions:" +:+ id.

Definition isBusyGroup (err : string) : bool := Strings.HasPrefix err "BUSYGROUP".

Definition pendingMinIdle : Time.Duration := 5 * Time.Second.

(** [type Bus struct] and [New]. *)
Record Bus : Type := mkBus { prefix : string; resultTTL : Time.Duration }.

Definition New {client : Type} (c : option client) (prefix : string) (ttl : Time.Duration) :
    result bus_error (client * Bus) :=
  match c with
  | None => Err (ErrBusArgument "redis client is nil")
  | Some c => Ok (c, mkBus (if String.eqb prefix "" then "csms" else prefix)
                        (if ttl <=? 0 then 5 * Time.Minute else ttl))
  end.

(** ** JSON of a result

    [encoding/json] on a [Result]: encoding fails on a payload that is not JSON;
    a nil payload is written as [null] and read back as that text. *)
Definition canonical (r : Result) : Result :=
  mkResult (CommandID r) (Success r) (Some (default "null" (ResultPayload r)))
    (ErrorCode r) (ErrorDescription r) (CompletedAt r).

Class ResultCodec : Type := {
  Marshal : Result → option string;
  Unmarshal : string → option Result;
  marshallable : Result → Prop;
  Marshal_ok r : marshallable r → is_Some (Marshal r);
  Unmarshal_Marshal r c : marshallable r → Marshal r = Some c → Unmarshal c = Some (canonical r);
}.

(** ** Operations *)

Section bus.
Context {R : Redis} {J : ResultCodec}.

(** *** Publish

    [XADD] is the one stream command it issues: any function of the stream,
    the fields and the server. *)
Section publish.
Context {streams : Type}
  (XADD : string → gmap string string → streams → streams * result client_error unit).

Definition Publish (bus : Bus) (command : Command) (s : streams) :
    streams * result bus_error unit :=
  match validateCommand command with
  | Some err => (s, Err err)
  | None =>
      match XADD (commandStream (prefix bus) (OwnerID command)) (commandFields command) s with
      | (s', Err e) => (s', Err (ErrBusRedis "publish Redis command" e))
      | (s', Ok _) => (s', Ok tt)
      end
  end.
End publish.

(** *** Results *)

Definition drop {A} (f : M rstate redis_error A) : M rstate redis_error unit :=
  f ≫= λ _, mret tt.

Definition completeTx (bus : Bus) (id content : string) (t : Z) : M rstate redis_error unit :=
  exec_tx [
    SETEX t (completionKey (prefix bus) id) content (resultTTL bus);
    drop (LPUSH t (resultKey (prefix bus) id) content);
    drop (EXPIRE t (resultKey (prefix bus) id) (resultTTL bus))
  ].

Definition complete (bus : Bus) (d : delivery) (now : Time.t) (r : Result) :
    M rstate bus_error unit := λ s,
  if String.eqb (CommandID r) "" then (s, Err (ErrBusArgument "command result ID is required"))
  else
    match Marshal (stamp r now) with
    | None => (s, Err ErrEncode)
    | Some content =>
        match call d (completeTx bus (CommandID r) content) s with
        | (s', Err e) => (s', Err (ErrBusRedis "complete Redis command" e))
        | (s', Ok _) => (s', Ok tt)
        end
    end.

(** [Ok None] is the [found = false] case. *)
Definition completed (bus : Bus) (d : delivery) (id : string) :
    M rstate bus_error (option Result) := λ s,
  match call d (λ t s, (s, GET t (completionKey (prefix bus) id) s)) s with
  | (s', Err e) => (s', Err (ErrBusRedis "read completed Redis command" e))
  | (s', Ok None) => (s', Ok None)
  | (s', Ok (Some content)) =>
      match Unmarshal content with
      | None => (s', Err (ErrDecode "decode completed Redis command"))
      | Some r => (s', Ok (Some r))
      end
  end.

Definition pollInterval : Time.Duration := 25 * Time.Millisecond.

(** One turn of the loop of [AwaitResult]: what other clients did to the server since
    the turn before, when [RPop] is called, the fate of the command, when the call
    returns, when the channel of the ticker holds a tick, and the choice the [select]
    makes when it finds both channels ready. *)
Record poll : Type := Poll {
  others : rstate → rstate;
  began : Time.t; pop : delivery; ended : Time.t; tick : Time.t; coin : bool
}.

(** The [select], reached at [ended]: whether the branch of [ctx.Done()] is taken.  It
    waits for the channel that is ready first; the runtime picks one when both are. *)
Definition select_ctx (ctx : Ctx.t) (p : poll) : bool :=
  match ctx with
  | None => false
  | Some (d, _) =>
      match Z.max d (ended p) ?= Z.max (tick p) (ended p) with
      | Lt => true
      | Gt => false
      | Eq => coin p
      end
  end.

Inductive awaited : Type :=
  | Got (r : Result)
  | AwaitFailed (e : bus_error)
  | StillWaiting.           (** the turns considered so far did not end it *)

Fixpoint awaitLoop (bus : Bus) (ctx : Ctx.t) (id : string) (polls : list poll) (s : rstate) :
    rstate * awaited :=
  match polls with
  | [] => (s, StillWaiting)
  | p :: polls =>
      match call (pop p) (λ t, RPOP t (resultKey (prefix bus) id)) (others p s) with
      | (s', Ok (Some value)) =>
          match Unmarshal value with
          | None => (s', AwaitFailed (ErrDecode "decode Redis command result"))
          | Some r => (s', Got r)
          end
      | (s', Err (Context _)) => (s', AwaitFailed ErrResultTimeout)
      | (s', Err e) => (s', AwaitFailed (ErrBusRedis "await Redis command result" e))
      | (s', Ok None) =>
          if select_ctx ctx p then (s', AwaitFailed ErrResultTimeout)
          else awaitLoop bus ctx id polls s'
      end
  end.

Definition AwaitResult (bus : Bus) (ctx : Ctx.t) (id : string) (polls : list poll) (s : rstate) :
    rstate * awaited :=
  if String.eqb id "" then (s, AwaitFailed (ErrInvalidCommand "command ID is required"))
  else awaitLoop bus ctx id polls s.

(** *** The consumer *)

Context {H : Type} (handler : Ctx.t → Time.t → Command → H → H * Result).

(** [now] is when the handler starts, [done] when it returns. *)
Definition runHandler (parent : Ctx.t) (now done : Time.t) (command : Command) (h : H) : H * Result :=
  let ctx := if Time.IsZero (Deadline command) then parent
             else Ctx.WithDeadline parent (Deadline command) in
  let '(h', r) := handler ctx now command h in
  (h', stamp (set_id r (ID command)) done).

Record XMessage : Type := Message { MessageID : string; Values : gmap string go_any }.

(** The circumstances in which one message is processed; [refused_ack] is the error
    with which the server answers [XACK], if it does. *)
Record moment : Type := Moment {
  d_get : delivery; d_complete : delivery; d_ack : delivery; refused_ack : option redis_error;
  t_run : Time.t; t_done : Time.t; t_complete : Time.t
}.

(** The server, the state the handler acts on, and the messages acknowledged. *)
Record world : Type := World { server : rstate; hstate : H; acked : list string }.

(** An acknowledgement reaches the server unless no attempt did. *)
Definition executed (d : delivery) : bool :=
  match lost d, seen d with
  | [], NotSent _ | [], Unreachable => false
  | _, _ => true
  end.

(** [bus.client.XAck]: the messages of the group's pending list change only when the
    server executes the command without an error. *)
Definition ack (d : delivery) (refused : option redis_error) (id : string) (w : world) :
    world * result bus_error unit :=
  let w' :=
    match refused with
    | None => if executed d then World (server w) (hstate w) (id :: acked w) else w
    | Some _ => w
    end in
  (w', match seen d with
       | Replied =>
           match refused with
           | None => Ok tt
           | Some e => Err (ErrBusRedis "ack Redis command" (Server e))
           end
       | NotSent e | ReplyLost e => Err (ErrBusRedis "ack Redis command" (Context e))
       | Unreachable => Err (ErrBusRedis "ack Redis command" Network)
       end).

Definition processMessage (bus : Bus) (ctx : Ctx.t) (at_ : moment) (m : XMessage) (w : world) :
    world * result bus_error unit :=
  match decodeCommand (Values m) with
  | Err e => (w, Err e)
  | Ok command =>
      match completed bus (d_get at_) (ID command) (server w) with
      | (s1, Err e) => (World s1 (hstate w) (acked w), Err e)
      | (s1, Ok found) =>
          let '(h1, r) :=
            match found with
            | Some r => (hstate w, r)
            | None => runHandler ctx (t_run at_) (t_done at_) command (hstate w)
            end in
          match complete bus (d_complete at_) (t_complete at_) r s1 with
          | (s2, Err e) => (World s2 h1 (acked w), Err e)
          | (s2, Ok _) => ack (d_ack at_) (refused_ack at_) (MessageID m) (World s2 h1 (acked w))
          end
      end
  end.

Fixpoint processMessages (bus : Bus) (ctx : Ctx.t) (ms : list (moment * XMessage)) (w : world) :
    world * result bus_error unit :=
  match ms with
  | [] => (w, Ok tt)
  | (at_, m) :: ms =>
      match processMessage bus ctx at_ m w with
      | (w', Err e) => (w', Err e)
      | (w', Ok _) => processMessages bus ctx ms w'
      end
  end.

(** What a blocking stream command returned. *)
Inductive stream_reply : Type :=
  | SMessages (ms : list (moment * XMessage))
  | SCanceled
  | SNil
  | SFailed (e : client_error).

(** One turn of the consumer loop: the clock before the recovery test, the
    reply of [XAUTOCLAIM] if it is issued, the clock after recovery, and the
    reply of [XREADGROUP]. *)
Record turn : Type := Turn {
  t_test : Time.t; autoclaim : stream_reply; t_recovered : Time.t; readgroup : stream_reply
}.

Inductive consumer_end : Type :=
  | Consuming                      (** the turns considered so far did not end it *)
  | Stopped                        (** returned nil: the context was canceled *)
  | ConsumerFailed (e : bus_error).

(** The [XAUTOCLAIM] part of a turn; [Ok t] is the new [lastRecovery]. *)
Definition recover (bus : Bus) (ctx : Ctx.t) (last : Time.t) (x : turn) (w : world) :
    world * result consumer_end Time.t :=
  if pendingMinIdle <=? t_test x - last then
    match autoclaim x with
    | SCanceled => (w, Err Stopped)
    | SFailed e => (w, Err (ConsumerFailed (ErrBusRedis "recover pending Redis commands" e)))
    | SNil => (w, Ok (t_recovered x))
    | SMessages ms =>
        match processMessages bus ctx ms w with
        | (w', Err e) => (w', Err (ConsumerFailed e))
        | (w', Ok _) => (w', Ok (t_recovered x))
        end
    end
  else (w, Ok last).

Fixpoint consumerLoop (bus : Bus) (ctx : Ctx.t) (last : Time.t) (turns : list turn) (w : world) :
    world * consumer_end :=
  match turns with
  | [] => (w, Consuming)
  | x :: turns =>
      match recover bus ctx last x w with
      | (w', Err stop) => (w', stop)
      | (w', Ok last') =>
          match readgroup x with
          | SCanceled => (w', Stopped)
          | SNil => consumerLoop bus ctx last' turns w'
          | SFailed e => (w', ConsumerFailed (ErrBusRedis "consume Redis command" e))
          | SMessages ms =>
              match processMessages bus ctx ms w' with
              | (w'', Err e) => (w'', ConsumerFailed e)
              | (w'', Ok _) => consumerLoop bus ctx last' turns w''
              end
          end
      end
  end.

(** [group] is the error text of [XGROUP CREATE], if any. *)
Definition RunConsumer (bus : Bus) (ctx : Ctx.t) (ownerID : string)
    (group : option (string * client_error)) (turns : list turn) (w : world) :
    world * consumer_end :=
  if String.eqb ownerID "" then
    (w, ConsumerFailed (ErrBusArgument "owner ID and command handler are required"))
  else
    match group with
    | Some (text, e) =>
        if isBusyGroup text then consumerLoop bus ctx Time.zero turns w
        else (w, ConsumerFailed (ErrBusRedis "create Redis command consumer group" e))
    | None => consumerLoop bus ctx Time.zero turns w
    end.
End bus.

(** ** Encoding and decoding *)

Lemma validateCommand_None c :
  validateCommand c = None ↔
  ID c ≠ "" ∧ StationIdentity c ≠ "" ∧ OwnerID c ≠ "" ∧ OwnerGeneration c ≠ 0 ∧
  Action c ≠ "" ∧ CreatedAt c ≠ Time.zero ∧
  (Deadline c = Time.zero ∨ CreatedAt c < Deadline c).
Proof.
  unfold validateCommand, Time.IsZero, Time.After.
  destruct (String.eqb_spec (ID c) ""), (String.eqb_spec (StationIdentity c) ""),
    (String.eqb_spec (OwnerID c) ""), (Z.eqb_spec (OwnerGeneration c) 0),
    (String.eqb_spec (Action c) ""), (Z.eqb_spec (CreatedAt c) Time.zero); cbn; try tauto;
    try (split; [done|tauto]).
  destruct (Z.eqb_spec (Deadline c) Time.zero), (Z.ltb_spec (CreatedAt c) (Deadline c)); cbn;
    intuition (try done; try lia).
Qed.

(** Instants a stream entry can carry: those whose nanoseconds fit an [int64],
    the Unix epoch itself excepted since [0] stands for the zero time. *)
Definition carries (t : Time.t) : Prop := in_int64 t ∧ t ≠ 0.

Lemma stringField_values f k v :
  f !! k = Some v → stringField (entryValues f) k = v.
Proof. intros E. unfold stringField, entryValues. by rewrite lookup_fmap, E. Qed.

Lemma get_any_values f k v :
  f !! k = Some v → get_any (entryValues f) k = AString v.
Proof. intros E. unfold get_any, entryValues. by rewrite lookup_fmap, E. Qed.

Lemma unixNano_carries t :
  carries t → unixNano (AString (Strconv.FormatInt (Time.UnixNano t))) = Ok t.
Proof.
  intros [Hin Hne]. unfold unixNano, Time.UnixNano, Time.Unix0. rewrite wrap_int64_small by done.
  change (Sprint (AString ?x)) with x. rewrite Strconv.ParseInt_FormatInt by done.
  by destruct (Z.eqb_spec t 0).
Qed.

Lemma unixNano_timestamp t :
  t = Time.zero ∨ carries t →
  unixNano (AString (Strconv.FormatInt (timestamp t))) = Ok t.
Proof.
  intros Ht. unfold timestamp, Time.IsZero. destruct (Z.eqb_spec t Time.zero) as [->|Hne]; [done|].
  apply unixNano_carries. tauto.
Qed.

Lemma decodeGeneration_format g :
  0 ≤ g ≤ int64_max → decodeGeneration (AString (Strconv.FormatUint g)) = Ok g.
Proof.
  intros Hg. unfold decodeGeneration. change (Sprint (AString ?x)) with x.
  rewrite Strconv.ParseInt_FormatUint by done. case_match; bool_to_prop; [lia|done].
Qed.

(** A valid command survives the trip through the stream. *)
Lemma decode_fields c :
  validateCommand c = None → 0 ≤ OwnerGeneration c ≤ int64_max →
  carries (CreatedAt c) → Deadline c = Time.zero ∨ carries (Deadline c) →
  decodeCommand (entryValues (commandFields c)) = Ok c.
Proof.
  intros Hv Hg Hc Hd. unfold decodeCommand.
  rewrite (get_any_values _ _ (Strconv.FormatUint (OwnerGeneration c))) by done.
  rewrite decodeGeneration_format by done.
  rewrite (get_any_values _ _ (Strconv.FormatInt (Time.UnixNano (CreatedAt c)))) by done.
  rewrite unixNano_carries by done.
  rewrite (get_any_values _ _ (Strconv.FormatInt (timestamp (Deadline c)))) by done.
  rewrite unixNano_timestamp by done.
  rewrite (stringField_values _ _ (ID c)), (stringField_values _ _ (StationIdentity c)),
    (stringField_values _ _ (OwnerID c)), (stringField_values _ _ (Action c)),
    (stringField_values _ _ (Payload c)) by done.
  rewrite wrap_uint64_small by (unfold in_uint64, uint64_max, int64_max in *; lia).
  destruct c as [i st o g a p cr dl]; cbn in *. by rewrite Hv.
Qed.

(** Whatever the entry holds, a command that comes out of it is valid. *)
Lemma decode_valid values c :
  decodeCommand values = Ok c →
  validateCommand c = None ∧ 0 ≤ OwnerGeneration c ≤ int64_max.
Proof.
  unfold decodeCommand. destruct (decodeGeneration _) as [g|] eqn:Eg; [|done].
  destruct (unixNano (get_any values "created_at")); [|done].
  destruct (unixNano (get_any values "deadline")); [|done].
  destruct (validateCommand _) eqn:Ev; [done|]. intros [= <-]. split; [done|].
  cbn. unfold decodeGeneration in Eg. destruct (Strconv.ParseInt _) as [n|] eqn:En; [|done].
  destruct (Z.ltb_spec n 0); [done|]. injection Eg as <-.
  apply Strconv.ParseInt_range in En as [_ En].
  rewrite wrap_uint64_small; [lia|]. unfold in_uint64, uint64_max, int64_max in *. lia.
Qed.

(** A generation that does not fit an [int64] is published but never decoded. *)
Lemma decode_large_generation c :
  int64_max < OwnerGeneration c ≤ uint64_max →
  decodeCommand (entryValues (commandFields c)) =
    Err (ErrDecode "decode Redis command owner generation").
Proof.
  intros Hg. unfold decodeCommand.
  rewrite (get_any_values _ _ (Strconv.FormatUint (OwnerGeneration c))) by done.
  assert (decodeGeneration (AString (Strconv.FormatUint (OwnerGeneration c))) =
    Err (ErrDecode "decode Redis command owner generation")) as ->; [|done].
  unfold decodeGeneration. change (Sprint (AString ?x)) with x.
  assert (Strconv.ParseInt (Strconv.FormatUint (OwnerGeneration c)) = None) as ->; [|done].
  unfold int64_max in Hg.
  destruct (Strconv.FormatUint_cons (OwnerGeneration c)) as (d & s & Hd & E); [lia|].
  unfold Strconv.ParseInt. rewrite E.
  destruct (Strconv.digit_char_not_sign d Hd) as [-> ->]. cbn [orb]. rewrite <- E.
  rewrite Strconv.ParseUint_FormatUint by (unfold in_uint64; lia).
  case_match; bool_to_prop; [done|lia].
Qed.
