(* ===== verification/Rfc3339.v ===== *)
(** * What the sources use of [time]: dates and the RFC 3339 layout

    The proleptic Gregorian calendar, [Time.Format(time.RFC3339)] of an instant in
    UTC, and [time.Parse(time.RFC3339, value)] with the leniencies of the Go
    parser: a one-digit hour, a fraction of a second the layout does not mention,
    with a comma or a period, and zone offsets of up to 24:60. *)

From S2P Require Import Prelude GoStd.

Module Rfc3339.
Import Strconv.

(** ** The calendar *)

Definition isLeap (y : Z) : bool :=
  (y `mod` 4 =? 0) && (negb (y `mod` 100 =? 0) || (y `mod` 400 =? 0)).

(** Days from January 1 of year 1 to January 1 of year [y]. *)
Definition days_before_year (y : Z) : Z :=
  let p := y - 1 in 365 * p + p / 4 - p / 100 + p / 400.

Definition month_lengths (leap : bool) : list Z :=
  [31; if leap then 29 else 28; 31; 30; 31; 30; 31; 31; 30; 31; 30; 31].

(** [daysIn]; months are numbered from 1. *)
Definition daysIn (month year : Z) : Z :=
  nth (Z.to_nat (month - 1)) (month_lengths (isLeap year)) 0.

Fixpoint days_before_month (lengths : list Z) (k : nat) : Z :=
  match k, lengths with
  | S k, l :: lengths => l + days_before_month lengths k
  | _, _ => 0
  end.

(** The month and the day of the month, both from 0, of a day of the year. *)
Fixpoint month_of (lengths : list Z) (yday : Z) : nat * Z :=
  match lengths with
  | [] => (0%nat, yday)
  | l :: lengths =>
      if yday <? l then (0%nat, yday)
      else let '(m, d) := month_of lengths (yday - l) in (S m, d)
  end.

(** The year and the day of the year of a number of days since January 1 of year 1:
    centuries of 36524 days, of which the fourth has one more, cycles of 1461 days
    and years of 365, of which again the fourth has one more. *)
Definition year_of (days : Z) : Z * Z :=
  let n400 := days / 146097 in
  let r400 := days `mod` 146097 in
  let n100 := Z.min 3 (r400 / 36524) in
  let r100 := r400 - 36524 * n100 in
  let n4 := r100 / 1461 in
  let r4 := r100 `mod` 1461 in
  let n := Z.min 3 (r4 / 365) in
  (400 * n400 + 100 * n100 + 4 * n4 + n + 1, r4 - 365 * n).

(** Days from January 1 of year 1 to the Unix epoch. *)
Definition epoch_days : Z := 719162.

(** [time.Date] in UTC, for a month and a day in their ranges. *)
Definition Date (year month day hour minute second nsec : Z) : Time.t :=
  let days := days_before_year year
              + days_before_month (month_lengths (isLeap year)) (Z.to_nat (month - 1))
              + (day - 1) - epoch_days in
  (((days * 24 + hour) * 60 + minute) * 60 + second) * Time.Second + nsec.

(** ** Formatting *)

Definition two (n : Z) (rest : string) : string :=
  String (digit_char (n / 10)) (String (digit_char (n `mod` 10)) rest).

(** At least four digits, after the sign. *)
Definition year_digits (y : Z) (rest : string) : string :=
  let u := Z.abs y in
  let s := if u <? 10000 then two (u / 100) (two (u `mod` 100) rest) else FormatUint u +:+ rest in
  if y <? 0 then String "-" s else s.

(** Date and time of day, and what comes after the seconds. *)
Definition format_with (tail : string) (x : Time.t) : string :=
  let seconds := x / Time.Second in
  let days := seconds / 86400 in
  let of_day := seconds `mod` 86400 in
  let '(year, yday) := year_of (days + epoch_days) in
  let '(month, day) := month_of (month_lengths (isLeap year)) yday in
  year_digits year (String "-" (two (Z.of_nat month + 1) (String "-" (two (day + 1)
    (String "T" (two (of_day / 3600) (String ":" (two ((of_day / 60) `mod` 60)
    (String ":" (two (of_day `mod` 60) tail)))))))))).

Definition FormatRFC3339 : Time.t → string := format_with "Z".

(** The nine digits of the nanoseconds, without the zeros at the end. *)
Definition nine_digits (n : Z) : list Z :=
  [n / 100000000; (n / 10000000) `mod` 10; (n / 1000000) `mod` 10; (n / 100000) `mod` 10;
   (n / 10000) `mod` 10; (n / 1000) `mod` 10; (n / 100) `mod` 10; (n / 10) `mod` 10; n `mod` 10].
Fixpoint trim_zeros (ds : list Z) : list Z :=
  match ds with
  | [] => []
  | d :: ds => match trim_zeros ds with [] => if d =? 0 then [] else [d] | l => d :: l end
  end.
Fixpoint digit_text (ds : list Z) (tail : string) : string :=
  match ds with [] => tail | d :: ds => String (digit_char d) (digit_text ds tail) end.
Definition fraction_text (nsec : Z) (tail : string) : string :=
  match trim_zeros (nine_digits nsec) with [] => tail | ds => String "." (digit_text ds tail) end.

(** [time.RFC3339Nano] *)
Definition FormatRFC3339Nano (x : Time.t) : string :=
  format_with (fraction_text (x `mod` Time.Second) "Z") x.

(** ** Parsing *)

(** [getnum]: one or two digits, or exactly two when [fixed]. *)
Definition getnum (fixed : bool) (s : string) : option (Z * string) :=
  match s with
  | "" => None
  | String a s1 =>
      match digit_val a with
      | None => None
      | Some x =>
          match s1 with
          | String b s2 =>
              match digit_val b with
              | Some y => Some (x * 10 + y, s2)
              | None => if fixed then None else Some (x, s1)
              end
          | "" => if fixed then None else Some (x, s1)
          end
      end
  end.

(** Four digits. *)
Definition getyear (s : string) : option (Z * string) :=
  '(c, s) ← getnum true s; '(y, s) ← getnum true s; Some (c * 100 + y, s).

Definition skip (c : ascii) (s : string) : option string :=
  match s with
  | String a s => if Ascii.eqb a c then Some s else None
  | "" => None
  end.

Definition within (lo hi : Z) (p : Z * string) : option (Z * string) :=
  if (lo <=? p.1) && (p.1 <=? hi) then Some p else None.

(** The leading digits of [s]. *)
Fixpoint span_digits (s : string) : list Z * string :=
  match s with
  | String c s1 =>
      match digit_val c with
      | Some d => let '(ds, rest) := span_digits s1 in (d :: ds, rest)
      | None => ([], s)
      end
  | "" => ([], s)
  end.

(** [parseNanoseconds]: the first nine digits of the fraction. *)
Fixpoint nanoseconds (places : nat) (acc : Z) (ds : list Z) : Z :=
  match places with
  | O => acc
  | S places =>
      match ds with
      | [] => nanoseconds places (acc * 10) []
      | d :: ds => nanoseconds places (acc * 10 + d) ds
      end
  end.

Definition fraction (s : string) : Z * string :=
  match s with
  | String c s1 =>
      if Ascii.eqb c "." || Ascii.eqb c "," then
        match span_digits s1 with
        | ([], _) => (0, s)
        | (ds, rest) => (nanoseconds 9 0 ds, rest)
        end
      else (0, s)
  | "" => (0, s)
  end.

(** The zone: [Z], or a sign with hours and minutes; the offset in seconds. *)
Definition zone (s : string) : option (Z * string) :=
  match s with
  | "" => None
  | String c s1 =>
      if Ascii.eqb c "Z" then Some (0, s1)
      else
        '(hh, s) ← getnum true s1 ≫= within 0 24;
        s ← skip ":" s;
        '(mm, s) ← getnum true s ≫= within 0 60;
        let off := (hh * 60 + mm) * 60 in
        if Ascii.eqb c "+" then Some (off, s)
        else if Ascii.eqb c "-" then Some (- off, s)
        else None
  end.

Definition ParseRFC3339 (s : string) : option Time.t :=
  '(year, s) ← getyear s;
  s ← skip "-" s;
  '(month, s) ← getnum true s ≫= within 1 12;
  s ← skip "-" s;
  '(day, s) ← getnum true s;
  s ← skip "T" s;
  '(hour, s) ← getnum false s ≫= within 0 23;
  s ← skip ":" s;
  '(minute, s) ← getnum true s ≫= within 0 59;
  s ← skip ":" s;
  '(second, s) ← getnum true s ≫= within 0 59;
  let '(nsec, s) := fraction s in
  '(offset, s) ← zone s;
  if negb (String.eqb s "") then None
  else if (day <? 1) || (daysIn month year <? day) then None
  else Some (Date year month day hour minute second nsec - offset * Time.Second).

Example format_epoch : FormatRFC3339 0 = "1970-01-01T00:00:00Z".
Proof. vm_compute. reflexivity. Qed.
Example format_leap_day :
  FormatRFC3339 (1709251199 * Time.Second + 5) = "2024-02-29T23:59:59Z".
Proof. vm_compute. reflexivity. Qed.
Example format_nano :
  FormatRFC3339Nano (1709251199 * Time.Second + 250000000) = "2024-02-29T23:59:59.25Z".
Proof. vm_compute. reflexivity. Qed.
Example format_zero : FormatRFC3339 Time.zero = "0001-01-01T00:00:00Z".
Proof. vm_compute. reflexivity. Qed.
Example parse_offset :
  ParseRFC3339 "2024-02-29T9:59:59,25+09:00" = Some (1709168399 * Time.Second + 250000000).
Proof. vm_compute. reflexivity. Qed.
Example parse_no_leap_day : ParseRFC3339 "2023-02-29T00:00:00Z" = None.
Proof. vm_compute. reflexivity. Qed.

(** ** The calendar is a bijection *)

(** Linear arithmetic with division and remainder by constants. *)
Ltac div_lia := Z.to_euclidean_division_equations; lia.

(** Splitting a number of days into a year and a day of the year loses nothing, and
    the day of the year is one that year has. *)
Lemma year_of_spec d y yd :
  year_of d = (y, yd) →
  days_before_year y + yd = d ∧ 0 ≤ yd < (if isLeap y then 366 else 365).
Proof.
  unfold year_of, days_before_year. intros [= <- <-].
  set (n400 := d / 146097). set (r400 := d `mod` 146097).
  set (n100 := Z.min 3 (r400 / 36524)). set (r100 := r400 - 36524 * n100).
  set (n4 := r100 / 1461). set (r4 := r100 `mod` 1461). set (n := Z.min 3 (r4 / 365)).
  assert (d = 146097 * n400 + r400 ∧ 0 ≤ r400 < 146097) as [Hd Hr400].
  { subst n400 r400. div_lia. }
  assert (0 ≤ n100 ≤ 3 ∧ 0 ≤ r100 ∧ (n100 = 3 → r100 ≤ 36524) ∧ (n100 < 3 → r100 < 36524))
    as (Hn100 & Hr100 & Hc1 & Hc2).
  { subst n100 r100. div_lia. }
  assert (r100 = 1461 * n4 + r4 ∧ 0 ≤ r4 < 1461 ∧ 0 ≤ n4 ≤ 24 ∧ (n4 = 24 → n100 < 3 → r4 < 1460))
    as (Hr & Hr4 & Hn4 & Hc3).
  { subst n4 r4. div_lia. }
  assert (0 ≤ n ≤ 3 ∧ 0 ≤ r4 - 365 * n ∧ (n = 3 → r4 - 365 * n ≤ 365) ∧ (n < 3 → r4 - 365 * n < 365))
    as (Hn & Hyd & Hc4 & Hc5).
  { subst n. div_lia. }
  clearbody n400 r400 n100 n4 r4 n. subst r100.
  replace (400 * n400 + 100 * n100 + 4 * n4 + n + 1 - 1)
    with (400 * n400 + 100 * n100 + 4 * n4 + n) by lia.
  split; [div_lia|]. unfold isLeap.
  destruct (Z.eqb_spec ((400 * n400 + 100 * n100 + 4 * n4 + n + 1) `mod` 4) 0),
    (Z.eqb_spec ((400 * n400 + 100 * n100 + 4 * n4 + n + 1) `mod` 100) 0),
    (Z.eqb_spec ((400 * n400 + 100 * n100 + 4 * n4 + n + 1) `mod` 400) 0); cbn; div_lia.
Qed.
Lemma month_of_spec lengths yd m d :
  0 ≤ yd < foldr Z.add 0 lengths → month_of lengths yd = (m, d) →
  days_before_month lengths m + d = yd ∧ 0 ≤ d < nth m lengths 0 ∧ (m < length lengths)%nat.
Proof.
  revert yd m d. induction lengths as [|l lengths IH]; cbn [month_of foldr]; intros yd m d Hyd;
    [lia|].
  destruct (Z.ltb_spec yd l).
  - intros [= <- <-]. cbn. lia.
  - destruct (month_of lengths (yd - l)) as [m' d'] eqn:E. intros [= <- <-].
    apply IH in E; [|lia]. cbn. lia.
Qed.

Lemma year_length leap : foldr Z.add 0 (month_lengths leap) = if leap then 366 else 365.
Proof. by destruct leap. Qed.

Lemma month_length leap m : nth m (month_lengths leap) 0 ≤ 31.
Proof. destruct leap; do 12 (destruct m as [|m]; [cbn; lia|]); destruct m; cbn; lia. Qed.

(** ** Printing and reading back *)

Lemma getnum_two fixed n rest : 0 ≤ n < 100 → getnum fixed (two n rest) = Some (n, rest).
Proof.
  intros Hn. unfold getnum, two. rewrite !digit_val_char by div_lia. do 2 f_equal. div_lia.
Qed.

Lemma getyear_digits y rest : 0 ≤ y < 10000 → getyear (year_digits y rest) = Some (y, rest).
Proof.
  intros Hy. unfold getyear, year_digits. rewrite Z.abs_eq by lia.
  destruct (Z.ltb_spec y 0), (Z.ltb_spec y 10000); [lia..| |lia].
  rewrite getnum_two by div_lia. cbn [mbind option_bind]. rewrite getnum_two by div_lia. cbn.
  do 2 f_equal. div_lia.
Qed.

Lemma within_id lo hi n rest : lo ≤ n ≤ hi → within lo hi (n, rest) = Some (n, rest).
Proof. intros. unfold within. cbn. case_match; bool_to_prop; [done|lia]. Qed.

(** The years that are written with four digits. *)
Definition four_digit_year (x : Time.t) : Prop :=
  0 ≤ (year_of (x / Time.Second / 86400 + epoch_days)).1 < 10000.

(** Reading back a printed instant of the years 0 to 9999 gives that instant, cut to
    the second, and the fraction after it. *)
Lemma ParseRFC3339_with tail nsec x :
  four_digit_year x → fraction tail = (nsec, "Z") →
  ParseRFC3339 (format_with tail x) = Some (x / Time.Second * Time.Second + nsec).
Proof.
  intros Hy Htail. unfold four_digit_year in Hy. unfold ParseRFC3339, format_with.
  set (seconds := x / Time.Second) in *. set (of_day := seconds `mod` 86400).
  assert (0 ≤ of_day < 86400) by (subst of_day; div_lia).
  assert (seconds = seconds / 86400 * 86400 + of_day) as Hsec by (subst of_day; div_lia).
  destruct (year_of _) as [y yd] eqn:Ey. cbn [fst] in Hy.
  apply year_of_spec in Ey as [Edays Hyd].
  destruct (month_of _ yd) as [m d] eqn:Em. apply month_of_spec in Em as (Eyd & Hd & Hm);
    [|by rewrite year_length]. pose proof (month_length (isLeap y) m).
  rewrite getyear_digits by done. cbn [mbind option_bind skip Ascii.eqb Bool.eqb].
  change (length (month_lengths (isLeap y))) with 12%nat in Hm.
  repeat (rewrite getnum_two by div_lia; cbn [mbind option_bind];
          try (rewrite within_id by div_lia); cbn [mbind option_bind skip Ascii.eqb Bool.eqb]).
  rewrite Htail. cbn [zone Ascii.eqb Bool.eqb mbind option_bind String.eqb negb].
  unfold daysIn, Date. replace (Z.to_nat (Z.of_nat m + 1 - 1)) with m by lia.
  destruct (Z.ltb_spec (d + 1) 1), (Z.ltb_spec (nth m (month_lengths (isLeap y)) 0) (d + 1));
    [lia..|]. cbn [orb]. f_equal.
  assert ((of_day / 3600 * 60 + (of_day / 60) `mod` 60) * 60 + of_day `mod` 60 = of_day) as Hof
    by div_lia.
  revert Hof Hsec Edays Eyd. clear. generalize (of_day / 3600), ((of_day / 60) `mod` 60),
    (of_day `mod` 60). unfold Time.Second. lia.
Qed.

Lemma ParseRFC3339_Format x :
  four_digit_year x → ParseRFC3339 (FormatRFC3339 x) = Some (x / Time.Second * Time.Second).
Proof. intros Hy. unfold FormatRFC3339. rewrite (ParseRFC3339_with "Z" 0) by done. by rewrite Z.add_0_r. Qed.

Lemma nanoseconds_trim k acc ds : nanoseconds k acc (trim_zeros ds) = nanoseconds k acc ds.
Proof.
  revert k acc. induction ds as [|d ds IH]; intros k acc; [done|]. cbn [trim_zeros].
  destruct (trim_zeros ds) as [|e l] eqn:E.
  - destruct k as [|k]; [by destruct (d =? 0)|]. destruct (Z.eqb_spec d 0) as [->|]; cbn [nanoseconds].
    + by rewrite IH, Z.add_0_r.
    + by rewrite IH.
  - destruct k as [|k]; [done|]. cbn [nanoseconds]. by rewrite IH.
Qed.
Lemma nanoseconds_nine n : 0 ≤ n < Time.Second → nanoseconds 9 0 (nine_digits n) = n.
Proof. unfold Time.Second. intros H. cbn [nanoseconds nine_digits]. div_lia. Qed.
Lemma nine_digits_range n : 0 ≤ n < Time.Second → Forall (λ d, 0 ≤ d < 10) (nine_digits n).
Proof. unfold Time.Second. intros H. repeat (apply Forall_cons; split; [div_lia|]). constructor. Qed.
Lemma trim_zeros_range ds : Forall (λ d, 0 ≤ d < 10) ds → Forall (λ d, 0 ≤ d < 10) (trim_zeros ds).
Proof.
  induction 1 as [|d ds Hd _ IH]; [done|]. cbn. destruct (trim_zeros ds); [|by constructor].
  destruct (d =? 0); [done|]. by apply Forall_singleton.
Qed.
Lemma span_digits_text ds : Forall (λ d, 0 ≤ d < 10) ds → span_digits (digit_text ds "Z") = (ds, "Z").
Proof.
  induction 1 as [|d ds Hd _ IH]; [done|]. cbn [digit_text span_digits].
  rewrite digit_val_char by done. by rewrite IH.
Qed.

Lemma fraction_printed nsec : 0 ≤ nsec < Time.Second → fraction (fraction_text nsec "Z") = (nsec, "Z").
Proof.
  intros H. unfold fraction_text.
  pose proof (trim_zeros_range _ (nine_digits_range nsec H)) as Hr.
  pose proof (nanoseconds_trim 9 0 (nine_digits nsec)) as En. rewrite nanoseconds_nine in En by done.
  destruct (trim_zeros (nine_digits nsec)) as [|d ds]; [by rewrite <- En|].
  unfold fraction. cbn [Ascii.eqb Bool.eqb orb]. rewrite span_digits_text by done. by rewrite En.
Qed.

(** Printed with its fraction an instant reads back as it is. *)
Lemma ParseRFC3339_Nano x : four_digit_year x → ParseRFC3339 (FormatRFC3339Nano x) = Some x.
Proof.
  intros Hy. unfold FormatRFC3339Nano.
  assert (0 ≤ x `mod` Time.Second < Time.Second) by (unfold Time.Second; div_lia).
  rewrite (ParseRFC3339_with _ (x `mod` Time.Second)) by (done || by apply fraction_printed).
  f_equal. unfold Time.Second. div_lia.
Qed.
End Rfc3339.
