(* ===== verification/Json.v ===== *)
(** * What the sources use of [encoding/json]

    The syntax of JSON texts, the quoting of strings with its UTF-8 repair, and
    the decoding of a JSON text into a struct with a string field and an optional
    integer field.  Go strings are byte strings. *)

From S2P Require Import Prelude GoStd.

Module Json.
(** ** Values.  Numbers keep their literal, objects the order of their members. *)
Inductive json : Type :=
  | JNull
  | JBool (b : bool)
  | JNumber (literal : string)
  | JString (s : string)
  | JArray (l : list json)
  | JObject (members : list (string * json)).

(** ** Bytes *)

Definition byte (n : Z) : ascii := ascii_of_nat (Z.to_nat n).
Definition code (c : ascii) : Z := Z.of_nat (nat_of_ascii c).
Definition between (lo hi : Z) (c : ascii) : bool := (lo <=? code c) && (code c <=? hi).
Definition quote : ascii := byte 34.
Definition backslash : ascii := byte 92.
Definition continuation : ascii → bool := between 128 191.

(** U+FFFD in UTF-8. *)
Definition replacement : string :=
  String (byte 239) (String (byte 191) (String (byte 189) "")).

(** The number of bytes that follow [c] in a well-formed UTF-8 sequence, or [None]
    when [c] does not start one in front of [s]. *)
Definition utf8_tail (c : ascii) (s : string) : option nat :=
  if between 0 127 c then Some 0%nat
  else match s with
  | "" => None
  | String a s1 =>
      if between 194 223 c then (if continuation a then Some 1%nat else None)
      else match s1 with
      | "" => None
      | String b s2 =>
          if between 224 239 c then
            let lo := if code c =? 224 then 160 else 128 in
            let hi := if code c =? 237 then 159 else 191 in
            if between lo hi a && continuation b then Some 2%nat else None
          else match s2 with
          | "" => None
          | String d _ =>
              if between 240 244 c then
                let lo := if code c =? 240 then 144 else 128 in
                let hi := if code c =? 244 then 143 else 191 in
                if between lo hi a && continuation b && continuation d then Some 3%nat else None
              else None
          end
      end
  end.

(** Every ill-formed byte replaced by U+FFFD. *)
Fixpoint repair (s : string) : string :=
  match s with
  | "" => ""
  | String c s1 =>
      match utf8_tail c s1, s1 with
      | Some 0%nat, _ => String c (repair s1)
      | Some 1%nat, String a s2 => String c (String a (repair s2))
      | Some 2%nat, String a (String b s3) => String c (String a (String b (repair s3)))
      | Some 3%nat, String a (String b (String d s4)) =>
          String c (String a (String b (String d (repair s4))))
      | _, _ => replacement +:+ repair s1
      end
  end.

Definition hex_digit (n : Z) : ascii := byte (if n <? 10 then 48 + n else 87 + n).
Definition hex_value (c : ascii) : option Z :=
  if between 48 57 c then Some (code c - 48)
  else if between 97 102 c then Some (code c - 87)
  else if between 65 70 c then Some (code c - 55)
  else None.

Definition hex4 (a b c d : ascii) : option Z :=
  match hex_value a, hex_value b, hex_value c, hex_value d with
  | Some w, Some x, Some y, Some z => Some (((w * 16 + x) * 16 + y) * 16 + z)
  | _, _, _, _ => None
  end.

(** The UTF-8 form of a code point. *)
Definition encode_rune (r : Z) : string :=
  if r <? 128 then String (byte r) ""
  else if r <? 2048 then
    String (byte (192 + r / 64)) (String (byte (128 + r `mod` 64)) "")
  else if r <? 65536 then
    String (byte (224 + r / 4096))
      (String (byte (128 + (r / 64) `mod` 64)) (String (byte (128 + r `mod` 64)) ""))
  else
    String (byte (240 + r / 262144))
      (String (byte (128 + (r / 4096) `mod` 64))
        (String (byte (128 + (r / 64) `mod` 64)) (String (byte (128 + r `mod` 64)) ""))).

Definition high_surrogate (r : Z) : bool := (55296 <=? r) && (r <? 56320).
Definition low_surrogate (r : Z) : bool := (56320 <=? r) && (r <? 57344).

(** ** Quoting *)

(** The byte a one-letter escape stands for. *)
Definition simple_escape (e : ascii) : option ascii :=
  if Ascii.eqb e quote || Ascii.eqb e backslash || Ascii.eqb e "/" then Some e
  else if Ascii.eqb e "b" then Some (byte 8)
  else if Ascii.eqb e "f" then Some (byte 12)
  else if Ascii.eqb e "n" then Some (byte 10)
  else if Ascii.eqb e "r" then Some (byte 13)
  else if Ascii.eqb e "t" then Some (byte 9)
  else None.

Definition before (x : string) (o : option (string * string)) : option (string * string) :=
  match o with Some (y, rest) => Some (x +:+ y, rest) | None => None end.

(** The contents of a string literal after its opening quote, and what follows
    its closing quote. *)
Fixpoint unescape (s : string) : option (string * string) :=
  match s with
  | "" => None
  | String c s1 =>
      if Ascii.eqb c quote then Some ("", s1)
      else if negb (Ascii.eqb c backslash) then
        if code c <? 32 then None else before (String c "") (unescape s1)
      else match s1 with
      | "" => None
      | String e s2 =>
          match simple_escape e with
          | Some x => before (String x "") (unescape s2)
          | None =>
              if negb (Ascii.eqb e "u") then None
              else match s2 with
              | String h1 (String h2 (String h3 (String h4 s3))) =>
                  match hex4 h1 h2 h3 h4 with
                  | None => None
                  | Some r =>
                      if high_surrogate r || low_surrogate r then
                        match s3 with
                        | String b (String u (String l1 (String l2 (String l3 (String l4 s4))))) =>
                            match hex4 l1 l2 l3 l4 with
                            | Some r' =>
                                if Ascii.eqb b backslash && Ascii.eqb u "u"
                                   && high_surrogate r && low_surrogate r'
                                then before (encode_rune
                                       (65536 + (r - 55296) * 1024 + (r' - 56320))) (unescape s4)
                                else before replacement (unescape s3)
                            | None => before replacement (unescape s3)
                            end
                        | _ => before replacement (unescape s3)
                        end
                      else before (encode_rune r) (unescape s3)
                  end
              | _ => None
              end
          end
      end
  end.

Definition parse_string (s : string) : option (string * string) :=
  match unescape s with Some (x, rest) => Some (repair x, rest) | None => None end.

(** ** Syntax *)

Definition is_space (c : ascii) : bool :=
  Ascii.eqb c " " || Ascii.eqb c (byte 9) || Ascii.eqb c (byte 10) || Ascii.eqb c (byte 13).

Fixpoint skip_space (s : string) : string :=
  match s with
  | String c s1 => if is_space c then skip_space s1 else s
  | "" => ""
  end.

(** The longest prefix of digits, and the rest. *)
Fixpoint digits (s : string) : string * string :=
  match s with
  | String c s1 =>
      if between 48 57 c then let '(d, rest) := digits s1 in (String c d, rest) else ("", s)
  | "" => ("", "")
  end.

Definition lex_exponent (s : string) : option (string * string) :=
  match s with
  | String e s1 =>
      if Ascii.eqb e "e" || Ascii.eqb e "E" then
        let '(sign, s2) := match s1 with
                           | String g s2 => if Ascii.eqb g "+" || Ascii.eqb g "-"
                                            then (String g "", s2) else ("", s1)
                           | "" => ("", s1)
                           end in
        let '(d, rest) := digits s2 in
        if String.eqb d "" then None else Some (String e (sign +:+ d), rest)
      else Some ("", s)
  | "" => Some ("", s)
  end.

Definition lex_fraction (s : string) : option (string * string) :=
  match s with
  | String c s1 =>
      if Ascii.eqb c "." then
        let '(d, rest) := digits s1 in
        if String.eqb d "" then None else Some (String c d, rest)
      else Some ("", s)
  | "" => Some ("", s)
  end.

Definition lex_number (s : string) : option (string * string) :=
  let '(sign, s1) := match s with
                     | String c s1 => if Ascii.eqb c "-" then ("-", s1) else ("", s)
                     | "" => ("", s)
                     end in
  let '(d, s2) := match s1 with
                  | String c r => if Ascii.eqb c "0" then ("0", r) else digits s1
                  | "" => ("", s1)
                  end in
  if String.eqb d "" then None
  else match lex_fraction s2 with
  | None => None
  | Some (fr, s3) =>
      match lex_exponent s3 with
      | None => None
      | Some (ex, rest) => Some (sign +:+ d +:+ fr +:+ ex, rest)
      end
  end.

(** A value at the head of [s]; one unit of fuel per value or separator. *)
Fixpoint parse_value (fuel : nat) (s : string) {struct fuel} : option (json * string) :=
  match fuel with
  | O => None
  | S fuel =>
      match skip_space s with
      | "" => None
      | String c s1 as s0 =>
          if Ascii.eqb c "{" then
            match skip_space s1 with
            | String d rest =>
                if Ascii.eqb d "}" then Some (JObject [], rest)
                else match parse_members fuel s1 with
                     | Some (ms, rest) => Some (JObject ms, rest)
                     | None => None
                     end
            | "" => None
            end
          else if Ascii.eqb c "[" then
            match skip_space s1 with
            | String d rest =>
                if Ascii.eqb d "]" then Some (JArray [], rest)
                else match parse_elements fuel s1 with
                     | Some (l, rest) => Some (JArray l, rest)
                     | None => None
                     end
            | "" => None
            end
          else if Ascii.eqb c quote then
            match parse_string s1 with Some (x, rest) => Some (JString x, rest) | None => None end
          else match Strings.strip_prefix "null" s0 with
          | Some rest => Some (JNull, rest)
          | None =>
              match Strings.strip_prefix "true" s0 with
              | Some rest => Some (JBool true, rest)
              | None =>
                  match Strings.strip_prefix "false" s0 with
                  | Some rest => Some (JBool false, rest)
                  | None =>
                      match lex_number s0 with
                      | Some (n, rest) => Some (JNumber n, rest)
                      | None => None
                      end
                  end
              end
          end
      end
  end
with parse_members (fuel : nat) (s : string) {struct fuel} :
    option (list (string * json) * string) :=
  match fuel with
  | O => None
  | S fuel =>
      match skip_space s with
      | String q s1 =>
          if negb (Ascii.eqb q quote) then None
          else match parse_string s1 with
          | None => None
          | Some (key, s2) =>
              match skip_space s2 with
              | String colon s3 =>
                  if negb (Ascii.eqb colon ":") then None
                  else match parse_value fuel s3 with
                  | None => None
                  | Some (v, s4) =>
                      match skip_space s4 with
                      | String d s5 =>
                          if Ascii.eqb d "}" then Some ([(key, v)], s5)
                          else if Ascii.eqb d "," then
                            match parse_members fuel s5 with
                            | Some (ms, rest) => Some ((key, v) :: ms, rest)
                            | None => None
                            end
                          else None
                      | "" => None
                      end
                  end
              | "" => None
              end
          end
      | "" => None
      end
  end
with parse_elements (fuel : nat) (s : string) {struct fuel} : option (list json * string) :=
  match fuel with
  | O => None
  | S fuel =>
      match parse_value fuel s with
      | None => None
      | Some (v, s1) =>
          match skip_space s1 with
          | String d s2 =>
              if Ascii.eqb d "]" then Some ([v], s2)
              else if Ascii.eqb d "," then
                match parse_elements fuel s2 with
                | Some (l, rest) => Some (v :: l, rest)
                | None => None
                end
              else None
          | "" => None
          end
      end
  end.

(** Every call consumes a byte within two units of fuel. *)
Definition enough (s : string) : nat := 2 * String.length s + 2.

(** One value at the head of a stream, as [Decoder.Decode] reads it. *)
Definition parse_first (s : string) : option json :=
  match parse_value (enough s) s with Some (v, _) => Some v | None => None end.

(** A whole text, as [Unmarshal] requires it. *)
Definition parse (s : string) : option json :=
  match parse_value (enough s) s with
  | Some (v, rest) => if String.eqb (skip_space rest) "" then Some v else None
  | None => None
  end.

(** ** Names of members

    A member name as the decoder compares it with the fields of a struct: ASCII
    letters in upper case, and the two other code points whose case folding is an
    ASCII letter (U+017F and U+212A). *)
Definition upper (c : ascii) : ascii :=
  if between 97 122 c then byte (code c - 32) else c.

Fixpoint fold_name (s : string) : string :=
  match s with
  | "" => ""
  | String c s1 =>
      match s1 with
      | String a s2 =>
          if (code c =? 197) && (code a =? 191) then String "S" (fold_name s2)
          else match s2 with
          | String b s3 =>
              if (code c =? 226) && (code a =? 132) && (code b =? 170)
              then String "K" (fold_name s3)
              else String (upper c) (fold_name s1)
          | "" => String (upper c) (fold_name s1)
          end
      | "" => String (upper c) (fold_name s1)
      end
  end.

(** ** Encoding of strings, with the escapes for HTML that [Marshal] uses *)

Definition escape_u (r : Z) : string :=
  String backslash (String "u" (String (hex_digit (r / 4096)) (String (hex_digit ((r / 256) `mod` 16))
    (String (hex_digit ((r / 16) `mod` 16)) (String (hex_digit (r `mod` 16)) ""))))).

Definition escape_ascii (c : ascii) : string :=
  if Ascii.eqb c quote || Ascii.eqb c backslash then String backslash (String c "")
  else if Ascii.eqb c (byte 8) then String backslash "b"
  else if Ascii.eqb c (byte 12) then String backslash "f"
  else if Ascii.eqb c (byte 10) then String backslash "n"
  else if Ascii.eqb c (byte 13) then String backslash "r"
  else if Ascii.eqb c (byte 9) then String backslash "t"
  else if (code c <? 32) || Ascii.eqb c "<" || Ascii.eqb c ">" || Ascii.eqb c "&"
  then escape_u (code c)
  else String c "".

Fixpoint escape (s : string) : string :=
  match s with
  | "" => ""
  | String c s1 =>
      match utf8_tail c s1, s1 with
      | Some 0%nat, _ => escape_ascii c +:+ escape s1
      | Some 1%nat, String a s2 => String c (String a (escape s2))
      | Some 2%nat, String a (String b s3) =>
          if (code c =? 226) && (code a =? 128) && ((code b =? 168) || (code b =? 169))
          then escape_u (8232 + (code b - 168)) +:+ escape s3
          else String c (String a (String b (escape s3)))
      | Some 3%nat, String a (String b (String d s4)) =>
          String c (String a (String b (String d (escape s4))))
      | _, _ => escape_u 65533 +:+ escape s1
      end
  end.

Definition quoted (s : string) : string := String quote (escape s +:+ String quote "").

(** ** Round trips on strings of ASCII bytes *)

Fixpoint ascii_only (s : string) : bool :=
  match s with "" => true | String c s => between 0 127 c && ascii_only s end.

Lemma utf8_tail_ascii c s : between 0 127 c = true → utf8_tail c s = Some 0%nat.
Proof. unfold utf8_tail. by intros ->. Qed.

Lemma unescape_ascii c t :
  between 0 127 c = true →
  unescape (escape_ascii c +:+ t) = before (String c "") (unescape t).
Proof.
  intros H. destruct c as [[] [] [] [] [] [] [] []]; try reflexivity; vm_compute in H; discriminate.
Qed.

Lemma unescape_escape s rest :
  ascii_only s = true → unescape (escape s +:+ String quote rest) = Some (s, rest).
Proof.
  induction s as [|c s IH]; cbn [ascii_only]; intros H; [done|]. bool_to_prop.
  cbn [escape]. rewrite utf8_tail_ascii by done.
  rewrite <- string_app_assoc, unescape_ascii, IH by done. done.
Qed.

Lemma repair_ascii s : ascii_only s = true → repair s = s.
Proof.
  induction s as [|c s IH]; cbn [ascii_only]; intros H; [done|]. bool_to_prop.
  cbn [repair]. rewrite utf8_tail_ascii by done. by rewrite IH.
Qed.

(** What [Marshal] writes for such a string reads back as the string. *)
Lemma parse_string_quoted s rest :
  ascii_only s = true → parse_string (escape s +:+ String quote rest) = Some (s, rest).
Proof.
  intros H. unfold parse_string. by rewrite unescape_escape, repair_ascii.
Qed.

(** ** Numbers *)

Fixpoint all_digits (s : string) : bool :=
  match s with "" => true | String c s => between 48 57 c && all_digits s end.

Lemma digit_char_between d : 0 ≤ d < 10 → between 48 57 (Strconv.digit_char d) = true.
Proof.
  intros Hd. assert (d ∈ [0;1;2;3;4;5;6;7;8;9]) as Hin by (rewrite !elem_of_cons; lia).
  clear Hd. repeat (apply elem_of_cons in Hin as [->|Hin]; [done|]). by apply elem_of_nil in Hin.
Qed.

Lemma digit_char_nonzero d : 0 < d < 10 → Ascii.eqb (Strconv.digit_char d) "0" = false.
Proof.
  intros Hd. assert (d ∈ [1;2;3;4;5;6;7;8;9]) as Hin by (rewrite !elem_of_cons; lia).
  clear Hd. repeat (apply elem_of_cons in Hin as [->|Hin]; [done|]). by apply elem_of_nil in Hin.
Qed.

Lemma all_digits_format fuel n acc :
  0 ≤ n → all_digits acc = true → all_digits (Strconv.digits fuel n acc) = true.
Proof.
  revert n acc. induction fuel as [|fuel IH]; intros n acc Hn Hacc; [done|].
  cbn [Strconv.digits].
  assert (all_digits (String (Strconv.digit_char (n `mod` 10)) acc) = true) as Hc.
  { cbn [all_digits]. rewrite digit_char_between, Hacc; [done|]. apply Z.mod_pos_bound. lia. }
  case_match; [done|]. apply IH; [apply Z.div_pos; lia|done].
Qed.

(** No leading zero, except for zero itself. *)
Lemma format_leading fuel n acc :
  0 < n < 2 ^ Z.of_nat fuel →
  ∃ c s, Strconv.digits fuel n acc = String c s ∧ Ascii.eqb c "0" = false.
Proof.
  revert n acc. induction fuel as [|fuel IH]; intros n acc Hn.
  { change (2 ^ Z.of_nat 0) with 1 in Hn. lia. }
  rewrite Nat2Z.inj_succ, Z.pow_succ_r in Hn by lia. cbn [Strconv.digits].
  destruct (Z.ltb_spec n 10).
  - eexists _, _. split; [done|]. apply digit_char_nonzero. rewrite Z.mod_small; lia.
  - apply IH. split; [apply Z.div_str_pos; lia|apply Z.div_lt_upper_bound; lia].
Qed.

(** What may follow a number. *)
Definition ends_number (t : string) : Prop := t = "" ∨ ∃ u, t = String "," u ∨ t = String "}" u.

Lemma digits_app s t : all_digits s = true → ends_number t → digits (s +:+ t) = (s, t).
Proof.
  intros Hs Ht. induction s as [|c s IH].
  - by destruct Ht as [->|(u & [-> | ->])].
  - cbn [all_digits] in Hs. bool_to_prop. rewrite string_app_cons. cbn [digits].
    by rewrite H, IH.
Qed.

Lemma lex_tail t : ends_number t → lex_fraction t = Some ("", t) ∧ lex_exponent t = Some ("", t).
Proof. by intros [->|(u & [-> | ->])]. Qed.

(** The literal of an unsigned number, as the head of the text. *)
Lemma lex_digits n t :
  0 ≤ n → ends_number t →
  (match Strconv.FormatUint n +:+ t with
   | String c r => if Ascii.eqb c "0" then ("0", r) else digits (Strconv.FormatUint n +:+ t)
   | "" => ("", "")
   end) = (Strconv.FormatUint n, t) ∧ Strconv.FormatUint n ≠ "".
Proof.
  intros Hn Ht. split; [|by apply Strconv.FormatUint_nonempty].
  destruct (decide (n = 0)) as [->|Hne]; [done|].
  assert (all_digits (Strconv.FormatUint n) = true) as Had by (by apply all_digits_format).
  destruct (format_leading (S (Z.to_nat (Z.log2 n))) n "") as (c & s & E & Hc).
  { split; [lia|]. rewrite Nat2Z.inj_succ, Z2Nat.id by apply Z.log2_nonneg. apply Z.log2_spec. lia. }
  change (Strconv.digits _ n "") with (Strconv.FormatUint n) in E.
  rewrite <- (digits_app _ _ Had Ht). rewrite E, string_app_cons, Hc. done.
Qed.

Lemma lex_number_format n t :
  ends_number t → lex_number (Strconv.FormatInt n +:+ t) = Some (Strconv.FormatInt n, t).
Proof.
  intros Ht. destruct (lex_tail t Ht) as [Hf He]. unfold lex_number, Strconv.FormatInt.
  destruct (Z.ltb_spec n 0).
  - rewrite string_app_cons. cbn [Ascii.eqb Bool.eqb].
    destruct (lex_digits (- n) t) as [E Hne]; [lia|done|].
    apply String.eqb_neq in Hne.
    destruct (Strconv.FormatUint (- n) +:+ t) as [|c r] eqn:Es;
      [injection E as E _; by rewrite <- E in Hne|].
    rewrite E, Hne, Hf, He, string_app_nil_r. done.
  - destruct (lex_digits n t) as [E Hne]; [lia|done|]. apply String.eqb_neq in Hne.
    destruct (Strconv.FormatUint_cons n) as (d & u & Hd & Eu); [lia|].
    destruct (Strconv.digit_char_not_sign d Hd) as [Hm _].
    rewrite Eu, string_app_cons in E |- *. rewrite Hm. rewrite E.
    rewrite <- Eu, Hne, Hf, He, string_app_nil_r. done.
Qed.

(** ** Values and members in front of a rest *)

Lemma quoted_app x rest : quoted x +:+ rest = String quote (escape x +:+ String quote rest).
Proof. unfold quoted. by rewrite string_app_cons, <- string_app_assoc. Qed.

Lemma parse_value_string f x rest :
  ascii_only x = true → parse_value (S f) (quoted x +:+ rest) = Some (JString x, rest).
Proof.
  intros Hx. rewrite quoted_app. cbn [parse_value]. change (skip_space (String quote ?s)) with (String quote s).
  change (Ascii.eqb quote "{") with false. change (Ascii.eqb quote "[") with false.
  change (Ascii.eqb quote quote) with true. cbn iota. by rewrite parse_string_quoted.
Qed.

(** A byte that can only start a number. *)
Definition starts_number (c : ascii) : bool := between 48 57 c || Ascii.eqb c "-".

Lemma parse_value_head f c r :
  starts_number c = true →
  parse_value (S f) (String c r) =
    match lex_number (String c r) with Some (n, rest) => Some (JNumber n, rest) | None => None end.
Proof.
  intros H. destruct c as [[] [] [] [] [] [] [] []]; try reflexivity; vm_compute in H; discriminate.
Qed.

Lemma FormatInt_head n : ∃ c r, Strconv.FormatInt n = String c r ∧ starts_number c = true.
Proof.
  unfold Strconv.FormatInt. destruct (Z.ltb_spec n 0); [by eexists _, _|].
  destruct (Strconv.FormatUint_cons n) as (d & u & Hd & E); [lia|].
  eexists _, _. split; [exact E|]. unfold starts_number. by rewrite digit_char_between.
Qed.

Lemma parse_value_number f n rest :
  ends_number rest →
  parse_value (S f) (Strconv.FormatInt n +:+ rest) = Some (JNumber (Strconv.FormatInt n), rest).
Proof.
  intros Ht. pose proof (lex_number_format n rest Ht) as E.
  destruct (FormatInt_head n) as (c & r & En & Hc). rewrite En, string_app_cons in E |- *.
  by rewrite parse_value_head, E.
Qed.

Lemma parse_members_last f key v x rest :
  ascii_only key = true → parse_value f v = Some (x, String "}" rest) →
  parse_members (S f) (quoted key +:+ String ":" v) = Some ([(key, x)], rest).
Proof.
  intros Hk Hv. rewrite quoted_app. cbn [parse_members].
  change (skip_space (String quote ?s)) with (String quote s).
  change (negb (Ascii.eqb quote quote)) with false. cbn iota.
  rewrite parse_string_quoted by done.
  change (skip_space (String ":" ?s)) with (String ":" s).
  change (negb (Ascii.eqb ":" ":")) with false. cbn iota. by rewrite Hv.
Qed.

Lemma parse_members_more f key v x rest ms rest' :
  ascii_only key = true → parse_value f v = Some (x, String "," rest) →
  parse_members f rest = Some (ms, rest') →
  parse_members (S f) (quoted key +:+ String ":" v) = Some ((key, x) :: ms, rest').
Proof.
  intros Hk Hv Hm. rewrite quoted_app. cbn [parse_members].
  change (skip_space (String quote ?s)) with (String quote s).
  change (negb (Ascii.eqb quote quote)) with false. cbn iota.
  rewrite parse_string_quoted by done.
  change (skip_space (String ":" ?s)) with (String ":" s).
  change (negb (Ascii.eqb ":" ":")) with false. cbn iota. rewrite Hv.
  change (skip_space (String "," ?s)) with (String "," s). cbn. by rewrite Hm.
Qed.

Lemma parse_value_object f key t ms rest :
  parse_members f (quoted key +:+ t) = Some (ms, rest) →
  parse_value (S f) (String "{" (quoted key +:+ t)) = Some (JObject ms, rest).
Proof.
  intros Hm. rewrite quoted_app in *. cbn [parse_value].
  change (skip_space (String "{" ?s)) with (String "{" s).
  change (Ascii.eqb "{" "{") with true. cbn iota.
  change (skip_space (String quote ?s)) with (String quote s).
  change (Ascii.eqb quote "}") with false. cbn iota. by rewrite Hm.
Qed.
End Json.
