(* ===== verification/JsonText.v ===== *)
(** * JSON texts inside JSON texts

    A value is read the same way whatever follows it, which is what lets
    [encoding/json] carry a [json.RawMessage] inside another document; quoting of
    arbitrary well-formed UTF-8; and [compact], which [Marshal] applies to raw
    messages. *)

From S2P Require Import Prelude GoStd Json.

Module JsonText.
Import Json.

(** ** Strings *)

(** What [unescape] makes of a text depends on nothing behind the closing quote. *)
Lemma unescape_nonempty s x r : unescape s = Some (x, r) → s ≠ "".
Proof. by intros H ->. Qed.

Lemma before_some x o y r : before x o = Some (y, r) → ∃ z, o = Some (z, r) ∧ y = x +:+ z.
Proof. destruct o as [[z r']|]; [|done]. intros [= <- <-]. eauto. Qed.

(** An escape of a code point is never cut off. *)
Lemma unescape_u_length s x r :
  unescape (String backslash (String "u" s)) = Some (x, r) → (4 ≤ String.length s)%nat.
Proof.
  cbn [unescape]. change (Ascii.eqb backslash quote) with false.
  change (negb (Ascii.eqb backslash backslash)) with false. cbn iota.
  change (simple_escape "u") with (@None ascii). change (negb (Ascii.eqb "u" "u")) with false. cbn iota.
  destruct s as [|? [|? [|? [|? s]]]]; try done. cbn. lia.
Qed.

(** The look at a second half of a surrogate pair, where there is none. *)
Lemma lookahead_off {A} (w : string) (f : string → Z → A) (cond : Z → bool) (B : A) :
  (∀ s, w ≠ String backslash (String "u" s)) →
  match w with
  | String b (String u (String l1 (String l2 (String l3 (String l4 s4))))) =>
      match hex4 l1 l2 l3 l4 with
      | Some r' => if Ascii.eqb b backslash && Ascii.eqb u "u" && cond r' && low_surrogate r'
                   then f s4 r' else B
      | None => B
      end
  | _ => B
  end = B.
Proof.
  intros H. destruct w as [|b [|u [|l1 [|l2 [|l3 [|l4 s4]]]]]]; try done.
  destruct (hex4 l1 l2 l3 l4); [|done].
  destruct (Ascii.eqb_spec b backslash) as [->|]; [|done].
  destruct (Ascii.eqb_spec u "u") as [->|]; [|done]. by destruct (H (String l1 (String l2 (String l3 (String l4 s4))))).
Qed.

Lemma no_lookahead s x r t :
  unescape s = Some (x, r) → (String.length s < 6)%nat → ∀ w, s +:+ t ≠ String backslash (String "u" w).
Proof.
  intros H Hl w. destruct s as [|b [|u s]]; [done| |].
  - rewrite string_app_cons. intros [= -> _]. done.
  - rewrite !string_app_cons. intros [= -> -> _]. apply unescape_u_length in H. cbn in Hl. lia.
Qed.

Lemma unescape_local_aux n s x r t :
  (String.length s ≤ n)%nat → unescape s = Some (x, r) → unescape (s +:+ t) = Some (x, r +:+ t).
Proof.
  revert s x r. induction n as [|n IH]; intros s x r Hn H.
  { destruct s; [done|cbn in Hn; lia]. }
  assert (∀ p s' x' r', (String.length s' ≤ n)%nat → before p (unescape s') = Some (x', r') →
            before p (unescape (s' +:+ t)) = Some (x', r' +:+ t)) as IHb.
  { intros p s' x' r' Hl (z & Hz & ->)%before_some. by rewrite (IH _ _ _ Hl Hz). }
  destruct s as [|c s1]; [done|]. rewrite string_app_cons. cbn [String.length] in Hn.
  revert H. cbn [unescape]. destruct (Ascii.eqb c quote); [by intros [= <- <-]|].
  destruct (Ascii.eqb_spec c backslash) as [->|Hc]; cbn [negb].
  2: { destruct (code c <? 32); [done|]. apply IHb. lia. }
  destruct s1 as [|e s2]; [done|]. rewrite string_app_cons. cbn [String.length] in Hn.
  destruct (simple_escape e); [apply IHb; lia|]. destruct (negb (Ascii.eqb e "u")); [done|].
  destruct s2 as [|h1 [|h2 [|h3 [|h4 s3]]]]; try done. rewrite !string_app_cons. cbn [String.length] in Hn.
  destruct (hex4 h1 h2 h3 h4) as [rune|]; [|done].
  destruct (high_surrogate rune || low_surrogate rune); [|apply IHb; lia].
  destruct (decide (String.length s3 < 6)%nat) as [Hshort|Hlong].
  - replace (match s3 with
             | String b (String u (String l1 (String l2 (String l3 (String l4 s4))))) => _
             | _ => before replacement (unescape s3) end)
      with (before replacement (unescape s3))
      by (destruct s3 as [|? [|? [|? [|? [|? [|? ?]]]]]]; try done; cbn in Hshort; lia).
    intros H. rewrite (lookahead_off (s3 +:+ t) (λ s4 r', _) (λ _, high_surrogate rune)).
    + by apply IHb; [lia|].
    + apply before_some in H as (z & Hz & _). by eapply no_lookahead.
  - destruct s3 as [|b [|u [|l1 [|l2 [|l3 [|l4 s4]]]]]]; try (cbn in Hlong; lia).
    rewrite !string_app_cons. cbn [String.length] in Hn. rewrite <- !string_app_cons.
    destruct (hex4 l1 l2 l3 l4) as [r'|]; [|apply IHb; cbn; lia].
    destruct (_ && _ && _ && _); apply IHb; cbn; lia.
Qed.

Lemma unescape_local s x r t : unescape s = Some (x, r) → unescape (s +:+ t) = Some (x, r +:+ t).
Proof. by apply (unescape_local_aux (String.length s)). Qed.
Lemma parse_string_local s x r t :
  parse_string s = Some (x, r) → parse_string (s +:+ t) = Some (x, r +:+ t).
Proof.
  unfold parse_string. destruct (unescape s) as [[y r']|] eqn:E; [|done].
  intros [= <- <-]. by rewrite (unescape_local _ _ _ _ E).
Qed.

(** ** Values in front of a delimiter *)

Definition delimiter (d : ascii) : Prop := d = ","%char ∨ d = "]"%char ∨ d = "}"%char.

Section delimited.
Context (d0 : ascii) (Hd0 : delimiter d0) (u : string).
Notation t := (String d0 u).
Ltac at_delimiter := destruct Hd0 as [Ed|[Ed|Ed]]; rewrite Ed; done.

Lemma skip_space_local s : skip_space (s +:+ t) = skip_space s +:+ t.
Proof.
  induction s as [|c s IH]; [at_delimiter|]. rewrite string_app_cons. cbn [skip_space].
  by destruct (is_space c).
Qed.

Lemma digits_local s : digits (s +:+ t) = ((digits s).1, (digits s).2 +:+ t).
Proof.
  induction s as [|c s IH]; [at_delimiter|]. rewrite string_app_cons. cbn [digits].
  destruct (between 48 57 c); [|done]. rewrite IH. by destruct (digits s).
Qed.

(** A lexer that reads the same in front of a delimiter. *)
Definition local {A} (p : string → option (A * string)) : Prop :=
  ∀ s x r, p s = Some (x, r) → p (s +:+ t) = Some (x, r +:+ t).

Lemma lex_fraction_local : local lex_fraction.
Proof.
  intros [|c s] x r; [intros [= <- <-]; at_delimiter|]. rewrite string_app_cons. cbn [lex_fraction].
  destruct (Ascii.eqb c "."); [|by intros [= <- <-]]. rewrite digits_local.
  destruct (digits s) as [d rest]; cbn. destruct (String.eqb d ""); [done|]. by intros [= <- <-].
Qed.

Lemma lex_exponent_local : local lex_exponent.
Proof.
  intros [|e s] x r; [intros [= <- <-]; at_delimiter|]. rewrite string_app_cons. cbn [lex_exponent].
  destruct (Ascii.eqb e "e" || Ascii.eqb e "E"); [|by intros [= <- <-]].
  destruct s as [|g s]; [done|]. rewrite string_app_cons. destruct (Ascii.eqb g "+" || Ascii.eqb g "-").
  - rewrite digits_local. destruct (digits s) as [d rest]; cbn. destruct (String.eqb d ""); [done|].
    by intros [= <- <-].
  - rewrite <- string_app_cons, digits_local. destruct (digits (String g s)) as [d rest]; cbn.
    destruct (String.eqb d ""); [done|]. by intros [= <- <-].
Qed.

(** The digits before the point. *)
Definition lex_int (s : string) : string * string :=
  match s with
  | String c r => if Ascii.eqb c "0" then ("0", r) else digits s
  | "" => ("", s)
  end.
Lemma lex_int_local s : lex_int (s +:+ t) = ((lex_int s).1, (lex_int s).2 +:+ t).
Proof.
  destruct s as [|c s]; [at_delimiter|]. rewrite string_app_cons. cbn [lex_int].
  destruct (Ascii.eqb c "0"); [done|]. by rewrite <- string_app_cons, digits_local.
Qed.
Lemma lex_number_eq s :
  lex_number s =
  let '(sign, s1) := match s with
                     | String c s1 => if Ascii.eqb c "-" then ("-", s1) else ("", s)
                     | "" => ("", s)
                     end in
  let '(d, s2) := lex_int s1 in
  if String.eqb d "" then None
  else '(fr, s3) ← lex_fraction s2; '(ex, rest) ← lex_exponent s3; Some (sign +:+ d +:+ fr +:+ ex, rest).
Proof.
  unfold lex_number, lex_int. destruct (match s with String _ _ => _ | "" => _ end) as [sign s1].
  destruct (match s1 with String _ _ => _ | "" => _ end) as [d s2]. destruct (String.eqb d ""); [done|].
  destruct (lex_fraction s2) as [[fr s3]|]; [|done]. cbn. by destruct (lex_exponent s3) as [[]|].
Qed.

Lemma lex_number_local : local lex_number.
Proof.
  intros s x r. rewrite !lex_number_eq.
  replace (match s +:+ t with String _ _ => _ | "" => _ end)
    with (let '(sign, s1) := match s with
                             | String c s1 => if Ascii.eqb c "-" then ("-", s1) else ("", s)
                             | "" => ("", s)
                             end in (sign, s1 +:+ t))
    by (destruct s as [|c s]; [at_delimiter|]; rewrite !string_app_cons; by destruct (Ascii.eqb c "-")).
  destruct (match s with String _ _ => _ | "" => _ end) as [sign s1].
  rewrite lex_int_local. destruct (lex_int s1) as [d s2]; cbn [fst snd].
  destruct (String.eqb d ""); [done|].
  destruct (lex_fraction s2) as [[fr s3]|] eqn:Ef; [|done]. rewrite (lex_fraction_local _ _ _ Ef). cbn.
  destruct (lex_exponent s3) as [[ex rest]|] eqn:Ee; [|done]. rewrite (lex_exponent_local _ _ _ Ee). cbn.
  by intros [= <- <-].
Qed.

(** A literal without delimiters is there or not before one. *)
Lemma strip_literal_local p s :
  Forall (λ c, c ≠ d0) (String.list_ascii_of_string p) →
  Strings.strip_prefix p (s +:+ t) = (λ r, r +:+ t) <$> Strings.strip_prefix p s.
Proof.
  revert s. induction p as [|a p IH]; intros s; cbn [String.list_ascii_of_string]; [done|].
  intros [Ha Hp]%Forall_cons. destruct s as [|b s].
  - rewrite string_app_nil_l. cbn. by destruct (Ascii.eqb_spec a d0).
  - rewrite string_app_cons. cbn. destruct (Ascii.eqb a b); [auto|done].
Qed.

(** The three parsers read the same in front of a delimiter and with more fuel. *)
Lemma parse_local f :
  (∀ f' s x r, (f ≤ f')%nat → parse_value f s = Some (x, r) → parse_value f' (s +:+ t) = Some (x, r +:+ t)) ∧
  (∀ f' s x r, (f ≤ f')%nat → parse_members f s = Some (x, r) → parse_members f' (s +:+ t) = Some (x, r +:+ t)) ∧
  (∀ f' s x r, (f ≤ f')%nat → parse_elements f s = Some (x, r) → parse_elements f' (s +:+ t) = Some (x, r +:+ t)).
Proof.
  induction f as [|f (IHv & IHm & IHe)]; [done|]. split_and!; intros [|f'] s x r Hf; try lia.
  all: assert (f ≤ f')%nat as Hf' by lia; clear Hf.
  - cbn [parse_value]. rewrite skip_space_local. destruct (skip_space s) as [|c s1]; [done|].
    rewrite string_app_cons. destruct (Ascii.eqb c "{").
    { rewrite skip_space_local. destruct (skip_space s1) as [|d rest]; [done|]. rewrite string_app_cons.
      destruct (Ascii.eqb d "}"); [by intros [= <- <-]|].
      destruct (parse_members f s1) as [[ms rest']|] eqn:E; [|done]. intros [= <- <-].
      by rewrite (IHm _ _ _ _ Hf' E). }
    destruct (Ascii.eqb c "[").
    { rewrite skip_space_local. destruct (skip_space s1) as [|d rest]; [done|]. rewrite string_app_cons.
      destruct (Ascii.eqb d "]"); [by intros [= <- <-]|].
      destruct (parse_elements f s1) as [[ms rest']|] eqn:E; [|done]. intros [= <- <-].
      by rewrite (IHe _ _ _ _ Hf' E). }
    destruct (Ascii.eqb c quote).
    { destruct (parse_string s1) as [[y rest]|] eqn:E; [|done]. intros [= <- <-].
      by rewrite (parse_string_local _ _ _ _ E). }
    rewrite <- string_app_cons, !strip_literal_local
      by (repeat constructor; destruct Hd0 as [->|[->| ->]]; discriminate).
    destruct (Strings.strip_prefix "null" _); [by intros [= <- <-]|].
    destruct (Strings.strip_prefix "true" _); [by intros [= <- <-]|].
    destruct (Strings.strip_prefix "false" _); [by intros [= <- <-]|]. cbn [fmap option_fmap option_map].
    destruct (lex_number (String c s1)) as [[n rest]|] eqn:E; [|done]. intros [= <- <-].
    by rewrite (lex_number_local _ _ _ E).
  - cbn [parse_members]. rewrite skip_space_local. destruct (skip_space s) as [|q s1]; [done|].
    rewrite string_app_cons. destruct (negb (Ascii.eqb q quote)); [done|].
    destruct (parse_string s1) as [[key s2]|] eqn:Ek; [|done]. rewrite (parse_string_local _ _ _ _ Ek).
    rewrite skip_space_local. destruct (skip_space s2) as [|colon s3]; [done|]. rewrite string_app_cons.
    destruct (negb (Ascii.eqb colon ":")); [done|].
    destruct (parse_value f s3) as [[v s4]|] eqn:Ev; [|done]. rewrite (IHv _ _ _ _ Hf' Ev).
    rewrite skip_space_local. destruct (skip_space s4) as [|d s5]; [done|]. rewrite string_app_cons.
    destruct (Ascii.eqb d "}"); [by intros [= <- <-]|]. destruct (Ascii.eqb d ","); [|done].
    destruct (parse_members f s5) as [[ms rest]|] eqn:Em; [|done]. rewrite (IHm _ _ _ _ Hf' Em).
    by intros [= <- <-].
  - cbn [parse_elements]. destruct (parse_value f s) as [[v s1]|] eqn:Ev; [|done].
    rewrite (IHv _ _ _ _ Hf' Ev). rewrite skip_space_local. destruct (skip_space s1) as [|d s2]; [done|].
    rewrite string_app_cons. destruct (Ascii.eqb d "]"); [by intros [= <- <-]|].
    destruct (Ascii.eqb d ","); [|done].
    destruct (parse_elements f s2) as [[ms rest]|] eqn:Em; [|done]. rewrite (IHe _ _ _ _ Hf' Em).
    by intros [= <- <-].
Qed.

(** A whole text without surrounding space, in front of a delimiter. *)
Lemma parse_embedded f p v r :
  (enough p ≤ f)%nat → parse_value (enough p) p = Some (v, r) →
  parse_value f (p +:+ t) = Some (v, r +:+ t).
Proof. intros Hf H. by apply (proj1 (parse_local (enough p))). Qed.
End delimited.

(** ** Strings of well-formed UTF-8 *)

Fixpoint well_formed (s : string) : bool :=
  match s with
  | "" => true
  | String c s1 =>
      match utf8_tail c s1, s1 with
      | Some 0%nat, _ => well_formed s1
      | Some 1%nat, String a s2 => well_formed s2
      | Some 2%nat, String a (String b s3) => well_formed s3
      | Some 3%nat, String a (String b (String d s4)) => well_formed s4
      | _, _ => false
      end
  end.

Definition high (c : ascii) : Prop := 128 ≤ code c.
Lemma between_high lo hi c : between lo hi c = true → 128 ≤ lo → high c.
Proof. unfold between, high. intros. bool_to_prop. lia. Qed.

(** The sequences of two and more bytes have high bytes only. *)
Lemma utf8_tail_cases c s n :
  utf8_tail c s = Some n →
  (n = 0%nat ∧ between 0 127 c = true) ∨
  (high c ∧ ((n = 1%nat ∧ ∃ a s', s = String a s' ∧ high a) ∨
             (n = 2%nat ∧ ∃ a b s', s = String a (String b s') ∧ high a ∧ high b) ∨
             (n = 3%nat ∧ ∃ a b d s', s = String a (String b (String d s')) ∧ high a ∧ high b ∧ high d))).
Proof.
  unfold utf8_tail. destruct (between 0 127 c) eqn:E0; [intros [= <-]; by left|]. intros H. right.
  assert (high c) as Hc.
  { unfold between, high in *. bool_to_prop. assert (0 ≤ code c) by (unfold code; lia). lia. }
  split; [done|]. destruct s as [|a s1]; [done|].
  destruct (between 194 223 c).
  { destruct (continuation a) eqn:Ea; [|done]. injection H as <-. left.
    apply between_high in Ea; [|lia]. split; [done|]. by exists a, s1. }
  destruct s1 as [|b s2]; [done|]. right. destruct (between 224 239 c).
  { case_match eqn:Ea; [|done]. injection H as <-. left. apply andb_true_iff in Ea as [Ea Eb].
    apply between_high in Ea, Eb; [|lia|by case_match]. split; [done|]. by exists a, b, s2. }
  destruct s2 as [|d s3]; [done|]. destruct (between 240 244 c); [|done]. right.
  case_match eqn:Ea; [|done]. injection H as <-. apply andb_true_iff in Ea as [Ea Ed].
  apply andb_true_iff in Ea as [Ea Eb].
  apply between_high in Ea, Eb, Ed; [|lia|lia|by case_match]. split; [done|]. by exists a, b, d, s3.
Qed.

Lemma unescape_high c s : high c → unescape (String c s) = before (String c "") (unescape s).
Proof.
  intros H. destruct c as [[] [] [] [] [] [] [] []]; try reflexivity; vm_compute in H; by destruct H.
Qed.
Lemma before_before x y o : before x (before y o) = before (x +:+ y) o.
Proof. destruct o as [[z r]|]; [|done]. cbn. by rewrite string_app_assoc. Qed.

(** The line separators, which [Marshal] escapes. *)
Lemma unescape_separator b t :
  code b = 168 ∨ code b = 169 →
  unescape (escape_u (8232 + (code b - 168)) +:+ t) =
    before (String (byte 226) (String (byte 128) (String b ""))) (unescape t).
Proof.
  intros H. assert (b = byte 168 ∨ b = byte 169) as [-> | ->]; [|reflexivity..].
  destruct H as [H|H]; [left|right]; destruct b as [[] [] [] [] [] [] [] []]; try reflexivity;
    vm_compute in H; discriminate.
Qed.
Lemma code_byte c n : code c = n → c = byte n.
Proof.
  intros <-. unfold byte, code. by rewrite Nat2Z.id, ascii_nat_embedding.
Qed.

Lemma unescape_escape_utf8_aux n s rest :
  (String.length s ≤ n)%nat → well_formed s = true →
  unescape (escape s +:+ String quote rest) = Some (s, rest).
Proof.
  revert s. induction n as [|n IH]; intros s Hn H.
  { destruct s; [done|cbn in Hn; lia]. }
  destruct s as [|c s1]; [done|]. cbn [String.length well_formed escape] in *.
  destruct (utf8_tail c s1) as [k|] eqn:E; [|done].
  apply utf8_tail_cases in E as [[-> Hc]|[Hc [[-> (a & s' & -> & Ha)]|
    [[-> (a & b & s' & -> & Ha & Hb)]|[-> (a & b & d & s' & -> & Ha & Hb & Hd)]]]]]; cbn [String.length] in Hn.
  - rewrite <- string_app_assoc, unescape_ascii, IH by (done || lia). done.
  - rewrite !string_app_cons, !unescape_high, IH by (done || lia). done.
  - destruct ((code c =? 226) && (code a =? 128) && ((code b =? 168) || (code b =? 169))) eqn:Esep.
    + rewrite <- string_app_assoc, unescape_separator, IH by
        (done || lia || (bool_to_prop; destruct (Z.eqb_spec (code b) 168), (Z.eqb_spec (code b) 169); naive_solver)).
      bool_to_prop. by rewrite (code_byte c 226), (code_byte a 128) by done.
    + rewrite !string_app_cons, !unescape_high, IH by (done || lia). done.
  - rewrite !string_app_cons, !unescape_high, IH by (done || lia). done.
Qed.

Lemma repair_well_formed_aux n s : (String.length s ≤ n)%nat → well_formed s = true → repair s = s.
Proof.
  revert s. induction n as [|n IH]; intros s Hn H.
  { destruct s; [done|cbn in Hn; lia]. }
  destruct s as [|c s1]; [done|]. cbn [String.length well_formed repair] in *.
  destruct (utf8_tail c s1) as [k|] eqn:E; [|done].
  apply utf8_tail_cases in E as [[-> Hc]|[Hc [[-> (a & s' & -> & Ha)]|
    [[-> (a & b & s' & -> & Ha & Hb)]|[-> (a & b & d & s' & -> & Ha & Hb & Hd)]]]]];
    cbn [String.length] in Hn; rewrite IH by (done || lia); done.
Qed.

(** What [Marshal] writes for a well-formed string reads back as the string. *)
Lemma parse_string_utf8 s rest :
  well_formed s = true → parse_string (escape s +:+ String quote rest) = Some (s, rest).
Proof.
  intros H. unfold parse_string.
  rewrite (unescape_escape_utf8_aux (String.length s)) by done.
  by rewrite (repair_well_formed_aux (String.length s)).
Qed.

Lemma parse_value_utf8 f x rest :
  well_formed x = true → parse_value (S f) (quoted x +:+ rest) = Some (JString x, rest).
Proof.
  intros Hx. rewrite quoted_app. cbn [parse_value]. change (skip_space (String quote ?s)) with (String quote s).
  change (Ascii.eqb quote "{") with false. change (Ascii.eqb quote "[") with false.
  change (Ascii.eqb quote quote) with true. cbn iota. by rewrite parse_string_utf8.
Qed.

(** ** [compact] with the escapes for HTML *)

Inductive mode : Type := Outside | Inside | Escaped.
Definition next_mode (m : mode) (c : ascii) : mode :=
  match m with
  | Outside => if Ascii.eqb c quote then Inside else Outside
  | Inside => if Ascii.eqb c backslash then Escaped else if Ascii.eqb c quote then Outside else Inside
  | Escaped => Inside
  end.

Fixpoint compact_from (m : mode) (s : string) : string :=
  match s with
  | "" => ""
  | String c s1 =>
      match m with
      | Outside => if is_space c then compact_from m s1 else String c (compact_from (next_mode m c) s1)
      | _ =>
          if Ascii.eqb c "<" || Ascii.eqb c ">" || Ascii.eqb c "&"
          then escape_u (code c) +:+ compact_from (next_mode m c) s1
          else match s1 with
          | String a (String b s3) =>
              if (code c =? 226) && (code a =? 128) && ((code b =? 168) || (code b =? 169))
              then escape_u (8232 + (code b - 168)) +:+ compact_from Inside s3
              else String c (compact_from (next_mode m c) s1)
          | _ => String c (compact_from (next_mode m c) s1)
          end
      end
  end.
(** A raw message inside a document; [None] is the error of a text that is not JSON. *)
Definition compact (s : string) : option string :=
  match parse s with Some _ => Some (compact_from Outside s) | None => None end.

(** ** Raw members *)

(** [s] without what is left of it. *)
Fixpoint take (n : nat) (s : string) : string :=
  match n, s with
  | S n, String c s => String c (take n s)
  | _, _ => ""
  end.
Definition consumed (s rest : string) : string := take (String.length s - String.length rest) s.

Lemma take_app p t : take (String.length p) (p +:+ t) = p.
Proof. induction p as [|c p IH]; [done|]. rewrite string_app_cons. cbn. by rewrite IH. Qed.
Lemma consumed_app p t : consumed (p +:+ t) t = p.
Proof.
  unfold consumed. rewrite string_length_app.
  replace (String.length p + String.length t - String.length t)%nat with (String.length p) by lia.
  apply take_app.
Qed.

(** The members of an object after its brace, with the text of each value, of a text
    that is known to be JSON. *)
Fixpoint raw_members (fuel : nat) (s : string) : option (list (string * string * json)) :=
  match fuel with
  | O => None
  | S fuel =>
      match skip_space s with
      | String _ s1 =>
          match parse_string s1 with
          | None => None
          | Some (key, s2) =>
              match skip_space s2 with
              | String _ s3 =>
                  let text := skip_space s3 in
                  match parse_value (enough text) text with
                  | None => None
                  | Some (v, s4) =>
                      match skip_space s4 with
                      | String d s5 =>
                          if Ascii.eqb d "}" then Some [(key, consumed text s4, v)]
                          else match raw_members fuel s5 with
                               | Some ms => Some ((key, consumed text s4, v) :: ms)
                               | None => None
                               end
                      | "" => None
                      end
                  end
              | "" => None
              end
          end
      | "" => None
      end
  end.

(** ** Objects as [Marshal] writes them *)

Definition member (key value : string) : string := quoted key +:+ String ":" value.
Fixpoint members_text (ms : list (string * string * json)) (key value : string) : string :=
  match ms with
  | [] => member key value +:+ "}"
  | (k, w, _) :: ms => member k w +:+ String "," (members_text ms key value)
  end.

(** [w] is the text of [v], without space in front, in front of a delimiter or of a comma. *)
Definition reads_at (d : ascii) (w : string) (v : json) : Prop :=
  (∀ u, skip_space (w +:+ u) = w +:+ u) ∧
  ∀ f u, (enough w ≤ f)%nat → parse_value f (w +:+ String d u) = Some (v, String d u).
Definition reads : string → json → Prop := reads_at ",".
Definition reads_last (w : string) (v : json) : Prop :=
  (∀ u, skip_space (w +:+ u) = w +:+ u) ∧
  ∀ f, (enough w ≤ f)%nat → parse_value f (w +:+ "}") = Some (v, "}").

Lemma member_app k w t : member k w +:+ t = quoted k +:+ String ":" (w +:+ t).
Proof. unfold member. by rewrite <- string_app_assoc, string_app_cons. Qed.
Lemma member_length k w : (String.length w + 3 ≤ String.length (member k w))%nat.
Proof. unfold member, quoted. rewrite string_length_app. cbn. rewrite string_length_app. cbn. lia. Qed.

(** One member at the head. *)
Lemma raw_members_head f k w v d rest :
  ascii_only k = true → (∀ u, skip_space (w +:+ u) = w +:+ u) → is_space d = false →
  parse_value (enough (w +:+ String d rest)) (w +:+ String d rest) = Some (v, String d rest) →
  raw_members (S f) (member k w +:+ String d rest) =
    if Ascii.eqb d "}" then Some [(k, w, v)]
    else match raw_members f rest with Some ms => Some ((k, w, v) :: ms) | None => None end.
Proof.
  intros Hk Hw Hd Hv. rewrite member_app, quoted_app. cbn [raw_members].
  change (skip_space (String quote ?s)) with (String quote s). cbn iota.
  rewrite parse_string_quoted by done. change (skip_space (String ":" ?s)) with (String ":" s). cbn iota zeta.
  rewrite Hw, Hv. cbn [skip_space]. rewrite Hd, consumed_app. done.
Qed.

Lemma members_read ms k w v f :
  Forall (λ m, ascii_only m.1.1 = true ∧ reads m.1.2 m.2) ms → ascii_only k = true → reads_last w v →
  (enough (members_text ms k w) ≤ f)%nat →
  parse_members f (members_text ms k w) = Some ((λ m, (m.1.1, m.2)) <$> (ms ++ [(k, w, v)]), "") ∧
  raw_members f (members_text ms k w) = Some (ms ++ [(k, w, v)]).
Proof.
  intros Hms Hk [Hsp Hlast]. revert f. induction Hms as [|[[k' w'] v'] ms [Hk' [Hsp' Hr]] _ IH]; intros f Hf;
    cbn [fst snd] in *; cbn [members_text] in *; unfold enough in Hf; rewrite string_length_app in Hf;
    cbn [String.length] in Hf; (destruct f as [|f]; [lia|]).
  - pose proof (member_length k w). split.
    + rewrite member_app. apply parse_members_last; [done|]. apply Hlast. unfold enough. lia.
    + rewrite (raw_members_head f k w v "}" "") by
        (done || apply Hlast; unfold enough; rewrite string_length_app; lia). done.
  - pose proof (member_length k' w'). destruct (IH f) as [IH1 IH2]; [unfold enough; lia|]. split.
    + rewrite member_app. cbn [app fmap list_fmap fst snd]. eapply parse_members_more; [done| |exact IH1].
      apply Hr. unfold enough. lia.
    + rewrite (raw_members_head f k' w' v') by
        (done || apply Hr; unfold enough; rewrite string_length_app; lia). cbn. by rewrite IH2.
Qed.

Lemma members_text_head ms k w : ∃ s, members_text ms k w = String quote s.
Proof. destruct ms as [|[[k' w'] v'] ms]; cbn [members_text]; rewrite member_app, quoted_app; eauto. Qed.

(** A whole object. *)
Lemma object_read ms k w v :
  Forall (λ m, ascii_only m.1.1 = true ∧ reads m.1.2 m.2) ms → ascii_only k = true → reads_last w v →
  is_Some (parse (String "{" (members_text ms k w))) ∧
  parse (String "{" (members_text ms k w)) = Some (JObject ((λ m, (m.1.1, m.2)) <$> (ms ++ [(k, w, v)]))) ∧
  raw_members (enough (members_text ms k w)) (members_text ms k w) = Some (ms ++ [(k, w, v)]).
Proof.
  intros Hms Hk Hl. assert (parse (String "{" (members_text ms k w)) =
    Some (JObject ((λ m, (m.1.1, m.2)) <$> (ms ++ [(k, w, v)])))) as Hp.
  { unfold parse. set (t := members_text ms k w).
    replace (enough (String "{" t)) with (S (S (enough t))) by (unfold enough; cbn [String.length]; lia).
    destruct (members_read ms k w v (S (enough t))) as [E _]; try done; [subst t; lia|]. subst t.
    destruct (members_text_head ms k w) as [s Es]. rewrite Es in *. cbn [parse_value].
    change (skip_space (String "{" ?s)) with (String "{" s). change (Ascii.eqb "{" "{") with true. cbn iota.
    change (skip_space (String quote ?s)) with (String quote s).
    change (Ascii.eqb quote "}") with false. cbn iota. by rewrite E. }
  split_and!; [by rewrite Hp|done|]. by apply members_read.
Qed.

Lemma skip_space_head c s : is_space c = false → skip_space (String c s) = String c s.
Proof. cbn. by intros ->. Qed.

Lemma quoted_reads x : well_formed x = true → reads (quoted x) (JString x) ∧ reads_last (quoted x) (JString x).
Proof.
  intros H. split; (split; [intros u; rewrite quoted_app; by apply skip_space_head|]).
  - intros [|f] u Hf; [unfold enough in Hf; lia|]. by apply parse_value_utf8.
  - intros [|f] Hf; [unfold enough in Hf; lia|]. by apply parse_value_utf8.
Qed.
Lemma bool_reads (b : bool) : reads (if b then "true" else "false") (JBool b).
Proof. split; [by destruct b|]. intros [|f] u Hf; [unfold enough in Hf; lia|]. by destruct b. Qed.
Lemma null_reads : reads "null" JNull.
Proof. split; [done|]. intros [|f] u Hf; [unfold enough in Hf; lia|]. done. Qed.

(** ** Arrays *)

(** The elements of an array after its bracket, each with its text, of a text that is
    known to be JSON. *)
Fixpoint raw_elements (fuel : nat) (s : string) : option (list (string * json)) :=
  match fuel with
  | O => None
  | S fuel =>
      let text := skip_space s in
      match parse_value (enough text) text with
      | None => None
      | Some (v, s1) =>
          match skip_space s1 with
          | String d s2 =>
              if Ascii.eqb d "]" then Some [(consumed text s1, v)]
              else match raw_elements fuel s2 with
                   | Some l => Some ((consumed text s1, v) :: l)
                   | None => None
                   end
          | "" => None
          end
      end
  end.

Fixpoint elements_text (l : list (string * json)) (w : string) : string :=
  match l with
  | [] => w +:+ "]"
  | (x, _) :: l => x +:+ String "," (elements_text l w)
  end.

Lemma quoted_reads_at d x : well_formed x = true → reads_at d (quoted x) (JString x).
Proof.
  intros H. split; [intros u; rewrite quoted_app; by apply skip_space_head|].
  intros [|f] u Hf; [unfold enough in Hf; lia|]. by apply parse_value_utf8.
Qed.

(** A digit is a number. *)
Lemma digit_reads_at d c : delimiter d → between 49 57 c = true → reads_at d (String c "") (JNumber (String c "")).
Proof.
  intros Hd Hc. split.
  - intros u. rewrite string_app_cons. apply skip_space_head.
    destruct c as [[] [] [] [] [] [] [] []]; try reflexivity; vm_compute in Hc; discriminate.
  - intros [|f] u Hf; [unfold enough in Hf; lia|]. rewrite string_app_cons, string_app_nil_l.
    destruct c as [[] [] [] [] [] [] [] []]; try (vm_compute in Hc; discriminate);
      destruct Hd as [->|[->| ->]]; reflexivity.
Qed.

(** One element at the head. *)
Lemma raw_elements_head f w v d rest :
  (∀ u, skip_space (w +:+ u) = w +:+ u) → is_space d = false →
  parse_value (enough (w +:+ String d rest)) (w +:+ String d rest) = Some (v, String d rest) →
  raw_elements (S f) (w +:+ String d rest) =
    if Ascii.eqb d "]" then Some [(w, v)]
    else match raw_elements f rest with Some l => Some ((w, v) :: l) | None => None end.
Proof.
  intros Hw Hd Hv. cbn [raw_elements]. cbn zeta. rewrite Hw, Hv. cbn [skip_space].
  by rewrite Hd, consumed_app.
Qed.

Lemma elements_read l w v rest f :
  Forall (λ m, reads m.1 m.2) l → reads_at "]" w v → (enough (elements_text l w) ≤ f)%nat →
  parse_elements f (elements_text l w +:+ rest) = Some (l.*2 ++ [v], rest) ∧
  raw_elements f (elements_text l w +:+ rest) = Some (l ++ [(w, v)]).
Proof.
  intros Hl [Hsp Hlast]. revert f. induction Hl as [|[x y] l [Hsp' Hr] _ IH]; intros f Hf;
    cbn [fst snd] in *; cbn [elements_text] in *; unfold enough in Hf; rewrite string_length_app in Hf;
    cbn [String.length] in Hf; (destruct f as [|f]; [lia|]);
    rewrite <- string_app_assoc, string_app_cons.
  - rewrite string_app_nil_l. split.
    + cbn [parse_elements]. by rewrite Hlast by (unfold enough; lia).
    + rewrite (raw_elements_head f w v "]" rest) by
        (done || apply Hlast; unfold enough; rewrite string_length_app; lia). done.
  - destruct (IH f) as [IH1 IH2]; [unfold enough; lia|]. split.
    + cbn [parse_elements]. rewrite Hr by (unfold enough; lia).
      change (skip_space (String "," ?s)) with (String "," s). change (Ascii.eqb "," "]") with false.
      change (Ascii.eqb "," ",") with true. cbn iota. by rewrite IH1.
    + rewrite (raw_elements_head f x y) by
        (done || apply Hr; unfold enough; rewrite string_length_app; lia).
      change (Ascii.eqb "," "]") with false. cbn iota. by rewrite IH2.
Qed.

(** A whole array, with whatever follows it. *)
Lemma array_read l w v rest c s :
  Forall (λ m, reads m.1 m.2) l → reads_at "]" w v →
  elements_text l w = String c s → is_space c = false → Ascii.eqb c "]" = false →
  let text := String "[" (elements_text l w +:+ rest) in
  parse_value (enough text) text = Some (JArray (l.*2 ++ [v]), rest) ∧
  raw_elements (enough (elements_text l w +:+ rest)) (elements_text l w +:+ rest) = Some (l ++ [(w, v)]).
Proof.
  intros Hl Hw Hc Hsp Hb. cbn zeta. set (t := elements_text l w +:+ rest).
  assert (enough (elements_text l w) ≤ enough t)%nat as Hle
    by (unfold t, enough; rewrite string_length_app; lia).
  split; [|by apply elements_read].
  replace (enough (String "[" t)) with (S (S (enough t))) by (unfold enough; cbn [String.length]; lia).
  destruct (elements_read l w v rest (S (enough t))) as [E _]; [done..|lia|]. fold t in E.
  assert (t = String c (s +:+ rest)) as Et by (unfold t; by rewrite Hc, string_app_cons).
  rewrite Et in E |- *. cbn [parse_value]. change (skip_space (String "[" ?s)) with (String "[" s).
  change (Ascii.eqb "[" "{") with false. change (Ascii.eqb "[" "[") with true. cbn iota.
  rewrite skip_space_head by done. by rewrite Hb, E.
Qed.
End JsonText.
