(* ===== verification/ResultJson.v ===== *)
(** * The JSON form of a result (commandbus/bus.go, redisbus/bus.go)

    What [json.Marshal] and [json.Unmarshal] make of the struct [Result], as the bus
    uses them to record and to read results: an instance of [ResultCodec]. *)

From S2P Require Import Prelude GoStd Redis Lease Rfc3339 Json JsonText CommandBus.
Import Json JsonText Rfc3339.

(** [time.Time.MarshalJSON] of an instant in UTC, an error outside the years 0 to
    9999. *)
Definition marshalTime (x : Time.t) : option string :=
  let year := (year_of (x / Time.Second / 86400 + epoch_days)).1 in
  if (0 <=? year) && (year <? 10000) then Some (String quote (FormatRFC3339Nano x +:+ String quote ""))
  else None.

(** [json.RawMessage.MarshalJSON], compacted. *)
Definition marshalRaw (p : option string) : option string :=
  match p with None => Some "null" | Some p => compact p end.

Definition marshalBool (b : bool) : string := if b then "true" else "false".

(** The fields in their order, the last one apart. *)
Definition marshalResult (r : Result) : option string :=
  payload ← marshalRaw (ResultPayload r);
  time ← marshalTime (CompletedAt r);
  Some (String "{"
    (members_text
      [("CommandID", quoted (CommandID r), JNull); ("Success", marshalBool (Success r), JNull);
       ("Payload", payload, JNull); ("ErrorCode", quoted (ErrorCode r), JNull);
       ("ErrorDescription", quoted (ErrorDescription r), JNull)]
      "CompletedAt" time)).

(** [time.Time.UnmarshalJSON]: [null] leaves the field alone. *)
Definition unmarshalTime (old : Time.t) (text : string) : option Time.t :=
  if String.eqb text "null" then Some old
  else match Strings.strip_prefix (String quote "") text with
  | None => None
  | Some t => match Strings.strip_suffix (String quote "") t with
              | None => None
              | Some t => ParseRFC3339 t
              end
  end.

Definition unmarshalString (old : string) (v : json) : option string :=
  match v with JString s => Some s | JNull => Some old | _ => None end.
Definition unmarshalBool (old : bool) (v : json) : option bool :=
  match v with JBool b => Some b | JNull => Some old | _ => None end.

(** One member into the struct; names match whatever their case, others are skipped. *)
Definition unmarshalMember (r : Result) (m : string * string * json) : option Result :=
  let '(key, text, v) := m in
  let named name := String.eqb (fold_name key) (fold_name name) in
  if named "CommandID" then
    id ← unmarshalString (CommandID r) v;
    Some (mkResult id (Success r) (ResultPayload r) (ErrorCode r) (ErrorDescription r) (CompletedAt r))
  else if named "Success" then
    b ← unmarshalBool (Success r) v;
    Some (mkResult (CommandID r) b (ResultPayload r) (ErrorCode r) (ErrorDescription r) (CompletedAt r))
  else if named "Payload" then
    Some (mkResult (CommandID r) (Success r) (Some text) (ErrorCode r) (ErrorDescription r) (CompletedAt r))
  else if named "ErrorCode" then
    c ← unmarshalString (ErrorCode r) v;
    Some (mkResult (CommandID r) (Success r) (ResultPayload r) c (ErrorDescription r) (CompletedAt r))
  else if named "ErrorDescription" then
    d ← unmarshalString (ErrorDescription r) v;
    Some (mkResult (CommandID r) (Success r) (ResultPayload r) (ErrorCode r) d (CompletedAt r))
  else if named "CompletedAt" then
    t ← unmarshalTime (CompletedAt r) text;
    Some (mkResult (CommandID r) (Success r) (ResultPayload r) (ErrorCode r) (ErrorDescription r) t)
  else Some r.

Fixpoint unmarshalMembers (r : Result) (ms : list (string * string * json)) : option Result :=
  match ms with
  | [] => Some r
  | m :: ms => r ← unmarshalMember r m; unmarshalMembers r ms
  end.

Definition zeroResult : Result := mkResult "" false None "" "" Time.zero.

Definition unmarshalResult (s : string) : option Result :=
  match parse s with
  | Some JNull => Some zeroResult
  | Some (JObject []) => Some zeroResult
  | Some (JObject _) =>
      match skip_space s with
      | String _ s1 => raw_members (enough s1) s1 ≫= unmarshalMembers zeroResult
      | "" => None
      end
  | _ => None
  end.

(** Exactly one value, with nothing behind it. *)
Definition tight (p : string) : bool :=
  match parse_value (enough p) p with Some (_, "") => true | _ => false end.

(** What a handler returns: texts in UTF-8, a payload that is already compact JSON,
    and a time of the years 0 to 9999. *)
Definition encodable (r : Result) : Prop :=
  well_formed (CommandID r) = true ∧ well_formed (ErrorCode r) = true ∧
  well_formed (ErrorDescription r) = true ∧
  match ResultPayload r with None => True | Some p => compact p = Some p ∧ tight p = true end ∧
  four_digit_year (CompletedAt r).

(** ** Round trip *)

Lemma compact_no_space s c r : compact_from Outside s = String c r → is_space c = false.
Proof.
  induction s as [|d s IH]; [done|]. cbn [compact_from]. destruct (is_space d) eqn:E; [done|].
  by intros [= <- _].
Qed.

(** A compact text is read back in front of a delimiter. *)
Lemma payload_reads d p :
  delimiter d → compact p = Some p → tight p = true → ∃ v, reads_at d p v.
Proof.
  intros Hd. unfold compact, tight. destruct (parse p) as [v0|]; [|done]. intros [= Hc].
  destruct (parse_value (enough p) p) as [[v [|]]|] eqn:E; try done. intros _. exists v. split.
  - intros u. destruct p as [|c p]; [done|]. rewrite string_app_cons. apply skip_space_head.
    by eapply compact_no_space.
  - intros f u Hf. by apply (parse_embedded d Hd u f p v "").
Qed.

(** The texts of times need no escapes. *)
Definition plain (c : ascii) : bool :=
  between 48 57 c || Ascii.eqb c "-" || Ascii.eqb c ":" || Ascii.eqb c "." || Ascii.eqb c "T" || Ascii.eqb c "Z".
Fixpoint all_plain (s : string) : bool :=
  match s with "" => true | String c s => plain c && all_plain s end.
Lemma plain_escape s : all_plain s = true → escape s = s ∧ well_formed s = true.
Proof.
  induction s as [|c s IH]; [done|]. cbn [all_plain]. intros [Hc Hs]%andb_true_iff.
  destruct (IH Hs) as [E1 E2].
  assert (between 0 127 c = true ∧ escape_ascii c = String c "") as [Hb He].
  { clear -Hc. destruct c as [[] [] [] [] [] [] [] []]; try done; vm_compute in Hc; discriminate. }
  cbn [escape well_formed]. rewrite utf8_tail_ascii by done. rewrite He, E1, E2. done.
Qed.

Lemma plain_digit d : 0 ≤ d < 10 → plain (Strconv.digit_char d) = true.
Proof. intros H. unfold plain. by rewrite digit_char_between. Qed.
Lemma plain_cons c s : plain c = true → all_plain s = true → all_plain (String c s) = true.
Proof. cbn. by intros -> ->. Qed.
Lemma plain_two n rest : 0 ≤ n < 100 → all_plain rest = true → all_plain (two n rest) = true.
Proof.
  intros Hn Hr. unfold two. cbn [all_plain]. rewrite !plain_digit by div_lia. done.
Qed.
Lemma plain_digits ds rest :
  Forall (λ d, 0 ≤ d < 10) ds → all_plain rest = true → all_plain (digit_text ds rest) = true.
Proof.
  intros H Hr. induction H as [|d ds Hd _ IH]; [done|]. cbn [digit_text all_plain].
  by rewrite plain_digit, IH.
Qed.
Lemma plain_time x : four_digit_year x → all_plain (FormatRFC3339Nano x) = true.
Proof.
  unfold four_digit_year, FormatRFC3339Nano, format_with. intros Hy.
  set (of_day := _ `mod` 86400). assert (0 ≤ of_day < 86400) by (subst of_day; div_lia).
  destruct (year_of _) as [y yd] eqn:Ey. cbn [fst] in Hy. apply year_of_spec in Ey as [_ Hyd].
  destruct (month_of _ yd) as [m d] eqn:Em. apply month_of_spec in Em as (_ & Hd & Hm);
    [|by rewrite year_length]. pose proof (month_length (isLeap y) m).
  change (length (month_lengths (isLeap y))) with 12%nat in Hm.
  assert (all_plain (fraction_text (x `mod` Time.Second) "Z") = true) as Hf.
  { unfold fraction_text. assert (0 ≤ x `mod` Time.Second < Time.Second) as Hn by (unfold Time.Second; div_lia).
    pose proof (trim_zeros_range _ (nine_digits_range _ Hn)) as Hr. destruct (trim_zeros _) as [|e ds]; [done|].
    cbn [all_plain]. by rewrite plain_digits. }
  unfold year_digits. rewrite Z.abs_eq by lia.
  destruct (Z.ltb_spec y 0), (Z.ltb_spec y 10000); [lia..| |lia].
  repeat first [apply plain_two; [div_lia|] | apply plain_cons; [reflexivity|]]. done.
Qed.

Lemma marshalTime_reads x :
  four_digit_year x →
  marshalTime x = Some (quoted (FormatRFC3339Nano x)) ∧
  reads_last (quoted (FormatRFC3339Nano x)) (JString (FormatRFC3339Nano x)) ∧
  ∀ old, unmarshalTime old (quoted (FormatRFC3339Nano x)) = Some x.
Proof.
  intros H. destruct (plain_escape _ (plain_time x H)) as [He Hw]. split_and!.
  - unfold marshalTime. destruct H. rewrite (proj2 (Z.leb_le _ _)), (proj2 (Z.ltb_lt _ _)) by done.
    unfold quoted. by rewrite He.
  - by apply quoted_reads.
  - intros old. unfold unmarshalTime, quoted. rewrite He.
    change (String.eqb (String quote _) "null") with false. cbn iota.
    cbn [Strings.strip_prefix]. change (Ascii.eqb quote quote) with true. cbn iota.
    rewrite (proj2 (Strings.strip_suffix_spec (String quote "") _ (FormatRFC3339Nano x)) eq_refl).
    by apply ParseRFC3339_Nano.
Qed.

(** The members of a result with what they read as. *)
Definition resultMembers (r : Result) (payload : string) (v : json) : list (string * string * json) :=
  [("CommandID", quoted (CommandID r), JString (CommandID r));
   ("Success", marshalBool (Success r), JBool (Success r));
   ("Payload", payload, v);
   ("ErrorCode", quoted (ErrorCode r), JString (ErrorCode r));
   ("ErrorDescription", quoted (ErrorDescription r), JString (ErrorDescription r))].

Lemma marshalled_payload r :
  encodable r →
  ∃ v, marshalRaw (ResultPayload r) = Some (default "null" (ResultPayload r)) ∧
       reads (default "null" (ResultPayload r)) v.
Proof.
  intros (_ & _ & _ & Hp & _). destruct (ResultPayload r) as [p|]; cbn.
  - destruct Hp as [Hc Ht]. destruct (payload_reads "," p (or_introl eq_refl) Hc Ht) as [v Hv]. eauto.
  - exists JNull. split; [done|apply null_reads].
Qed.

(** Each field from its member. *)
Lemma unmarshal_all t1 id t2 ok t3 v t4 code t5 desc t6 w at_ :
  unmarshalTime Time.zero t6 = Some at_ →
  unmarshalMembers zeroResult
    [("CommandID", t1, JString id); ("Success", t2, JBool ok); ("Payload", t3, v);
     ("ErrorCode", t4, JString code); ("ErrorDescription", t5, JString desc); ("CompletedAt", t6, w)] =
  Some (mkResult id ok (Some t3) code desc at_).
Proof.
  intros H. cbn [unmarshalMembers].
  assert (∀ r, unmarshalMember r ("CompletedAt", t6, w) =
    t ← unmarshalTime (CompletedAt r) t6;
    Some (mkResult (CommandID r) (Success r) (ResultPayload r) (ErrorCode r) (ErrorDescription r) t)) as E
    by reflexivity.
  change (unmarshalMember zeroResult ("CommandID", t1, JString id))
    with (Some (mkResult id false None "" "" Time.zero)). cbn [mbind option_bind].
  change (unmarshalMember ?r ("Success", t2, JBool ok)) with (Some (mkResult id ok None "" "" Time.zero)).
  cbn [mbind option_bind].
  change (unmarshalMember ?r ("Payload", t3, v)) with (Some (mkResult id ok (Some t3) "" "" Time.zero)).
  cbn [mbind option_bind].
  change (unmarshalMember ?r ("ErrorCode", t4, JString code))
    with (Some (mkResult id ok (Some t3) code "" Time.zero)). cbn [mbind option_bind].
  change (unmarshalMember ?r ("ErrorDescription", t5, JString desc))
    with (Some (mkResult id ok (Some t3) code desc Time.zero)). cbn [mbind option_bind].
  rewrite E. cbn [CompletedAt]. by rewrite H.
Qed.

(** What the bus records reads back, with a nil payload as [null]. *)
Lemma marshal_then_unmarshal r :
  encodable r →
  ∃ c, marshalResult r = Some c ∧ is_Some (parse c) ∧ unmarshalResult c = Some (canonical r).
Proof.
  intros Hr. destruct (marshalled_payload r Hr) as (v & Hp & Hv). destruct Hr as (H1 & H2 & H3 & _ & H5).
  destruct (marshalTime_reads _ H5) as (Ht & Hread & Hback).
  unfold marshalResult. rewrite Hp. cbn [mbind option_bind]. rewrite Ht. cbn [mbind option_bind].
  eexists. split; [done|].
  change (members_text _ ?k ?w) with
    (members_text (resultMembers r (default "null" (ResultPayload r)) v) k w).
  destruct (object_read (resultMembers r (default "null" (ResultPayload r)) v) "CompletedAt"
    (quoted (FormatRFC3339Nano (CompletedAt r))) (JString (FormatRFC3339Nano (CompletedAt r))))
    as (Hjson & Hparse & Hraw); [|done|done|].
  { unfold resultMembers. repeat (apply Forall_cons; split; [split; [done|]|]); cbn [fst snd];
      [by apply quoted_reads|apply bool_reads|done|by apply quoted_reads..|by apply Forall_nil]. }
  split; [exact Hjson|]. unfold unmarshalResult. rewrite Hparse. cbn [resultMembers app fmap list_fmap].
  rewrite skip_space_head by done. rewrite Hraw. unfold resultMembers. cbn [mbind option_bind app].
  by rewrite (unmarshal_all _ _ _ _ _ _ _ _ _ _ _ _ _ (Hback _)).
Qed.

(** The JSON codec the bus uses. *)
#[export] Program Instance json_codec : ResultCodec := {|
  Marshal := marshalResult;
  Unmarshal := unmarshalResult;
  marshallable := encodable
|}.
Next Obligation. intros r (c & -> & _)%marshal_then_unmarshal. eauto. Qed.
Next Obligation.
  intros r c (c' & E & _ & H)%marshal_then_unmarshal E'. rewrite E in E'. by injection E' as <-.
Qed.

(** C26: the JSON form of a result makes the round trip: it is refused exactly when its
    payload is not JSON or its time cannot be written; otherwise, for texts in UTF-8 and
    a compact payload, it is a JSON text that reads back as the same result, the payload
    byte for byte and the time to the nanosecond, with a nil payload as [null]. *)
Theorem result_json_round_trip r :
  (marshalResult r = None ↔
     (∃ p, ResultPayload r = Some p ∧ parse p = None) ∨ ¬ four_digit_year (CompletedAt r)) ∧
  (encodable r →
   ∃ c, marshalResult r = Some c ∧ is_Some (parse c) ∧ unmarshalResult c = Some (canonical r)).
Proof.
  split; [|apply marshal_then_unmarshal]. unfold marshalResult, marshalTime, four_digit_year.
  set (year := (year_of _).1).
  assert ((0 <=? year) && (year <? 10000) = true ↔ 0 ≤ year < 10000) as Hy
    by (rewrite andb_true_iff, Z.leb_le, Z.ltb_lt; done).
  assert (marshalRaw (ResultPayload r) = None ↔ ∃ p, ResultPayload r = Some p ∧ parse p = None) as Hp.
  { unfold marshalRaw, compact. destruct (ResultPayload r) as [p|]; [|naive_solver].
    destruct (parse p) eqn:E; naive_solver. }
  clearbody year. destruct (marshalRaw (ResultPayload r)) as [t|]; cbn [mbind option_bind].
  2: { split; [|done]. intros _. left. by apply Hp. }
  destruct (_ && _); cbn [mbind option_bind]; (split; [try done; intros _|intros [H%Hp|H]; try done]).
  - by destruct H; apply Hy.
  - right. by intros H%Hy.
Qed.

Module ResultWitnesses.
(** Umlauts, a line separator and a quote in the description; half a second. *)
Definition payload : string := String "{" (quoted "status" +:+ ":" +:+ quoted "Accepted" +:+ "}").
Definition res : Result :=
  mkResult "id1" true (Some payload) "InternalError"
    (String (byte 195) (String (byte 188) (String quote (String (byte 226) (String (byte 128) (String (byte 168) "<"))))))
    (1700000000 * Time.Second + 500000000).

Lemma result_json_round_trip_witness :
  ∃ c, marshalResult res = Some c ∧ is_Some (parse c) ∧ unmarshalResult c = Some (canonical res).
Proof.
  destruct (result_json_round_trip res) as [_ H]. apply H. clear H.
  split_and!; try by_evaluation; try (split; by_evaluation); vm_compute; by split.
Defined.
End ResultWitnesses.
