(* ===== verification/RegistryProperties.v ===== *)
(** * What the two session registries guarantee

    Statements about whole calls of [Claim], [Renew], [Release] and [Lookup],
    for the Redis registry (over any server that obeys the laws of Redis.v, with
    lost replies and resent commands) and for the in-memory one. *)

From S2P Require Import Prelude GoStd Redis Lease MemoryRegistry RedisRegistry.

Section redis.
Context {R : Redis} `{L : !RedisLaws R} (prefix : string).

Abbreviation key id := (RedisStore.leaseKey prefix id).
Abbreviation claim_at id o ms :=
  (RedisStore.claimScript (key id) (RedisStore.generationKey prefix) o ms).
Abbreviation wf := (RedisStore.wf prefix).
Abbreviation holder := (RedisStore.holder prefix).
Abbreviation issued := (RedisStore.issued prefix).
Abbreviation room := (RedisStore.room prefix).
Abbreviation within := RedisStore.within.
Abbreviation clock := RedisStore.clock.
Abbreviation send := RedisStore.send.

(** The reply of the last attempt arrived. *)
Definition replied (d : delivery) : Prop := seen d = Replied.

Lemma look_until s t t' k v d :
  look s t k = Some (Entry v (Some d)) → t ≤ t' < d →
  look s t' k = Some (Entry v (Some d)).
Proof.
  intros E Ht. rewrite (look_later _ t t') by lia. rewrite E. cbn.
  by rewrite expired_before by lia.
Qed.

(** Executions that leave this state as it is, however often they are resent. *)
Lemma replay_fixed {A} (m : Z → M rstate redis_error A) ts s t t' :
  (∀ x, t ≤ x ≤ t' → (m x s).1 = s) → chain t ts t' → replay m ts s = s.
Proof.
  revert t. induction ts as [|x ts IH]; intros t Hm Hc; [done|]. destruct Hc as [Hx Hc].
  pose proof (chain_le _ _ _ Hc). change (replay m ts (m x s).1 = s).
  rewrite Hm by lia. apply (IH x); [|done]. intros y Hy. apply Hm. lia.
Qed.

Lemma call_fixed {A} d (m : Z → M rstate redis_error A) s t a :
  (∀ x, t ≤ x ≤ at_ms d → (m x s).1 = s) → chain t (lost d) (at_ms d) → replied d →
  m (at_ms d) s = (s, Ok a) → call d m s = (s, Ok a).
Proof.
  intros Hm Hc Hr E. unfold call. rewrite (replay_fixed m _ s t (at_ms d)) by done.
  by rewrite Hr, E.
Qed.

(** The record a granted claim leaves, up to its deadline. *)
Lemma claimed_entry e id o ttl s s' l t :
  wf s t → within t e → room e s t → id ≠ "generation" → Time.Millisecond ≤ ttl →
  RedisStore.Claim prefix e id o ttl s = (s', (l, None)) →
  look s' (clock e) (key id) =
    Some (Entry (RHash (RedisStore.lease_hash o (Generation l)))
            (Some (clock e + Time.Milliseconds ttl))) ∧
  1 ≤ Generation l ≤ 2 ^ 53.
Proof.
  intros Hwf Hin Hroom Hid Httl Hc.
  destruct (RedisStore.Claim_granted _ _ _ _ _ _ _ _ _ Hwf Hin Hroom Hid Hc)
    as (s0 & Hwf0 & Hi0 & _ & _ & (_ & Hl & _) & _ & _ & Hg).
  apply RedisStore.Milliseconds_pos in Httl.
  pose proof (RedisStore.issued_range _ _ _ Hwf0). split; [|lia].
  rewrite Hl, Hg. case_match; bool_to_prop; [lia|done].
Qed.

(** The reply to a claim of a station that is held. *)
Lemma parse_conflict own g n :
  1 ≤ g ≤ 2 ^ 53 → in_int64 n →
  RedisStore.parseClaimResult
    [AInt 0; AString own; AString (Strconv.FormatInt g); AInt n] =
  Ok (false, own, g, wrap_int64 (n * Time.Millisecond)).
Proof.
  intros Hg Hn. unfold RedisStore.parseClaimResult.
  change (Sprint (AInt ?x)) with (Strconv.FormatInt x). change (Sprint (AString ?x)) with x.
  rewrite !Strconv.ParseInt_FormatInt by done.
  by rewrite RedisStore.ParseUint_generation by done.
Qed.

Lemma Claim_args id o ttl :
  id ≠ "" → o ≠ "" → 0 < ttl →
  String.eqb id "" || String.eqb o "" || (ttl <=? 0) = false.
Proof.
  intros Hid Ho Httl. apply String.eqb_neq in Hid, Ho. rewrite Hid, Ho. cbn.
  apply Z.leb_gt. lia.
Qed.

Lemma Milliseconds_in_int64 d : 0 ≤ d ≤ int64_max → 0 ≤ Time.Milliseconds d ≤ d.
Proof.
  intros Hd. unfold Time.Milliseconds, Time.Millisecond.
  pose proof (Z.quot_pos d 1000000). pose proof (Z.quot_le_upper_bound d 1000000 d). lia.
Qed.

(** A claim of a station whose record is live reports its owner and changes
    nothing, however often it is resent. *)
Lemma Claim_held e id o ttl s own g d t :
  look s t (key id) = Some (Entry (RHash (RedisStore.lease_hash own g)) (Some d)) →
  1 ≤ g ≤ 2 ^ 53 → d - clock e ≤ int64_max → within t e → clock e < d → replied (send e) →
  id ≠ "" → o ≠ "" → 0 < ttl →
  ∃ at_, RedisStore.Claim prefix e id o ttl s =
    (s, (mkLease id own g at_, Some (ErrOwnershipConflict own g))).
Proof.
  intros E Hg Hd Hin Hlt Hr Hid Ho Httl. pose proof (RedisStore.within_clock _ _ Hin) as Ht.
  assert (∀ x, t ≤ x ≤ clock e → claim_at id o (Time.Milliseconds ttl) x s =
    (s, Ok [AInt 0; AString own; AString (Strconv.FormatInt g); AInt (d - x)])) as Hrun.
  { intros x Hx. apply RedisStore.claim_run_held. apply (look_until _ t); [done|lia]. }
  unfold RedisStore.Claim. rewrite Claim_args by done.
  rewrite (call_fixed (send e) _ s t _
    ltac:(intros x Hx; by rewrite Hrun by done) Hin Hr (Hrun (clock e) ltac:(lia))).
  rewrite parse_conflict; [by eexists|done|]. unfold in_int64, int64_min. lia.
Qed.

(** C3: mutual exclusion.  After a successful claim, and until its time to live
    has passed, every other claim of the station is refused with the owner and
    generation of the first one and leaves the server as it was; this holds
    whatever replies are lost and commands resent on either side. *)
Theorem redis_claim_excludes e1 e2 id o1 o2 ttl ttl2 s s1 l t :
  wf s t → within t e1 → room e1 s t → id ≠ "generation" → id ≠ "" → o2 ≠ "" →
  Time.Millisecond ≤ ttl ≤ int64_max → 0 < ttl2 →
  RedisStore.Claim prefix e1 id o1 ttl s = (s1, (l, None)) →
  within (clock e1) e2 → replied (send e2) → clock e2 < clock e1 + Time.Milliseconds ttl →
  ∃ at_, RedisStore.Claim prefix e2 id o2 ttl2 s1 =
    (s1, (mkLease id o1 (Generation l) at_,
          Some (ErrOwnershipConflict o1 (Generation l)))).
Proof.
  intros Hwf Hin Hroom Hid Hne Ho [Httl Hmax] Httl2 Hc Hin2 Hr Hlt.
  destruct (claimed_entry _ _ _ _ _ _ _ _ Hwf Hin Hroom Hid Httl Hc) as [E Hg].
  pose proof (RedisStore.within_clock _ _ Hin2).
  pose proof (Milliseconds_in_int64 ttl) as Hms. unfold Time.Millisecond in *.
  eapply Claim_held; [exact E|done|lia|done..].
Qed.

(** C23: what was claimed is what a lookup finds.  Until the time to live has
    passed a lookup returns the claimed owner and generation and an expiry no
    later than the server's, even though it reads the record and its remaining
    time in two separate commands. *)
Theorem redis_lookup_after_claim e1 e2 id o ttl s s1 l t :
  wf s t → within t e1 → room e1 s t → id ≠ "generation" →
  Time.Millisecond ≤ ttl ≤ int64_max →
  RedisStore.Claim prefix e1 id o ttl s = (s1, (l, None)) →
  within (clock e1) e2 → replied (send e2) → replied (RedisStore.send2 e2) →
  clock e2 ≤ at_ms (RedisStore.send2 e2) < clock e1 + Time.Milliseconds ttl →
  let remaining := clock e1 + Time.Milliseconds ttl - at_ms (RedisStore.send2 e2) in
  RedisStore.Lookup prefix e2 id s1 =
    (s1, (mkLease id o (Generation l)
            (RedisStore.now e2 + remaining * Time.Millisecond), None)).
Proof.
  intros Hwf Hin Hroom Hid [Httl Hmax] Hc Hin2 Hr Hr2 Hlt remaining.
  destruct (claimed_entry _ _ _ _ _ _ _ _ Hwf Hin Hroom Hid Httl Hc) as [E Hg].
  pose proof (RedisStore.within_clock _ _ Hin2) as Ht.
  pose proof (look_until _ _ (clock e2) _ _ _ E ltac:(lia)) as E2.
  pose proof (look_until _ _ (at_ms (RedisStore.send2 e2)) _ _ _ E ltac:(lia)) as E3.
  unfold RedisStore.Lookup.
  rewrite (call_fixed (send e2) _ s1 (clock e1)
    (Some o, Some (Strconv.FormatInt (Generation l)))
    ltac:(intros; apply RedisStore.hmget_reads) Hin2 Hr); last first.
  { unfold RedisStore.hmget, hget, mbind, M_bind, mret, M_ret.
    change (at_ms (send e2)) with (clock e2).
    rewrite HGET_law, E2. cbn. by rewrite HGET_law, E2. }
  unfold call. rewrite replay_reads by done. rewrite Hr2.
  unfold pttl, gets. rewrite PTTL_law, E3. cbn [pttl_reply].
  fold remaining. unfold RedisStore.pttl_duration.
  assert (0 < remaining ≤ Time.Milliseconds ttl) as Hrem by lia.
  assert (remaining * Time.Millisecond ≤ int64_max).
  { unfold Time.Milliseconds, Time.Millisecond in *. pose proof (Z.mul_quot_le ttl 1000000). lia. }
  destruct (Z.eqb_spec remaining (-1)), (Z.eqb_spec remaining (-2)); try lia. cbn [orb].
  rewrite wrap_int64_small by (unfold in_int64, int64_min, Time.Millisecond in *; lia).
  unfold RedisStore.lookupLease.
  destruct (Z.leb_spec (remaining * Time.Millisecond) 0); [unfold Time.Millisecond in *; lia|].
  by rewrite RedisStore.ParseUint_generation by done.
Qed.

(** C30: a renewal that carries a stale fence is refused with [ErrLeaseLost] and
    leaves the server exactly as it was, so a runtime that lost a station
    cannot disturb the one that took it over. *)
Theorem redis_stale_renewal_refused e l ttl s t :
  wf s t → within t e → StationIdentity l ≠ "generation" → 0 ≤ Generation l → 0 < ttl →
  replied (send e) → holder s t (StationIdentity l) ≠ Some (fence l) →
  RedisStore.Renew prefix e l ttl s = (s, (noLease, Some ErrLeaseLost)).
Proof.
  intros Hwf Hin Hid Hg Httl Hr Hstale.
  assert (∀ x, t ≤ x ≤ clock e →
    RedisStore.renewScript (key (StationIdentity l)) (OwnerID l)
      (Strconv.FormatUint (Generation l)) (Time.Milliseconds ttl) x s = (s, Ok 0)) as Hrun.
  { intros x [Hx _]. assert (holder s x (StationIdentity l) ≠ Some (OwnerID l, Generation l)) as Hn.
    { intros Hh. by apply Hstale, (RedisStore.holder_later prefix s t x). }
    destruct (RedisStore.renew_run prefix s x _ (OwnerID l) (Generation l)
      (Time.Milliseconds ttl) (RedisStore.wf_later _ _ _ _ Hx Hwf) Hid Hg) as (s' & E & Hs & _).
    rewrite E, Hs by done. by rewrite bool_decide_eq_false_2. }
  unfold RedisStore.Renew. destruct (Z.leb_spec ttl 0); [lia|].
  pose proof (RedisStore.within_clock _ _ Hin).
  by rewrite (call_fixed (send e) _ s t _
    ltac:(intros x Hx; by rewrite Hrun by done) Hin Hr (Hrun (clock e) ltac:(lia))).
Qed.

(** The lease key of a station named "generation" is the key of the
    generation counter, so this one station can never connect: whatever the
    state of the registry, its claim fails with a type error. *)
Theorem generation_station_unclaimable e o ttl s t :
  wf s t → t = clock e → lost (send e) = [] → replied (send e) → o ≠ "" → 0 < ttl →
  ∃ s', RedisStore.Claim prefix e "generation" o ttl s =
    (s', (noLease, Some (ErrRedis "claim redis session lease" (Server WRONGTYPE)))).
Proof.
  intros Hwf -> Hl Hr Ho Httl. unfold RedisStore.Claim. rewrite Claim_args by done.
  change (key "generation") with (RedisStore.generationKey prefix).
  set (g := RedisStore.generationKey prefix).
  assert (∃ s', RedisStore.claimScript g g o (Time.Milliseconds ttl) (clock e) s =
    (s', Err WRONGTYPE)) as [s' E]; last first.
  { exists s'. unfold call. rewrite Hl, Hr. change (at_ms (send e)) with (clock e). cbn.
    by rewrite E. }
  unfold RedisStore.claimScript, exists_, gets, incr, hset,
    hget, mbind, M_bind. rewrite EXISTS_law. fold g.
  destruct (RedisStore.wf_counter _ _ _ Hwf) as [E|(n & Hn & E)]; fold g in E; rewrite E; cbn.
  - destruct (INCR_law (clock e) g s) as (s1 & E1 & G1 & _). rewrite E in E1, G1. cbn in E1, G1.
    rewrite E1. destruct (HSET_law (clock e) g
      [("owner", o); ("generation", Strconv.FormatInt (lua_number 1))] s1)
      as (s2 & E2 & _). rewrite G1 in E2. cbn in E2. rewrite E2. eauto.
  - rewrite HGET_law, E. cbn. eauto.
Qed.

(** The outcome of a claim delivered once to a free station. *)
Lemma Claim_free e id o ttl s :
  wf s (clock e) → lost (send e) = [] → replied (send e) → issued s (clock e) < 2 ^ 53 →
  id ≠ "generation" → id ≠ "" → o ≠ "" → 0 < ttl → Time.Milliseconds ttl ≤ 2 ^ 53 →
  look s (clock e) (key id) = None →
  ∃ s' at_, RedisStore.Claim prefix e id o ttl s =
      (s', (mkLease id o (issued s (clock e) + 1) at_, None)) ∧
    RedisStore.granted prefix s s' (clock e) id o (Time.Milliseconds ttl).
Proof.
  intros Hwf Hl Hr Hlt Hid Hne Ho Httl Hms Hfree.
  pose proof (RedisStore.issued_range _ _ _ Hwf).
  assert (0 ≤ Time.Milliseconds ttl) by (apply Z.quot_pos; unfold Time.Millisecond; lia).
  destruct (RedisStore.claim_run_free prefix s (clock e) id o (Time.Milliseconds ttl)
    Hwf Hid Hlt Hfree) as (s' & E & Hg).
  exists s'. unfold RedisStore.Claim. rewrite Claim_args by done.
  unfold call. rewrite Hl, Hr. cbn [replay fold_left]. change (at_ms (send e)) with (clock e).
  rewrite E. unfold RedisStore.parseClaimResult.
  change (Sprint (AInt ?x)) with (Strconv.FormatInt x). change (Sprint (AString ?x)) with x.
  rewrite lua_number_exact by lia.
  rewrite !Strconv.ParseInt_FormatInt by (unfold in_int64, int64_min, int64_max; lia).
  rewrite RedisStore.ParseUint_generation by lia. by eexists.
Qed.

(** A time to live below one millisecond is accepted and claims nothing: the
    caller is told it owns the station, the record is deleted as it is written
    and the next claim of the station succeeds as well. *)
Theorem submillisecond_lease_is_void e o1 o2 id ttl s :
  wf s (clock e) → lost (send e) = [] → replied (send e) → issued s (clock e) + 2 ≤ 2 ^ 53 →
  id ≠ "generation" → id ≠ "" → o1 ≠ "" → o2 ≠ "" → 0 < ttl < Time.Millisecond →
  holder s (clock e) id = None →
  ∃ s1 l1 s2 l2,
    RedisStore.Claim prefix e id o1 ttl s = (s1, (l1, None)) ∧
    holder s1 (clock e) id = None ∧
    RedisStore.Claim prefix e id o2 ttl s1 = (s2, (l2, None)).
Proof.
  intros Hwf Hl Hr Hroom Hid Hne Ho1 Ho2 Httl Hfree.
  assert (Time.Milliseconds ttl = 0) as Hms by (apply Z.quot_small; lia).
  pose proof (RedisStore.issued_range _ _ _ Hwf).
  destruct (RedisStore.wf_holder prefix s (clock e) id Hwf Hid)
    as [[E _]|(own & g & d & _ & _ & Hh)]; [|congruence].
  destruct (Claim_free e id o1 ttl s) as (s1 & a1 & E1 & Hg1); [done..|lia|done|done|done|lia|lia|done|].
  destruct (RedisStore.granted_wf _ _ _ _ _ _ _ Hwf Hid ltac:(lia) E Hg1) as (Hwf1 & Hi1 & _).
  assert (look s1 (clock e) (key id) = None) as E' by (destruct Hg1 as (_ & -> & _); by rewrite Hms).
  destruct (Claim_free e id o2 ttl s1) as (s2 & a2 & E2 & _); [done..|lia|done|done|done|lia|lia|done|].
  eexists s1, _, s2, _. split_and!; [exact E1| |exact E2].
  unfold RedisStore.holder. by rewrite E'.
Qed.

(** A claim whose first reply was lost conflicts with itself: the resent
    command finds the record written by the first execution, the runtime is
    told that its own identity holds the station and closes the session, while
    the registry keeps the station for that runtime until the lease
    expires. *)
Theorem resent_claim_conflicts_with_itself e t1 id o ttl s :
  wf s t1 → lost (send e) = [t1] → replied (send e) → issued s t1 < 2 ^ 53 →
  id ≠ "generation" → id ≠ "" → o ≠ "" → Time.Millisecond ≤ ttl ≤ int64_max →
  t1 ≤ clock e < t1 + Time.Milliseconds ttl → holder s t1 id = None →
  ∃ s' l g, RedisStore.Claim prefix e id o ttl s = (s', (l, Some (ErrOwnershipConflict o g))) ∧
    g = issued s t1 + 1 ∧ holder s' (clock e) id = Some (o, g).
Proof.
  intros Hwf Hl Hr Hroom Hid Hne Ho [Httl Hmax] Ht Hfree.
  pose proof (RedisStore.Milliseconds_pos _ Httl) as Hpos.
  pose proof (Milliseconds_in_int64 ttl) as Hms.
  pose proof (RedisStore.issued_range _ _ _ Hwf) as Hi.
  destruct (RedisStore.wf_holder prefix s t1 id Hwf Hid)
    as [[E _]|(own & g & d & _ & _ & Hh)]; [|congruence].
  destruct (RedisStore.claim_run_free prefix s t1 id o (Time.Milliseconds ttl)
    Hwf Hid Hroom E) as (s1 & E1 & (_ & Hlk & _)).
  rewrite (proj2 (Z.leb_gt _ _) Hpos) in Hlk.
  pose proof (look_until _ _ (clock e) _ _ _ Hlk Ht) as Hlk'.
  exists s1. unfold RedisStore.Claim. rewrite Claim_args by (done || (unfold Time.Millisecond in *; lia)).
  unfold call. rewrite Hl, Hr. cbn [replay fold_left]. rewrite E1. cbn [fst].
  change (at_ms (send e)) with (clock e).
  rewrite (RedisStore.claim_run_held prefix s1 (clock e) id o _ _ _ _ Hlk').
  rewrite parse_conflict by (try lia; unfold in_int64, int64_min, Time.Millisecond in *; lia).
  eexists _, _. split_and!; [done|done|]. unfold RedisStore.holder. rewrite Hlk'.
  apply RedisStore.fields_of_lease. lia.
Qed.
End redis.

Section memory.
Import Memory.

Definition active (e : env) : Prop := Ctx.Err (ctx e) (now e) = None.

Lemma validate_ok e id o ttl :
  active e → id ≠ "" → o ≠ "" → 0 < ttl → validate e id o ttl = None.
Proof.
  intros Ha Hid Ho Httl. unfold validate. rewrite Ha. apply String.eqb_neq in Hid, Ho.
  rewrite Hid, Ho. cbn. by destruct (Z.leb_spec ttl 0); [lia|].
Qed.

(** The in-memory registry, claim then lookup: until the lease expires a
    lookup returns exactly the lease that was claimed and every other claim is
    refused with it; from its expiry on a lookup finds nothing. *)
Theorem memory_claim_then_lookup e1 e2 id o1 o2 ttl ttl2 s s1 l :
  Memory.Claim e1 id o1 ttl s = (s1, (l, None)) →
  active e2 → id ≠ "" → o2 ≠ "" → 0 < ttl2 → now e1 ≤ now e2 →
  (now e2 < now e1 + ttl →
     Memory.Lookup e2 id s1 = (s1, (l, None)) ∧
     Memory.Claim e2 id o2 ttl2 s1 =
       (s1, (l, Some (ErrOwnershipConflict o1 (Generation l))))) ∧
  (now e1 + ttl ≤ now e2 → (Memory.Lookup e2 id s1).2 = (noLease, Some ErrNotFound)).
Proof.
  intros Hc Ha Hid Ho Httl Ht.
  destruct (validate e1 id o1 ttl) eqn:Hv; [unfold Claim in Hc; by rewrite Hv in Hc|].
  destruct (Claim_cases e1 id o1 ttl s Hv) as [(c & _ & _ & E)|[_ E]];
    rewrite E in Hc; simplify_eq.
  set (l := mkLease id o1 _ _).
  unfold Lookup, Claim. rewrite validate_ok, Ha by done.
  destruct (String.eqb_spec id ""); [done|]. cbn [leases]. rewrite lookup_insert_eq.
  unfold live, Time.After, l. cbn [ExpiresAt]. unfold Time.Add.
  by destruct (Z.ltb_spec (now e2) (now e1 + ttl)); (split; intros ?); [|lia|lia|].
Qed.

(** The in-memory registry lets a stale renewal evict the current owner: a
    renewal with an old fence reports [ErrLeaseLost] and also deletes the live
    lease of the runtime that took the station over. *)
Theorem memory_stale_renewal_evicts_owner e l ttl s x :
  active e → StationIdentity l ≠ "" → OwnerID l ≠ "" → 0 < ttl →
  Memory.holder s (now e) (StationIdentity l) = Some x → x ≠ fence l →
  ∃ s', Memory.Renew e l ttl s = (s', (noLease, Some ErrLeaseLost)) ∧
        Memory.holder s' (now e) (StationIdentity l) = None.
Proof.
  intros Ha Hid Ho Httl Hh Hx.
  destruct (Renew_cases e l ttl s) as [(c & Hc & Hl & Hf & _)|[_ E]];
    [by apply validate_ok| |].
  - rewrite (holder_live _ _ _ _ Hc Hl) in Hh. congruence.
  - rewrite E. eexists. split; [done|]. apply holder_delete_eq.
Qed.
End memory.

(** ** Instances on the concrete server *)
Module RegistryWitnesses.
Import RefRedis Deployed.

Abbreviation claim e id o ttl s := (RedisStore.Claim "csms" e id o ttl s).
Definition ttl : Time.Duration := 30 * Time.Second.
Definition s1 : rstate := (claim (at_ 1) "CP1" "a" ttl empty).1.
Definition l1 : Lease := (claim (at_ 1) "CP1" "a" ttl empty).2.1.

Lemma empty_ok t : RedisStore.wf "csms" empty t.
Proof. split; [by left|]. intros id _. by left. Qed.

Lemma s1_ok : RedisStore.wf "csms" s1 1.
Proof.
  eapply (RedisStore.Claim_state "csms" (at_ 1) "CP1" "a" ttl empty s1 _ 1);
    [apply empty_ok|discriminate|discriminate|discriminate|].
  vm_compute. reflexivity.
Qed.

(** The second claim is resent twice. *)
Definition resent : env := RedisStore.Env 0 (Delivery [5; 9] 20000 Replied) (clean 0).

Lemma redis_claim_excludes_witness :
  claim (at_ 1) "CP1" "a" ttl empty = (s1, (l1, None)) ∧
  ∃ at_, claim resent "CP1" "b" ttl s1 =
    (s1, (mkLease "CP1" "a" (Generation l1) at_,
          Some (ErrOwnershipConflict "a" (Generation l1)))).
Proof.
  split; [vm_compute; reflexivity|].
  apply (redis_claim_excludes "csms" (at_ 1) resent "CP1" "a" "b" ttl ttl empty s1 l1 1);
    [apply empty_ok|discriminate|discriminate|discriminate|discriminate|discriminate|
     split; discriminate|reflexivity|vm_compute; reflexivity| |reflexivity|reflexivity].
  change (1 ≤ 5 ∧ 5 ≤ 9 ∧ 9 ≤ 20000). lia.
Defined.

Lemma redis_lookup_after_claim_witness :
  RedisStore.Lookup "csms" (at_ 20000) "CP1" s1 =
    (s1, (mkLease "CP1" "a" 1 30001000000, None)).
Proof.
  apply (redis_lookup_after_claim "csms" (at_ 1) (at_ 20000) "CP1" "a" ttl empty s1 l1 1);
    [apply empty_ok|discriminate|discriminate|discriminate|split; discriminate|
     vm_compute; reflexivity|discriminate|reflexivity|reflexivity|
     split; [discriminate|reflexivity]].
Defined.

Definition stale : Lease := mkLease "CP1" "b" 7 0.

Lemma redis_stale_renewal_refused_witness :
  RedisStore.holder "csms" s1 1 "CP1" = Some ("a", 1) ∧
  RedisStore.Renew "csms" (at_ 2) stale ttl s1 = (s1, (noLease, Some ErrLeaseLost)).
Proof.
  split; [vm_compute; reflexivity|].
  apply (redis_stale_renewal_refused "csms" (at_ 2) stale ttl s1 1);
    [exact s1_ok|discriminate|discriminate|discriminate|reflexivity|reflexivity|].
  vm_compute. discriminate.
Defined.

Lemma generation_station_unclaimable_witness :
  ∃ s', claim (at_ 1) "generation" "a" ttl s1 =
    (s', (noLease, Some (ErrRedis "claim redis session lease" (Server WRONGTYPE)))).
Proof.
  apply (generation_station_unclaimable "csms" (at_ 1) "a" ttl s1 1);
    [exact s1_ok|reflexivity|reflexivity|reflexivity|discriminate|reflexivity].
Defined.

Lemma submillisecond_lease_is_void_witness :
  ∃ s1 l1 s2 l2,
    claim (at_ 1) "CP1" "a" 500 empty = (s1, (l1, None)) ∧
    RedisStore.holder "csms" s1 1 "CP1" = None ∧
    claim (at_ 1) "CP1" "b" 500 s1 = (s2, (l2, None)).
Proof.
  apply (submillisecond_lease_is_void "csms" (at_ 1) "a" "b" "CP1" 500 empty);
    [apply empty_ok|reflexivity|reflexivity|discriminate|discriminate|discriminate|
     discriminate|discriminate|split; reflexivity|reflexivity].
Defined.

Lemma resent_claim_conflicts_witness :
  ∃ s' l g,
    claim (RedisStore.Env 0 (Delivery [1] 300 Replied) (clean 0)) "CP1" "a" ttl empty =
      (s', (l, Some (ErrOwnershipConflict "a" g))) ∧
    g = RedisStore.issued "csms" empty 1 + 1 ∧
    RedisStore.holder "csms" s' 300 "CP1" = Some ("a", g).
Proof.
  apply (resent_claim_conflicts_with_itself "csms"
    (RedisStore.Env 0 (Delivery [1] 300 Replied) (clean 0)) 1 "CP1" "a" ttl empty);
    [apply empty_ok|reflexivity|reflexivity|reflexivity|discriminate|discriminate|
     discriminate|split; discriminate|split; [discriminate|reflexivity]|reflexivity].
Defined.

Definition mem_at (t : Z) : Memory.env := Memory.Env Ctx.Background t.
Definition mem1 : Memory.t := (Memory.Claim (mem_at 100) "CP1" "a" 50 Memory.NewMemory).1.
Definition memlease : Lease := mkLease "CP1" "a" 1 150.

Lemma memory_claim_then_lookup_witness :
  Memory.Lookup (mem_at 120) "CP1" mem1 = (mem1, (memlease, None)) ∧
  Memory.Claim (mem_at 120) "CP1" "b" 50 mem1 =
    (mem1, (memlease, Some (ErrOwnershipConflict "a" 1))).
Proof.
  destruct (memory_claim_then_lookup (mem_at 100) (mem_at 120) "CP1" "a" "b" 50 50
    Memory.NewMemory mem1 memlease) as [Hlive _];
    [vm_compute; reflexivity|reflexivity|discriminate|discriminate|reflexivity|discriminate|].
  apply Hlive. reflexivity.
Defined.

(** "a" lost the station, "b" holds it, "a" renews. *)
Definition mem2 : Memory.t := (Memory.Claim (mem_at 200) "CP1" "b" 50 mem1).1.

Lemma memory_stale_renewal_evicts_owner_witness :
  Memory.holder mem2 210 "CP1" = Some ("b", 2) ∧
  ∃ s', Memory.Renew (mem_at 210) memlease 50 mem2 = (s', (noLease, Some ErrLeaseLost)) ∧
        Memory.holder s' 210 "CP1" = None.
Proof.
  split; [vm_compute; reflexivity|].
  apply (memory_stale_renewal_evicts_owner (mem_at 210) memlease 50 mem2 ("b", 2));
    [reflexivity|discriminate|discriminate|reflexivity|vm_compute; reflexivity|discriminate].
Defined.
End RegistryWitnesses.
