(* ===== verification/BusProperties.v ===== *)
(** * What the command bus guarantees

    Over any server that obeys the laws of Redis.v: the trip of a command through
    the stream, the trip of a result back, and the role of the completion record
    when a command is delivered more than once. *)

From S2P Require Import Prelude GoStd Redis Json CommandBus ResultJson.

(** ** The transaction that records a result *)

Section complete.
Context {R : Redis} `{L : !RedisLaws R} {J : ResultCodec} (bus : Bus).

Abbreviation ckey id := (completionKey (prefix bus) id).
Abbreviation rkey id := (resultKey (prefix bus) id).

Lemma keys_distinct i j : ckey i ≠ rkey j.
Proof. unfold completionKey, resultKey. by intros E%string_app_inj_l. Qed.

(** The completion record of [id] as it is live at [t]. *)
Definition recorded (s : rstate) (t : Z) (id content : string) (d : Z) : Prop :=
  look s t (ckey id) = Some (Entry (RString content) (Some d)).

Lemma recorded_until s t t' id content d :
  recorded s t id content d → t ≤ t' < d → recorded s t' id content d.
Proof.
  unfold recorded. intros E Ht. rewrite (look_later _ t t') by lia. rewrite E. cbn.
  by rewrite expired_before by lia.
Qed.

(** What one execution of the transaction leaves behind. *)
Lemma completeTx_run id content t s :
  0 < resultTTL bus →
  ∃ s' r, completeTx bus id content t s = (s', r) ∧
    recorded s' t id content (t + set_ms (resultTTL bus)) ∧
    (look s t (rkey id) = None →
       r = Ok tt ∧ look s' t (rkey id) =
         Some (Entry (RList [content]) (Some (t + expire_ms (resultTTL bus))))) ∧
    (∀ l dl, look s t (rkey id) = Some (Entry (RList l) dl) →
       r = Ok tt ∧ look s' t (rkey id) =
         Some (Entry (RList (content :: l)) (Some (t + expire_ms (resultTTL bus))))) ∧
    (∀ k, k ≠ ckey id → k ≠ rkey id → look s' t k = look s t k).
Proof.
  intros Httl. pose proof (keys_distinct id id) as Hk.
  pose proof (expire_ms_pos _ Httl) as Hpos.
  destruct (SETEX_law t (ckey id) content (resultTTL bus) Httl s) as (s1 & E1 & G1 & O1).
  destruct (LPUSH_law t (rkey id) content s1) as (s2 & E2 & G2 & O2).
  destruct (EXPIRE_law t (rkey id) (resultTTL bus) s2) as (s3 & E3 & G3 & O3).
  rewrite O1 in E2, G2 by done.
  assert (∃ n, EXPIRE t (rkey id) (resultTTL bus) s2 = (s3, Ok n)) as [n E3'].
  { rewrite E3. unfold pexpire_effect. by destruct (look s2 t (rkey id)); [case_match|]; eexists. }
  exists s3, (match (lpush_effect content (look s t (rkey id))).2 with
              | Ok _ => Ok tt | Err e => Err e end).
  split; [|split_and!].
  - unfold completeTx, drop, mbind, M_bind, mret, M_ret. cbn [exec_tx]. rewrite E1, E2.
    by destruct (lpush_effect _ _).2; rewrite E3'.
  - unfold recorded. by rewrite O3, O2, G1 by done.
  - intros E. rewrite E in *. cbn in G2. rewrite G2 in G3. cbn in G3.
    rewrite G3. by case_match; bool_to_prop; [lia|].
  - intros l dl E. rewrite E in *. cbn in G2. rewrite G2 in G3. cbn in G3.
    rewrite G3. by case_match; bool_to_prop; [lia|].
  - intros k Hc Hr. by rewrite O3, O2, O1 by done.
Qed.

Lemma complete_ok d now r s s' :
  0 < resultTTL bus → complete bus d now r s = (s', Ok tt) →
  CommandID r ≠ "" ∧
  ∃ content, Marshal (stamp r now) = Some content ∧
    completeTx bus (CommandID r) content (at_ms d)
      (replay (completeTx bus (CommandID r) content) (lost d) s) = (s', Ok tt) ∧
    recorded s' (at_ms d) (CommandID r) content (at_ms d + set_ms (resultTTL bus)).
Proof.
  intros Httl. unfold complete. destruct (String.eqb_spec (CommandID r) ""); [done|].
  destruct (Marshal _) as [content|]; [|done].
  destruct (call d _ s) as [s1 [[]|]] eqn:E; [|done]. intros [= <-].
  apply call_ok in E. split; [done|]. exists content. split_and!; [done|done|].
  destruct (completeTx_run (CommandID r) content (at_ms d)
    (replay (completeTx bus (CommandID r) content) (lost d) s) Httl) as (s2 & r2 & E2 & Hrec & _).
  rewrite E in E2. by simplify_eq.
Qed.

(** Reading the completion record changes nothing. *)
Lemma completed_reads d id s : (completed bus d id s).1 = s.
Proof.
  unfold completed.
  pose proof (call_reads d (λ t s, (s, GET t (ckey id) s)) s (λ _ _, eq_refl)) as E.
  destruct (call d _ s) as [s1 [[c|]|]]; cbn in E; subst s1; [|done..]. by destruct (Unmarshal c).
Qed.

(** With a live record, [completed] never reports that there is none. *)
Lemma completed_recorded d id s content dl :
  recorded s (at_ms d) id content dl →
  ∃ r, completed bus d id s = (s, r) ∧ r ≠ Ok None.
Proof.
  intros E. unfold completed, call.
  rewrite replay_reads by done.
  destruct (seen d); [|by eexists..]. rewrite GET_law, E. cbn.
  by destruct (Unmarshal content); eexists.
Qed.

Lemma completed_found d id s s' r :
  completed bus d id s = (s', Ok (Some r)) →
  ∃ content dl, look s (at_ms d) (ckey id) = Some (Entry (RString content) dl) ∧
                Unmarshal content = Some r.
Proof.
  unfold completed, call. rewrite replay_reads by done.
  destruct (seen d); [|done..]. rewrite GET_law.
  destruct (look s (at_ms d) (ckey id)) as [[[x|h|l] dl]|]; cbn; try done.
  destruct (Unmarshal x) eqn:E; [|done]. intros ?; simplify_eq. eauto.
Qed.

Lemma completed_absent d id s :
  look s (at_ms d) (ckey id) = None → seen d = Replied → completed bus d id s = (s, Ok None).
Proof.
  intros E Hr. unfold completed, call. rewrite replay_reads by done.
  by rewrite Hr, GET_law, E.
Qed.
End complete.

(** ** Processing a message *)

Section process.
Context {R : Redis} `{L : !RedisLaws R} {J : ResultCodec} (bus : Bus).
Context {H : Type} (handler : Ctx.t → Time.t → Command → H → H * Result).
Abbreviation process := (processMessage handler bus).

(** The circumstances of a message that was processed without error. *)
Lemma process_ok ctx at_ m w w' :
  process ctx at_ m w = (w', Ok tt) →
  ∃ c found r h s2,
    decodeCommand (Values m) = Ok c ∧
    completed bus (d_get at_) (ID c) (server w) = (server w, Ok found) ∧
    (h, r) = match found with
             | Some r => (hstate w, r)
             | None => runHandler handler ctx (t_run at_) (t_done at_) c (hstate w)
             end ∧
    complete bus (d_complete at_) (t_complete at_) r (server w) = (s2, Ok tt) ∧
    w' = World s2 h (MessageID m :: acked w) ∧ seen (d_ack at_) = Replied ∧ refused_ack at_ = None.
Proof.
  unfold processMessage. destruct (decodeCommand (Values m)) as [c|] eqn:Ed; [|done].
  pose proof (completed_reads bus (d_get at_) (ID c) (server w)) as Hs.
  destruct (completed bus _ _ _) as [s1 [found|]] eqn:Ec; [|done]. cbn in Hs. subst s1.
  destruct (match found with Some _ => _ | None => _ end) as [h r] eqn:Er.
  destruct (complete bus _ _ _ _) as [s2 [[]|]] eqn:Ek; [|done].
  unfold ack, executed. destruct (seen (d_ack at_)) eqn:Ea; [|by destruct (lost _)..].
  destruct (refused_ack at_) eqn:Ef; [done|].
  intros [= <-]. exists c, found, r, h, s2. cbn. by destruct (lost (d_ack at_)).
Qed.

Lemma ack_hstate d f id (w : world (H := H)) : hstate (ack d f id w).1 = hstate w.
Proof. unfold ack. cbn. destruct f, (executed d); reflexivity. Qed.

(** A handler that ran produced a result under the ID of its command. *)
Lemma runHandler_id ctx t1 t2 c h h' r :
  runHandler handler ctx t1 t2 c h = (h', r) → CommandID r = ID c.
Proof.
  unfold runHandler. destruct (handler _ _ _ _) as [h1 r1]. intros [= _ <-].
  unfold stamp. by destruct (Time.IsZero _).
Qed.

(** C4: a command that was executed and recorded is not executed again when the
    stream delivers it again: as long as its completion record is live, a
    message with the same command ID leaves the state the handler acts on
    untouched, whatever happens to the calls of the second delivery and whatever
    the server did to other keys in between. *)
Theorem recorded_command_not_rerun ctx1 ctx2 at1 at2 m1 m2 c1 c2 w w1 w2 :
  0 < resultTTL bus →
  decodeCommand (Values m1) = Ok c1 → decodeCommand (Values m2) = Ok c2 → ID c2 = ID c1 →
  completed bus (d_get at1) (ID c1) (server w) = (server w, Ok None) →
  process ctx1 at1 m1 w = (w1, Ok tt) →
  look (server w2) (at_ms (d_complete at1)) (completionKey (prefix bus) (ID c1)) =
    look (server w1) (at_ms (d_complete at1)) (completionKey (prefix bus) (ID c1)) →
  at_ms (d_complete at1) ≤ at_ms (d_get at2)
    < at_ms (d_complete at1) + set_ms (resultTTL bus) →
  hstate (process ctx2 at2 m2 w2).1 = hstate w2.
Proof.
  intros Httl Hd1 Hd2 Hid Hnone Hp Hlook Ht.
  destruct (process_ok _ _ _ _ _ Hp) as (c & found & r & h & s2 & Hd & Hc & Er & Hk & -> & _).
  rewrite Hd1 in Hd. injection Hd as <-. rewrite Hnone in Hc. injection Hc as <-.
  symmetry in Er. apply runHandler_id in Er.
  destruct (complete_ok bus _ _ _ _ _ Httl Hk) as (_ & content & _ & _ & Hrec).
  rewrite Er in Hrec. unfold recorded in Hrec. cbn in Hlook. rewrite <- Hlook in Hrec.
  destruct (completed_recorded bus (d_get at2) (ID c1) (server w2) content
    (at_ms (d_complete at1) + set_ms (resultTTL bus))) as (res & E & Hne).
  { by apply (recorded_until _ _ (at_ms (d_complete at1))). }
  unfold processMessage. rewrite Hd2, Hid, E.
  destruct res as [[r2|]|e]; [|done..].
  destruct (complete bus (d_complete at2) _ _ _) as [s3 [[]|]]; [|done].
  by rewrite ack_hstate.
Qed.

(** C27: a message is acknowledged only once its result is on record: when
    processing adds the message to the acknowledged ones, the completion record
    of its command was found before, or has been written. *)
Theorem acknowledged_only_when_recorded ctx at_ m w w' res :
  0 < resultTTL bus → process ctx at_ m w = (w', res) → acked w' ≠ acked w →
  ∃ c content dl, decodeCommand (Values m) = Ok c ∧ acked w' = MessageID m :: acked w ∧
    (look (server w) (at_ms (d_get at_)) (completionKey (prefix bus) (ID c)) =
       Some (Entry (RString content) dl) ∨
     recorded bus (server w') (at_ms (d_complete at_)) (ID c) content
       (at_ms (d_complete at_) + set_ms (resultTTL bus))).
Proof.
  intros Httl. unfold processMessage.
  destruct (decodeCommand (Values m)) as [c|]; [|by intros [= <- _]].
  pose proof (completed_reads bus (d_get at_) (ID c) (server w)) as Hs.
  destruct (completed bus _ _ _) as [s1 [found|]] eqn:Ec; cbn in Hs; subst s1;
    [|by intros [= <- _]].
  destruct (match found with Some _ => _ | None => _ end) as [h r] eqn:Er.
  destruct (complete bus _ _ _ _) as [s2 [[]|]] eqn:Ek; [|by intros [= <- _]].
  unfold ack. intros [= <- _] Hack. destruct (refused_ack at_), (executed (d_ack at_)); [done..| |done].
  destruct found as [r'|].
  - destruct (completed_found bus _ _ _ _ _ Ec) as (content & dl & E & _). eauto 10.
  - apply runHandler_id in Er.
    destruct (complete_ok bus _ _ _ _ _ Httl Ek) as (_ & content & _ & _ & Hrec).
    rewrite Er in Hrec. exists c, content, None. auto.
Qed.

(** A command is executed again when its first execution could not be
    recorded: if the server cannot be reached after the handler ran, no record
    is left and the redelivered message runs the handler a second time. *)
Theorem unrecorded_command_runs_twice ctx1 ctx2 at1 at2 m c w :
  decodeCommand (Values m) = Ok c →
  (∀ t, look (server w) t (completionKey (prefix bus) (ID c)) = None) →
  seen (d_get at1) = Replied → seen (d_get at2) = Replied →
  lost (d_complete at1) = [] → seen (d_complete at1) = Unreachable →
  let once := runHandler handler ctx1 (t_run at1) (t_done at1) c (hstate w) in
  is_Some (Marshal (stamp once.2 (t_complete at1))) →
  let w1 := (process ctx1 at1 m w).1 in
  (process ctx1 at1 m w).2 = Err (ErrBusRedis "complete Redis command" Network) ∧
  hstate w1 = once.1 ∧ acked w1 = acked w ∧
  hstate (process ctx2 at2 m w1).1 =
    (runHandler handler ctx2 (t_run at2) (t_done at2) c once.1).1.
Proof.
  intros Hd Hno Hg1 Hg2 Hl Hu once [content Hm] w1.
  destruct once as [h r] eqn:Eo. cbn in Hm. unfold once in Eo.
  pose proof (runHandler_id _ _ _ _ _ _ _ Eo) as Hid.
  assert (ID c ≠ "") as Hne.
  { destruct (decode_valid _ _ Hd) as [Hv _]. by apply validateCommand_None in Hv as [? _]. }
  apply String.eqb_neq in Hne.
  assert (process ctx1 at1 m w =
    (World (server w) h (acked w), Err (ErrBusRedis "complete Redis command" Network))) as E.
  { unfold processMessage. rewrite Hd, completed_absent by done. rewrite Eo.
    unfold complete. rewrite Hid, Hne, Hm. unfold call. by rewrite Hl, Hu. }
  unfold w1. rewrite E. cbn. split_and!; [done..|].
  unfold processMessage. cbn [server hstate]. rewrite Hd, completed_absent by done.
  destruct (runHandler handler ctx2 _ _ _ _) as [h2 r2].
  destruct (complete bus (d_complete at2) _ _ _) as [s3 [[]|]]; [|done].
  by rewrite ack_hstate.
Qed.

(** An entry that cannot be decoded stops the consumer for good: it is
    never acknowledged, nothing behind it in the batch is processed, and every
    new run of the consumer that recovers it first ends with the same error
    and without having processed anything. *)
Theorem undecodable_entry_blocks_consumer ctx ownerID at_ m e ms x turns w :
  ownerID ≠ "" → decodeCommand (Values m) = Err e →
  pendingMinIdle ≤ t_test x - Time.zero →
  autoclaim x = SMessages ((at_, m) :: ms) →
  RunConsumer handler bus ctx ownerID None (x :: turns) w = (w, ConsumerFailed e).
Proof.
  intros Ho Hd Ht Ha. unfold RunConsumer. apply String.eqb_neq in Ho. rewrite Ho. cbn.
  unfold recover. rewrite Ha. cbn [processMessages]. unfold processMessage. rewrite Hd.
  by destruct (Z.leb_spec pendingMinIdle (t_test x - Time.zero)); [|lia].
Qed.
End process.

(** ** The trip of a command through the stream *)

(** A command that was published is what the consumer decodes from the stream
    entry, field by field, for every generation that fits an [int64] and every
    instant of the years an entry can carry. *)
Theorem command_round_trip {streams : Type}
    (XADD : string → gmap string string → streams → streams * result client_error unit)
    bus c s s' :
  Publish XADD bus c s = (s', Ok tt) →
  0 ≤ OwnerGeneration c ≤ int64_max →
  carries (CreatedAt c) → Deadline c = Time.zero ∨ carries (Deadline c) →
  XADD (commandStream (prefix bus) (OwnerID c)) (commandFields c) s = (s', Ok tt) ∧
  decodeCommand (entryValues (commandFields c)) = Ok c.
Proof.
  unfold Publish. intros Hp Hg Hc Hd.
  destruct (validateCommand c) eqn:Hv; [done|]. split; [|by apply decode_fields].
  destruct (XADD _ _ _) as [s1 [[]|]]; congruence.
Qed.

(** Whatever an entry of the stream holds, decoding either fails or yields a
    command that satisfies the checks of [Publish], with an owner generation that
    was not altered by the conversion to an unsigned integer. *)
Theorem decoded_command_valid values c :
  decodeCommand values = Ok c →
  validateCommand c = None ∧ 1 ≤ OwnerGeneration c ≤ int64_max ∧
  Strconv.ParseInt (Sprint (get_any values "owner_generation")) = Some (OwnerGeneration c).
Proof.
  intros Hd. destruct (decode_valid _ _ Hd) as [Hv Hg].
  pose proof (proj1 (validateCommand_None c) Hv) as (_ & _ & _ & Hne & _).
  split_and!; [done|lia|lia|].
  unfold decodeCommand in Hd. destruct (decodeGeneration _) as [g|] eqn:Eg; [|done].
  destruct (unixNano (get_any values "created_at")); [|done].
  destruct (unixNano (get_any values "deadline")); [|done].
  destruct (validateCommand _); [done|]. injection Hd as <-. cbn in *.
  unfold decodeGeneration in Eg. destruct (Strconv.ParseInt _) as [n|] eqn:En; [|done].
  destruct (Z.ltb_spec n 0); [done|]. injection Eg as <-.
  apply Strconv.ParseInt_range in En as [_ En].
  rewrite wrap_uint64_small; [done|]. unfold in_uint64, uint64_max, int64_max in *. lia.
Qed.

(** [Publish] accepts an owner generation above the largest [int64] and the
    consumer can never decode it: encoding is unsigned, decoding signed. *)
Theorem large_generation_undecodable {streams : Type}
    (XADD : string → gmap string string → streams → streams * result client_error unit)
    bus c s :
  validateCommand c = None → int64_max < OwnerGeneration c ≤ uint64_max →
  (∀ stream fields, (XADD stream fields s).2 = Ok tt) →
  (Publish XADD bus c s).2 = Ok tt ∧
  decodeCommand (entryValues (commandFields c)) =
    Err (ErrDecode "decode Redis command owner generation").
Proof.
  intros Hv Hg HX. split; [|by apply decode_large_generation].
  unfold Publish. rewrite Hv. specialize (HX (commandStream (prefix bus) (OwnerID c)) (commandFields c)).
  by destruct (XADD _ _ _) as [s1 [[]|]].
Qed.

(** ** The trip of a result back *)

Section results.
Context {R : Redis} `{L : !RedisLaws R} {J : ResultCodec} (bus : Bus).
Abbreviation rkey id := (resultKey (prefix bus) id).

(** The result list holds one copy of the result per execution that took place. *)
Definition copies (content id : string) (s : rstate) (t : Z) : Prop :=
  look s t (rkey id) = None ∨
  ∃ n dl, look s t (rkey id) = Some (Entry (RList (replicate (S n) content)) dl).

Lemma copies_later content id s t t' : t ≤ t' → copies content id s t → copies content id s t'.
Proof.
  intros Ht Hc. unfold copies. rewrite (look_later _ t t') by done.
  destruct Hc as [->|(n & [d|] & ->)]; cbn; [by left| |by eauto].
  case_match; eauto.
Qed.

Lemma completeTx_copies content id s t :
  0 < resultTTL bus → copies content id s t →
  ∃ s' n, completeTx bus id content t s = (s', Ok tt) ∧
    look s' t (rkey id) =
      Some (Entry (RList (replicate (S n) content)) (Some (t + expire_ms (resultTTL bus)))).
Proof.
  intros Httl Hc.
  destruct (completeTx_run bus id content t s Httl) as (s' & r & E & _ & Hnone & Hlist & _).
  destruct Hc as [E0|(n & dl & E0)].
  - destruct (Hnone E0) as [-> G]. by exists s', 0%nat.
  - destruct (Hlist _ _ E0) as [-> G]. by exists s', (S n).
Qed.

Lemma copies_replay content id ts s t t' :
  0 < resultTTL bus → chain t ts t' → copies content id s t →
  copies content id (replay (completeTx bus id content) ts s) t'.
Proof.
  intros Httl. apply replay_inv; [intros *; apply copies_later|].
  intros s1 t1 Hc. destruct (completeTx_copies _ _ _ _ Httl Hc) as (s2 & n & E & G).
  rewrite E. right. eauto.
Qed.

(** A poll that is answered takes a result off the list. *)
Lemma poll_returns ctx id p polls s content n dl r :
  lost (pop p) = [] → seen (pop p) = Replied →
  look (others p s) (at_ms (pop p)) (rkey id) = Some (Entry (RList (replicate (S n) content)) dl) →
  Unmarshal content = Some r →
  (awaitLoop bus ctx id (p :: polls) s).2 = Got r.
Proof.
  intros Hl Hr E Hu. cbn [awaitLoop]. unfold call. rewrite Hl, Hr. cbn [replay fold_left].
  destruct (RPOP_law (at_ms (pop p)) (rkey id) (others p s)) as (s1 & E1 & _).
  rewrite E1, E. unfold rpop_effect. rewrite reverse_replicate. cbn. by rewrite Hu.
Qed.

(** A recorded result reaches the caller that waits for it: the first poll
    after the result was recorded, within its time to live, returns it (a nil
    payload read back as [null]), however often the recording was resent. *)
Theorem result_round_trip ctx d now r s s' t p polls :
  0 < resultTTL bus → marshallable (stamp r now) → CommandID r ≠ "" →
  look s t (rkey (CommandID r)) = None →
  chain t (lost d) (at_ms d) → complete bus d now r s = (s', Ok tt) →
  look (others p s') (at_ms (pop p)) (rkey (CommandID r)) =
    look s' (at_ms (pop p)) (rkey (CommandID r)) →
  lost (pop p) = [] → seen (pop p) = Replied →
  at_ms d ≤ at_ms (pop p) < at_ms d + expire_ms (resultTTL bus) →
  (AwaitResult bus ctx (CommandID r) (p :: polls) s').2 = Got (canonical (stamp r now)).
Proof.
  intros Httl Hm Hne Hfree Hchain Hk Hsame Hl Hr Ht.
  destruct (complete_ok bus _ _ _ _ _ Httl Hk) as (_ & content & Hmar & Htx & _).
  destruct (completeTx_copies content (CommandID r)
    (replay (completeTx bus (CommandID r) content) (lost d) s) (at_ms d) Httl)
    as (s2 & n & E & G); [by apply (copies_replay _ _ _ _ t); [| |left]|].
  rewrite E in Htx. injection Htx as ->.
  assert (look s' (at_ms (pop p)) (rkey (CommandID r)) =
    Some (Entry (RList (replicate (S n) content))
      (Some (at_ms d + expire_ms (resultTTL bus))))) as G'.
  { rewrite (look_later _ (at_ms d)) by lia. rewrite G. cbn. by rewrite expired_before by lia. }
  unfold AwaitResult. apply String.eqb_neq in Hne. rewrite Hne.
  apply (poll_returns _ _ _ _ _ content n (Some (at_ms d + expire_ms (resultTTL bus)))); [done..| |].
  - by rewrite Hsame.
  - by apply Unmarshal_Marshal.
Qed.

(** Nobody puts a result under the ID. *)
Definition leaves_empty (id : string) (f : rstate → rstate) : Prop :=
  ∀ s t, look s t (rkey id) = None → look (f s) t (rkey id) = None.

(** Polls that are answered, one after the other, from time [t] on. *)
Fixpoint answered_from (t : Z) (polls : list poll) : Prop :=
  match polls with
  | [] => True
  | p :: polls =>
      t ≤ at_ms (pop p) ∧ lost (pop p) = [] ∧ seen (pop p) = Replied ∧
      answered_from (at_ms (pop p)) polls
  end.

(** A poll of an empty list finds nothing and leaves it empty. *)
Lemma poll_empty ctx id p polls s t :
  look s t (rkey id) = None → leaves_empty id (others p) → t ≤ at_ms (pop p) →
  lost (pop p) = [] → seen (pop p) = Replied →
  ∃ s1, look s1 (at_ms (pop p)) (rkey id) = None ∧
    (∀ k, k ≠ rkey id → look s1 (at_ms (pop p)) k = look (others p s) (at_ms (pop p)) k) ∧
    awaitLoop bus ctx id (p :: polls) s =
      if select_ctx ctx p then (s1, AwaitFailed ErrResultTimeout) else awaitLoop bus ctx id polls s1.
Proof.
  intros E Ho Ht Hl Hr. cbn [awaitLoop]. unfold call. rewrite Hl, Hr. cbn [replay fold_left].
  assert (look (others p s) (at_ms (pop p)) (rkey id) = None) as E1
    by (rewrite (look_later _ t) by done; by rewrite (Ho _ _ E)).
  destruct (RPOP_law (at_ms (pop p)) (rkey id) (others p s)) as (s1 & E2 & G & O).
  rewrite E1 in E2, G. rewrite E2. exists s1. by split_and!.
Qed.

(** Once the list is gone a poll finds nothing. *)
Lemma await_empty ctx id polls s t :
  look s t (rkey id) = None → answered_from t polls →
  Forall (λ p, leaves_empty id (others p)) polls →
  ∀ r, (awaitLoop bus ctx id polls s).2 ≠ Got r.
Proof.
  revert s t. induction polls as [|p polls IH]; intros s t E Hps Ho r; [done|].
  destruct Hps as (Ht & Hl & Hr & Hps). apply Forall_cons in Ho as [Hop Ho].
  destruct (poll_empty ctx id p polls s t E Hop Ht Hl Hr) as (s1 & E1 & _ & ->).
  destruct (select_ctx ctx p); [done|]. by apply (IH s1 (at_ms (pop p))).
Qed.

(** The caller loses a result whose pop was executed but not answered: the
    client resends the command, finds the list empty, and no later poll returns
    the result although the command was executed and is recorded. *)
Theorem resent_pop_loses_result ctx id content dl s t1 t2 t3 t4 t5 first polls :
  look s t1 (rkey id) = Some (Entry (RList [content]) dl) → id ≠ "" → t1 ≤ t2 →
  answered_from t2 polls → Forall (λ p, leaves_empty id (others p)) polls →
  ∀ r, (AwaitResult bus ctx id
          (Poll (λ s, s) t3 (Delivery [t1] t2 Replied) t4 t5 first :: polls) s).2 ≠ Got r.
Proof.
  intros E Hid Ht Hps Ho r. unfold AwaitResult. apply String.eqb_neq in Hid. rewrite Hid.
  cbn [awaitLoop pop others]. unfold call. cbn [lost seen at_ms replay fold_left].
  destruct (RPOP_law t1 (rkey id) s) as (s1 & E1 & G1 & _). rewrite E in E1, G1.
  cbn in E1, G1. rewrite E1. cbn [fst].
  destruct (RPOP_law t2 (rkey id) s1) as (s2 & E2 & G2 & _).
  rewrite (look_later _ t1), G1 in E2, G2 by done. cbn in E2, G2. rewrite E2.
  destruct (select_ctx _ _); [done|]. by apply (await_empty _ _ _ _ t2).
Qed.

(** *** The end of the wait *)








End results.

(** ** Instances on the concrete server *)
Module BusWitnesses.
Import RefRedis.

Definition nothing : rstate := (∅ : gmap string entry).
Definition bus : Bus := mkBus "csms" (5 * Time.Minute).
Definition cmd : Command :=
  mkCommand "id1" "CP1" "a" 3 "Reset" "{}" 1000000000 31000000000.

(** A handler that counts its executions. *)
Definition count (ctx : Ctx.t) (now : Time.t) (c : Command) (n : nat) : nat * Result :=
  (S n, mkResult "" true None "" "" Time.zero).

Definition entry_of (c : Command) : XMessage := Message "1-1" (entryValues (commandFields c)).
Definition moment_at (t : Z) : moment := Moment (clean t) (clean t) (clean t) None t t t.
Definition start : world (H := nat) := World nothing 0%nat [].
Definition after : world (H := nat) :=
  (processMessage count bus Ctx.Background (moment_at 10) (entry_of cmd) start).1.

Lemma cmd_decodes : decodeCommand (Values (entry_of cmd)) = Ok cmd.
Proof. vm_compute. reflexivity. Qed.

Lemma recorded_command_not_rerun_witness :
  hstate after = 1%nat ∧
  hstate (processMessage count bus Ctx.Background (moment_at 7000) (entry_of cmd) after).1 =
    hstate after.
Proof.
  split; [by_evaluation|].
  apply (recorded_command_not_rerun bus count Ctx.Background Ctx.Background
    (moment_at 10) (moment_at 7000) (entry_of cmd) (entry_of cmd) cmd cmd start after after);
    [reflexivity|exact cmd_decodes|exact cmd_decodes|reflexivity|by_evaluation|
     by_evaluation|reflexivity|split; [discriminate|reflexivity]].
Defined.

Lemma acknowledged_only_when_recorded_witness :
  ∃ c content dl, decodeCommand (Values (entry_of cmd)) = Ok c ∧ acked after = ["1-1"] ∧
    (look (CommandBus.server start) 10 (completionKey "csms" (ID c)) =
       Some (Entry (RString content) dl) ∨
     recorded bus (CommandBus.server after) 10 (ID c) content (10 + set_ms (5 * Time.Minute))).
Proof.
  apply (acknowledged_only_when_recorded bus count Ctx.Background (moment_at 10)
    (entry_of cmd) start after (Ok tt));
    [reflexivity|by_evaluation|vm_compute; discriminate].
Defined.

(** The server is gone when the result is to be recorded. *)
Definition cut : moment := Moment (clean 10) (Delivery [] 10 Unreachable) (clean 10) None 10 10 10.

Lemma unrecorded_command_runs_twice_witness :
  let w1 := (processMessage count bus Ctx.Background cut (entry_of cmd) start).1 in
  hstate w1 = 1%nat ∧
  hstate (processMessage count bus Ctx.Background (moment_at 7000) (entry_of cmd) w1).1 = 2%nat.
Proof.
  destruct (unrecorded_command_runs_twice bus count Ctx.Background Ctx.Background cut
    (moment_at 7000) (entry_of cmd) cmd start) as (_ & H1 & _ & H2);
    [exact cmd_decodes|reflexivity|reflexivity|reflexivity|reflexivity|reflexivity|
     by eexists|exact (conj H1 H2)].
Defined.

Definition garbage : XMessage := Message "0-1" ∅.
Definition now : Time.t := 1700000000 * Time.Second.

Lemma undecodable_entry_blocks_consumer_witness :
  RunConsumer count bus Ctx.Background "a" None
    [Turn now (SMessages [(moment_at 1, garbage); (moment_at 2, entry_of cmd)]) now SNil] start =
  (start, ConsumerFailed (ErrDecode "decode Redis command owner generation")).
Proof.
  apply (undecodable_entry_blocks_consumer bus count Ctx.Background "a" (moment_at 1) garbage
    _ [(moment_at 2, entry_of cmd)]);
    [discriminate|by_evaluation|discriminate|reflexivity].
Defined.

(** A stream that keeps its entries in a list. *)
Definition append (stream : string) (fields : gmap string string)
    (log : list (string * gmap string string)) :
    list (string * gmap string string) * result client_error unit :=
  ((stream, fields) :: log, Ok tt).

Lemma command_round_trip_witness :
  append (commandStream "csms" "a") (commandFields cmd) [] =
    ([(commandStream "csms" "a", commandFields cmd)], Ok tt) ∧
  decodeCommand (entryValues (commandFields cmd)) = Ok cmd.
Proof.
  apply (command_round_trip append bus cmd [] [(commandStream "csms" "a", commandFields cmd)]);
    [reflexivity|split; discriminate|split; [split; discriminate|discriminate]|
     right; split; [split; discriminate|discriminate]].
Defined.

Lemma decoded_command_valid_witness :
  validateCommand cmd = None ∧ 1 ≤ 3 ≤ int64_max ∧
  Strconv.ParseInt (Sprint (get_any (entryValues (commandFields cmd)) "owner_generation")) = Some 3.
Proof. apply (decoded_command_valid _ cmd cmd_decodes). Defined.

Definition huge : Command :=
  mkCommand "id2" "CP1" "a" (2 ^ 63) "Reset" "{}" 1000000000 31000000000.

Lemma large_generation_undecodable_witness :
  (Publish append bus huge []).2 = Ok tt ∧
  decodeCommand (entryValues (commandFields huge)) =
    Err (ErrDecode "decode Redis command owner generation").
Proof.
  apply (large_generation_undecodable append bus huge []);
    [reflexivity|split; [reflexivity|discriminate]|reflexivity].
Defined.

(** The answer of a station, as a payload. *)
Definition accepted : string :=
  String "{" (Json.quoted "status" +:+ ":" +:+ Json.quoted "Accepted" +:+ "}").
Definition res : Result := mkResult "id1" true (Some accepted) "" "" (now + 250000000).
Definition text : string := default "" (marshalResult res).
Lemma res_encodable : encodable res.
Proof. split_and!; try by_evaluation; try (split; by_evaluation); vm_compute; by split. Qed.
Definition stored : rstate := (complete bus (Delivery [8] 10 Replied) 5 res nothing).1.

(** A poll at [t] milliseconds, answered within one, followed by a tick. *)
Definition poll_at (f : rstate → rstate) (t : Z) : poll :=
  Poll f (t * Time.Millisecond) (clean t) ((t + 1) * Time.Millisecond)
    ((t + 25) * Time.Millisecond) false.
Definition idle (s : rstate) : rstate := s.

Lemma result_round_trip_witness :
  (AwaitResult bus Ctx.Background "id1" [poll_at idle 20] stored).2 =
    Got (mkResult "id1" true (Some accepted) "" "" (now + 250000000)).
Proof.
  apply (result_round_trip bus Ctx.Background (Delivery [8] 10 Replied) 5 res nothing stored 7
    (poll_at idle 20) []);
    [reflexivity|exact res_encodable|discriminate|reflexivity|split; discriminate|
     by_evaluation|reflexivity|reflexivity|reflexivity|split; [discriminate|reflexivity]].
Defined.

Definition once : rstate := (complete bus (clean 10) 5 res nothing).1.

Lemma resent_pop_loses_result_witness :
  look once 11 (resultKey "csms" "id1") =
    Some (Entry (RList [text]) (Some 300010)) ∧
  (AwaitResult bus Ctx.Background "id1"
    [Poll idle 11 (Delivery [11] 12 Replied) 12 13 false; poll_at idle 100] once).2 ≠ Got (canonical res).
Proof.
  split; [by_evaluation|].
  apply (resent_pop_loses_result bus Ctx.Background "id1" (text) (Some 300010) once 11 12 11 12 13 false
    [poll_at idle 100]);
    [by_evaluation|discriminate|discriminate| |].
  - split_and!; [discriminate|reflexivity|reflexivity|exact I].
  - apply Forall_singleton. by intros s t.
Defined.


End BusWitnesses.
