(* ===== verification/RateLimit.v ===== *)
(** * Admission of command requests (runtime/rate_limit.go)

    A fixed-window counter in Redis, per credential.  The script runs atomically;
    a resent script counts a request more than once. *)

From S2P Require Import Prelude GoStd Redis.

Record redisCommandRateLimiter : Type := mkLimiter {
  prefix : string;
  limit : Z;                 (** int64 *)
  window : Time.Duration
}.

Section limiter.
Context {R : Redis}.

Definition commandRateScript (KEYS1 : string) (ARGV1 : Z) (t : Z) : M rstate redis_error Z :=
  count ← incr t KEYS1;
  let count := lua_number count in
  if count =? 1 then pexpire t KEYS1 ARGV1;; mret count
  else mret count.

(** [fmt.Sprintf("%s:command-rate:%s:%d", prefix, subject, windowID)] *)
Definition rateKey (prefix subject : string) (windowID : Z) : string :=
  prefix +:+ ":command-rate:" +:+ subject +:+ ":" +:+ Strconv.FormatInt windowID.

Definition windowID (limiter : redisCommandRateLimiter) (now : Time.t) : Z :=
  Time.UnixNano now `quot` window limiter.

Definition Allow (limiter : redisCommandRateLimiter) (now : Time.t) (d : delivery)
    (subject : string) (s : rstate) : rstate * result client_error bool :=
  let key := rateKey (prefix limiter) subject (windowID limiter now) in
  match call d (commandRateScript key (Time.Milliseconds (window limiter))) s with
  | (s', Err err) => (s', Err err)
  | (s', Ok count) => (s', Ok (count <=? limit limiter))
  end.

(** The requests of one credential, in the order in which the server sees them. *)
Record request : Type := Request { r_now : Time.t; r_send : delivery }.

Fixpoint admit_all (limiter : redisCommandRateLimiter) (subject : string) (rs : list request)
    (s : rstate) : rstate * list bool :=
  match rs with
  | [] => (s, [])
  | r :: rs =>
      let '(s1, o) := Allow limiter (r_now r) (r_send r) subject s in
      let '(s2, l) := admit_all limiter subject rs s1 in
      (s2, match o with Ok b => b | Err _ => false end :: l)
  end.

(** How many were admitted. *)
Definition admitted (l : list bool) : Z := Z.of_nat (length (filter (λ b, b = true) l)).

(** Every execution takes place in order, from [t] on and before [T]. *)
Fixpoint timely (t T : Z) (rs : list request) : Prop :=
  match rs with
  | [] => True
  | r :: rs =>
      chain t (lost (r_send r)) (at_ms (r_send r)) ∧ at_ms (r_send r) < T ∧
      timely (at_ms (r_send r)) T rs
  end.
End limiter.

(** ** Counting *)

Lemma lua_number_large n : 2 ^ 53 < n → 2 ^ 53 ≤ lua_number n.
Proof.
  intros Hn. unfold lua_number. rewrite Z.abs_eq by lia.
  destruct (Z.leb_spec n (2 ^ 53)); [lia|].
  assert (53 ≤ Z.log2 n) as Hlog by (change 53 with (Z.log2 (2 ^ 53)); apply Z.log2_le_mono; lia).
  set (q := 2 ^ (Z.log2 n - 52)). set (lo := n / q).
  assert (2 ≤ q) by (change 2 with (2 ^ 1); apply Z.pow_le_mono_r; lia).
  assert (2 ^ 52 ≤ lo) as Hlo.
  { apply Z.div_le_lower_bound; [lia|]. unfold q. rewrite <- Z.pow_add_r by lia.
    replace (Z.log2 n - 52 + 52) with (Z.log2 n) by lia. apply Z.log2_spec. lia. }
  assert (2 ^ 53 = 2 ^ 52 * 2) as -> by reflexivity.
  case_match; nia.
Qed.

Section counting.
Context {R : Redis} `{L : !RedisLaws R}.

(** The entry of a window's key: absent, or a count that lives at least until [T]. *)
Definition hits (o : option entry) : Z :=
  match o with
  | Some (Entry (RString x) _) => default 0 (Strconv.ParseInt x)
  | _ => 0
  end.
Definition counter (T : Z) (o : option entry) : Prop :=
  o = None ∨
  ∃ n d, o = Some (Entry (RString (Strconv.FormatInt n)) (Some d)) ∧ 1 ≤ n ≤ int64_max ∧ T ≤ d.

Lemma hits_format n dl :
  1 ≤ n ≤ int64_max → hits (Some (Entry (RString (Strconv.FormatInt n)) dl)) = n.
Proof.
  intros Hn. unfold hits. rewrite Strconv.ParseInt_FormatInt; [done|].
  unfold in_int64, int64_min. lia.
Qed.

Lemma counter_hits T o : counter T o → 0 ≤ hits o.
Proof. intros [->|(n & d & -> & Hn & _)]; [done|]. rewrite hits_format; lia. Qed.

(** Before [T] the passing of time does not touch the counter. *)
Lemma counter_later T s t t' k :
  t ≤ t' < T → counter T (look s t k) → look s t' k = look s t k.
Proof.
  intros Ht [E|(n & d & E & _ & Hd)]; rewrite (look_later _ t t') by lia; rewrite E; [done|].
  cbn. by rewrite expired_before by lia.
Qed.

(** One execution of the script counts one hit and reports the new count, except
    when the count is at its maximum, where it fails. *)
Lemma script_run k ms T t s :
  0 < ms → t < T ≤ t + ms → counter T (look s t k) →
  ∃ s' r, commandRateScript k ms t s = (s', r) ∧ counter T (look s' t k) ∧
    hits (look s t k) ≤ hits (look s' t k) ∧
    (∀ n, r = Ok n → hits (look s' t k) = hits (look s t k) + 1 ∧
                     n = lua_number (hits (look s t k) + 1)) ∧
    (hits (look s t k) < int64_max → is_Some (match r with Ok n => Some n | Err _ => None end)).
Proof.
  intros Hms HT Hc. unfold commandRateScript, incr, pexpire, mbind, M_bind, mret, M_ret.
  destruct (INCR_law t k s) as (s1 & E1 & G1 & _). rewrite E1.
  destruct Hc as [E|(n & d & E & Hn & Hd)]; rewrite E in *; cbn in G1 |- *.
  - destruct (PEXPIRE_law t k ms s1) as (s2 & E2 & G2 & _).
    rewrite G1 in E2, G2. cbn in E2, G2. destruct (Z.leb_spec ms 0); [lia|].
    rewrite (lua_number_exact 1) by lia. cbn.
    rewrite E2. eexists s2, _. split; [done|]. rewrite G2. cbn. split_and!.
    + right. exists 1, (t + ms). unfold int64_max. split_and!; [done|lia..].
    + done.
    + intros m [= <-]. split; [done|]. symmetry. apply (lua_number_exact 1). lia.
    + by eexists.
  - rewrite Strconv.ParseInt_FormatInt in * by (unfold in_int64, int64_min; lia). cbn in *.
    destruct (Z.eqb_spec n int64_max) as [->|Hne]; cbn in *.
    + eexists s1, _. split; [done|]. rewrite G1. cbn.
      rewrite Strconv.ParseInt_FormatInt by (unfold in_int64, int64_min; lia). cbn.
      split_and!; [|lia|done|lia]. right. by exists int64_max, d.
    + assert ((lua_number (n + 1) =? 1) = false) as ->.
      { apply Z.eqb_neq. destruct (decide (n + 1 ≤ 2 ^ 53)).
        - rewrite lua_number_exact by lia. lia.
        - pose proof (lua_number_large (n + 1)). lia. }
      eexists s1, _. split; [done|]. rewrite G1. cbn.
      rewrite Strconv.ParseInt_FormatInt by (unfold in_int64, int64_min; lia). cbn.
      split_and!; [|lia| |by eexists].
      * right. exists (n + 1), d. split_and!; [done|lia..].
      * intros m [= <-]. done.
Qed.

(** The key of a window after any number of executions from [t0] on. *)
Definition counted (k : string) (T t0 h : Z) (s : rstate) (t : Z) : Prop :=
  t0 ≤ t ∧ (t < T → counter T (look s t k) ∧ h ≤ hits (look s t k)).

Lemma counted_later k T t0 h s t t' :
  t ≤ t' → counted k T t0 h s t → counted k T t0 h s t'.
Proof.
  intros Ht [H0 Hc]. split; [lia|]. intros HT. destruct Hc as [Hc Hh]; [lia|].
  by rewrite (counter_later T s t t') by (done || lia).
Qed.

Lemma counted_step k ms T t0 h s t :
  0 < ms → T ≤ t0 + ms → counted k T t0 h s t →
  counted k T t0 h (commandRateScript k ms t s).1 t.
Proof.
  intros Hms HT [H0 Hc]. split; [done|]. intros Ht. destruct (Hc Ht) as [Hc' Hh].
  destruct (script_run k ms T t s Hms) as (s' & r & E & Hc1 & Hle & _); [lia|done|].
  rewrite E. cbn. split; [done|lia].
Qed.

(** A call never lowers the count, and a reply means at least one more hit. *)
Lemma call_counts k ms T t0 d s t :
  0 < ms → T ≤ t0 + ms → t0 ≤ t → chain t (lost d) (at_ms d) → at_ms d < T →
  counter T (look s t k) →
  let '(s', r) := call d (commandRateScript k ms) s in
  counter T (look s' (at_ms d) k) ∧ hits (look s t k) ≤ hits (look s' (at_ms d) k) ∧
  (∀ n, r = Ok n → hits (look s t k) + 1 ≤ hits (look s' (at_ms d) k) ∧
                   n = lua_number (hits (look s' (at_ms d) k))).
Proof.
  intros Hms HT H0 Hch Hlt Hc. set (h := hits (look s t k)).
  assert (counted k T t0 h (replay (commandRateScript k ms) (lost d) s) (at_ms d)) as [_ Hr].
  { apply (replay_inv _ (counted k T t0 h)) with t; [intros *; apply counted_later|
      intros *; by apply counted_step|done|]. split; [done|]. by intros _. }
  destruct (Hr Hlt) as [Hc0 Hh0]. unfold call.
  set (s0 := replay _ (lost d) s) in *. pose proof (chain_le _ _ _ Hch).
  destruct (script_run k ms T (at_ms d) s0 Hms) as (s' & r & E & Hc1 & Hle & Hok & _); [lia|done|].
  destruct (seen d); rewrite ?E; cbn; [|split_and!; (done || lia)..].
  destruct r as [n|e]; (split_and!; [done|lia|]); intros m [= <-].
  destruct (Hok n eq_refl) as [E1 ->]. rewrite E1. split; [lia|done].
Qed.

(** An execution for another key leaves this one alone. *)
Lemma script_others k k' ms t s :
  k' ≠ k → look (commandRateScript k ms t s).1 t k' = look s t k'.
Proof.
  intros Hk. unfold commandRateScript, incr, pexpire, mbind, M_bind, mret, M_ret.
  destruct (INCR_law t k s) as (s1 & E1 & _ & O1). rewrite E1.
  destruct (incr_effect _).2 as [n|]; cbn; [|by apply O1].
  destruct (lua_number n =? 1); cbn; [|by apply O1].
  destruct (PEXPIRE_law t k ms s1) as (s2 & E2 & _ & O2). rewrite E2.
  destruct (pexpire_effect _ _ _).2; cbn; by rewrite O2, O1 by done.
Qed.

Lemma counted_others k k' ms T t0 h d s t :
  k' ≠ k → chain t (lost d) (at_ms d) → counted k' T t0 h s t →
  counted k' T t0 h (call d (commandRateScript k ms) s).1 (at_ms d).
Proof.
  intros Hk Hch Hc. destruct (call_replay d (commandRateScript k ms) s t Hch) as (ts & -> & Hts & _).
  apply (replay_inv _ (counted k' T t0 h)) with t; [intros *; apply counted_later| |done|done].
  intros s1 t1 [H0 Hc1]. split; [done|]. by rewrite script_others.
Qed.
End counting.

(** ** Requests of one credential *)

Section requests.
Context {R : Redis} `{L : !RedisLaws R} (limiter : redisCommandRateLimiter) (subject : string).
Context (Hwindow : Time.Millisecond ≤ window limiter ≤ int64_max).
Context (Hlimit : 0 ≤ limit limiter < 2 ^ 53).

Abbreviation key k := (rateKey (prefix limiter) subject k).
Abbreviation ms := (Time.Milliseconds (window limiter)).

Lemma ms_pos : 0 < ms.
Proof. unfold Time.Milliseconds, Time.Millisecond in *. apply Z.quot_str_pos. lia. Qed.

Lemma windowID_range now : in_int64 (windowID limiter now).
Proof.
  unfold windowID, Time.UnixNano. pose proof (wrap_int64_range now) as Hr.
  unfold in_int64, int64_min, int64_max, Time.Millisecond in *.
  set (x := wrap_int64 now) in *.
  pose proof (Z.quot_le_mono (- 2 ^ 63) x (window limiter)) as H1.
  pose proof (Z.quot_le_mono x (2 ^ 63 - 1) (window limiter)) as H2.
  pose proof (Z.quot_le_upper_bound (2 ^ 63 - 1) (window limiter) (2 ^ 63 - 1)).
  pose proof (Z.quot_opp_l (2 ^ 63) (window limiter)).
  pose proof (Z.quot_le_upper_bound (2 ^ 63) (window limiter) (2 ^ 63)). lia.
Qed.

Lemma key_inj k k' : in_int64 k → in_int64 k' → key k = key k' → k = k'.
Proof.
  intros Hk Hk' E. unfold rateKey in E. do 4 apply string_app_inj_l in E.
  apply (f_equal Strconv.ParseInt) in E. rewrite !Strconv.ParseInt_FormatInt in E by done. congruence.
Qed.

(** How many requests of window [k] were admitted. *)
Fixpoint admitted_in (k : Z) (rs : list request) (l : list bool) : Z :=
  match rs, l with
  | r :: rs, b :: l =>
      (if (windowID limiter (r_now r) =? k) && b then 1 else 0) + admitted_in k rs l
  | _, _ => 0
  end.

Lemma admitted_window k T t0 rs s t h :
  in_int64 k → T ≤ t0 + ms → 0 ≤ h → timely t T rs → counted (key k) T t0 h s t →
  admitted_in k rs (admit_all limiter subject rs s).2 ≤ Z.max 0 (limit limiter - h).
Proof.
  intros Hk HT. pose proof ms_pos as Hms.
  revert s t h. induction rs as [|r rs IH]; intros s t h Hh Ht Hc; cbn; [lia|].
  destruct Ht as (Hch & HlT & Ht). unfold Allow.
  destruct (Z.eqb_spec (windowID limiter (r_now r)) k) as [->|Hne].
  - pose proof (chain_le _ _ _ Hch). destruct Hc as [H0 Hc]. destruct Hc as [Hc Hle]; [lia|].
    pose proof (call_counts (key k) ms T t0 (r_send r) s t Hms HT H0 Hch HlT Hc) as Hcall.
    destruct (call (r_send r) _ s) as [s1 [n|e]]; destruct Hcall as (Hc1 & Hle1 & Hok).
    + destruct (admit_all limiter subject rs s1) as [s2 l] eqn:El. cbn.
      destruct (Hok n eq_refl) as [Hinc ->]. set (h1 := hits (look s1 (at_ms (r_send r)) (key k))) in *.
      pose proof (IH s1 (at_ms (r_send r)) h1) as Hi. rewrite El in Hi. cbn in Hi.
      assert (admitted_in k rs l ≤ Z.max 0 (limit limiter - h1)) as Hb.
      { apply Hi; [lia|done|]. split; [lia|]. intros _. split; [done|]. unfold h1. lia. }
      destruct (Z.leb_spec (lua_number h1) (limit limiter)) as [Hlua|]; [|lia].
      destruct (decide (h1 ≤ 2 ^ 53)).
      * rewrite lua_number_exact in Hlua by lia. lia.
      * pose proof (lua_number_large h1). lia.
    + destruct (admit_all limiter subject rs s1) as [s2 l] eqn:El. cbn.
      pose proof (IH s1 (at_ms (r_send r)) h) as Hi. rewrite El in Hi. apply Hi; [done|done|].
      split; [lia|]. intros _. split; [done|lia].
  - assert (counted (key k) T t0 h
      (call (r_send r) (commandRateScript (key (windowID limiter (r_now r))) ms) s).1
      (at_ms (r_send r))) as Hc1.
    { apply (counted_others _ _ _ _ _ _ _ _ t); [|done|done].
      intros E%key_inj; [done|done|apply windowID_range]. }
    destruct (call (r_send r) _ s) as [s1 o]. cbn in Hc1.
    pose proof (IH s1 (at_ms (r_send r)) h Hh Ht Hc1) as Hi.
    destruct o; destruct (admit_all limiter subject rs s1) as [s2 l]; exact Hi.
Qed.

Lemma admit_all_length rs s : length (admit_all limiter subject rs s).2 = length rs.
Proof.
  revert s. induction rs as [|r rs IH]; intros s; [done|]. cbn [admit_all].
  destruct (Allow _ _ _ _ _) as [s1 o]. specialize (IH s1).
  destruct (admit_all limiter subject rs s1) as [s2 l]. cbn in *. by rewrite IH.
Qed.

Lemma admitted_cons b l : admitted (b :: l) = (if b then 1 else 0) + admitted l.
Proof.
  unfold admitted. destruct b; [rewrite filter_cons_True by done|by rewrite filter_cons_False].
  change (length (true :: ?x)) with (S (length x)). lia.
Qed.

(** Every admitted request belongs to one of the windows of the requests. *)
Lemma admitted_windows ks rs l :
  length l = length rs → NoDup ks →
  Forall (λ r, windowID limiter (r_now r) ∈ ks) rs →
  admitted l = foldr (λ k n, admitted_in k rs l + n) 0 ks.
Proof.
  intros Hl Hnd. revert l Hl. induction rs as [|r rs IH]; intros [|b l] Hl Hw; try done.
  { cbn. clear. induction ks as [|k ks IHk]; cbn in *; [done|]. by rewrite <- IHk. }
  apply Forall_cons in Hw as [Hr Hw]. injection Hl as Hl.
  rewrite admitted_cons, (IH l Hl Hw). cbn [admitted_in].
  assert (∀ ks', NoDup ks' →
    foldr (λ k n, (if (windowID limiter (r_now r) =? k) && b then 1 else 0)
                  + admitted_in k rs l + n) 0 ks' =
    (if decide (windowID limiter (r_now r) ∈ ks') then (if b then 1 else 0) else 0) +
    foldr (λ k n, admitted_in k rs l + n) 0 ks') as Hsum.
  { clear. induction 1 as [|k ks' Hk _ IHk]; cbn [foldr].
    - by rewrite decide_False by (by intros ?%elem_of_nil).
    - rewrite IHk. destruct (Z.eqb_spec (windowID limiter (r_now r)) k) as [->|Hne]; cbn.
      + rewrite (decide_False (P := k ∈ ks')) by done.
        rewrite decide_True by (apply elem_of_cons; by left). destruct b; lia.
      + destruct (decide (windowID limiter (r_now r) ∈ ks')).
        * rewrite decide_True by (apply elem_of_cons; by right). lia.
        * rewrite decide_False by (intros [?|?]%elem_of_cons; done). lia. }
  by rewrite Hsum, decide_True by done.
Qed.

Lemma counted_absent k T t s : look s t (key k) = None → counted (key k) T t 0 s t.
Proof. intros E. split; [lia|]. intros _. rewrite E. split; [by left|done]. Qed.

(** C28: of the requests of a credential that fall into one window by the clock of the
    runtime, at most [limit] are admitted, whatever their number and whatever replies are
    lost or commands resent, as long as every execution of the script, resent ones
    included, reaches the server less than one window length after the moment [t] at
    which the window had no counter yet. *)
Theorem at_most_limit_per_window k rs s t :
  look s t (key k) = None → timely t (t + ms) rs →
  Forall (λ r, windowID limiter (r_now r) = k) rs →
  admitted (admit_all limiter subject rs s).2 ≤ limit limiter.
Proof.
  intros Hfree Ht Hw. destruct rs as [|r0 rs0] eqn:Ers; [unfold admitted; cbn; lia|]. rewrite <- Ers in *.
  assert (in_int64 k) as Hk.
  { rewrite Ers in Hw. apply Forall_cons in Hw as [<- _]. apply windowID_range. }
  rewrite (admitted_windows [k] rs); [|apply admit_all_length|apply NoDup_singleton|].
  - cbn. pose proof (admitted_window k (t + ms) t rs s t 0 Hk ltac:(lia) ltac:(lia) Ht
      (counted_absent _ _ _ _ Hfree)). lia.
  - eapply Forall_impl; [exact Hw|]. cbn. intros r ->. by apply list_elem_of_singleton.
Qed.

(** Within any span of one window length, wherever it lies, at most twice
    the limit is admitted: such a span meets at most two windows. *)
Theorem at_most_twice_limit_per_span a rs s t :
  0 ≤ a → a + window limiter ≤ int64_max →
  (∀ k, look s t (key k) = None) → timely t (t + ms) rs →
  Forall (λ r, a ≤ r_now r < a + window limiter) rs →
  admitted (admit_all limiter subject rs s).2 ≤ 2 * limit limiter.
Proof.
  intros Ha Hmax Hfree Ht Hspan. set (k := a `quot` window limiter).
  assert (0 < window limiter) as Hw by (unfold Time.Millisecond in *; lia).
  assert (∀ x, a ≤ x < a + window limiter →
    x `quot` window limiter = k ∨ x `quot` window limiter = k + 1) as Htwo.
  { intros x Hx. unfold k. rewrite !Z.quot_div_nonneg by lia.
    pose proof (Z.div_le_mono a x (window limiter)).
    pose proof (Z.div_le_mono x (a + 1 * window limiter) (window limiter)).
    rewrite Z.div_add in * by lia. lia. }
  assert (in_int64 k ∧ in_int64 (k + 1)) as [Hk Hk1].
  { unfold k. rewrite Z.quot_div_nonneg by lia. unfold in_int64, int64_min, int64_max in *.
    pose proof (Z.div_pos a (window limiter)). pose proof (Z.div_le_upper_bound a (window limiter) a).
    unfold Time.Millisecond in *. nia. }
  rewrite (admitted_windows [k; k + 1] rs); [|apply admit_all_length| |].
  - cbn. pose proof (admitted_window k (t + ms) t rs s t 0 Hk ltac:(lia) ltac:(lia) Ht
      (counted_absent _ _ _ _ (Hfree k))).
    pose proof (admitted_window (k + 1) (t + ms) t rs s t 0 Hk1 ltac:(lia) ltac:(lia) Ht
      (counted_absent _ _ _ _ (Hfree (k + 1)))). lia.
  - rewrite NoDup_cons. split; [intros ?%list_elem_of_singleton; lia|apply NoDup_singleton].
  - eapply Forall_impl; [exact Hspan|]. cbn. intros r Hr. unfold windowID, Time.UnixNano.
    rewrite wrap_int64_small by (unfold in_int64, int64_min, int64_max in *; lia).
    destruct (Htwo _ Hr) as [-> | ->]; [by left|]. apply elem_of_cons. right. by apply list_elem_of_singleton.
Qed.

(** Requests that are delivered once and answered. *)
Definition undisturbed (r : request) : Prop :=
  lost (r_send r) = [] ∧ seen (r_send r) = Replied.

Lemma exact_from k T t0 h rs s t :
  T ≤ t0 + ms → t0 ≤ t → timely t T rs → Forall undisturbed rs →
  Forall (λ r, windowID limiter (r_now r) = k) rs →
  counter T (look s t (key k)) → hits (look s t (key k)) = h →
  h + Z.of_nat (length rs) ≤ 2 ^ 53 →
  (admit_all limiter subject rs s).2 =
    (λ i, h + Z.of_nat i <=? limit limiter) <$> seq 1 (length rs).
Proof.
  intros HT. pose proof ms_pos as Hms.
  revert s t h. induction rs as [|r rs IH]; intros s t h H0 Ht Hu Hw Hc Hh Hmax; [done|].
  apply Forall_cons in Hu as [[Hl Hr] Hu]. apply Forall_cons in Hw as [Hk Hw].
  destruct Ht as (Hch & HlT & Ht). rewrite Hl in Hch. cbn in Hch.
  change (length (r :: rs)) with (S (length rs)) in *. rewrite Nat2Z.inj_succ in Hmax.
  pose proof (counter_hits _ _ Hc) as Hpos. rewrite Hh in Hpos.
  cbn [admit_all seq fmap list_fmap]. unfold Allow, call. rewrite Hl, Hr, Hk. cbn [replay fold_left].
  pose proof (counter_later T s t (at_ms (r_send r)) (key k) ltac:(lia) Hc) as El.
  rewrite <- El in Hc, Hh.
  destruct (script_run (key k) ms T (at_ms (r_send r)) s Hms) as (s1 & o & E & Hc1 & _ & Hok & Hsome);
    [lia|done|]. rewrite E.
  destruct o as [n|]; [|destruct Hsome; [unfold int64_max; lia|done]].
  destruct (Hok n eq_refl) as [Eh ->]. rewrite Hh in *.
  rewrite lua_number_exact by lia.
  rewrite (surjective_pairing (admit_all limiter subject rs s1)). cbn [snd].
  rewrite (IH s1 (at_ms (r_send r)) (h + 1)) by (done || lia).
  f_equal. rewrite <- (fmap_S_seq 1), <- list_fmap_compose. apply list_fmap_ext. intros i x _. cbn. f_equal. lia.
Qed.

(** C29: requests that are delivered once are admitted in order: exactly the first
    [limit] requests of a window are admitted and all later ones refused. *)
Theorem first_requests_admitted k rs s t :
  look s t (key k) = None → timely t (t + ms) rs → Forall undisturbed rs →
  Forall (λ r, windowID limiter (r_now r) = k) rs → Z.of_nat (length rs) ≤ 2 ^ 53 →
  (admit_all limiter subject rs s).2 =
    (λ i, Z.of_nat i <=? limit limiter) <$> seq 1 (length rs).
Proof.
  intros Hfree Ht Hu Hw Hmax.
  by apply (exact_from k (t + ms) t 0 rs s t);
    [lia|lia|done|done|done|rewrite Hfree; left|rewrite Hfree|lia].
Qed.
End requests.

(** ** Instances on the concrete server *)
Module RateWitnesses.
Import RefRedis.

Definition limiter : redisCommandRateLimiter := mkLimiter "csms" 60 Time.Minute.
Definition nothing : rstate := (∅ : gmap string entry).
(** A request at a time given in milliseconds. *)
Definition req (t : Z) : request := Request (t * Time.Millisecond) (clean t).
Definition burst : list request := replicate 60 (req 59999) ++ replicate 60 (req 60000).

(** The bound of twice the limit is reached: sixty requests in the last
    millisecond of a window and sixty in the first of the next are all
    admitted. *)
Theorem boundary_burst_admitted :
  admitted (admit_all limiter "credential" burst nothing).2 = 2 * limit limiter.
Proof. vm_compute. reflexivity. Qed.

(** The condition on the executions is needed: sixty requests at the start of a window
    and one more of the same window that reaches the server only after the counter has
    expired are all admitted, one above the limit. *)
Definition delayed : list request :=
  replicate 60 (req 1) ++ [Request (59999 * Time.Millisecond) (Delivery [] 60010 Replied)].

Theorem late_request_exceeds_limit :
  Forall (λ r, windowID limiter (r_now r) = 0) delayed ∧
  admitted (admit_all limiter "credential" delayed nothing).2 = limit limiter + 1.
Proof. split; [apply Forall_forall; intros r Hr; by repeat (apply elem_of_cons in Hr as [->|Hr]; [done|]); apply elem_of_nil in Hr|vm_compute; reflexivity]. Qed.

Lemma limiter_window : Time.Millisecond ≤ window limiter ≤ int64_max.
Proof. split; discriminate. Qed.
Lemma limiter_limit : 0 ≤ limit limiter < 2 ^ 53.
Proof. split; [discriminate|reflexivity]. Qed.

(** One request whose script ran three times, then two more. *)
Definition resent : list request :=
  [Request 5000000 (Delivery [1; 2] 5 Replied); req 6; req 7].

Lemma resent_timely : timely 0 60000 resent.
Proof. cbn. lia. Qed.

Lemma at_most_limit_witness :
  admitted (admit_all limiter "credential" resent nothing).2 ≤ 60.
Proof.
  apply (at_most_limit_per_window limiter "credential" limiter_window limiter_limit 0 resent nothing 0);
    [reflexivity|exact resent_timely|repeat constructor].
Defined.

Lemma at_most_twice_limit_witness :
  admitted (admit_all limiter "credential" resent nothing).2 ≤ 2 * 60.
Proof.
  apply (at_most_twice_limit_per_span limiter "credential" limiter_window limiter_limit 0
    resent nothing 0);
    [discriminate|discriminate|reflexivity|exact resent_timely|].
  repeat constructor; discriminate.
Defined.

Lemma first_requests_admitted_witness :
  (admit_all limiter "credential" [req 6; req 7] nothing).2 = [true; true].
Proof.
  apply (first_requests_admitted limiter "credential" limiter_window 0
    [req 6; req 7] nothing 0);
    [reflexivity|change (timely 0 60000 [req 6; req 7]); cbn; lia|repeat constructor|repeat constructor|discriminate].
Defined.
End RateWitnesses.
