(* ===== verification/GoText.v ===== *)
(** * What the sources use of [strings], [strconv] and [time] on texts

    [strings.TrimSpace], [strings.Split] on a one-byte separator, [strings.ToLower]
    as far as a comparison with an ASCII word can see it, and [time.ParseDuration]
    with its overflow checks and its fractions in [float64]. *)

From Stdlib Require Import Floats.SpecFloat.
From S2P Require Import Prelude GoStd.
Import Strconv Strings.

(** ** White space *)

Definition bytes (l : list Z) : string :=
  foldr (λ n s, String (ascii_of_nat (Z.to_nat n)) s) "" l.

(** The UTF-8 encodings of the code points with the White_Space property. *)
Definition white_spaces : list string :=
  bytes <$> ([[9]; [10]; [11]; [12]; [13]; [32]; [194; 133]; [194; 160]; [225; 154; 128];
    [226; 128; 128]; [226; 128; 129]; [226; 128; 130]; [226; 128; 131]; [226; 128; 132];
    [226; 128; 133]; [226; 128; 134]; [226; 128; 135]; [226; 128; 136]; [226; 128; 137];
    [226; 128; 138]; [226; 128; 168]; [226; 128; 169]; [226; 128; 175]; [226; 129; 159];
    [227; 128; 128]] : list (list Z)).

Fixpoint first_some {A B} (f : A → option B) (l : list A) : option B :=
  match l with
  | [] => None
  | x :: l => match f x with Some b => Some b | None => first_some f l end
  end.

(** Every step removes at least one byte, so the length is enough fuel. *)
Fixpoint trim (step : string → option string) (fuel : nat) (s : string) : string :=
  match fuel with
  | O => s
  | S fuel => match step s with Some s => trim step fuel s | None => s end
  end.

Definition space_before (s : string) : option string :=
  first_some (λ w, strip_prefix w s) white_spaces.
Definition space_after (s : string) : option string :=
  first_some (λ w, strip_suffix w s) white_spaces.

Definition TrimSpace (s : string) : string :=
  let s := trim space_before (String.length s) s in
  trim space_after (String.length s) s.

(** ** Splitting and case *)

(** [strings.Split(s, sep)]; there is always a first piece. *)
Fixpoint split_from (sep : ascii) (piece s : string) : list string :=
  match s with
  | "" => [piece]
  | String c s =>
      if Ascii.eqb c sep then piece :: split_from sep "" s
      else split_from sep (piece +:+ String c "") s
  end.
Definition Split (s : string) (sep : ascii) : list string := split_from sep "" s.

(** [strings.ToLower] for a comparison with an ASCII word: the only code points
    outside ASCII whose lower case is in ASCII are U+0130 and U+212A; the others
    are left as they are here, and stay outside ASCII in Go. *)
Fixpoint ToLower (s : string) : string :=
  match s with
  | "" => ""
  | String c s1 =>
      let n := Z.of_nat (nat_of_ascii c) in
      if (65 <=? n) && (n <=? 90) then String (ascii_of_nat (Z.to_nat (n + 32))) (ToLower s1)
      else match s1 with
      | String c2 s2 =>
          if String.eqb (String c (String c2 "")) (bytes [196; 176]) then String "i" (ToLower s2)
          else match s2 with
          | String c3 s3 =>
              if String.eqb (String c (String c2 (String c3 ""))) (bytes [226; 132; 170])
              then String "k" (ToLower s3) else String c (ToLower s1)
          | "" => String c (ToLower s1)
          end
      | "" => String c ""
      end
  end.

(** ** [time.ParseDuration] *)

Module Duration.
Definition isDigit (c : ascii) : bool := bool_decide (is_Some (digit_val c)).

(** [leadingInt]: [None] on overflow. *)
Fixpoint leadingInt (x : Z) (s : string) : option (Z * string) :=
  match s with
  | "" => Some (x, "")
  | String c s1 =>
      match digit_val c with
      | None => Some (x, s)
      | Some d =>
          if 2 ^ 63 / 10 <? x then None
          else let x := x * 10 + d in if 2 ^ 63 <? x then None else leadingInt x s1
      end
  end.

(** [leadingFraction]: the digits, the number of digits counted and the rest; digits
    that do not fit are skipped. *)
Fixpoint leadingFraction (x : Z) (places : nat) (overflow : bool) (s : string) : Z * nat * string :=
  match s with
  | "" => (x, places, "")
  | String c s1 =>
      match digit_val c with
      | None => (x, places, s)
      | Some d =>
          if overflow || ((2 ^ 63 - 1) / 10 <? x) then leadingFraction x places true s1
          else let y := x * 10 + d in
               if 2 ^ 63 <? y then leadingFraction x places true s1
               else leadingFraction y (S places) false s1
      end
  end.

(** The unit: everything up to the next digit or period. *)
Fixpoint unit_text (s : string) : string * string :=
  match s with
  | "" => ("", "")
  | String c s1 =>
      if Ascii.eqb c "." || isDigit c then ("", s)
      else let '(u, rest) := unit_text s1 in (String c u, rest)
  end.

Definition unitMap : list (string * Z) :=
  [("ns", 1); ("us", 1000); (bytes [194; 181; 115], 1000); (bytes [206; 188; 115], 1000);
   ("ms", 1000000); ("s", 1000000000); ("m", 60000000000); ("h", 3600000000000)].

Definition unit_value (u : string) : option Z :=
  first_some (λ p, if String.eqb p.1 u then Some p.2 else None) unitMap.

(** [float64] arithmetic: precision 53, largest exponent 1024. *)
Definition to_float (n : Z) : spec_float := binary_normalize 53 1024 n 0 false.
Definition float_mul : spec_float → spec_float → spec_float := SFmul 53 1024.
Definition float_div : spec_float → spec_float → spec_float := SFdiv 53 1024.
(** [scale *= 10] for every digit. *)
Fixpoint scale (places : nat) : spec_float :=
  match places with O => to_float 1 | S p => float_mul (scale p) (to_float 10) end.
(** Conversion to an integer truncates. *)
Definition truncate (x : spec_float) : Z :=
  match x with
  | S754_finite false m e => if 0 <=? e then Z.pos m * 2 ^ e else Z.pos m / 2 ^ (- e)
  | _ => 0
  end.
(** [uint64(float64(f) * (float64(unit) / scale))] *)
Definition fraction_value (f : Z) (places : nat) (unit : Z) : Z :=
  truncate (float_mul (to_float f) (float_div (to_float unit) (scale places))).

(** One number with its unit, and the rest. *)
Definition component (s : string) : option (Z * string) :=
  match s with
  | "" => None
  | String c _ =>
      if negb (Ascii.eqb c "." || isDigit c) then None
      else
        '(v, s1) ← leadingInt 0 s;
        let pre := negb (Nat.eqb (String.length s) (String.length s1)) in
        let '(f, places, s2, post) :=
          match s1 with
          | String p s2 =>
              if Ascii.eqb p "." then
                let '(f, places, s3) := leadingFraction 0 0 false s2 in
                (f, places, s3, negb (Nat.eqb (String.length s2) (String.length s3)))
              else (0, 0%nat, s1, false)
          | "" => (0, 0%nat, s1, false)
          end in
        if negb pre && negb post then None
        else
          let '(u, s3) := unit_text s2 in
          if String.eqb u "" then None
          else
            unit ← unit_value u;
            if 2 ^ 63 / unit <? v then None
            else
              let v := v * unit in
              if 0 <? f then
                let v := v + fraction_value f places unit in
                if 2 ^ 63 <? v then None else Some (v, s3)
              else Some (v, s3)
  end.

(** Every component consumes at least one byte. *)
Fixpoint components (fuel : nat) (d : Z) (s : string) : option Z :=
  if String.eqb s "" then Some d
  else match fuel with
  | O => None
  | S fuel =>
      '(v, s) ← component s;
      let d := wrap_uint64 (d + v) in
      if 2 ^ 63 <? d then None else components fuel d s
  end.

Definition ParseDuration (s : string) : option Time.Duration :=
  let '(neg, s) := match s with
                   | String c s1 =>
                       if Ascii.eqb c "-" then (true, s1)
                       else if Ascii.eqb c "+" then (false, s1) else (false, s)
                   | "" => (false, s)
                   end in
  if String.eqb s "0" then Some 0
  else if String.eqb s "" then None
  else
    d ← components (String.length s) 0 s;
    if neg then Some (wrap_int64 (- d))
    else if 2 ^ 63 - 1 <? d then None else Some d.
End Duration.

Example trim_examples :
  TrimSpace (" a b" +:+ bytes [226; 128; 168; 9]) = "a b" ∧ TrimSpace "  " = "".
Proof. vm_compute. done. Qed.
Example split_examples : Split "a,,b" "," = ["a"; ""; "b"] ∧ Split "" "," = [""].
Proof. vm_compute. done. Qed.
Example duration_examples :
  Duration.ParseDuration "1h15m30.918s" = Some 4530918000000 ∧
  Duration.ParseDuration "-.5us" = Some (-500) ∧ Duration.ParseDuration "+0" = Some 0 ∧
  Duration.ParseDuration "900us" = Some 900000 ∧ Duration.ParseDuration "30" = None ∧
  Duration.ParseDuration "0.3333333333333333333h" = Some 1200000000000 ∧
  Duration.ParseDuration "9223372036854775807ns" = Some (2 ^ 63 - 1) ∧
  Duration.ParseDuration "9223372036854775808ns" = None ∧
  Duration.ParseDuration "-9223372036854775808ns" = Some (- 2 ^ 63).
Proof. vm_compute. done. Qed.

(** ** Trimmed texts *)

#[global] Arguments space_before : simpl never.
#[global] Arguments space_after : simpl never.

Definition trimmed (s : string) : Prop := space_before s = None ∧ space_after s = None.

Lemma first_some_Some {A B} (f : A → option B) l b :
  first_some f l = Some b → ∃ x, x ∈ l ∧ f x = Some b.
Proof.
  induction l as [|x l IH]; cbn; [done|]. destruct (f x) eqn:E.
  - intros [= <-]. exists x. split; [by left|done].
  - intros (y & ? & ?)%IH. exists y. split; [by right|done].
Qed.

Lemma first_some_None {A B} (f : A → option B) l x : first_some f l = None → x ∈ l → f x = None.
Proof.
  induction l as [|y l IH]; cbn; [by intros _ ?%elem_of_nil|]. destruct (f y) eqn:E; [done|].
  intros ? [->|?]%elem_of_cons; auto.
Qed.

Lemma white_space_nonempty w : w ∈ white_spaces → (0 < String.length w)%nat.
Proof.
  intros Hw. assert (forallb (λ w, Nat.ltb 0 (String.length w)) white_spaces = true) as H by done.
  rewrite forallb_forall in H. by apply Nat.ltb_lt, H, list_elem_of_In.
Qed.

Lemma space_before_split s r : space_before s = Some r → ∃ w, w ∈ white_spaces ∧ s = w +:+ r.
Proof. intros (w & ? & ?%strip_prefix_spec)%first_some_Some. eauto. Qed.

Lemma space_after_split s r : space_after s = Some r → ∃ w, w ∈ white_spaces ∧ s = r +:+ w.
Proof. intros (w & ? & ?%strip_suffix_spec)%first_some_Some. eauto. Qed.

Lemma space_before_shorter s r : space_before s = Some r → (String.length r < String.length s)%nat.
Proof.
  intros (w & ?%white_space_nonempty & ->)%space_before_split. rewrite string_length_app. lia.
Qed.

Lemma space_after_shorter s r : space_after s = Some r → (String.length r < String.length s)%nat.
Proof.
  intros (w & ?%white_space_nonempty & ->)%space_after_split. rewrite string_length_app. lia.
Qed.

(** With the length as fuel trimming ends because there is nothing left to trim. *)
Lemma trim_ends step fuel s :
  (∀ s r, step s = Some r → (String.length r < String.length s)%nat) →
  step "" = None → (String.length s ≤ fuel)%nat → step (trim step fuel s) = None.
Proof.
  intros Hstep H0. revert s. induction fuel as [|fuel IH]; intros s Hs; cbn.
  - destruct s; [done|cbn in Hs; lia].
  - destruct (step s) as [r|] eqn:E; [|done]. apply IH. apply Hstep in E. lia.
Qed.

Lemma trim_before_suffix fuel s : ∃ t, s = t +:+ trim space_before fuel s.
Proof.
  revert s. induction fuel as [|fuel IH]; intros s; cbn [trim]; [by exists ""|].
  destruct (space_before s) as [r|] eqn:E; [|by exists ""].
  apply space_before_split in E as (w & _ & ->). destruct (IH r) as [t E].
  exists (w +:+ t). by rewrite <- string_app_assoc, <- E.
Qed.

Lemma trim_after_prefix fuel s : ∃ t, s = trim space_after fuel s +:+ t.
Proof.
  revert s. induction fuel as [|fuel IH]; intros s; cbn [trim]; [exists ""; by rewrite string_app_nil_r|].
  destruct (space_after s) as [r|] eqn:E; [|exists ""; by rewrite string_app_nil_r].
  apply space_after_split in E as (w & _ & ->). destruct (IH r) as [t E].
  exists (t +:+ w). by rewrite string_app_assoc, <- E.
Qed.

(** The trimmed text is what is between. *)
Lemma TrimSpace_inside s : ∃ a b, s = a +:+ TrimSpace s +:+ b.
Proof.
  unfold TrimSpace. set (s1 := trim space_before _ s).
  destruct (trim_before_suffix (String.length s) s) as [a Ha].
  destruct (trim_after_prefix (String.length s1) s1) as [b Hb]. exists a, b.
  by rewrite <- Hb.
Qed.

Lemma space_before_prefix s t : space_before s = None → ∀ r, s = r +:+ t → space_before r = None.
Proof.
  intros Hs r ->. destruct (space_before r) as [q|] eqn:E; [|done].
  apply space_before_split in E as (w & Hw & ->).
  eapply first_some_None in Hs; [|done]. cbn in Hs.
  rewrite <- string_app_assoc, (proj2 (strip_prefix_spec _ _ _) eq_refl) in Hs. done.
Qed.

Lemma TrimSpace_trimmed s : trimmed (TrimSpace s).
Proof.
  unfold TrimSpace. set (s1 := trim space_before _ s). split.
  - destruct (trim_after_prefix (String.length s1) s1) as [t Ht].
    eapply space_before_prefix; [|done]. apply trim_ends; [apply space_before_shorter|done|done].
  - apply trim_ends; [apply space_after_shorter|done|done].
Qed.

Lemma TrimSpace_id s : trimmed s → TrimSpace s = s.
Proof.
  intros [Hb Ha]. unfold TrimSpace.
  assert (∀ step fuel, step s = None → trim step fuel s = s) as Ht.
  { intros step [|fuel] E; cbn; [done|by rewrite E]. }
  by rewrite !Ht.
Qed.

(** ** Splitting undoes joining *)

Fixpoint has_char (c : ascii) (s : string) : bool :=
  match s with "" => false | String a s => Ascii.eqb a c || has_char c s end.

Fixpoint join (sep : ascii) (l : list string) : string :=
  match l with
  | [] => ""
  | [x] => x
  | x :: l => x +:+ String sep (join sep l)
  end.

Lemma has_char_app c s t : has_char c (s +:+ t) = has_char c s || has_char c t.
Proof.
  induction s as [|a s IH]; [done|]. rewrite string_app_cons. cbn. by rewrite IH, orb_assoc.
Qed.

Lemma split_from_app sep piece s rest :
  has_char sep s = false →
  split_from sep piece (s +:+ String sep rest) = (piece +:+ s) :: split_from sep "" rest.
Proof.
  revert piece. induction s as [|a s IH]; intros piece; cbn [has_char].
  - intros _. rewrite string_app_nil_l, string_app_nil_r. cbn. by rewrite Ascii.eqb_refl.
  - intros [Ha Hs]%orb_false_iff. rewrite string_app_cons. cbn. rewrite Ha, IH by done.
    by rewrite <- string_app_assoc.
Qed.

Lemma split_from_last sep piece s :
  has_char sep s = false → split_from sep piece s = [piece +:+ s].
Proof.
  revert piece. induction s as [|a s IH]; intros piece; cbn [has_char].
  - intros _. by rewrite string_app_nil_r.
  - intros [Ha Hs]%orb_false_iff. cbn. rewrite Ha, IH by done. by rewrite <- string_app_assoc.
Qed.

Lemma Split_join sep l :
  l ≠ [] → Forall (λ s, has_char sep s = false) l → Split (join sep l) sep = l.
Proof.
  unfold Split. induction l as [|x [|y l] IH]; [done| |]; intros _ Hl;
    apply Forall_cons in Hl as [Hx Hl].
  - cbn [join]. by rewrite split_from_last.
  - change (join sep (x :: y :: l)) with (x +:+ String sep (join sep (y :: l))).
    rewrite split_from_app by done. by rewrite IH.
Qed.

Lemma split_from_pieces sep piece s :
  has_char sep piece = false → Forall (λ p, has_char sep p = false) (split_from sep piece s).
Proof.
  revert piece. induction s as [|a s IH]; intros piece Hp; cbn; [by constructor|].
  destruct (Ascii.eqb a sep) eqn:E; [constructor; auto|].
  apply IH. rewrite has_char_app, Hp. cbn. by rewrite E.
Qed.
