(* ===== verification/GoNet.v ===== *)
(** * What the sources use of [net] and [net/http]

    [net.ParseIP] (through [netip.ParseAddr]), [net.ParseCIDR], [IPNet.Contains],
    [net.SplitHostPort] and [http.Header.Get].  An address is its list of 4 or 16
    bytes. *)

From S2P Require Import Prelude GoStd.
Import Strconv.

(** ** Addresses *)

(** [parseIPv4Fields]: the octets read so far, the value and the number of digits of
    the current one. *)
Fixpoint ipv4_fields (done_ : list Z) (val : Z) (digLen : nat) (s : string) : option (list Z) :=
  match s with
  | "" => if Nat.eqb (length done_) 3 && negb (Nat.eqb digLen 0) then Some (done_ ++ [val]) else None
  | String c s =>
      match digit_val c with
      | Some d =>
          if Nat.eqb digLen 1 && (val =? 0) then None
          else
            let val := val * 10 + d in
            if 255 <? val then None else ipv4_fields done_ val (S digLen) s
      | None =>
          if Ascii.eqb c "." && negb (Nat.eqb digLen 0) && negb (Nat.eqb (length done_) 3)
          then ipv4_fields (done_ ++ [val]) 0 0 s else None
      end
  end.
Definition parseIPv4 (s : string) : option (list Z) := ipv4_fields [] 0 0 s.

Definition hex_val (c : ascii) : option Z :=
  let n := Z.of_nat (nat_of_ascii c) in
  if (48 <=? n) && (n <=? 57) then Some (n - 48)
  else if (97 <=? n) && (n <=? 102) then Some (n - 87)
  else if (65 <=? n) && (n <=? 70) then Some (n - 55)
  else None.

(** Leading hexadecimal digits: the value, how many, and the rest; a fifth digit is
    an error. *)
Fixpoint hex_group (acc : Z) (off : nat) (s : string) : option (Z * nat * string) :=
  match s with
  | "" => Some (acc, off, "")
  | String c s1 =>
      match hex_val c with
      | None => Some (acc, off, s)
      | Some d => if Nat.leb 4 off then None else hex_group (acc * 16 + d) (S off) s1
      end
  end.

(** The loop of [parseIPv6]: the bytes so far, where the ellipsis is, the text.  It
    stops with the bytes and the ellipsis when the text is used up. *)
Fixpoint ipv6_groups (fuel : nat) (ip : list Z) (ellipsis : option nat) (s : string) :
    option (list Z * option nat) :=
  match fuel with
  | O => None   (** all sixteen bytes are there and text is left *)
  | S fuel =>
      '(acc, off, rest) ← hex_group 0 0 s;
      if Nat.eqb off 0 then None
      else match rest with
      | "" => Some (ip ++ [acc / 256; acc `mod` 256], ellipsis)
      | String c rest1 =>
          if Ascii.eqb c "." then
            if bool_decide (ellipsis = None) && negb (Nat.eqb (length ip) 12) then None
            else if Nat.ltb 12 (length ip) then None
            else
              v4 ← parseIPv4 s; Some (ip ++ v4, ellipsis)
          else if negb (Ascii.eqb c ":") then None
          else
            let ip := ip ++ [acc / 256; acc `mod` 256] in
            match rest1 with
            | "" => None
            | String c2 rest2 =>
                if Ascii.eqb c2 ":" then
                  if bool_decide (ellipsis = None) then
                    match rest2 with
                    | "" => Some (ip, Some (length ip))
                    | _ => ipv6_groups fuel ip (Some (length ip)) rest2
                    end
                  else None
                else ipv6_groups fuel ip ellipsis rest1
            end
      end
  end.

(** Zeros in place of the ellipsis, which must stand for at least one group. *)
Definition expand (ip : list Z) (ellipsis : option nat) : option (list Z) :=
  match ellipsis with
  | None => if Nat.eqb (length ip) 16 then Some ip else None
  | Some k =>
      if Nat.ltb (length ip) 16
      then Some (take k ip ++ replicate (16 - length ip) 0 ++ drop k ip) else None
  end.

Definition parseIPv6 (s : string) : option (list Z) :=
  match s with
  | String a (String b rest) =>
      if Ascii.eqb a ":" && Ascii.eqb b ":" then
        match rest with
        | "" => Some (replicate 16 0)
        | _ => '(ip, e) ← ipv6_groups 8 [] (Some 0%nat) rest; expand ip e
        end
      else '(ip, e) ← ipv6_groups 8 [] None s; expand ip e
  | _ => '(ip, e) ← ipv6_groups 8 [] None s; expand ip e
  end.

(** The first of [.], [:] and [%] decides. *)
Fixpoint kind_of (s : string) : option ascii :=
  match s with
  | "" => None
  | String c s =>
      if Ascii.eqb c "." || Ascii.eqb c ":" || Ascii.eqb c "%" then Some c else kind_of s
  end.

(** The IPv4-mapped form. *)
Definition v4InV6Prefix : list Z := [0; 0; 0; 0; 0; 0; 0; 0; 0; 0; 255; 255].

(** [netip.ParseAddr] without a zone; a zone makes [net.ParseIP] and [net.ParseCIDR]
    fail, and neither form of address has a [%] otherwise. *)
Definition ParseAddr (s : string) : option (list Z) :=
  match kind_of s with
  | Some c => if Ascii.eqb c "." then parseIPv4 s
              else if Ascii.eqb c ":" then parseIPv6 s else None
  | None => None
  end.

Definition As16 (ip : list Z) : list Z := if Nat.eqb (length ip) 4 then v4InV6Prefix ++ ip else ip.

(** [net.ParseIP]: sixteen bytes. *)
Definition ParseIP (s : string) : option (list Z) := As16 <$> ParseAddr s.

(** [ip.To4()] *)
Definition To4 (ip : list Z) : option (list Z) :=
  if Nat.eqb (length ip) 4 then Some ip
  else if Nat.eqb (length ip) 16 && bool_decide (take 12 ip = v4InV6Prefix) then Some (drop 12 ip)
  else None.

(** ** Networks *)

Record IPNet : Type := mkNet { net_IP : list Z; net_Mask : list Z }.

(** [CIDRMask(n, 8 * len)]: byte by byte. *)
Fixpoint CIDRMask (n : Z) (len : nat) : list Z :=
  match len with
  | O => []
  | S len =>
      if 8 <=? n then 255 :: CIDRMask (n - 8) len
      else (255 - Z.shiftr 255 n) :: CIDRMask 0 len
  end.

Definition and_bytes (a b : list Z) : list Z := zip_with Z.land a b.

(** [ip.Mask(mask)] for a sixteen-byte [ip]. *)
Definition Mask (ip mask : list Z) : list Z :=
  if Nat.eqb (length mask) 4 then and_bytes (default ip (To4 ip)) mask else and_bytes ip mask.

(** [dtoi]: decimal digits below 2^24 - 1. *)
Fixpoint dtoi (n : Z) (s : string) : option Z :=
  match s with
  | "" => Some n
  | String c s =>
      d ← digit_val c;
      let n := n * 10 + d in if 16777215 <=? n then None else dtoi n s
  end.

Fixpoint cut (sep : ascii) (s : string) : option (string * string) :=
  match s with
  | "" => None
  | String c s =>
      if Ascii.eqb c sep then Some ("", s)
      else '(a, b) ← cut sep s; Some (String c a, b)
  end.

Definition ParseCIDR (s : string) : option IPNet :=
  '(addr, mask) ← cut "/" s;
  ip ← ParseAddr addr;
  if String.eqb mask "" then None
  else
    n ← dtoi 0 mask;
    if Z.of_nat (8 * length ip) <? n then None
    else
      let m := CIDRMask n (length ip) in
      Some (mkNet (Mask (As16 ip) m) m).

(** [networkNumberAndMask] *)
Definition networkNumberAndMask (n : IPNet) : option (list Z * list Z) :=
  let ip := default (net_IP n) (To4 (net_IP n)) in
  if negb (Nat.eqb (length ip) 4 || Nat.eqb (length ip) 16) then None
  else if Nat.eqb (length (net_Mask n)) 4 then
    if Nat.eqb (length ip) 4 then Some (ip, net_Mask n) else None
  else if Nat.eqb (length (net_Mask n)) 16 then
    if Nat.eqb (length ip) 4 then Some (ip, drop 12 (net_Mask n)) else Some (ip, net_Mask n)
  else None.

Definition Contains (n : IPNet) (ip : list Z) : bool :=
  match networkNumberAndMask n with
  | None => false
  | Some (nn, m) =>
      let ip := default ip (To4 ip) in
      Nat.eqb (length ip) (length nn) && bool_decide (and_bytes nn m = and_bytes ip m)
  end.

(** ** Host and port *)

Fixpoint has (c : ascii) (s : string) : bool :=
  match s with "" => false | String a s => Ascii.eqb a c || has c s end.

(** Around the last occurrence of [sep]. *)
Fixpoint cut_last (sep : ascii) (s : string) : option (string * string) :=
  match s with
  | "" => None
  | String c s =>
      match cut_last sep s with
      | Some (a, b) => Some (String c a, b)
      | None => if Ascii.eqb c sep then Some ("", s) else None
      end
  end.

(** [net.SplitHostPort]; [None] is an error. *)
Definition SplitHostPort (s : string) : option (string * string) :=
  '(before, port) ← cut_last ":" s;
  match s with
  | String c s1 =>
      if Ascii.eqb c "[" then
        (* the first ']' must stand just before the last ':' *)
        '(host, after) ← cut "]" s1;
        if String.eqb after (String ":" port) && negb (has "[" s1) && negb (has "]" after)
        then Some (host, port) else None
      else if has ":" before || has "[" s || has "]" s then None else Some (before, port)
  | "" => None
  end.

(** ** Headers *)

(** Canonical names with their values. *)
Definition Header : Type := gmap string (list string).
(** [header.Get(key)] for a canonical [key]: the first value. *)
Definition Get (h : Header) (key : string) : string :=
  match h !! key with Some (v :: _) => v | _ => "" end.

Example parse_addresses :
  ParseIP "10.1.2.3" = Some (v4InV6Prefix ++ [10; 1; 2; 3]) ∧ ParseIP "10.01.2.3" = None ∧
  ParseIP "::" = Some (replicate 16 0) ∧ ParseIP "1::2:10.0.0.1" ≠ None ∧
  ParseIP "1:2:3:4:5:6:7:8" ≠ None ∧ ParseIP "1:2:3:4:5:6:7:8:9" = None ∧
  ParseIP "1:2:3:4:5:6:7::" ≠ None ∧ ParseIP "1:2:3:4:5:6:7:8::" = None ∧
  ParseIP "1::2::3" = None ∧ ParseIP "fe80::1%eth0" = None ∧ ParseIP ":1" = None ∧
  ParseIP "::1:2:3:4:5:6:7:8" = None ∧ ParseIP "12345::" = None ∧ ParseIP "1:" = None.
Proof. vm_compute. repeat split; discriminate. Qed.
Example contains_examples :
  (n ← ParseCIDR "10.0.0.0/08"; ip ← ParseIP "10.9.9.9"; Some (Contains n ip)) = Some true ∧
  (n ← ParseCIDR "10.0.0.0/9"; ip ← ParseIP "10.128.0.1"; Some (Contains n ip)) = Some false ∧
  (n ← ParseCIDR "::/0"; ip ← ParseIP "10.128.0.1"; Some (Contains n ip)) = Some false ∧
  (n ← ParseCIDR "2001:db8::/33"; ip ← ParseIP "2001:db8:7fff::1"; Some (Contains n ip)) = Some true ∧
  ParseCIDR "10.0.0.0/33" = None ∧ ParseCIDR "10.0.0.0" = None.
Proof. vm_compute. done. Qed.
Example host_ports :
  SplitHostPort "1.2.3.4:80" = Some ("1.2.3.4", "80") ∧ SplitHostPort "[::1]:80" = Some ("::1", "80") ∧
  SplitHostPort "::1:80" = None ∧ SplitHostPort "[::1]" = None ∧ SplitHostPort "1.2.3.4" = None ∧
  SplitHostPort "[a:b]c:1" = None ∧ SplitHostPort ":80" = Some ("", "80").
Proof. vm_compute. done. Qed.
