(* ===== verification/TrustedProxy.v ===== *)
(** * The client address behind a proxy (runtime/trustedproxy.go) *)

From S2P Require Import Prelude GoStd GoText GoNet.

Record trustedProxyResolver : Type := mkResolver { trustedNets : list IPNet }.

(** The error names the CIDR that does not parse. *)
Fixpoint parse_nets (cidrs : list string) : result string (list IPNet) :=
  match cidrs with
  | [] => Ok []
  | cidr :: cidrs =>
      match ParseCIDR cidr with
      | None => Err cidr
      | Some n => match parse_nets cidrs with Ok ns => Ok (n :: ns) | Err e => Err e end
      end
  end.

Definition newTrustedProxyResolver (cidrs : list string) : result string trustedProxyResolver :=
  match parse_nets cidrs with Ok nets => Ok (mkResolver nets) | Err e => Err e end.

Fixpoint contains_any (nets : list IPNet) (ip : list Z) : bool :=
  match nets with
  | [] => false
  | n :: nets => if Contains n ip then true else contains_any nets ip
  end.
Definition isTrusted (r : trustedProxyResolver) (ip : list Z) : bool := contains_any (trustedNets r) ip.

Definition resolve (r : trustedProxyResolver) (remoteAddr : string) (header : Header) : string :=
  if Nat.eqb (length (trustedNets r)) 0 then remoteAddr
  else
    let host := match SplitHostPort remoteAddr with Some (host, _) => host | None => remoteAddr end in
    match ParseIP host with
    | None => remoteAddr
    | Some ip =>
        if negb (isTrusted r ip) then remoteAddr
        else
          let forwardedFor := Get header "X-Forwarded-For" in
          if String.eqb forwardedFor "" then remoteAddr
          else
            let clientAddr := TrimSpace (default "" (head (Split forwardedFor ","))) in
            match ParseIP clientAddr with
            | None => remoteAddr
            | Some _ => clientAddr
            end
    end.

(** [resolvedIPHandshakeLimiter]: the limiter of the OCPP library it wraps is a
    parameter, with its state. *)
Record HandshakeAttempt : Type := mkAttempt { RemoteAddr : string; attempt_Header : Header }.

Section limiter.
Context {L : Type} (limiter_Allow : HandshakeAttempt → L → L * bool).

Definition Allow (resolver : trustedProxyResolver) (attempt : HandshakeAttempt) (l : L) : L * bool :=
  let attempt := mkAttempt (resolve resolver (RemoteAddr attempt) (attempt_Header attempt))
                   (attempt_Header attempt) in
  limiter_Allow attempt l.
End limiter.

(** ** Networks are prefixes

    What [Contains] computes byte by byte is equality of the leading bits of two
    numbers. *)

(** The number whose big-endian bytes these are. *)
Definition number (l : list Z) : Z := foldl (λ acc b, acc * 256 + b) 0 l.
Definition byte_list (l : list Z) : Prop := Forall (λ b, 0 ≤ b < 256) l.

Fixpoint be (l : list Z) : Z :=
  match l with [] => 0 | b :: l => b * 256 ^ Z.of_nat (length l) + be l end.

Lemma foldl_number acc l :
  foldl (λ acc b, acc * 256 + b) acc l = acc * 256 ^ Z.of_nat (length l) + be l.
Proof.
  revert acc. induction l as [|b l IH]; intros acc; cbn [foldl be length]; [cbn; lia|].
  rewrite IH, Nat2Z.inj_succ, Z.pow_succ_r by lia. lia.
Qed.

Lemma number_cons b l : number (b :: l) = b * 256 ^ Z.of_nat (length l) + number l.
Proof. unfold number. cbn [foldl]. rewrite !foldl_number. lia. Qed.

Lemma number_range l : byte_list l → 0 ≤ number l < 256 ^ Z.of_nat (length l).
Proof.
  induction 1 as [|b l Hb _ IH]; [cbn; lia|]. rewrite number_cons. cbn [length].
  rewrite Nat2Z.inj_succ, Z.pow_succ_r by lia. nia.
Qed.

(** One byte of the mask keeps the leading [n] bits. *)
Lemma land_top n x :
  0 ≤ n < 8 → 0 ≤ x < 256 → Z.land x (255 - Z.shiftr 255 n) = x / 2 ^ (8 - n) * 2 ^ (8 - n).
Proof.
  intros Hn Hx.
  assert (forallb (λ n, forallb (λ x, Z.land x (255 - Z.shiftr 255 n) =? x / 2 ^ (8 - n) * 2 ^ (8 - n))
    (seqZ 0 256)) (seqZ 0 8) = true) as H by (vm_compute; reflexivity).
  rewrite forallb_forall in H. specialize (H n). rewrite forallb_forall in H.
  apply Z.eqb_eq, H; apply list_elem_of_In, elem_of_seqZ; lia.
Qed.

Lemma land_255 x : 0 ≤ x < 256 → Z.land x 255 = x.
Proof. intros. change 255 with (Z.ones 8). rewrite Z.land_ones by lia. by apply Z.mod_small. Qed.

Lemma and_mask_0 l : and_bytes l (CIDRMask 0 (length l)) = replicate (length l) 0.
Proof.
  induction l as [|b l IH]; [done|]. cbn. change (zip_with Z.land) with and_bytes.
  by rewrite IH, Z.land_0_r.
Qed.

(** Masking two addresses gives the same bytes exactly when their leading [n] bits are
    the same. *)
Lemma mask_prefix a b n :
  length a = length b → byte_list a → byte_list b → 0 ≤ n ≤ 8 * Z.of_nat (length a) →
  (and_bytes a (CIDRMask n (length a)) = and_bytes b (CIDRMask n (length a)) ↔
   number a / 2 ^ (8 * Z.of_nat (length a) - n) = number b / 2 ^ (8 * Z.of_nat (length a) - n)).
Proof.
  revert b n. induction a as [|x a IH]; intros [|y b] n Hlen Ha Hb Hn; try done.
  injection Hlen as Hlen. apply Forall_cons in Ha as [Hx Ha], Hb as [Hy Hb].
  pose proof (number_range a Ha). pose proof (number_range b Hb). rewrite <- Hlen in *.
  rewrite !number_cons, <- Hlen. cbn [length CIDRMask] in *. rewrite Nat2Z.inj_succ in *.
  remember (Z.of_nat (length a)) as L eqn:EL. assert (0 ≤ L) as HL by lia. assert (256 ^ L = 2 ^ (8 * L)) as E256.
  { by rewrite <- (Z.pow_mul_r 2 8) by lia. }
  rewrite E256 in *. destruct (Z.leb_spec 8 n).
  - cbn [and_bytes zip_with]. change (zip_with Z.land) with and_bytes. rewrite !land_255 by done.
    replace (8 * Z.succ L - n) with (8 * L - (n - 8)) by lia.
    remember (8 * L - (n - 8)) as k eqn:Ek. assert (2 ^ (8 * L) = 2 ^ (n - 8) * 2 ^ k) as Esplit.
    { rewrite <- Z.pow_add_r by lia. f_equal. lia. }
    assert (0 < 2 ^ k) by (apply Z.pow_pos_nonneg; lia).
    rewrite Esplit, !Z.mul_assoc, !Z.div_add_l by lia.
    assert (∀ t, 0 ≤ t < 2 ^ (8 * L) → 0 ≤ t / 2 ^ k < 2 ^ (n - 8)) as Ht.
    { intros t Ht. split; [apply Z.div_pos; lia|]. apply Z.div_lt_upper_bound; lia. }
    specialize (IH b (n - 8) Hlen Ha Hb ltac:(lia)). rewrite <- Ek in IH.
    pose proof (Ht _ H). pose proof (Ht _ H0). split.
    + intros [= -> E]. f_equal. by apply IH.
    + intros E. assert (x = y) as -> by nia. f_equal. apply IH. lia.
  - cbn [and_bytes zip_with]. change (zip_with Z.land) with and_bytes.
    rewrite and_mask_0. rewrite Hlen at 2. rewrite and_mask_0, !land_top by lia. rewrite <- Hlen.
    replace (8 * Z.succ L - n) with (8 * L + (8 - n)) by lia.
    rewrite Z.pow_add_r, <- !Z.div_div, !Z.div_add_l, !(Z.div_small _ (2 ^ (8 * L))), !Z.add_0_r by lia.
    assert (0 < 2 ^ (8 - n)) by (apply Z.pow_pos_nonneg; lia).
    split; [intros [= E]; nia|by intros ->].
Qed.

(** *** IPv4 networks *)

Lemma digit_val_range c d : Strconv.digit_val c = Some d → 0 ≤ d < 10.
Proof. unfold Strconv.digit_val. case_match; [|done]. intros [= <-]. bool_to_prop. lia. Qed.

Lemma ipv4_fields_bytes s done_ val k l :
  byte_list done_ → 0 ≤ val < 256 → ipv4_fields done_ val k s = Some l →
  length l = 4%nat ∧ byte_list l.
Proof.
  revert done_ val k. induction s as [|c s IH]; intros done_ val k Hd Hv; cbn [ipv4_fields].
  - case_match eqn:E; [|done]. intros [= <-]. apply andb_true_iff in E as [E%Nat.eqb_eq _].
    rewrite length_app, E. split; [done|]. apply Forall_app; split; [done|by apply Forall_singleton].
  - destruct (Strconv.digit_val c) as [d|] eqn:Ed.
    + apply digit_val_range in Ed. repeat case_match; try done. bool_to_prop. apply IH; [done|lia].
    + case_match; [|done]. apply IH; [|lia].
      apply Forall_app; split; [done|by apply Forall_singleton].
Qed.

Lemma dtoi_nonneg s m n : 0 ≤ m → dtoi m s = Some n → 0 ≤ n.
Proof.
  revert m. induction s as [|c s IH]; intros m Hm; cbn [dtoi]; [by intros [= <-]|].
  destruct (Strconv.digit_val c) as [d|] eqn:Ed; [|done]. apply digit_val_range in Ed.
  cbn [mbind option_bind]. case_match; [done|]. apply IH. lia.
Qed.

Lemma length_CIDRMask n len : length (CIDRMask n len) = len.
Proof. revert n. induction len as [|len IH]; intros n; [done|]. cbn. case_match; cbn; by rewrite IH. Qed.

Lemma To4_As16 ip : length ip = 4%nat → To4 (As16 ip) = Some ip.
Proof. intros H. do 5 (destruct ip as [|? ip]; try done). Qed.

Lemma To4_4 ip : length ip = 4%nat → To4 ip = Some ip.
Proof. unfold To4. by intros ->. Qed.

Lemma and_bytes_idemp a m : length a = length m → and_bytes (and_bytes a m) m = and_bytes a m.
Proof.
  revert m. induction a as [|x a IH]; intros [|y m]; cbn; try done. intros [= H].
  change (zip_with Z.land) with and_bytes. by rewrite IH, <- Z.land_assoc, Z.land_diag.
Qed.

(** An IPv4 network in CIDR notation contains exactly the IPv4 addresses whose
    leading bits, as many as the prefix length says, are those of the network's
    address. *)
Lemma ipv4_network_is_prefix cidr addr mask a n net ip :
  cut "/" cidr = Some (addr, mask) → parseIPv4 addr = Some a → kind_of addr = Some "."%char →
  dtoi 0 mask = Some n → ParseCIDR cidr = Some net →
  length ip = 4%nat → byte_list ip →
  Contains net (As16 ip) = true ↔ number a / 2 ^ (32 - n) = number ip / 2 ^ (32 - n).
Proof.
  intros Hcut Ha Hkind Hn. unfold ParseCIDR, ParseAddr. rewrite Hcut. cbn [mbind option_bind].
  rewrite Hkind. cbn [Ascii.eqb Bool.eqb]. rewrite Ha. cbn [mbind option_bind]. rewrite Hn.
  destruct (ipv4_fields_bytes addr [] 0 0 a) as [La Ba]; [by constructor|lia|done|].
  apply dtoi_nonneg in Hn; [|lia]. case_match; [done|]. cbn [mbind option_bind]. rewrite La.
  case_match; [done|]. pose proof (length_CIDRMask n 4) as Lm.
  pose proof (λ H, mask_prefix a ip n H Ba) as Hmp. rewrite La in Hmp.
  generalize dependent (CIDRMask n 4). intros m Lm Hmp [= <-] Lip Bip. bool_to_prop. unfold Mask, Contains, networkNumberAndMask. cbn [net_IP net_Mask].
  rewrite Lm. cbn [Nat.eqb]. rewrite !To4_As16 by done. cbn [default from_option id].
  assert (length (and_bytes a m) = 4%nat) as Lan.
  { unfold and_bytes. rewrite length_zip_with, Lm, La. done. }
  rewrite To4_4 by done. cbn [default from_option id]. rewrite Lan, Lip. cbn [Nat.eqb orb negb andb].
  rewrite Lan. cbn [andb].
  rewrite bool_decide_eq_true, and_bytes_idemp by congruence.
  apply Hmp; [done|done|lia].
Qed.

(** The address and the prefix length of an IPv4 network. *)
Definition ipv4_cidr (cidr : string) : option (list Z * Z) :=
  '(addr, mask) ← cut "/" cidr;
  if bool_decide (kind_of addr = Some "."%char) then
    a ← parseIPv4 addr; n ← dtoi 0 mask; Some (a, n)
  else None.

Definition same_prefix (n : Z) (a b : list Z) : Prop :=
  number a / 2 ^ (32 - n) = number b / 2 ^ (32 - n).

Lemma ipv4_contains cidr a n net ip :
  ipv4_cidr cidr = Some (a, n) → ParseCIDR cidr = Some net → length ip = 4%nat → byte_list ip →
  Contains net (As16 ip) = true ↔ same_prefix n a ip.
Proof.
  unfold ipv4_cidr. destruct (cut "/" cidr) as [[addr mask]|] eqn:Ec; [|done].
  cbn [mbind option_bind]. case_bool_decide as Hk; [|done].
  destruct (parseIPv4 addr) as [a'|] eqn:Ea; [|done]. cbn [mbind option_bind].
  destruct (dtoi 0 mask) as [n'|] eqn:En; [|done]. intros [= -> ->].
  by eapply ipv4_network_is_prefix.
Qed.

(** C34: with IPv4 networks configured, a peer is trusted exactly when its address shares
    the prefix of one of them. *)
Theorem trusted_iff_prefix cidrs r ip :
  Forall (λ c, is_Some (ipv4_cidr c)) cidrs → newTrustedProxyResolver cidrs = Ok r →
  length ip = 4%nat → byte_list ip →
  isTrusted r (As16 ip) = true ↔
  ∃ c a n, c ∈ cidrs ∧ ipv4_cidr c = Some (a, n) ∧ same_prefix n a ip.
Proof.
  unfold newTrustedProxyResolver, isTrusted. intros Hall Hr Hlen Hip.
  destruct (parse_nets cidrs) as [nets|] eqn:Ep; [|done]. injection Hr as <-. cbn [trustedNets].
  revert nets Ep. induction Hall as [|c cidrs [[a n] Hc] _ IH]; intros nets; cbn [parse_nets].
  { intros [= <-]. cbn. split; [done|]. by intros (? & ? & ? & ?%elem_of_nil & _). }
  destruct (ParseCIDR c) as [net|] eqn:En; [|done].
  destruct (parse_nets cidrs) as [nets1|]; [|done]. intros [= <-]. cbn [contains_any].
  pose proof (ipv4_contains _ _ _ _ _ Hc En Hlen Hip) as Hin. specialize (IH _ eq_refl).
  destruct (Contains net (As16 ip)).
  - split; [|done]. intros _. exists c, a, n. split_and!; [by left|done|by apply Hin].
  - rewrite IH. split.
    + intros (c' & a' & n' & ? & ? & ?). exists c', a', n'. split_and!; [by right|done|done].
    + intros (c' & a' & n' & [->|?]%elem_of_cons & Hc' & Hs); [|eauto 10].
      rewrite Hc in Hc'. injection Hc' as <- <-. apply Hin in Hs. done.
Qed.

(** ** Properties of [resolve] *)

(** The peer the connection came from. *)
Definition peer (remoteAddr : string) : option (list Z) :=
  ParseIP (match SplitHostPort remoteAddr with Some (host, _) => host | None => remoteAddr end).

Definition from_trusted (r : trustedProxyResolver) (remoteAddr : string) : bool :=
  match peer remoteAddr with Some ip => isTrusted r ip | None => false end.

Definition forwarded (h : Header) : string :=
  TrimSpace (default "" (head (Split (Get h "X-Forwarded-For") ","))).

Lemma resolve_eq r addr h :
  resolve r addr h =
  if from_trusted r addr && negb (String.eqb (Get h "X-Forwarded-For") "") &&
     bool_decide (is_Some (ParseIP (forwarded h)))
  then forwarded h else addr.
Proof.
  unfold resolve, from_trusted, peer, forwarded. destruct r as [nets]. cbn [trustedNets].
  destruct nets as [|n nets].
  { cbn. by destruct (ParseIP _). }
  cbn [length Nat.eqb]. destruct (ParseIP _) as [ip|]; [|done].
  destruct (isTrusted _ ip); cbn [negb andb]; [|done].
  destruct (String.eqb _ ""); cbn [negb andb]; [done|].
  destruct (ParseIP (TrimSpace _)); [rewrite bool_decide_eq_true_2|rewrite bool_decide_eq_false_2];
    eauto; by intros [].
Qed.

(** C33: a client that does not come from a trusted network cannot choose the address it
    is limited by: whatever headers it sends, it is the address of its connection.
    This is so for every client when no network is configured. *)
Theorem untrusted_headers_ignored r addr h :
  from_trusted r addr = false ∨ trustedNets r = [] → resolve r addr h = addr.
Proof.
  rewrite resolve_eq. intros [->|E]; [done|].
  assert (from_trusted r addr = false) as ->; [|done].
  unfold from_trusted, isTrusted. rewrite E. by destruct (peer addr).
Qed.

(** A client behind a trusted proxy is limited by the first address of the forwarding
    header when that is one, whatever address and port the proxy connects from. *)
Theorem trusted_client_address r addr h ip :
  from_trusted r addr = true → Get h "X-Forwarded-For" ≠ "" → ParseIP (forwarded h) = Some ip →
  resolve r addr h = forwarded h ∧
  (∀ addr', from_trusted r addr' = true → resolve r addr' h = resolve r addr h).
Proof.
  intros Ht Hh Hip. apply String.eqb_neq in Hh.
  assert (∀ a, from_trusted r a = true → resolve r a h = forwarded h) as Hr.
  { intros a Ha. rewrite resolve_eq, Ha, Hh, bool_decide_eq_true_2 by eauto. done. }
  split; [by apply Hr|]. intros a Ha. by rewrite !Hr.
Qed.

Module ProxyWitnesses.
Definition resolver : trustedProxyResolver :=
  match newTrustedProxyResolver ["10.0.0.0/8"; "fd00::/8"] with Ok r => r | Err _ => mkResolver [] end.
Definition header : Header := {["X-Forwarded-For" := ["203.0.113.7, 10.2.2.2"]]}.

Example resolved_through_proxy :
  resolve resolver "10.1.1.1:4000" header = "203.0.113.7" ∧
  resolve resolver "[fd00::5]:4000" header = "203.0.113.7" ∧
  resolve resolver "198.51.100.1:4000" header = "198.51.100.1:4000".
Proof. vm_compute. done. Qed.

Lemma untrusted_headers_ignored_witness :
  length (trustedNets resolver) = 2%nat ∧
  resolve resolver "198.51.100.1:4000" header = "198.51.100.1:4000".
Proof.
  split; [reflexivity|]. apply (untrusted_headers_ignored resolver "198.51.100.1:4000" header).
  left. vm_compute. reflexivity.
Defined.

Definition ipv4_only : trustedProxyResolver :=
  match newTrustedProxyResolver ["192.168.0.0/16"; "10.64.0.0/10"] with
  | Ok r => r
  | Err _ => mkResolver []
  end.

Lemma trusted_iff_prefix_witness :
  isTrusted ipv4_only (As16 [10; 127; 1; 2]) = true ↔
  ∃ c a n, c ∈ ["192.168.0.0/16"; "10.64.0.0/10"] ∧ ipv4_cidr c = Some (a, n) ∧
    same_prefix n a [10; 127; 1; 2].
Proof.
  apply (trusted_iff_prefix ["192.168.0.0/16"; "10.64.0.0/10"] ipv4_only [10; 127; 1; 2]).
  - repeat (apply Forall_cons; split; [eexists; reflexivity|]). by apply Forall_nil.
  - reflexivity.
  - reflexivity.
  - repeat (apply Forall_cons; split; [lia|]). by apply Forall_nil.
Defined.
End ProxyWitnesses.
