(* ===== verification/Commands.v ===== *)
(** * Execution of commands on stations (runtime/commands.go)

    [handleCommand] is the handler the consumer of the command bus runs.  The OCPP
    library (sessions, the [CallReset] of each profile, the encoding of its
    confirmations) is a parameter; the JSON of a reset command is that of
    Json.v. *)

From S2P Require Import Prelude GoStd Redis Lease RedisRegistry Ownership Cluster CommandBus Json.

(** ** Reset commands and their JSON *)

Definition resetAction : string := "Reset".

Record resetCommand : Type := mkReset {
  Type_ : string;             (** [json:"type"] *)
  EVSEID : option Z           (** [json:"evseId,omitempty"], a [*int] *)
}.

#[export] Instance resetCommand_eq_dec : EqDecision resetCommand.
Proof. solve_decision. Defined.

Definition noReset : resetCommand := mkReset "" None.

(** One member of the object: [null] leaves a string as it is and makes a pointer
    nil; a number must be an [int]; a value of another type is an error, and so is
    an unknown name when [strict] ([DisallowUnknownFields]). *)
Definition set_member (strict : bool) (r : resetCommand) (m : string * Json.json) :
    option resetCommand :=
  let '(key, v) := m in
  if String.eqb (Json.fold_name key) "TYPE" then
    match v with
    | Json.JString s => Some (mkReset s (EVSEID r))
    | Json.JNull => Some r
    | _ => None
    end
  else if String.eqb (Json.fold_name key) "EVSEID" then
    match v with
    | Json.JNull => Some (mkReset (Type_ r) None)
    | Json.JNumber literal =>
        match Strconv.ParseInt literal with
        | Some n => Some (mkReset (Type_ r) (Some n))
        | None => None
        end
    | _ => None
    end
  else if strict then None else Some r.

Definition decode_reset (strict : bool) (v : Json.json) : option resetCommand :=
  match v with
  | Json.JNull => Some noReset
  | Json.JObject ms => foldl (λ r m, r ≫= λ r, set_member strict r m) (Some noReset) ms
  | _ => None
  end.

(** [json.Unmarshal(payload, &request)] *)
Definition Unmarshal_reset (payload : string) : option resetCommand :=
  Json.parse payload ≫= decode_reset false.

(** [json.Marshal(request)] *)
Definition Marshal_reset (r : resetCommand) : string :=
  "{" +:+ Json.quoted "type" +:+ ":" +:+ Json.quoted (Type_ r) +:+
  match EVSEID r with
  | Some n => "," +:+ Json.quoted "evseId" +:+ ":" +:+ Strconv.FormatInt n
  | None => ""
  end +:+ "}".

(** ** Calls to a station *)

Inductive version : Type := OCPP16 | OCPP201 | OCPP21 | OtherVersion (name : string).

Inductive resetRequest : Type :=
  | Reset16 (hard : bool)                               (** [v16.ResetRequest] *)
  | Reset201 (type : string) (evse : option Z)          (** [v201.ResetRequest] *)
  | Reset21 (type : string) (evse : option Z).          (** [v21.ResetRequest] *)

(** Why a command was not carried out; [Text] is an error of the library. *)
Inductive failure : Type :=
  | Expired (e : ctx_error)
  | NotOwner
  | StationNotConnected
  | UnsupportedAction (action : string)
  | InvalidPayload (payload : string)
  | WrongResetType
  | UnsupportedVersion (name : string)
  | CallFailed (text : string).

Section commands.
(** The state of the OCPP library: its sessions and whatever lies behind them. *)
Context {O : Type}.
Context (SessionVersion : O → string → option version).
Context (CallReset : Ctx.t → Time.t → string → resetRequest → O → O * result string string).
(** [err.Error()] *)
Context (Error : failure → string).

(** A request that is refused before it reaches the station. *)
Definition reset_request (v : version) (request : resetCommand) : result failure resetRequest :=
  match v with
  | OCPP16 =>
      if String.eqb (Type_ request) "OnIdle" then Ok (Reset16 false)
      else if negb (String.eqb (Type_ request) "Immediate") then Err WrongResetType
      else Ok (Reset16 true)
  | OCPP201 =>
      if negb (String.eqb (Type_ request) "Immediate") && negb (String.eqb (Type_ request) "OnIdle")
      then Err WrongResetType
      else Ok (Reset201 (Type_ request) (EVSEID request))
  | OCPP21 =>
      if negb (String.eqb (Type_ request) "Immediate") && negb (String.eqb (Type_ request) "OnIdle")
      then Err WrongResetType
      else Ok (Reset21 (Type_ request) (EVSEID request))
  | OtherVersion name => Err (UnsupportedVersion name)
  end.

(** [CallReset] gives the JSON of the confirmation. *)
Definition callReset (ctx : Ctx.t) (now : Time.t) (v : version) (session : string)
    (request : resetCommand) (o : O) : O * result failure string :=
  match reset_request v request with
  | Err e => (o, Err e)
  | Ok r =>
      match CallReset ctx now session r o with
      | (o', Ok confirmation) => (o', Ok confirmation)
      | (o', Err text) => (o', Err (CallFailed text))
      end
  end.

Definition fail_ (code : string) (e : failure) : Result :=
  mkResult "" false None code (Error e) Time.zero.

(** [owner] is the ownership manager of the server, nil without Redis. *)
Definition handleCommand (owner : option ownershipManager) (ctx : Ctx.t) (now : Time.t)
    (command : Command) (o : O) : O * Result :=
  match Ctx.Err ctx now with
  | Some e => (o, fail_ "Expired" (Expired e))
  | None =>
      match owner with
      | None => (o, fail_ "NotOwner" NotOwner)
      | Some m =>
          if negb (String.eqb (OwnerID command) (ownerID m))
             || negb (owns m (StationIdentity command) (OwnerGeneration command))
          then (o, fail_ "NotOwner" NotOwner)
          else
            match SessionVersion o (StationIdentity command) with
            | None => (o, fail_ "StationNotConnected" StationNotConnected)
            | Some v =>
                if negb (String.eqb (Action command) resetAction)
                then (o, fail_ "UnsupportedAction" (UnsupportedAction (Action command)))
                else
                  match Unmarshal_reset (Payload command) with
                  | None => (o, fail_ "InvalidPayload" (InvalidPayload (Payload command)))
                  | Some request =>
                      match callReset ctx now v (StationIdentity command) request o with
                      | (o', Err e) => (o', fail_ "OCPPCallFailed" e)
                      | (o', Ok payload) =>
                          (o', mkResult "" true (Some payload) "" "" Time.zero)
                      end
                  end
            end
      end
  end.
End commands.

(** ** The payload of a command *)

Lemma Marshal_reset_shape r :
  Marshal_reset r =
    String "{" (Json.quoted "type" +:+ String ":" (Json.quoted (Type_ r) +:+
      match EVSEID r with
      | Some n => String "," (Json.quoted "evseId" +:+ String ":" (Strconv.FormatInt n +:+ "}"))
      | None => "}"
      end)).
Proof.
  unfold Marshal_reset. destruct (EVSEID r) as [n|]; reflexivity.
Qed.

Lemma parse_Marshal_reset r :
  Json.ascii_only (Type_ r) = true →
  Json.parse (Marshal_reset r) =
    Some (Json.JObject (("type", Json.JString (Type_ r)) ::
      match EVSEID r with
      | Some n => [("evseId", Json.JNumber (Strconv.FormatInt n))]
      | None => []
      end)).
Proof.
  intros Ht. unfold Json.parse, Json.enough. rewrite Marshal_reset_shape.
  set (text := String "{" _).
  assert (∃ f, (2 * String.length text + 2 = S (S (S (S f))))%nat) as [f ->].
  { exists (2 * String.length text - 2)%nat. unfold text. cbn [String.length]. lia. }
  unfold text. clear text. destruct (EVSEID r) as [n|].
  - erewrite Json.parse_value_object; [|eapply Json.parse_members_more; [done|
      by apply Json.parse_value_string|]]; last first.
    { eapply Json.parse_members_last; [done|]. apply (Json.parse_value_number _ n "}").
      right. exists "". by right. }
    done.
  - erewrite Json.parse_value_object; [|eapply Json.parse_members_last; [done|
      by apply (Json.parse_value_string _ _ "}")]]. done.
Qed.

(** The payload written by the command API is what the handler reads back:
    every reset command with an ASCII type and an [int] EVSE survives the trip
    through JSON. *)
Theorem reset_payload_round_trip r :
  Json.ascii_only (Type_ r) = true → (∀ n, EVSEID r = Some n → in_int64 n) →
  Unmarshal_reset (Marshal_reset r) = Some r.
Proof.
  intros Ht Hn. unfold Unmarshal_reset. rewrite parse_Marshal_reset by done.
  destruct r as [ty [n|]]; cbn in *; [|done].
  by rewrite Strconv.ParseInt_FormatInt by auto.
Qed.

(** ** What reaches a station *)

Section properties.
Context {O : Type}.
Context (SessionVersion : O → string → option version).
Context (CallReset : Ctx.t → Time.t → string → resetRequest → O → O * result string string).
Context (Error : failure → string).
Abbreviation handle_ := (handleCommand SessionVersion CallReset Error).

(** Everything the handler checked before it called the station. *)
Definition cleared (owner : option ownershipManager) (ctx : Ctx.t) (now : Time.t) (c : Command)
    (o : O) (r : resetRequest) : Prop :=
  ∃ m v request,
    owner = Some m ∧ Ctx.Err ctx now = None ∧ OwnerID c = ownerID m ∧
    owns m (StationIdentity c) (OwnerGeneration c) = true ∧
    SessionVersion o (StationIdentity c) = Some v ∧ Action c = resetAction ∧
    Unmarshal_reset (Payload c) = Some request ∧ reset_request v request = Ok r.

Lemma handle_cases owner ctx now c o :
  ((handle_ owner ctx now c o).1 = o ∧ Success (handle_ owner ctx now c o).2 = false) ∨
  (∃ r, cleared owner ctx now c o r ∧
    (handle_ owner ctx now c o).1 = (CallReset ctx now (StationIdentity c) r o).1 ∧
    ∀ p, (CallReset ctx now (StationIdentity c) r o).2 = Ok p ↔
         (handle_ owner ctx now c o).2 = mkResult "" true (Some p) "" "" Time.zero).
Proof.
  unfold handleCommand. destruct (Ctx.Err ctx now) eqn:Ectx; [by left|].
  destruct owner as [m|]; [|by left].
  destruct (String.eqb_spec (OwnerID c) (ownerID m)) as [Ho|]; [|by left]. cbn [negb orb].
  destruct (owns m _ _) eqn:Eown; [|by left]. cbn [negb].
  destruct (SessionVersion o _) as [v|] eqn:Ev; [|by left].
  destruct (String.eqb_spec (Action c) resetAction) as [Ha|]; [|by left]. cbn [negb].
  destruct (Unmarshal_reset _) as [request|] eqn:Eu; [|by left].
  unfold callReset. destruct (reset_request v request) as [r|] eqn:Er; [|by left].
  right. exists r. split; [by exists m, v, request|].
  destruct (CallReset ctx now _ r o) as [o' [p|text]]; (split; [done|]); intros q; cbn;
    naive_solver.
Qed.

(** C5: a station is called only when every check has passed.  Either the handler
    leaves the state of the OCPP sessions as it was and reports a failure, or the
    command was live, addressed to this runtime with the generation it holds,
    for a connected station, a reset with a decodable payload and a type the
    station's protocol version accepts; then exactly one call is made, and its
    confirmation is the payload of the result. *)
Theorem station_called_only_when_cleared owner ctx now c o :
  let '(o', res) := handle_ owner ctx now c o in
  (o' = o ∧ Success res = false) ∨
  (∃ r, cleared owner ctx now c o r ∧
    o' = (CallReset ctx now (StationIdentity c) r o).1 ∧
    ∀ p, (CallReset ctx now (StationIdentity c) r o).2 = Ok p ↔
         res = mkResult "" true (Some p) "" "" Time.zero).
Proof. pose proof (handle_cases owner ctx now c o) as H. by destruct (handle_ owner ctx now c o). Qed.

(** A command whose deadline has passed when the consumer gets to it is not
    executed: the sessions are left alone and the result says [Expired]. *)
Theorem expired_command_not_executed owner parent now done c o :
  Deadline c ≠ Time.zero → Deadline c ≤ now →
  let '(o', res) := runHandler (handle_ owner) parent now done c o in
  o' = o ∧ Success res = false ∧ ErrorCode res = "Expired" ∧ CommandID res = ID c.
Proof.
  intros Hz Hd. unfold runHandler, Time.IsZero.
  destruct (Z.eqb_spec (Deadline c) Time.zero); [done|].
  assert (Ctx.Err (Ctx.WithDeadline parent (Deadline c)) now ≠ None) as Hctx.
  { rewrite Ctx.Err_WithDeadline. lia. }
  unfold handleCommand. by destruct (Ctx.Err _ now).
Qed.

(** A wrong reset type never reaches a station, and a right one is translated
    as the documentation says: for OCPP 1.6 [Immediate] becomes a hard and
    [OnIdle] a soft reset without EVSE; for 2.0.1 and 2.1 type and EVSE are passed
    on. *)
Theorem reset_translation v request r :
  reset_request v request = Ok r ↔
  (Type_ request = "Immediate" ∨ Type_ request = "OnIdle") ∧
  match v with
  | OCPP16 => r = Reset16 (String.eqb (Type_ request) "Immediate")
  | OCPP201 => r = Reset201 (Type_ request) (EVSEID request)
  | OCPP21 => r = Reset21 (Type_ request) (EVSEID request)
  | OtherVersion _ => False
  end.
Proof.
  unfold reset_request. destruct v;
    destruct (String.eqb_spec (Type_ request) "OnIdle") as [E|],
             (String.eqb_spec (Type_ request) "Immediate") as [E'|]; cbn;
    naive_solver congruence.
Qed.
End properties.

(** ** Several runtimes *)

Section one_runtime.
Context {Env S : Type} `{C : RegistryContract Env S} {O : Type}.
Context (SessionVersion : O → string → option version).
Context (CallReset : Ctx.t → Time.t → string → resetRequest → O → O * result string string).
Context (Error : failure → string).

(** C6: a command is executed by at most one runtime: in every reachable state of
    the cluster, if two runtimes both report success for the same command then
    they are the same runtime. *)
Theorem command_executed_by_one_runtime (cl : cluster S) r1 r2 m1 m2 c ctx1 ctx2 t1 t2 o1 o2 :
  reachable cl → runtimes cl !! r1 = Some m1 → runtimes cl !! r2 = Some m2 →
  Success (handleCommand SessionVersion CallReset Error (Some m1) ctx1 t1 c o1).2 = true →
  Success (handleCommand SessionVersion CallReset Error (Some m2) ctx2 t2 c o2).2 = true →
  r1 = r2.
Proof.
  intros Hi%reachable_inv H1 H2 S1 S2.
  destruct (handle_cases SessionVersion CallReset Error (Some m1) ctx1 t1 c o1)
    as [[_ ?]|(q1 & (n1 & v1 & k1 & E1 & _ & _ & O1 & _) & _)]; [congruence|].
  destruct (handle_cases SessionVersion CallReset Error (Some m2) ctx2 t2 c o2)
    as [[_ ?]|(q2 & (n2 & v2 & k2 & E2 & _ & _ & O2 & _) & _)]; [congruence|].
  injection E1 as <-. injection E2 as <-.
  destruct (owns_granted _ _ _ _ _ Hi H1 O1) as [h1 G1].
  destruct (owns_granted _ _ _ _ _ Hi H2 O2) as [h2 G2]. by simplify_eq.
Qed.
End one_runtime.

(** ** Instances: a library that counts its calls *)
Module CommandWitnesses.
Import RefRedis Deployed Takeover.

Definition version_of (o : nat) (id : string) : option version := Some OCPP16.
Definition counting (ctx : Ctx.t) (now : Time.t) (id : string) (r : resetRequest) (o : nat) :
    nat * result string string := (S o, Ok "{}").
Definition text (e : failure) : string := "".

Definition cmd : Command :=
  mkCommand "id1" "CP1" "b" 2 "Reset" (Marshal_reset (mkReset "OnIdle" (Some 3))) 1 100.

Lemma reset_payload_round_trip_witness :
  Unmarshal_reset (Marshal_reset (mkReset "OnIdle" (Some 3))) = Some (mkReset "OnIdle" (Some 3)).
Proof.
  apply (reset_payload_round_trip (mkReset "OnIdle" (Some 3)));
    [reflexivity|intros n [= <-]; split; discriminate].
Defined.

Lemma expired_command_not_executed_witness :
  let '(o', res) :=
    runHandler (handleCommand version_of counting text (Some (pod "b"))) Ctx.Background 100 101 cmd 0%nat in
  o' = 0%nat ∧ Success res = false ∧ ErrorCode res = "Expired" ∧ CommandID res = ID cmd.
Proof.
  apply (expired_command_not_executed version_of counting text (Some (pod "b")) Ctx.Background 100 101 cmd 0%nat);
    discriminate.
Defined.

Lemma command_executed_by_one_runtime_witness :
  handleCommand version_of counting text (Some (runtime 1 taken)) Ctx.Background 50 cmd 0%nat =
    (1%nat, mkResult "" true (Some "{}") "" "" Time.zero) ∧ 1%nat = 1%nat.
Proof.
  split; [by_evaluation|].
  apply (command_executed_by_one_runtime version_of counting text taken 1 1
    (runtime 1 taken) (runtime 1 taken) cmd Ctx.Background Ctx.Background 50 50 0%nat 0%nat);
    [exact taken_reachable|by_evaluation..].
Defined.
End CommandWitnesses.
