(* ===== verification/CommandAPI.v ===== *)
(** * The command API (runtime/command_api.go)

    The HTTP handler that admits a request, finds the owner of the station and
    exchanges a command for its result over the bus.  The rate limiter and the bus
    are interfaces in the source and parameters here; the registry is any
    implementation of the [Registry] class. *)

From S2P Require Import Prelude GoStd Redis Lease MemoryRegistry Ownership CommandBus Json Commands.

Definition commandTimeout : Time.Duration := 30 * Time.Second.

(** ** Paths and credentials *)

Definition pathPrefix : string := "/api/v1/stations/".
Definition pathSuffix : string := "/commands/reset".

Definition resetPathIdentity (path : string) : string * bool :=
  if negb (Strings.HasPrefix path pathPrefix) || negb (Strings.HasSuffix path pathSuffix)
  then ("", false)
  else
    let identity := Strings.TrimSuffix (Strings.TrimPrefix path pathPrefix) pathSuffix in
    (identity, negb (String.eqb identity "") && negb (Strings.Contains identity "/")).

(** [subtle.ConstantTimeCompare]: the differences of all bytes are accumulated. *)
Fixpoint byte_differences (v : Z) (x y : string) : Z :=
  match x, y with
  | String a x, String b y => byte_differences (Z.lor v (Z.lxor (Json.code a) (Json.code b))) x y
  | _, _ => v
  end.

Definition ConstantTimeCompare (x y : string) : Z :=
  if negb (String.length x =? String.length y)%nat then 0
  else if byte_differences 0 x y =? 0 then 1 else 0.

(** [hex.EncodeToString] *)
Fixpoint EncodeToString (s : string) : string :=
  match s with
  | "" => ""
  | String c s =>
      String (Json.hex_digit (Json.code c / 16))
        (String (Json.hex_digit (Json.code c `mod` 16)) (EncodeToString s))
  end.

Definition bearer : string := "Bearer ".

Section api.
(** [sha256.Sum256] *)
Context (Sum256 : string → string).

Definition authenticateBearer (header : string) (apiKeys : list string) : string * bool :=
  if negb (Strings.HasPrefix header bearer) then ("", false)
  else
    let provided := Strings.TrimPrefix header bearer in
    let matched := foldl (λ matched apiKey,
      if (String.length provided =? String.length apiKey)%nat
      then Z.lor matched (ConstantTimeCompare provided apiKey)
      else matched) 0 apiKeys in
    if negb (matched =? 1) then ("", false)
    else (EncodeToString (String.substring 0 8 (Sum256 provided)), true).

(** [random] is what [rand.Read] gave, [clockText] the time in text form. *)
Definition newCommandID (random : option string) (clockText : string) : string :=
  match random with
  | Some value => EncodeToString value
  | None => EncodeToString clockText
  end.

(** ** Requests and responses *)

Record http_request : Type := mkRequest {
  Method : string; Authorization : string; Path : string; Body : string
}.

Inductive api_body : Type :=
  | APIError (errorCode errorDescription : string)
  | APIResult (r : Result).

Record response : Type := mkResponse { status : Z; retryAfter : option string; body : api_body }.

Definition writeAPIError (st : Z) (code description : string) : response :=
  mkResponse st None (APIError code description).

(** [decoder.Decode(&payload)] on a body limited to 4096 bytes. *)
Definition decodeBody (b : string) : option resetCommand :=
  Json.parse_first (String.substring 0 4096 b) ≫= decode_reset true.

(** Errors of the layers below, shown to the caller as text. *)
Inductive api_error : Type :=
  | BadBody (b : string)
  | RegistryError (e : error)
  | BusError (e : bus_error).

Context (Error : api_error → string).
Context {Env S A B : Type} `{!Registry Env S}.
Context (Allow : string → A → A * result unit bool).
Context (Publish : Command → B → B * result bus_error unit).
Context (AwaitResult : Ctx.t → string → B → B * result bus_error Result).

Record services : Type := mkServices { leases : S; limiter : A; bus : B }.

(** What the request meets: its context, the registry call, the clock and the
    random bytes. *)
Record circumstances : Type := mkCircumstances {
  rctx : Ctx.t; renv : Env; rnow : Time.t; random : option string; clockText : string
}.

(** The command for a station whose lease was found. *)
Definition buildCommand (x : circumstances) (identity : string) (l : Lease) (payload : resetCommand) :
    Command :=
  mkCommand (newCommandID (random x) (clockText x)) identity (Lease.OwnerID l) (Generation l)
    resetAction (Marshal_reset payload) (rnow x) (Time.Add (rnow x) commandTimeout).

(** From the publication of the command on. *)
Definition exchange (x : circumstances) (command : Command) (w : services) : services * response :=
  match Publish command (bus w) with
  | (b1, Err e) =>
      (mkServices (leases w) (limiter w) b1,
       writeAPIError 503 "CommandPublishFailed" (Error (BusError e)))
  | (b1, Ok _) =>
      match AwaitResult (Ctx.WithDeadline (rctx x) (Deadline command)) (ID command) b1 with
      | (b2, Err e) =>
          (mkServices (leases w) (limiter w) b2,
           writeAPIError 504 "CommandTimeout" (Error (BusError e)))
      | (b2, Ok result) =>
          (mkServices (leases w) (limiter w) b2,
           mkResponse (if Success result then 200 else 409) None (APIResult result))
      end
  end.

(** Which of the pointers the handler was built with are not nil. *)
Record wiring : Type := mkWiring { has_ownership : bool; has_bus : bool; has_limiter : bool }.

Definition serverCommandHandler (apiKeys : list string) (wired : wiring) (x : circumstances)
    (request : http_request) (w : services) : services * response :=
  if negb (String.eqb (Method request) "POST") then
    (w, writeAPIError 405 "MethodNotAllowed" "POST is required")
  else if (length apiKeys =? 0)%nat || negb (has_ownership wired) || negb (has_bus wired)
          || negb (has_limiter wired) then
    (w, writeAPIError 503 "CommandAPIUnavailable" "command API is not configured")
  else
    let '(keyID, authenticated) := authenticateBearer (Authorization request) apiKeys in
    if negb authenticated then
      (w, writeAPIError 401 "Unauthorized" "valid bearer credentials are required")
    else
      match Allow keyID (limiter w) with
      | (a, Err _) =>
          (mkServices (leases w) a (bus w),
           writeAPIError 503 "RateLimitUnavailable" "command admission is unavailable")
      | (a, Ok false) =>
          (mkServices (leases w) a (bus w),
           mkResponse 429 (Some "60") (APIError "RateLimited" "command rate limit exceeded"))
      | (a, Ok true) =>
          let w := mkServices (leases w) a (bus w) in
          let '(identity, ok) := resetPathIdentity (Path request) in
          if negb ok then
            (w, writeAPIError 404 "NotFound" "command endpoint was not found")
          else
            match decodeBody (Body request) with
            | None => (w, writeAPIError 400 "InvalidPayload" (Error (BadBody (Body request))))
            | Some payload =>
                match Lookup (renv x) identity (leases w) with
                | (s, (_, Some e)) =>
                    let '(st, code) := match e with
                                       | ErrNotFound => (409, "StationNotConnected")
                                       | _ => (500, "RegistryFailure")
                                       end in
                    (mkServices s (limiter w) (bus w),
                     writeAPIError st code (Error (RegistryError e)))
                | (s, (l, None)) =>
                    exchange x (buildCommand x identity l payload)
                      (mkServices s (limiter w) (bus w))
                end
            end
      end.
End api.
Arguments services : clear implicits.
Arguments circumstances : clear implicits.

(** ** Credentials *)

Lemma code_inj a b : Json.code a = Json.code b → a = b.
Proof.
  unfold Json.code. intros E%Nat2Z.inj. rewrite <- (ascii_nat_embedding a), E. apply ascii_nat_embedding.
Qed.

Lemma byte_differences_zero v x y :
  String.length x = String.length y → byte_differences v x y = 0 ↔ v = 0 ∧ x = y.
Proof.
  revert v y. induction x as [|a x IH]; intros v [|b y] Hl; try done; [cbn; tauto|].
  injection Hl as Hl. cbn [byte_differences]. rewrite IH, Z.lor_eq_0_iff, Z.lxor_eq_0_iff by done.
  split.
  - intros [[-> ->%code_inj] ->]. done.
  - by intros [-> [= -> ->]].
Qed.

(** The comparison whose time does not depend on the contents is an equality. *)
Lemma ConstantTimeCompare_eq x y :
  ConstantTimeCompare x y = if decide (x = y) then 1 else 0.
Proof.
  unfold ConstantTimeCompare. destruct (Nat.eqb_spec (String.length x) (String.length y)) as [Hl|Hl]; cbn.
  - pose proof (byte_differences_zero 0 x y Hl) as H.
    destruct (Z.eqb_spec (byte_differences 0 x y) 0), (decide (x = y)); tauto.
  - rewrite decide_False; [done|]. by intros ->.
Qed.

Lemma matched_keys provided keys v :
  v = 0 ∨ v = 1 →
  foldl (λ matched apiKey,
    if (String.length provided =? String.length apiKey)%nat
    then Z.lor matched (ConstantTimeCompare provided apiKey) else matched) v keys =
  if decide (v = 1 ∨ provided ∈ keys) then 1 else 0.
Proof.
  revert v. induction keys as [|k keys IH]; intros v Hv.
  - cbn. destruct Hv as [->| ->]; [rewrite decide_False; [done|]|by rewrite decide_True by auto].
    intros [?|?%elem_of_nil]; done.
  - cbn [foldl]. rewrite ConstantTimeCompare_eq.
    destruct (decide (provided = k)) as [<-|Hne].
    + rewrite Nat.eqb_refl, IH by (right; by destruct Hv as [->| ->]).
      rewrite !decide_True; [done|right; by left|left; by destruct Hv as [->| ->]].
    + assert ((if (String.length provided =? String.length k)%nat then Z.lor v 0 else v) = v) as ->
        by (rewrite Z.lor_0_r; by case_match).
      rewrite IH by done. apply decide_ext. rewrite elem_of_cons. tauto.
Qed.

Lemma authenticate_true Sum256 header apiKeys :
  (authenticateBearer Sum256 header apiKeys).2 = true ↔
  ∃ key, key ∈ apiKeys ∧ header = (bearer +:+ key).
Proof.
  unfold authenticateBearer. destruct (Strings.HasPrefix header bearer) eqn:Hp; cbn [negb].
  - apply Strings.HasPrefix_true in Hp as [provided ->].
    rewrite Strings.TrimPrefix_app, matched_keys by auto.
    destruct (decide (0 = 1 ∨ provided ∈ apiKeys)) as [[?|Hin]|Hin]; [done|..]; cbn.
    + split; [|done]. by exists provided.
    + split; [done|]. intros (key & Hk & E%string_app_inj_l). subst. tauto.
  - split; [done|]. intros (key & _ & ->). by eapply Strings.HasPrefix_false in Hp.
Qed.

(** C31: a request is authenticated exactly when it presents one of the configured
    keys after the word [Bearer], byte for byte. *)
Theorem bearer_accepted_iff_key_known Sum256 header apiKeys :
  (authenticateBearer Sum256 header apiKeys).2 = true ↔
  ∃ key, key ∈ apiKeys ∧ header = (bearer +:+ key).
Proof. apply authenticate_true. Qed.

(** ** Paths *)

(** The prefix and the suffix of the path only overlap in one slash. *)
Lemma path_overlap x u r :
  pathSuffix = u +:+ r → pathPrefix = x +:+ u → u ≠ "" → r = "commands/reset".
Proof.
  intros Hs Hp Hu. assert (Strings.HasSuffix pathPrefix u = true) as Hsuf
    by (apply Strings.HasSuffix_true; eauto).
  clear Hp. unfold pathSuffix in Hs.
  do 15 (destruct u as [|? u];
    [try done; cbn in Hs; subst r; try (vm_compute in Hsuf; done); done|
     rewrite string_app_cons in Hs; injection Hs as <- Hs]).
  cbn in Hs. destruct u; [|done]. subst. vm_compute in Hsuf. done.
Qed.

Lemma path_identity_true path id :
  resetPathIdentity path = (id, true) ↔
  path = (pathPrefix +:+ id +:+ pathSuffix) ∧ id ≠ "" ∧ ∀ a b, id ≠ (a +:+ "/" +:+ b).
Proof.
  assert (∀ s, Strings.Contains s "/" = false ↔ ∀ a b, s ≠ (a +:+ "/" +:+ b)) as Hslash.
  { intros s. rewrite <- not_true_iff_false, Strings.Contains_true. naive_solver. }
  unfold resetPathIdentity. split.
  - destruct (Strings.HasPrefix path pathPrefix) eqn:Hp; [|done]. cbn [negb orb].
    destruct (Strings.HasSuffix path pathSuffix) eqn:Hs; [|done]. cbn [negb].
    apply Strings.HasPrefix_true in Hp as [r ->]. rewrite Strings.TrimPrefix_app.
    intros [= Hid Hok]. apply andb_true_iff in Hok as [Hne Hsl].
    apply negb_true_iff in Hne, Hsl. apply String.eqb_neq in Hne. rewrite Hslash in Hsl.
    rewrite Hid in Hne, Hsl. split_and!; [|done|done].
    destruct (Strings.strip_suffix pathSuffix r) as [r'|] eqn:Er.
    + apply Strings.strip_suffix_spec in Er as ->. rewrite Strings.TrimSuffix_app in Hid. by subst.
    + rewrite Strings.TrimSuffix_absent in Hid by done. subst r. exfalso.
      apply Strings.HasSuffix_true in Hs as [x E].
      destruct (Strings.app_split _ _ _ _ E) as [(u & Hu & Hx)|(u & -> & _)].
      * destruct (decide (u = "")) as [->|Hu'].
        { rewrite string_app_nil_l in Hu. subst id.
          apply (Hsl "" "commands/reset"). done. }
        rewrite (path_overlap x u id) in Hsl by done. by apply (Hsl "commands" "reset").
      * assert (Strings.strip_suffix pathSuffix (u +:+ pathSuffix) = Some u) as Hc
          by (by apply Strings.strip_suffix_spec). congruence.
  - intros (-> & Hne & Hsl). rewrite (proj2 (Strings.HasPrefix_true _ _)) by eauto.
    rewrite string_app_assoc, (proj2 (Strings.HasSuffix_true _ _)) by eauto.
    rewrite <- string_app_assoc, Strings.TrimPrefix_app, Strings.TrimSuffix_app. cbn [negb orb].
    apply String.eqb_neq in Hne. rewrite <- Hslash in Hsl. by rewrite Hne, Hsl.
Qed.

(** A path names a station exactly when it is the prefix, a non-empty identity
    without a slash, and the suffix; the identity is then the one of the path. *)
Theorem path_identity_iff path id :
  resetPathIdentity path = (id, true) ↔
  path = (pathPrefix +:+ id +:+ pathSuffix) ∧ id ≠ "" ∧ ∀ a b, id ≠ (a +:+ "/" +:+ b).
Proof. apply path_identity_true. Qed.

(** ** Admission *)

Section admission.
Context (Sum256 : string → string) (Error : api_error → string).
Context {Env S A B : Type} `{!Registry Env S}.
Context (Allow : string → A → A * result unit bool).
Context (Publish : Command → B → B * result bus_error unit).
Context (AwaitResult : Ctx.t → string → B → B * result bus_error Result).
Abbreviation handler := (serverCommandHandler Sum256 Error Allow Publish AwaitResult).

(** The checks in front of the bus, as the request meets them. *)
Definition available (apiKeys : list string) (wired : wiring) : Prop :=
  apiKeys ≠ [] ∧ has_ownership wired = true ∧ has_bus wired = true ∧ has_limiter wired = true.
Definition known_key (apiKeys : list string) (q : http_request) : Prop :=
  ∃ key, key ∈ apiKeys ∧ Authorization q = (bearer +:+ key).
Definition names_station (q : http_request) (id : string) : Prop :=
  Path q = (pathPrefix +:+ id +:+ pathSuffix) ∧ id ≠ "" ∧ ∀ u v, id ≠ (u +:+ "/" +:+ v).
(** What the limiter says to the credential of the request. *)
Definition verdict (apiKeys : list string) (q : http_request) (w : services S A B) : result unit bool :=
  (Allow (authenticateBearer Sum256 (Authorization q) apiKeys).1 (limiter w)).2.

(** The status of a refusal: that of the first check that fails. *)
Inductive refused (apiKeys : list string) (wired : wiring) (x : circumstances Env) (q : http_request)
    (w : services S A B) : Z → Prop :=
  | not_posted : Method q ≠ "POST" → refused apiKeys wired x q w 405
  | not_available :
      Method q = "POST" → ¬ available apiKeys wired → refused apiKeys wired x q w 503
  | not_known :
      Method q = "POST" → available apiKeys wired → ¬ known_key apiKeys q →
      refused apiKeys wired x q w 401
  | limiter_failed e :
      Method q = "POST" → available apiKeys wired → known_key apiKeys q →
      verdict apiKeys q w = Err e → refused apiKeys wired x q w 503
  | over_limit :
      Method q = "POST" → available apiKeys wired → known_key apiKeys q →
      verdict apiKeys q w = Ok false → refused apiKeys wired x q w 429
  | no_endpoint :
      Method q = "POST" → available apiKeys wired → known_key apiKeys q →
      verdict apiKeys q w = Ok true → (∀ id, ¬ names_station q id) → refused apiKeys wired x q w 404
  | bad_body id :
      Method q = "POST" → available apiKeys wired → known_key apiKeys q →
      verdict apiKeys q w = Ok true → names_station q id → decodeBody (Body q) = None →
      refused apiKeys wired x q w 400
  | lookup_failed id payload s l e :
      Method q = "POST" → available apiKeys wired → known_key apiKeys q →
      verdict apiKeys q w = Ok true → names_station q id → decodeBody (Body q) = Some payload →
      Lookup (renv x) id (leases w) = (s, (l, Some e)) →
      refused apiKeys wired x q w (match e with ErrNotFound => 409 | _ => 500 end).

(** A request that passed every check, with the command it stands for. *)
Definition passed (apiKeys : list string) (wired : wiring) (x : circumstances Env) (q : http_request)
    (w : services S A B) (c : Command) : Prop :=
  ∃ id payload l s,
    Method q = "POST" ∧ available apiKeys wired ∧ known_key apiKeys q ∧
    verdict apiKeys q w = Ok true ∧ names_station q id ∧ decodeBody (Body q) = Some payload ∧
    Lookup (renv x) id (leases w) = (s, (l, None)) ∧ c = buildCommand x id l payload.

Lemma available_iff apiKeys wired :
  (length apiKeys =? 0)%nat || negb (has_ownership wired) || negb (has_bus wired)
    || negb (has_limiter wired) = false ↔ available apiKeys wired.
Proof.
  unfold available. destruct apiKeys as [|k ks]; cbn; [split; [done|by intros [? _]]|].
  destruct wired as [[] [] []]; cbn; naive_solver.
Qed.

(** C7: nothing reaches the bus unless the request was a POST, keys, ownership, bus and
    limiter are configured, the request has a known key, was admitted by the limiter,
    names a station, has a decodable body and the registry knows the owner; then exactly
    the command addressed to that owner and generation is published.  A request that
    fails a check leaves the bus untouched and is answered with the status of the first
    check it fails, with a time to retry exactly for 429; one that passes is answered
    with the result, 200 or 409, with 503 when it could not be published and with 504 when
    no result came. *)
Theorem published_only_when_passed apiKeys wired x q w w' a :
  handler apiKeys wired x q w = (w', a) →
  (bus w' = bus w ∧ refused apiKeys wired x q w (status a) ∧
     retryAfter a = (if status a =? 429 then Some "60" else None)) ∨
  (∃ c, passed apiKeys wired x q w c ∧ retryAfter a = None ∧
    ((∃ e, (Publish c (bus w)).2 = Err e ∧ bus w' = (Publish c (bus w)).1 ∧ status a = 503) ∨
     (∃ b1, Publish c (bus w) = (b1, Ok tt) ∧
       let '(b2, r) := AwaitResult (Ctx.WithDeadline (rctx x) (Deadline c)) (ID c) b1 in
       bus w' = b2 ∧
       match r with
       | Err _ => status a = 504
       | Ok res => body a = APIResult res ∧ status a = (if Success res then 200 else 409)
       end))).
Proof.
  unfold serverCommandHandler, writeAPIError. pose proof (available_iff apiKeys wired) as Hav.
  destruct (String.eqb_spec (Method q) "POST") as [Hm|Hm]; cbn [negb];
    [|intros [= <- <-]; left; by split_and!; [|constructor|]].
  destruct (_ || _ || _ || negb (has_limiter wired)).
  { intros [= <- <-]. left. split_and!; [done| |done]. apply not_available; [done|]. by intros ?%Hav. }
  apply proj1 in Hav. specialize (Hav eq_refl).
  pose proof (authenticate_true Sum256 (Authorization q) apiKeys) as Hauth.
  destruct (authenticateBearer _ _ _) as [keyID [|]] eqn:Ea; cbn [negb snd] in *.
  2: { intros [= <- <-]. left. split_and!; [done| |done]. apply not_known; [done|done|].
       intros Hk. by apply Hauth in Hk. }
  assert (known_key apiKeys q) as Hknown by (by apply Hauth). clear Hauth.
  assert (∀ v, (Allow keyID (limiter w)).2 = v → verdict apiKeys q w = v) as Hverdict
    by (unfold verdict; by rewrite Ea).
  destruct (Allow keyID (limiter w)) as [a1 [[|]|e]]; cbn [snd] in Hverdict; specialize (Hverdict _ eq_refl).
  2,3: intros [= <- <-]; left; split_and!; [done|by econstructor|done].
  pose proof (path_identity_true (Path q)) as Hpath.
  destruct (resetPathIdentity (Path q)) as [id [|]] eqn:Ep; cbn [negb].
  2: { intros [= <- <-]. left. split_and!; [done| |done]. apply no_endpoint; try done.
       intros id' Hid'. by apply Hpath in Hid'. }
  assert (names_station q id) as Hst by (by apply Hpath).
  destruct (decodeBody (Body q)) as [payload|] eqn:Eb;
    [|intros [= <- <-]; left; split_and!; [done|by eapply bad_body|done]]. cbn [leases limiter bus].
  destruct (Lookup _ _ _) as [s [l [e|]]] eqn:El.
  { pose proof (lookup_failed apiKeys wired x q w id payload s l e Hm Hav Hknown Hverdict Hst Eb El) as Href.
    destruct e; intros [= <- <-]; left; (split_and!; [done|exact Href|done]). }
  set (c := buildCommand x id l payload). intros Hx. right. exists c. unfold exchange in Hx.
  cbn [bus leases limiter] in Hx.
  split; [by exists id, payload, l, s|].
  destruct (Publish c (bus w)) as [b1 [[]|e]] eqn:Epub; [|split; [by simplify_eq|left; exists e; by simplify_eq]].
  destruct (AwaitResult _ _ b1) as [b2 [res|e]] eqn:Eaw; (split; [by simplify_eq|right; exists b1; split; [done|]]);
    rewrite Eaw; by simplify_eq.
Qed.
End admission.

Lemma EncodeToString_nonempty s : s ≠ "" → EncodeToString s ≠ "".
Proof. by destruct s. Qed.

(** The command built for a station arrives intact: it passes the checks of
    the bus, is decoded from the stream entry as it was built, and its payload is
    read back as the reset command of the request. *)
Theorem built_command_arrives_intact {Env} (x : circumstances Env) id l payload value :
  random x = Some value → value ≠ "" → id ≠ "" → Lease.OwnerID l ≠ "" →
  1 ≤ Generation l ≤ int64_max →
  0 < rnow x → rnow x + commandTimeout ≤ int64_max →
  Json.ascii_only (Type_ payload) = true → (∀ n, EVSEID payload = Some n → in_int64 n) →
  let c := buildCommand x id l payload in
  validateCommand c = None ∧
  decodeCommand (entryValues (commandFields c)) = Ok c ∧
  Unmarshal_reset (Payload c) = Some payload.
Proof.
  intros Hr Hv Hid Ho Hg Hpos Hmax Hty Hev c.
  assert (carries (rnow x) ∧ carries (Time.Add (rnow x) commandTimeout)) as [Hc Hd].
  { unfold carries, in_int64, int64_min, Time.Add, commandTimeout, Time.Second in *. lia. }
  assert (validateCommand c = None) as Hvc.
  { apply validateCommand_None. unfold c. cbn. unfold newCommandID. rewrite Hr.
    split_and!; [by apply EncodeToString_nonempty|done|done|lia|done| |].
    - unfold Time.zero, Time.Second in *. lia.
    - right. unfold Time.Add, commandTimeout, Time.Second. lia. }
  split_and!; [done| |].
  - apply decode_fields; [done| |done|by right]. cbn. lia.
  - unfold c. cbn [Payload buildCommand]. unfold Unmarshal_reset. rewrite parse_Marshal_reset by done.
    destruct payload as [ty [n|]]; cbn in *; [|done]. by rewrite Strconv.ParseInt_FormatInt by auto.
Qed.

(** ** Instances *)
Module APIWitnesses.
Import Memory.
Definition hash (s : string) : string := "0123456789abcdef".
Definition text (e : api_error) : string := "".
Definition always (subject : string) (n : nat) : nat * result unit bool := (S n, Ok true).
Definition publish (c : Command) (b : list Command) : list Command * result bus_error unit :=
  (c :: b, Ok tt).
Definition await (ctx : Ctx.t) (id : string) (b : list Command) :
    list Command * result bus_error Result := (b, Ok (mkResult id true (Some "{}") "" "" 7)).

Definition table : MemoryRegistry.Memory.t :=
  MemoryRegistry.Memory.mkMemory 1 {[ "CP1" := mkLease "CP1" "a" 1 1000 ]}.
Definition x : circumstances MemoryRegistry.Memory.env :=
  mkCircumstances None (MemoryRegistry.Memory.Env Ctx.Background 10) 10 (Some "0123456789abcdef") "".
Definition q : http_request :=
  mkRequest "POST" "Bearer secret" "/api/v1/stations/CP1/commands/reset"
    (Marshal_reset (mkReset "OnIdle" None)).
Definition w : services MemoryRegistry.Memory.t nat (list Command) := mkServices table 0%nat [].

Definition whole : wiring := mkWiring true true true.
Definition answer : services MemoryRegistry.Memory.t nat (list Command) * response :=
  serverCommandHandler hash text always publish await ["secret"] whole x q w.
Definition sent : Command := buildCommand x "CP1" (mkLease "CP1" "a" 1 1000) (mkReset "OnIdle" None).

Lemma published_only_when_passed_witness :
  bus answer.1 = [sent] ∧ status answer.2 = 200 ∧
  ((bus answer.1 = bus w ∧ refused hash always ["secret"] whole x q w (status answer.2) ∧
      retryAfter answer.2 = (if status answer.2 =? 429 then Some "60" else None)) ∨
   (∃ c, passed hash always ["secret"] whole x q w c ∧ retryAfter answer.2 = None ∧
    ((∃ e, (publish c (bus w)).2 = Err e ∧ bus answer.1 = (publish c (bus w)).1 ∧
           status answer.2 = 503) ∨
     (∃ b1, publish c (bus w) = (b1, Ok tt) ∧
       let '(b2, r) := await (Ctx.WithDeadline (rctx x) (Deadline c)) (ID c) b1 in
       bus answer.1 = b2 ∧
       match r with
       | Err _ => status answer.2 = 504
       | Ok res => body answer.2 = APIResult res ∧
                   status answer.2 = (if Success res then 200 else 409)
       end)))).
Proof.
  split; [by_evaluation|]. split; [by_evaluation|].
  apply (published_only_when_passed hash text always publish await ["secret"] whole x q w
    answer.1 answer.2). by_evaluation.
Defined.

Lemma built_command_arrives_intact_witness :
  validateCommand sent = None ∧
  decodeCommand (entryValues (commandFields sent)) = Ok sent ∧
  Unmarshal_reset (Payload sent) = Some (mkReset "OnIdle" None).
Proof.
  apply (built_command_arrives_intact x "CP1" (mkLease "CP1" "a" 1 1000) (mkReset "OnIdle" None)
    "0123456789abcdef");
    [reflexivity|discriminate|discriminate|discriminate|split; discriminate|reflexivity|
     discriminate|reflexivity|discriminate].
Defined.
End APIWitnesses.
