(* ===== verification/EndToEnd.v ===== *)
(** * A command from the request to its answer

    The command API of one runtime, the bus, the consumer of the runtime that owns
    the station and its handler, composed: what the caller is told is what the owner
    did. *)

From S2P Require Import Prelude GoStd Redis Lease MemoryRegistry RedisRegistry Ownership Cluster.
From S2P Require Import CommandBus Json ResultJson BusProperties Commands CommandAPI.

(** ** Streams

    The two stream commands between the publisher and the consumer.  [XADD] may fail;
    [XREADGROUP] with [>] and a count of one hands over the oldest entry the group was
    not given yet. *)
Class Streams : Type := {
  log : Type;
  XADD : string → gmap string string → log → log * result redis_error unit;
  XREADGROUP : string → log → log * option (gmap string string);
}.

(** Documented behaviour: an entry is appended, old ones are trimmed to the length that
    was asked for, other streams are not concerned. *)
Class StreamLaws (T : Streams) : Type := {
  unread : log → string → list (gmap string string);
  XADD_law stream f e e' :
    XADD stream f e = (e', Ok tt) →
    (∃ k, unread e' stream = skipn k (unread e stream) ++ [f]) ∧
    ∀ other, other ≠ stream → unread e' other = unread e other;
  XREADGROUP_law stream e f l :
    unread e stream = f :: l →
    ∃ e', XREADGROUP stream e = (e', Some f) ∧ unread e' stream = l ∧
      ∀ other, other ≠ stream → unread e' other = unread e other;
}.

(** ** The bus between two runtimes *)

Section fabric.
Context {R : Redis} {T : Streams} {J : ResultCodec} {O : Type}.

(** The streams, the server that holds the results, the sessions of the owner and what
    it acknowledged. *)
Record fabric : Type := mkFabric {
  entries : log;
  db : rstate;
  stations : O;
  acknowledged : list string
}.

(** [XADD] as the client sends it: once more for every reply that is lost. *)
Definition add (d : delivery) (stream : string) (fields : gmap string string) (e : log) :
    log * result client_error unit :=
  let e := fold_left (λ e _, (XADD stream fields e).1) (lost d) e in
  match seen d with
  | Replied =>
      match XADD stream fields e with
      | (e', Ok _) => (e', Ok tt)
      | (e', Err err) => (e', Err (Server err))
      end
  | NotSent err => (e, Err (Context err))
  | ReplyLost err => ((XADD stream fields e).1, Err (Context err))
  | Unreachable => (e, Err Network)
  end.

Context (handler : Ctx.t → Time.t → Command → O → O * Result).

(** What happens between publication and answer: the delivery of the entry, turns of the
    waiting loop, then the consumer of the owner reads its stream and handles the entry
    it is given, under an ID and in circumstances of its own, then further turns. *)
Record course : Type := mkCourse {
  added : delivery;
  polls_before : list poll;
  consumer_ctx : Ctx.t;
  read_at : Time.t;
  handled_at : moment;
  message_id : string;
  polls_after : list poll
}.

Definition publish (bus : Bus) (x : course) (command : Command) (b : fabric) :
    fabric * result bus_error unit :=
  match Publish (add (added x)) bus command (entries b) with
  | (l, r) => (mkFabric l (db b) (stations b) (acknowledged b), r)
  end.

(** One turn of the owner's consumer, on the streams. *)
Definition consume (bus : Bus) (ownerID : string) (x : course) (b : fabric) : fabric :=
  match XREADGROUP (commandStream (prefix bus) ownerID) (entries b) with
  | (e, f) =>
      let reply := match f with
                   | Some f => SMessages [(handled_at x, Message (message_id x) (entryValues f))]
                   | None => SNil
                   end in
      match RunConsumer handler bus (consumer_ctx x) ownerID None
              [Turn (read_at x) SNil (read_at x) reply]
              (World (db b) (stations b) (acknowledged b)) with
      | (w, _) => mkFabric e (server w) (hstate w) (acked w)
      end
  end.

(** [AwaitResult] over the course; a wait that is not over with the turns of the course
    goes on until its context ends. *)
Definition await (bus : Bus) (ownerID : string) (x : course) (ctx : Ctx.t) (id : string) (b : fabric) :
    fabric * result bus_error Result :=
  match AwaitResult bus ctx id (polls_before x) (db b) with
  | (s, Got r) => (mkFabric (entries b) s (stations b) (acknowledged b), Ok r)
  | (s, AwaitFailed e) => (mkFabric (entries b) s (stations b) (acknowledged b), Err e)
  | (s, StillWaiting) =>
      let b := consume bus ownerID x (mkFabric (entries b) s (stations b) (acknowledged b)) in
      match AwaitResult bus ctx id (polls_after x) (db b) with
      | (s, Got r) => (mkFabric (entries b) s (stations b) (acknowledged b), Ok r)
      | (s, AwaitFailed e) => (mkFabric (entries b) s (stations b) (acknowledged b), Err e)
      | (s, StillWaiting) => (mkFabric (entries b) s (stations b) (acknowledged b), Err ErrResultTimeout)
      end
  end.
End fabric.
Arguments fabric {R T} O.

(** ** Waiting before there is a result *)

Section wait.
Context {R : Redis} `{L : !RedisLaws R} {J : ResultCodec} (bus : Bus).
Abbreviation ckey id := (completionKey (prefix bus) id).
Abbreviation rkey id := (resultKey (prefix bus) id).

(** The last moment of a series of polls. *)
Fixpoint last_poll (t : Z) (polls : list poll) : Z :=
  match polls with [] => t | p :: polls => last_poll (at_ms (pop p)) polls end.

Lemma last_poll_le t polls : answered_from t polls → t ≤ last_poll t polls.
Proof.
  revert t. induction polls as [|p polls IH]; intros t H; cbn; [lia|].
  destruct H as (Ht & _ & _ & H). apply IH in H. lia.
Qed.

(** Nothing is recorded under an ID. *)
Definition fresh (id : string) (s : rstate) (t : Z) : Prop :=
  look s t (ckey id) = None ∧ look s t (rkey id) = None.
Lemma fresh_later id s t t' : t ≤ t' → fresh id s t → fresh id s t'.
Proof. intros Ht [E1 E2]. split; by rewrite (look_later _ t t'), ?E1, ?E2. Qed.

(** Other clients keep off the keys of the command. *)
Definition hands_off (id : string) (p : poll) : Prop :=
  ∀ s t, look (others p s) t (ckey id) = look s t (ckey id) ∧
         look (others p s) t (rkey id) = look s t (rkey id).

Lemma await_fresh ctx id polls s t :
  fresh id s t → answered_from t polls →
  Forall (λ p, select_ctx ctx p = false ∧ hands_off id p) polls →
  ∃ s', awaitLoop bus ctx id polls s = (s', StillWaiting) ∧ fresh id s' (last_poll t polls).
Proof.
  intros Hf. revert s t Hf. induction polls as [|p polls IH]; intros s t Hf Hps Hc; [by exists s|].
  destruct Hps as (Ht & Hl & Hr & Hps). apply Forall_cons in Hc as [[Hcp Hoff] Hc].
  destruct (poll_empty bus ctx id p polls s t) as (s1 & E1 & Oth & ->); [apply Hf| |done..|].
  { intros s2 t2 E. by rewrite (proj2 (Hoff s2 t2)). }
  rewrite Hcp. apply IH; [|done|done]. split; [|exact E1].
  rewrite Oth by apply keys_distinct. rewrite (proj1 (Hoff _ _)).
  apply (fresh_later _ _ _ _ Ht Hf).
Qed.
End wait.

(** ** From the publication to the answer *)

Section answer.
Context {R : Redis} `{L : !RedisLaws R} {T : Streams} `{TL : !StreamLaws T} {J : ResultCodec} (bus : Bus).
Context {O : Type} (handler : Ctx.t → Time.t → Command → O → O * Result).

Lemma stamped r t : CompletedAt r ≠ Time.zero → stamp r t = r.
Proof. unfold stamp, Time.IsZero. by intros ->%Z.eqb_neq. Qed.

(** A command without a record is executed, recorded and acknowledged, however often
    the recording is resent. *)
Lemma process_fresh ctx at_ m c w h r t :
  0 < resultTTL bus → decodeCommand (Values m) = Ok c → ID c ≠ "" →
  fresh bus (ID c) (server w) t →
  t ≤ at_ms (d_get at_) → seen (d_get at_) = Replied →
  chain (at_ms (d_get at_)) (lost (d_complete at_)) (at_ms (d_complete at_)) →
  seen (d_complete at_) = Replied → seen (d_ack at_) = Replied → refused_ack at_ = None →
  runHandler handler ctx (t_run at_) (t_done at_) c (hstate w) = (h, r) →
  marshallable (stamp r (t_complete at_)) →
  ∃ s, processMessage handler bus ctx at_ m w = (World s h (MessageID m :: acked w), Ok tt) ∧
       complete bus (d_complete at_) (t_complete at_) r (server w) = (s, Ok tt).
Proof.
  intros Httl Hd Hid Hf Ht Hg Hch Hk Ha Hack Hrun Hm.
  destruct (fresh_later bus _ _ _ _ Ht Hf) as [Ec Er].
  destruct (Marshal_ok _ Hm) as [content Hcontent].
  pose proof (runHandler_id handler _ _ _ _ _ _ _ Hrun) as Erid.
  destruct (completeTx_copies bus content (ID c)
    (replay (completeTx bus (ID c) content) (lost (d_complete at_)) (server w))
    (at_ms (d_complete at_)) Httl) as (s & n & E & _);
    [by apply (copies_replay _ _ _ _ _ (at_ms (d_get at_))); [| |left]|].
  assert (complete bus (d_complete at_) (t_complete at_) r (server w) = (s, Ok tt)) as Ecomplete.
  { unfold complete, call. apply String.eqb_neq in Hid.
    by rewrite Erid, Hid, Hcontent, Hk, E. }
  exists s. split; [|done]. unfold processMessage.
  rewrite Hd, (completed_absent bus _ _ _ Ec Hg), Hrun, Ecomplete.
  unfold ack, executed. cbn. rewrite Ha, Hack. by destruct (lost (d_ack at_)).
Qed.

(** Every call is answered: the entry is added at the first attempt, the polls from [t]
    on do not see the context end, the calls for the entry succeed, and so does the first
    poll afterwards, within the time to live of the result; other clients keep off the
    keys of the command. *)
Definition undisturbed (ctx : Ctx.t) (id : string) (t : Z) (y : course) : Prop :=
  let at_ := handled_at y in
  lost (added y) = [] ∧ seen (added y) = Replied ∧
  answered_from t (polls_before y) ∧
  Forall (λ p, select_ctx ctx p = false ∧ hands_off bus id p) (polls_before y) ∧
  last_poll t (polls_before y) ≤ at_ms (d_get at_) ∧ seen (d_get at_) = Replied ∧
  chain (at_ms (d_get at_)) (lost (d_complete at_)) (at_ms (d_complete at_)) ∧
  seen (d_complete at_) = Replied ∧ seen (d_ack at_) = Replied ∧ refused_ack at_ = None ∧
  t_done at_ ≠ Time.zero ∧
  match polls_after y with
  | [] => False
  | p :: _ =>
      hands_off bus id p ∧ lost (pop p) = [] ∧ seen (pop p) = Replied ∧
      at_ms (d_complete at_) ≤ at_ms (pop p) < at_ms (d_complete at_) + expire_ms (resultTTL bus)
  end.

(** The consumer on a stream with one entry. *)
Lemma consume_one ownerID y b f t c h r :
  let stream := commandStream (prefix bus) ownerID in
  let at_ := handled_at y in
  0 < resultTTL bus → ownerID ≠ "" → unread (entries b) stream = [f] →
  decodeCommand (entryValues f) = Ok c → ID c ≠ "" → fresh bus (ID c) (db b) t →
  t ≤ at_ms (d_get at_) → seen (d_get at_) = Replied →
  chain (at_ms (d_get at_)) (lost (d_complete at_)) (at_ms (d_complete at_)) →
  seen (d_complete at_) = Replied → seen (d_ack at_) = Replied → refused_ack at_ = None →
  runHandler handler (consumer_ctx y) (t_run at_) (t_done at_) c (stations b) = (h, r) →
  marshallable (stamp r (t_complete at_)) →
  ∃ e s, complete bus (d_complete at_) (t_complete at_) r (db b) = (s, Ok tt) ∧
    consume handler bus ownerID y b = mkFabric e s h (message_id y :: acknowledged b) ∧
    unread e stream = [] ∧ ∀ other, other ≠ stream → unread e other = unread (entries b) other.
Proof.
  cbn zeta. intros Httl Hown Es Hd Hid Hf Ht Hg Hch Hk Ha Hack Hrun Hm.
  destruct (process_fresh (consumer_ctx y) (handled_at y) (Message (message_id y) (entryValues f))
    c (World (db b) (stations b) (acknowledged b)) h r t) as (s & Ep & Ec); [done..|].
  destruct (XREADGROUP_law _ _ _ _ Es) as (e & Er & Ee & Eo).
  exists e, s. split; [exact Ec|]. split; [|done]. unfold consume, RunConsumer.
  apply String.eqb_neq in Hown. rewrite Hown, Er. cbn [consumerLoop]. unfold recover.
  cbn [t_test autoclaim t_recovered readgroup].
  destruct (pendingMinIdle <=? _); cbn [processMessages]; by rewrite Ep.
Qed.

(** The entry of a command that is published is the one the consumer finds. *)
Lemma publish_added y c (b : fabric O) :
  validateCommand c = None → lost (added y) = [] → seen (added y) = Replied →
  (XADD (commandStream (prefix bus) (OwnerID c)) (commandFields c) (entries b)).2 = Ok tt →
  unread (entries b) (commandStream (prefix bus) (OwnerID c)) = [] →
  ∃ e, publish bus y c b = (mkFabric e (db b) (stations b) (acknowledged b), Ok tt) ∧
    unread e (commandStream (prefix bus) (OwnerID c)) = [commandFields c] ∧
    ∀ other, other ≠ commandStream (prefix bus) (OwnerID c) → unread e other = unread (entries b) other.
Proof.
  intros Hv Hl Hr HX Hs. unfold publish, Publish, add. rewrite Hv, Hl, Hr. cbn [fold_left].
  destruct (XADD _ _ _) as [e [[]|]] eqn:E; [|done]. exists e. split; [done|].
  apply XADD_law in E as [[k Ek] Eo]. rewrite Hs, skipn_nil in Ek. done.
Qed.

(** A published command is answered with what the handler of its owner returned. *)
Lemma published_answered ctx y c b t h r :
  let at_ := handled_at y in
  0 < resultTTL bus → validateCommand c = None →
  decodeCommand (entryValues (commandFields c)) = Ok c →
  (XADD (commandStream (prefix bus) (OwnerID c)) (commandFields c) (entries b)).2 = Ok tt →
  unread (entries b) (commandStream (prefix bus) (OwnerID c)) = [] →
  fresh bus (ID c) (db b) t → undisturbed ctx (ID c) t y →
  runHandler handler (consumer_ctx y) (t_run at_) (t_done at_) c (stations b) = (h, r) →
  CompletedAt r ≠ Time.zero → marshallable r →
  ∃ b1 e s, publish bus y c b = (b1, Ok tt) ∧
    await handler bus (OwnerID c) y ctx (ID c) b1 =
      (mkFabric e s h (message_id y :: acknowledged b), Ok (canonical r)) ∧
    ∀ stream, unread e stream = unread (entries b) stream.
Proof.
  cbn zeta. intros Httl Hv Hd HX Hs Hf (Hl & Hr & Hb & Hc & Ht & Hg & Hch & Hk & Ha & Hack & _ & Hp) Hrun Hz Hm.
  apply validateCommand_None in Hv as Hv'. destruct Hv' as (Hid & _ & Hown & _).
  destruct (polls_after y) as [|p rest] eqn:Ey; [done|]. destruct Hp as (Hoff & Hpl & Hpr & Hpt).
  destruct (await_fresh bus ctx (ID c) (polls_before y) (db b) t Hf Hb Hc) as (s0 & Ew & Hf0).
  pose proof (stamped r (t_complete (handled_at y)) Hz) as Est.
  destruct (publish_added y c b Hv Hl Hr HX Hs) as (e1 & Epub & Ee1 & Eo1).
  destruct (consume_one (OwnerID c) y (mkFabric e1 s0 (stations b) (acknowledged b))
    (commandFields c) (last_poll t (polls_before y)) c h r) as (e & s & Ek & Econ & Ee & Eo);
    [done..|by rewrite Est|].
  pose proof (runHandler_id handler _ _ _ _ _ _ _ Hrun) as Erid.
  pose proof (result_round_trip bus ctx _ _ _ _ _ (at_ms (d_get (handled_at y))) p rest Httl
    ltac:(by rewrite Est) ltac:(by rewrite Erid)
    ltac:(rewrite Erid; by apply (fresh_later bus _ _ _ _ Ht Hf0)) Hch Ek
    ltac:(rewrite Erid; apply Hoff) Hpl Hpr Hpt) as Hgot.
  rewrite Erid, Est in Hgot.
  assert (∃ s', AwaitResult bus ctx (ID c) (p :: rest) s = (s', Got (canonical r))) as [s' Es'].
  { destruct (AwaitResult bus ctx (ID c) (p :: rest) s) as [s' a]. cbn in Hgot. subst. eauto. }
  exists (mkFabric e1 (db b) (stations b) (acknowledged b)), e, s'. split; [done|]. split.
  - unfold await. unfold AwaitResult at 1. apply String.eqb_neq in Hid. rewrite Hid. cbn [db].
    rewrite Ew. cbn [entries stations acknowledged]. rewrite Econ.
    cbn [db entries stations acknowledged]. by rewrite Ey, Es'.
  - intros stream. cbn [entries] in Eo.
    destruct (decide (stream = commandStream (prefix bus) (OwnerID c))) as [->|Hne];
      [by rewrite Ee, Hs|by rewrite Eo, Eo1].
Qed.
End answer.

(** ** From the request to the answer *)

Section request.
Context (Sum256 : string → string) (Error : api_error → string).
Context {Env S A B : Type} `{!Registry Env S}.
Context (Allow : string → A → A * result unit bool).
Context (Publish : Command → B → B * result bus_error unit).
Context (AwaitResult : Ctx.t → string → B → B * result bus_error Result).

(** A request that passes every check in front of the bus: for [id], with the reset
    [payload], whose lease is [l]; [s] and [a] are what the registry and the limiter
    become. *)
Definition accepted (apiKeys : list string) (wired : wiring) (x : circumstances Env) (q : http_request)
    (w : services S A B) (id : string) (payload : resetCommand) (l : Lease) (s : S) (a : A) : Prop :=
  Method q = "POST" ∧ available apiKeys wired ∧ known_key apiKeys q ∧
  Allow (authenticateBearer Sum256 (Authorization q) apiKeys).1 (limiter w) = (a, Ok true) ∧
  names_station q id ∧
  decodeBody (Body q) = Some payload ∧ Lookup (renv x) id (leases w) = (s, (l, None)).

Lemma accepted_exchanged apiKeys wired x q w id payload l s a :
  accepted apiKeys wired x q w id payload l s a →
  serverCommandHandler Sum256 Error Allow Publish AwaitResult apiKeys wired x q w =
    exchange Error Publish AwaitResult x (buildCommand x id l payload) (mkServices s a (bus w)).
Proof.
  intros (Hm & (Hks & Ho & Hb' & Hli) & Hkey & Ha & Hp & Hb & Hl). unfold serverCommandHandler.
  rewrite (proj2 (String.eqb_eq _ _) Hm), Ho, Hb', Hli. cbn [negb].
  destruct apiKeys as [|k ks]; [done|]. cbn [length Nat.eqb orb negb].
  apply (authenticate_true Sum256) in Hkey.
  destruct (authenticateBearer Sum256 (Authorization q) (k :: ks)) as [keyID ok]. cbn in Hkey, Ha. subst ok.
  cbn [negb]. rewrite Ha, (proj2 (path_identity_true (Path q) id) Hp).
  cbn [negb leases limiter CommandAPI.bus]. by rewrite Hb, Hl.
Qed.
End request.

Section end_to_end.
Context (Sum256 : string → string) (Error : api_error → string).
Context {Env S A : Type} `{!Registry Env S} (Allow : string → A → A * result unit bool).
Context {R : Redis} `{L : !RedisLaws R} {T : Streams} `{TL : !StreamLaws T} {J : ResultCodec} (bus : Bus).
Context {O : Type} (SessionVersion : O → string → option version).
Context (CallReset : Ctx.t → Time.t → string → resetRequest → O → O * result string string).
Context (Text : failure → string) (owner : ownershipManager).
Abbreviation handle_ := (handleCommand SessionVersion CallReset Text (Some owner)).

(** The command API of a runtime in front of the bus and the consumer of [owner]. *)
Definition request (apiKeys : list string) (wired : wiring) (y : course) (x : circumstances Env) (q : http_request)
    (w : services S A (fabric O)) : services S A (fabric O) * response :=
  serverCommandHandler Sum256 Error Allow (publish bus y) (await handle_ bus (ownerID owner) y)
    apiKeys wired x q w.

(** C8: what the caller of the command API is told is what the owner of the station
    did.  For a request that passes the checks in front of the bus and whose station is
    leased to [owner], when no other command waits in the owner's stream and the calls to
    Redis are answered in time, the response carries the result of the owner's handler on
    exactly the command of the request, under its ID and stamped with the time the handler
    returned, as 200 on success and 409 otherwise; the sessions of the owner are as the
    handler left them, it ran once, its message is acknowledged and no stream holds more
    entries to be read than before. *)
Theorem answer_is_what_the_owner_did apiKeys wired y x q w id payload l s a value t o r :
  let c := buildCommand x id l payload in
  let at_ := handled_at y in
  let told := canonical (set_completed_at (set_id r (ID c)) (t_done at_)) in
  accepted Sum256 Allow apiKeys wired x q w id payload l s a →
  random x = Some value → value ≠ "" →
  Lease.OwnerID l = ownerID owner → ownerID owner ≠ "" → 1 ≤ Generation l ≤ int64_max →
  0 < rnow x → rnow x + commandTimeout ≤ int64_max →
  Json.ascii_only (Type_ payload) = true → (∀ n, EVSEID payload = Some n → in_int64 n) →
  0 < resultTTL bus →
  let stream := commandStream (prefix bus) (ownerID owner) in
  unread (entries (CommandAPI.bus w)) stream = [] →
  (XADD stream (commandFields c) (entries (CommandAPI.bus w))).2 = Ok tt →
  fresh bus (ID c) (db (CommandAPI.bus w)) t →
  undisturbed bus (Ctx.WithDeadline (rctx x) (Deadline c)) (ID c) t y →
  handle_ (Ctx.WithDeadline (consumer_ctx y) (Deadline c)) (t_run at_) c (stations (CommandAPI.bus w))
    = (o, r) →
  marshallable (set_completed_at (set_id r (ID c)) (t_done at_)) →
  ∃ e s', request apiKeys wired y x q w =
    (mkServices s a (mkFabric e s' o (message_id y :: acknowledged (CommandAPI.bus w))),
     mkResponse (if Success r then 200 else 409) None (APIResult told)) ∧
    ∀ stream, unread e stream = unread (entries (CommandAPI.bus w)) stream.
Proof.
  cbn zeta. intros Hacc Hr Hv Hown Hne Hg Hpos Hmax Hty Hev Httl Hs HX Hf Hy Hh Hm.
  set (c := buildCommand x id l payload) in *.
  assert (id ≠ "") as Hid by apply Hacc.
  destruct (built_command_arrives_intact x id l payload value) as (Hvc & Hdec & _);
    [done|done|done|by rewrite Hown|done..|].
  unfold request. rewrite (accepted_exchanged _ _ _ _ _ _ _ _ _ _ _ _ _ _ _ Hacc). fold c.
  assert (OwnerID c = ownerID owner) as Ho by exact Hown. rewrite <- Ho in *.
  assert (CompletedAt r = Time.zero) as Hz.
  { revert Hh. unfold handleCommand, fail_. repeat case_match; by intros [= _ <-]. }
  assert (runHandler handle_ (consumer_ctx y) (t_run (handled_at y)) (t_done (handled_at y)) c
    (stations (CommandAPI.bus w)) =
    (o, set_completed_at (set_id r (ID c)) (t_done (handled_at y)))) as Hrun.
  { unfold runHandler. assert (Time.IsZero (Deadline c) = false) as ->.
    { apply Z.eqb_neq. unfold c. cbn [Deadline buildCommand].
      unfold Time.Add, commandTimeout, Time.zero, Time.Second in *. lia. }
    rewrite Hh. unfold stamp. cbn. by rewrite Hz. }
  destruct (published_answered bus handle_ (Ctx.WithDeadline (rctx x) (Deadline c)) y c
    (CommandAPI.bus w) t o _ Httl Hvc Hdec HX Hs Hf Hy Hrun) as (b1 & e & s' & Epub & Eaw & Ee);
    [apply Hy|done|].
  exists e, s'. split; [|done]. unfold exchange. cbn [CommandAPI.bus]. by rewrite Epub, Eaw.
Qed.
End end_to_end.

(** ** An instance: streams kept in a map, and the runtime that took the station over *)
Module RefStreams.
Definition at_most : nat := 10000.

#[export] Instance streams : Streams := {|
  log := gmap string (list (gmap string string));
  XADD stream f e :=
    let l := default [] (e !! stream) ++ [f] in
    (<[stream := skipn (length l - at_most) l]> e, Ok tt);
  XREADGROUP stream e :=
    match e !! stream with
    | Some (f :: l) => (<[stream := l]> e, Some f)
    | _ => (e, None)
    end
|}.

#[export] Program Instance laws : StreamLaws streams := {|
  unread e stream := default [] ((e : gmap string (list (gmap string string))) !! stream)
|}.
Next Obligation.
  cbn. intros stream f e e' [= <-]. split.
  - rewrite lookup_insert_eq. cbn. set (l := default [] (e !! stream)).
    exists (length (l ++ [f]) - at_most)%nat. rewrite drop_app_le; [done|].
    rewrite length_app. unfold at_most. cbn. lia.
  - intros other Hne. by rewrite lookup_insert_ne.
Qed.
Next Obligation.
  cbn. intros stream e f l E. destruct (e !! stream) as [[|g l']|]; simplify_eq/=.
  eexists. split; [done|]. split; [by rewrite lookup_insert_eq|].
  intros other Hne. by rewrite lookup_insert_ne.
Qed.
End RefStreams.

Module EndToEndWitnesses.
Import Memory RefRedis RefStreams Deployed Takeover.
Import CommandWitnesses (version_of, text).
Import BusWitnesses (nothing, idle, poll_at).
Import APIWitnesses (hash, always, q, whole).

Definition busOf : Bus := mkBus "csms" (5 * Time.Minute).
Definition messages_of (e : api_error) : string := "".
(** The station confirms; the calls are counted. *)
Definition confirm (ctx : Ctx.t) (now : Time.t) (id : string) (r : resetRequest) (o : nat) :
    nat * result string string := (S o, Ok BusWitnesses.accepted).
Definition lease : Lease := mkLease "CP1" "b" 2 1000.
Definition table : MemoryRegistry.Memory.t := MemoryRegistry.Memory.mkMemory 2 {[ "CP1" := lease ]}.
Definition x : circumstances MemoryRegistry.Memory.env :=
  mkCircumstances None (MemoryRegistry.Memory.Env Ctx.Background 10) 10 (Some "0123456789abcdef") "".
Definition w : services MemoryRegistry.Memory.t nat (fabric nat) :=
  mkServices table 0%nat (mkFabric (∅ : gmap string (list (gmap string string))) nothing 0%nat []).
(** A poll that comes too early, the consumer with a recording that is resent, a poll. *)
Definition y : course :=
  mkCourse (clean 18) [poll_at idle 20] Ctx.Background 30
    (Moment (clean 40) (Delivery [45; 47] 50 Replied) (clean 51) None 50 60 70)
    "1-1" [poll_at idle 120].
Definition answer : services MemoryRegistry.Memory.t nat (fabric nat) * response :=
  request hash messages_of always busOf version_of confirm text (runtime 1 taken) ["secret"] whole y x q w.
Definition sent : Command := buildCommand x "CP1" lease (mkReset "OnIdle" None).

Lemma accepted_q : accepted hash always ["secret"] whole x q w "CP1" (mkReset "OnIdle" None) lease table 1%nat.
Proof.
  split_and!; [reflexivity|by split_and!| |reflexivity| |by_evaluation|by_evaluation].
  - exists "secret". split; [by apply list_elem_of_singleton|reflexivity].
  - split_and!; [reflexivity|discriminate|]. intros [|? [|? [|? [|? u]]]] v; discriminate.
Qed.

Lemma answer_is_what_the_owner_did_witness :
  status answer.2 = 200 ∧
  ∃ e s', answer =
    (mkServices table 1%nat (mkFabric e s' 1%nat ["1-1"]),
     mkResponse 200 None (APIResult (mkResult (ID sent) true (Some BusWitnesses.accepted) "" "" 60))) ∧
    ∀ stream, unread e stream = unread (entries (CommandAPI.bus w)) stream.
Proof.
  split; [by_evaluation|].
  apply (answer_is_what_the_owner_did hash messages_of always busOf version_of confirm text
    (runtime 1 taken) ["secret"] whole y x q w "CP1" (mkReset "OnIdle" None) lease table 1%nat
    "0123456789abcdef" 15 1%nat (mkResult "" true (Some BusWitnesses.accepted) "" "" Time.zero));
    [exact accepted_q|reflexivity|discriminate|by_evaluation|vm_compute; discriminate|split; discriminate|
     reflexivity|discriminate|reflexivity|discriminate|reflexivity|reflexivity|by_evaluation|
     split; by_evaluation| |by_evaluation|].
  - assert (∀ t, hands_off busOf (ID sent) (poll_at idle t)) as Hoff by done.
    refine (conj eq_refl (conj eq_refl (conj _ (conj (proj2 (Forall_singleton _ _) _) _)))).
    + split_and!; [discriminate|reflexivity|reflexivity|exact I].
    + split; [reflexivity|apply Hoff].
    + cbn; split_and!; first [exact (Hoff 120)|reflexivity|discriminate].
  - split_and!; try by_evaluation; try (split; by_evaluation); vm_compute; by split.
Defined.
End EndToEndWitnesses.
