(* ===== verification/Probe.v ===== *)
(** * The connection check (cmd/csms-probe/main.go)

    A client that connects as a station, sends a boot and a status notification and,
    if asked to hold the connection, answers the calls of the server.  The socket is
    what arrives on it and what it takes; frames are JSON texts. *)

From S2P Require Import Prelude GoStd Lease Rfc3339 Json JsonText CommandBus ResultJson.
Import Json JsonText Rfc3339.

(** ** Values and their encoding *)

(** The values of type [any] the probe sends. *)
Inductive any : Type :=
  | GString (s : string)
  | GInt (n : Z)
  | GMap (m : list (string * any))
  | GList (l : list any).

(** [json] writes the keys of a map in order. *)
Fixpoint insert_key (m : string * string) (l : list (string * string)) : list (string * string) :=
  match l with
  | [] => [m]
  | m' :: l' => if String.leb m.1 m'.1 then m :: l else m' :: insert_key m l'
  end.
Definition sort_keys (l : list (string * string)) : list (string * string) := foldr insert_key [] l.

Fixpoint comma_separated (l : list string) : string :=
  match l with
  | [] => ""
  | [x] => x
  | x :: l => x +:+ String "," (comma_separated l)
  end.

Fixpoint Marshal_any (v : any) : string :=
  match v with
  | GString s => quoted s
  | GInt n => Strconv.FormatInt n
  | GMap m =>
      "{" +:+ comma_separated ((λ kv, quoted kv.1 +:+ String ":" kv.2) <$>
        sort_keys ((fix go (m : list (string * any)) : list (string * string) :=
           match m with [] => [] | (k, v) :: m => (k, Marshal_any v) :: go m end) m)) +:+ "}"
  | GList l =>
      "[" +:+ comma_separated ((fix go (l : list any) : list string :=
         match l with [] => [] | v :: l => Marshal_any v :: go l end) l) +:+ "]"
  end.

(** [json.Encoder.Encode] ends a text with a newline. *)
Definition newline : string := String (ascii_of_nat 10) "".
Definition Encode (v : any) : string := Marshal_any v +:+ newline.

(** The first value of a message, decoded into [[]json.RawMessage]. *)
Definition decode_frame (s : string) : option (list string) :=
  match parse_value (enough s) s with
  | Some (JNull, _) | Some (JArray [], _) => Some []
  | Some (JArray _, _) =>
      match skip_space s with
      | String _ s1 => (λ l, l.*1) <$> raw_elements (enough s1) s1
      | "" => None
      end
  | _ => None
  end.

(** [json.Unmarshal] into an empty string. *)
Definition Unmarshal_string (s : string) : option string := parse s ≫= unmarshalString "".

(** ** The socket *)

Inductive probe_error : Type :=
  | URLRequired
  | UnsupportedSubprotocol (version : string)
  | DialFailed
  | SelectedSubprotocol (selected wanted : string)
  | ReadFailed
  | NotAFrame (text : string)
  | WriteFailed
  | DeadlineFailed
  | UnexpectedResponse (action : string) (frame : list string)
  | UnexpectedFrame (frame : list string)
  | NotAString (text : string).

(** What will be read, a text or an error that is a timeout or not; which writes
    fail; what was written. *)
Record socket : Type := mkSocket {
  incoming : list (result bool string); refuses : nat → bool; written : list string
}.

(** [None]: the read has not returned; an error with whether it is a timeout. *)
Definition ReadJSON (c : socket) : socket * option (result (probe_error * bool) (list string)) :=
  match incoming c with
  | [] => (c, None)
  | Err timeout :: rest => (mkSocket rest (refuses c) (written c), Some (Err (ReadFailed, timeout)))
  | Ok text :: rest =>
      (mkSocket rest (refuses c) (written c),
       Some (match decode_frame text with
             | Some frame => Ok frame
             | None => Err (NotAFrame text, false)
             end))
  end.

Definition WriteJSON (v : any) (c : socket) : socket * option probe_error :=
  if refuses c (length (written c)) then (c, Some WriteFailed)
  else (mkSocket (incoming c) (refuses c) (written c ++ [Encode v]), None).

(** How a function of the probe ends, or that it still waits. *)
Inductive progress : Type :=
  | Returned (e : option probe_error)
  | Waiting.

(** ** Operations *)

Definition probePayloads (clock : Time.t) (version : string) : result probe_error (any * any) :=
  if String.eqb version "ocpp1.6" then
    Ok (GMap [("chargePointVendor", GString "CSMS"); ("chargePointModel", GString "Probe")],
        GMap [("connectorId", GInt 1); ("errorCode", GString "NoError"); ("status", GString "Available")])
  else if String.eqb version "ocpp2.0.1" || String.eqb version "ocpp2.1" then
    Ok (GMap [("reason", GString "PowerUp");
              ("chargingStation", GMap [("vendorName", GString "CSMS"); ("model", GString "Probe")])],
        GMap [("timestamp", GString (FormatRFC3339 clock)); ("connectorStatus", GString "Available");
              ("evseId", GInt 1); ("connectorId", GInt 1)])
  else Err (UnsupportedSubprotocol version).

Definition call (id action : string) (payload : any) (c : socket) : socket * progress :=
  match WriteJSON (GList [GInt 2; GString id; GString action; payload]) c with
  | (c, Some e) => (c, Returned (Some e))
  | (c, None) =>
      match ReadJSON c with
      | (c, None) => (c, Waiting)
      | (c, Some (Err (e, _))) => (c, Returned (Some e))
      | (c, Some (Ok response)) =>
          (c, Returned
            match response with
            | [kind; key; _] =>
                if String.eqb kind "3" && String.eqb key (String quote (id +:+ String quote "")) then None
                else Some (UnexpectedResponse action response)
            | _ => Some (UnexpectedResponse action response)
            end)
      end
  end.

(** What the probe answers to a frame. *)
Definition reply (frame : list string) : result probe_error any :=
  match frame with
  | [kind; key; name; _] =>
      if negb (String.eqb kind "2") then Err (UnexpectedFrame frame)
      else match Unmarshal_string key with
      | None => Err (NotAString key)
      | Some id =>
          match Unmarshal_string name with
          | None => Err (NotAString name)
          | Some action =>
              if negb (String.eqb action "Reset") then
                Ok (GList [GInt 4; GString id; GString "NotImplemented"; GString "unsupported action"; GMap []])
              else Ok (GList [GInt 3; GString id; GMap [("status", GString "Accepted")]])
          end
      end
  | _ => Err (UnexpectedFrame frame)
  end.

(** The loop; [reads] bounds the turns considered by what will be read. *)
Fixpoint answerLoop (reads : nat) (c : socket) : socket * progress :=
  match reads with
  | O => (c, Waiting)
  | S reads =>
      match ReadJSON c with
      | (c, None) => (c, Waiting)
      | (c, Some (Err (e, timeout))) => (c, Returned (if timeout : bool then None else Some e))
      | (c, Some (Ok frame)) =>
          match reply frame with
          | Err e => (c, Returned (Some e))
          | Ok v =>
              match WriteJSON v c with
              | (c, Some e) => (c, Returned (Some e))
              | (c, None) => answerLoop reads c
              end
          end
      end
  end.

(** [SetReadDeadline] fails or not; which reads time out is part of the socket.  The line
    printed for a reset is left out. *)
Definition answerServerCalls (deadline_refused : bool) (c : socket) : socket * progress :=
  if deadline_refused then (c, Returned (Some DeadlineFailed))
  else answerLoop (S (length (incoming c))) c.

(** The flags, and what the dialer brings: the subprotocol the server selected and
    the socket. *)
Record flags : Type := mkFlags { url : string; version : string; hold : Time.Duration }.

Inductive probe_end : Type :=
  | Completed              (** the line on standard output *)
  | Fatal (e : probe_error)
  | Pending.

(** The next step of [main] after a call. *)
Definition and_then (r : socket * progress) (k : socket → socket * probe_end) : socket * probe_end :=
  match r with
  | (c, Returned None) => k c
  | (c, Returned (Some e)) => (c, Fatal e)
  | (c, Waiting) => (c, Pending)
  end.

Definition main (f : flags) (clock : Time.t) (Dial : string → string → option string)
    (deadline_refused : bool) (c : socket) : socket * probe_end :=
  if String.eqb (url f) "" then (c, Fatal URLRequired)
  else match probePayloads clock (version f) with
  | Err e => (c, Fatal e)
  | Ok (boot, status) =>
      match Dial (url f) (version f) with
      | None => (c, Fatal DialFailed)
      | Some selected =>
          if negb (String.eqb selected (version f)) then (c, Fatal (SelectedSubprotocol selected (version f)))
          else
            and_then (call "probe-boot" "BootNotification" boot c) (λ c,
            and_then (call "probe-status" "StatusNotification" status c) (λ c,
            if 0 <? hold f then and_then (answerServerCalls deadline_refused c) (λ c, (c, Completed))
            else (c, Completed)))
      end
  end.

(** ** Frames *)

Lemma comma_elements l w : comma_separated (l.*1 ++ [w]) +:+ "]" = elements_text l w.
Proof.
  induction l as [|[x v] l IH]; [done|]. cbn [fmap list_fmap fst app elements_text]. rewrite <- IH.
  destruct (l.*1 ++ [w]) as [|y r] eqn:E; [by destruct (l.*1)|].
  cbn [comma_separated]. by rewrite <- string_app_assoc.
Qed.

(** The text of a frame. *)
Definition frame_text (texts : list string) : string := "[" +:+ comma_separated texts +:+ "]".

Lemma decode_frame_text c l w v rest :
  between 49 57 c = true → Forall (λ m, reads m.1 m.2) l → reads_at "]" w v →
  decode_frame (frame_text (String c "" :: l.*1 ++ [w]) +:+ rest) = Some (String c "" :: l.*1 ++ [w]).
Proof.
  intros Hc Hl Hw. set (l' := (String c "", JNumber (String c "")) :: l).
  assert (frame_text (String c "" :: l.*1 ++ [w]) +:+ rest =
    String "[" (elements_text l' w +:+ rest)) as ->.
  { unfold frame_text. rewrite string_app_cons, string_app_nil_l, string_app_cons. f_equal.
    by rewrite <- (comma_elements l' w). }
  assert (∃ s, elements_text l' w = String c s) as [s Es]
    by (cbn; rewrite string_app_cons; eauto).
  assert (is_space c = false ∧ Ascii.eqb c "]" = false) as [Hsp Hb]
    by (destruct c as [[] [] [] [] [] [] [] []]; vm_compute in Hc; try discriminate; done).
  destruct (array_read l' w v rest c s) as [E1 E2]; try done.
  { constructor; [|done]. apply digit_reads_at; [by left|done]. }
  unfold decode_frame. rewrite E1. cbn [l' fmap list_fmap app snd].
  change (skip_space (String "[" ?s)) with (String "[" s). cbn iota. rewrite E2.
  cbn. by rewrite fmap_app.
Qed.

Lemma Unmarshal_string_quoted x : well_formed x = true → Unmarshal_string (quoted x) = Some x.
Proof.
  intros H. unfold Unmarshal_string, parse, enough.
  replace (2 * String.length (quoted x) + 2)%nat with (S (2 * String.length (quoted x) + 1))%nat by lia.
  rewrite <- (string_app_nil_r (quoted x)) at 2. by rewrite parse_value_utf8.
Qed.

(** ** Answering the server *)

(** A call of the server: its ID, its action and the text of its payload. *)
Record server_call : Type := mkCall { call_id : string; call_action : string; call_payload : string }.

Definition proper (x : server_call) : Prop :=
  well_formed (call_id x) = true ∧ well_formed (call_action x) = true ∧
  compact (call_payload x) = Some (call_payload x) ∧ tight (call_payload x) = true.

Definition call_text (x : server_call) : string :=
  frame_text ["2"; quoted (call_id x); quoted (call_action x); call_payload x].
(** A result for a reset, an error for anything else, each with the ID of the call. *)
Definition answer_text (x : server_call) : string :=
  frame_text (if String.eqb (call_action x) "Reset"
              then ["3"; quoted (call_id x); "{" +:+ quoted "status" +:+ ":" +:+ quoted "Accepted" +:+ "}"]
              else ["4"; quoted (call_id x); quoted "NotImplemented"; quoted "unsupported action"; "{}"])
    +:+ newline.

Lemma reply_call x :
  proper x →
  decode_frame (call_text x) =
    Some ["2"; quoted (call_id x); quoted (call_action x); call_payload x] ∧
  ∃ v, reply ["2"; quoted (call_id x); quoted (call_action x); call_payload x] = Ok v ∧
       Encode v = answer_text x.
Proof.
  intros (Hid & Ha & Hc & Ht). split.
  - destruct (payload_reads "]" (call_payload x)) as [v Hv]; [by right; left|done..|].
    pose proof (decode_frame_text "2" [(quoted (call_id x), JString (call_id x));
      (quoted (call_action x), JString (call_action x))] (call_payload x) v "" eq_refl) as E.
    rewrite string_app_nil_r in E. apply E; [|done].
    by repeat constructor; cbn [fst snd]; apply quoted_reads_at.
  - unfold reply. cbn [String.eqb negb]. rewrite !Unmarshal_string_quoted by done.
    unfold answer_text. destruct (String.eqb (call_action x) "Reset"); eexists; (split; [done|]); done.
Qed.

Lemma answerLoop_calls calls rest c reads :
  Forall proper calls → (∀ n, refuses c n = false) →
  incoming c = (Ok ∘ call_text <$> calls) ++ rest →
  answerLoop (length calls + reads) c =
    answerLoop reads (mkSocket rest (refuses c) (written c ++ (answer_text <$> calls))).
Proof.
  intros Hcalls. revert c. induction Hcalls as [|x calls Hx _ IH]; intros c Hr Hin.
  - destruct c as [i r w]. cbn in *. subst. by rewrite app_nil_r.
  - destruct (reply_call x Hx) as (Ed & v & Er & Ev).
    cbn [length Nat.add answerLoop]. unfold ReadJSON. rewrite Hin. cbn [fmap list_fmap app compose].
    rewrite Ed, Er. unfold WriteJSON. cbn [refuses written incoming]. rewrite Hr, Ev.
    rewrite IH by done. cbn [refuses written]. by rewrite <- app_assoc.
Qed.

(** C38: while the connection is held every call of the server is answered, once, in
    order and under its own ID: a reset with the status [Accepted], anything else with
    the error [NotImplemented]; when the deadline passes the probe ends without an
    error, having sent nothing else. *)
Theorem server_calls_answered calls c rest :
  Forall proper calls → (∀ n, refuses c n = false) →
  incoming c = (Ok ∘ call_text <$> calls) ++ Err true :: rest →
  answerServerCalls false c =
    (mkSocket rest (refuses c) (written c ++ (answer_text <$> calls)), Returned None).
Proof.
  intros Hc Hr Hin. unfold answerServerCalls.
  assert (∃ n, S (length (incoming c)) = length calls + S n)%nat as [n ->].
  { rewrite Hin, length_app, length_fmap. cbn. exists (S (length rest)). lia. }
  by rewrite (answerLoop_calls calls (Err true :: rest)).
Qed.

(** ** Calls of the probe *)

(** A call is accepted exactly when the next message is a result with its ID. *)
Lemma call_accepted id action payload c c' :
  call id action payload c = (c', Returned None) ↔
  refuses c (length (written c)) = false ∧
  ∃ text p rest, incoming c = Ok text :: rest ∧
    decode_frame text = Some ["3"; String quote (id +:+ String quote ""); p] ∧
    c' = mkSocket rest (refuses c)
           (written c ++ [Encode (GList [GInt 2; GString id; GString action; payload])]).
Proof.
  unfold call, WriteJSON. destruct (refuses c (length (written c))); [naive_solver|].
  unfold ReadJSON. cbn [incoming refuses written].
  destruct (incoming c) as [|[text|timeout] rest]; [naive_solver| |naive_solver].
  destruct (decode_frame text) as [[|k [|i [|p [|]]]]|] eqn:E; [naive_solver..| |naive_solver|naive_solver].
  destruct (String.eqb_spec k "3") as [->|Hk]; cbn [andb]; [|naive_solver].
  destruct (String.eqb_spec i (String quote (id +:+ String quote ""))) as [->|Hi]; naive_solver.
Qed.

(** The result frame of a server is one. *)
Lemma result_frame_decodes id p rest :
  all_plain id = true → compact p = Some p → tight p = true →
  decode_frame (frame_text ["3"; quoted id; p] +:+ rest) =
    Some ["3"; String quote (id +:+ String quote ""); p].
Proof.
  intros [Ee Hw]%plain_escape Hc Ht.
  destruct (payload_reads "]" p) as [v Hv]; [by right; left|done..|].
  assert (quoted id = String quote (id +:+ String quote "")) as <- by (unfold quoted; by rewrite Ee).
  apply (decode_frame_text "3" [(quoted id, JString id)] p v); [done| |done].
  by repeat constructor; apply quoted_reads_at.
Qed.

Definition supported (version : string) : Prop := version ∈ ["ocpp1.6"; "ocpp2.0.1"; "ocpp2.1"].
Lemma payloads_supported clock version :
  (∃ boot status, probePayloads clock version = Ok (boot, status)) ↔ supported version.
Proof.
  unfold probePayloads, supported. rewrite !elem_of_cons, elem_of_nil.
  destruct (String.eqb_spec version "ocpp1.6"); [naive_solver|].
  destruct (String.eqb_spec version "ocpp2.0.1"); [naive_solver|].
  destruct (String.eqb_spec version "ocpp2.1"); naive_solver.
Qed.

Lemma and_then_completed r k :
  (and_then r k).2 = Completed ↔ ∃ c, r = (c, Returned None) ∧ (k c).2 = Completed.
Proof. destruct r as [c [[e|]|]]; cbn; naive_solver. Qed.

(** C39: the probe reports completion exactly when a URL was given, the version is one of
    the three, the server was reached and selected that version, both notifications
    were written, in order, and the message after each was a result under its ID, and,
    if the connection is to be held, answering the server ended without an error. *)
Theorem probe_completes_iff f clock Dial deadline_refused c :
  (main f clock Dial deadline_refused c).2 = Completed ↔
  url f ≠ "" ∧ Dial (url f) (version f) = Some (version f) ∧
  ∃ boot status t1 t2 p1 p2 rest,
    probePayloads clock (version f) = Ok (boot, status) ∧ supported (version f) ∧
    incoming c = Ok t1 :: Ok t2 :: rest ∧
    decode_frame t1 = Some ["3"; quoted "probe-boot"; p1] ∧
    decode_frame t2 = Some ["3"; quoted "probe-status"; p2] ∧
    refuses c (length (written c)) = false ∧ refuses c (S (length (written c))) = false ∧
    let c' := mkSocket rest (refuses c) (written c ++
      [Encode (GList [GInt 2; GString "probe-boot"; GString "BootNotification"; boot]);
       Encode (GList [GInt 2; GString "probe-status"; GString "StatusNotification"; status])]) in
    (0 < hold f → ∃ c'', answerServerCalls deadline_refused c' = (c'', Returned None)).
Proof.
  unfold main. pose proof (payloads_supported clock (version f)) as Hsup.
  destruct (String.eqb_spec (url f) "") as [|Hu]; [cbn; naive_solver|].
  destruct (probePayloads clock (version f)) as [[boot status]|e]; [|cbn; naive_solver].
  assert (supported (version f)) as Hv by (apply Hsup; eauto). clear Hsup.
  destruct (Dial (url f) (version f)) as [selected|]; [|cbn; naive_solver].
  destruct (String.eqb_spec selected (version f)) as [->|Hs]; cbn [negb]; [|cbn; naive_solver].
  split.
  - intros (c1 & (Hr1 & t1 & p1 & rest1 & Hin1 & Hd1 & ->)%call_accepted & H)%and_then_completed.
    apply and_then_completed in H as (c2 & (Hr2 & t2 & p2 & rest & Hin2 & Hd2 & ->)%call_accepted & H).
    cbn [incoming refuses written] in *. subst rest1. rewrite length_app, Nat.add_1_r in Hr2.
    rewrite <- app_assoc in H. split_and!; [done|done|].
    exists boot, status, t1, t2, p1, p2, rest. split_and!; try done. cbn zeta. intros Hh.
    rewrite (proj2 (Z.ltb_lt _ _) Hh) in H. by apply and_then_completed in H as (c'' & ? & _); eauto.
  - intros (_ & _ & boot' & status' & t1 & t2 & p1 & p2 & rest & [= <- <-] & _ & Hin & Hd1 & Hd2 & Hr1 & Hr2 & Hh).
    apply and_then_completed. eexists. split; [apply call_accepted; by eauto 10|].
    apply and_then_completed. eexists. split.
    { apply call_accepted. cbn [incoming refuses written]. rewrite length_app, Nat.add_1_r. by eauto 10. }
    cbn [incoming refuses written]. rewrite <- app_assoc.
    destruct (Z.ltb_spec 0 (hold f)) as [Hpos|]; [|done].
    destruct (Hh Hpos) as [c'' E]. apply and_then_completed. eauto.
Qed.

(** ** Instances *)
Module ProbeWitnesses.
Definition reset : server_call := mkCall "42" "Reset" ("{" +:+ quoted "type" +:+ ":" +:+ quoted "OnIdle" +:+ "}").
Definition other : server_call := mkCall "43" "GetLog" "{}".
Definition open_socket : socket :=
  mkSocket [Ok (call_text reset); Ok (call_text other); Err true] (λ _, false) [].
Definition empty_result (id : string) : string := frame_text ["3"; quoted id; "{}"].
Definition session : socket :=
  mkSocket [Ok (empty_result "probe-boot"); Ok (empty_result "probe-status");
            Ok (call_text reset); Err true] (λ _, false) [].

Lemma server_calls_answered_witness :
  answerServerCalls false open_socket =
    (mkSocket [] (λ _, false) [answer_text reset; answer_text other], Returned None).
Proof.
  apply (server_calls_answered [reset; other] open_socket []);
    [|reflexivity|reflexivity].
  repeat constructor; by_evaluation.
Defined.

(** A whole session against a server that answers, with the reset answered. *)
Lemma session_completes :
  main (mkFlags "ws://localhost/CP1" "ocpp2.1" 5) 0 (λ _ v, Some v) false session =
    (mkSocket [] (λ _, false)
       ((written (main (mkFlags "ws://localhost/CP1" "ocpp2.1" 0) 0 (λ _ v, Some v) false session).1)
          ++ [answer_text reset]), Completed).
Proof. by_evaluation. Qed.
End ProbeWitnesses.
