(* ===== verification/StationStore.v ===== *)
(** * Stations and connectors (stationstore and stationstore/mysqlstore)

    The records a repository keeps, the validation both adapters share, the
    in-memory adapter and the MySQL adapter with its four tables, its
    transactions and the foreign keys of migrations/001_initial.sql. *)

From S2P Require Import Prelude GoStd.

Record Station : Type := mkStation {
  Identity : string;
  Version : string;              (** [protocol.Version] *)
  Vendor : string;
  Model : string;
  SerialNumber : string;
  FirmwareVersion : string;
  BootReason : string;
  LastBootAt : Time.t
}.

Record ConnectorStatus : Type := mkConnectorStatus {
  StationIdentity : string;
  StatusVersion : string;
  EVSEID : Z;
  ConnectorID : Z;
  Status : string;
  ErrorCode : string;
  OccurredAt : Time.t;
  ReceivedAt : Time.t
}.

#[export] Instance Station_eq_dec : EqDecision Station.
Proof. solve_decision. Defined.
#[export] Instance ConnectorStatus_eq_dec : EqDecision ConnectorStatus.
Proof. solve_decision. Defined.

Inductive store_error : Type :=
  | ErrInvalidStation
  | ErrInvalidConnector
  | ErrStoreContext (e : ctx_error)
  | ErrSQL (doing : string).

(** ** The [Repository] interface *)
Class Repository (Env S : Type) : Type := {
  UpsertStation : Env → Station → S → S * option store_error;
  UpdateConnectorStatus : Env → ConnectorStatus → S → S * option store_error;
}.

(** [station_identity, evse_id, connector_id] *)
Definition ConnectorKey : Type := string * Z * Z.
Definition key_of (c : ConnectorStatus) : ConnectorKey :=
  (StationIdentity c, EVSEID c, ConnectorID c).

Section validation.
(** [protocol.Version.Valid] *)
Context (Valid : string → bool).

Definition ValidateStation (s : Station) : option store_error :=
  if String.eqb (Identity s) "" || negb (Valid (Version s)) || String.eqb (Vendor s) ""
     || String.eqb (Model s) "" || Time.IsZero (LastBootAt s)
  then Some ErrInvalidStation else None.

Definition ValidateConnectorStatus (c : ConnectorStatus) : option store_error :=
  if String.eqb (StationIdentity c) "" || negb (Valid (StatusVersion c)) || (EVSEID c <? 0)
     || (ConnectorID c <? 0) || String.eqb (Status c) "" || Time.IsZero (ReceivedAt c)
  then Some ErrInvalidConnector else None.
End validation.

(** What an adapter promises to the handlers: its records can be read back by their
    keys, a stored record is what is read from then on, no other key changes, a
    record the validation refuses is not stored, and one that was accepted is. *)
Class RepositoryLaws (Env S : Type) (Valid : string → bool) `{!Repository Env S} : Type := {
  repo_ok : S → Prop;
  station_of : string → S → option Station;
  connector_of : ConnectorKey → S → option ConnectorStatus;
  (** What is kept of an instant. *)
  kept_time : Time.t → Time.t;
  kept_station (s : Station) : Station :=
    mkStation (Identity s) (Version s) (Vendor s) (Model s) (SerialNumber s) (FirmwareVersion s)
      (BootReason s) (kept_time (LastBootAt s));
  kept_status (c : ConnectorStatus) : ConnectorStatus :=
    mkConnectorStatus (StationIdentity c) (StatusVersion c) (EVSEID c) (ConnectorID c) (Status c)
      (ErrorCode c) (kept_time (OccurredAt c)) (kept_time (ReceivedAt c));
  upsert_ok e s m m' r : repo_ok m → UpsertStation e s m = (m', r) → repo_ok m';
  update_ok e c m m' r : repo_ok m → UpdateConnectorStatus e c m = (m', r) → repo_ok m';
  (** An operation has its whole effect or none, and it has it when it succeeds. *)
  upsert_effect e s m m' r : repo_ok m → UpsertStation e s m = (m', r) →
    (r ≠ None ∧ m' = m) ∨
    (ValidateStation Valid s = None ∧
     (∀ id, station_of id m' = if decide (id = Identity s) then Some (kept_station s)
                               else station_of id m) ∧
     (∀ k, connector_of k m' = connector_of k m));
  update_effect e c m m' r : repo_ok m → UpdateConnectorStatus e c m = (m', r) →
    (r ≠ None ∧ m' = m) ∨
    (ValidateConnectorStatus Valid c = None ∧
     (∀ k, connector_of k m' = if decide (k = key_of c) then Some (kept_status c)
                               else connector_of k m) ∧
     (∀ id, station_of id m' = station_of id m))
}.
Arguments repo_ok {_ _} _ {_ _} _.
Arguments station_of {_ _} _ {_ _} _ _.
Arguments connector_of {_ _} _ {_ _} _ _.
Arguments kept_time {_ _} _ {_ _} _.

(** ** The in-memory adapter (stationstore/memory.go) *)

Module MemoryStore.
Record t : Type := mkMemory {
  stations : gmap string Station;
  connectors : gmap ConnectorKey ConnectorStatus
}.

Record env : Type := Env { ctx : Ctx.t; now : Time.t }.

Definition NewMemory : t := mkMemory ∅ ∅.

Section memory.
Context (Valid : string → bool).

Definition UpsertStation (e : env) (station : Station) (m : t) : t * option store_error :=
  match Ctx.Err (ctx e) (now e) with
  | Some err => (m, Some (ErrStoreContext err))
  | None =>
      match ValidateStation Valid station with
      | Some err => (m, Some err)
      | None => (mkMemory (<[Identity station := station]> (stations m)) (connectors m), None)
      end
  end.

Definition UpdateConnectorStatus (e : env) (status : ConnectorStatus) (m : t) :
    t * option store_error :=
  match Ctx.Err (ctx e) (now e) with
  | Some err => (m, Some (ErrStoreContext err))
  | None =>
      match ValidateConnectorStatus Valid status with
      | Some err => (m, Some err)
      | None => (mkMemory (stations m) (<[key_of status := status]> (connectors m)), None)
      end
  end.

Definition Station (identity : string) (m : t) : option Station := stations m !! identity.
Definition Connector (key : ConnectorKey) (m : t) : option ConnectorStatus := connectors m !! key.

#[export] Instance repository : Repository env t := {|
  StationStore.UpsertStation := UpsertStation;
  StationStore.UpdateConnectorStatus := UpdateConnectorStatus
|}.
End memory.
End MemoryStore.

(** ** The MySQL adapter (stationstore/mysqlstore/repository.go) *)

Module MySQLStore.
(** The four tables.  The keyed ones are indexed by the sort key that the collation
    of the identity column gives the identity: two identities with the same sort
    key are duplicates of each other.  Events are kept in the order of their
    identifiers. *)
Record t : Type := mkTables {
  stations : gmap string Station;
  connector_status : gmap ConnectorKey ConnectorStatus;
  boot_events : list Station;
  status_events : list ConnectorStatus
}.

Definition empty : t := mkTables ∅ ∅ [] [].

(** What happens to the calls of one transaction; [None] is success.  A commit
    that reports an error may nevertheless have taken effect. *)
Record env : Type := Env {
  begin_fails : bool;
  exec1_fails : bool;
  exec2_fails : bool;
  commit_fails : option bool   (** [Some applied] *)
}.

Section mysql.
Context (Valid : string → bool).
(** The collation of the identity columns.  The migration names none, so it is the
    default of the server; MySQL's own default ignores case and accents. *)
Context (collate : string → string).
(** What a [DATETIME(6)] column stores of an instant. *)
Context (column_time : Time.t → Time.t).
(** Whether the server, in its strict mode, accepts the values for the columns. *)
Context (station_fits : Station → bool) (status_fits : ConnectorStatus → bool).

(** The rows written for a record, under the identity the row has. *)
Definition station_row (identity : string) (s : Station) : Station :=
  mkStation identity (Version s) (Vendor s) (Model s) (SerialNumber s) (FirmwareVersion s)
    (BootReason s) (column_time (LastBootAt s)).
Definition status_row (identity : string) (c : ConnectorStatus) : ConnectorStatus :=
  mkConnectorStatus identity (StatusVersion c) (EVSEID c) (ConnectorID c) (Status c)
    (ErrorCode c) (column_time (OccurredAt c)) (column_time (ReceivedAt c)).

Definition row_key (c : ConnectorStatus) : ConnectorKey :=
  (collate (StationIdentity c), EVSEID c, ConnectorID c).

(** [INSERT INTO stations ... ON DUPLICATE KEY UPDATE ...]: every column but the
    key is overwritten. *)
Definition upsert_station (s : Station) (db : t) : option t :=
  if station_fits s then
    let identity := from_option Identity (Identity s) (stations db !! collate (Identity s)) in
    Some (mkTables (<[collate (Identity s) := station_row identity s]> (stations db))
            (connector_status db) (boot_events db) (status_events db))
  else None.

(** The foreign key [station_identity] of the other three tables. *)
Definition known (identity : string) (db : t) : bool :=
  bool_decide (is_Some (stations db !! collate identity)).

(** [INSERT INTO boot_events ...] *)
Definition insert_boot_event (s : Station) (db : t) : option t :=
  if station_fits s && known (Identity s) db then
    Some (mkTables (stations db) (connector_status db)
            (boot_events db ++ [station_row (Identity s) s]) (status_events db))
  else None.

(** [INSERT INTO connector_status ... ON DUPLICATE KEY UPDATE ...] *)
Definition upsert_status (c : ConnectorStatus) (db : t) : option t :=
  if status_fits c && known (StationIdentity c) db then
    let identity := from_option StationIdentity (StationIdentity c)
                      (connector_status db !! row_key c) in
    Some (mkTables (stations db) (<[row_key c := status_row identity c]> (connector_status db))
            (boot_events db) (status_events db))
  else None.

(** [INSERT INTO status_events ...] *)
Definition insert_status_event (c : ConnectorStatus) (db : t) : option t :=
  if status_fits c && known (StationIdentity c) db then
    Some (mkTables (stations db) (connector_status db) (boot_events db)
            (status_events db ++ [status_row (StationIdentity c) c]))
  else None.

(** One statement of a transaction: it fails when the call does or when the server
    refuses it. *)
Definition exec (fails : bool) (stmt : t → option t) (db : t) : option t :=
  if fails then None else stmt db.

(** The shape the two operations share: two statements between [BeginTx] and
    [Commit], with a deferred [Rollback]. *)
Definition transaction (e : env) (noun doing1 doing2 : string) (stmt1 stmt2 : t → option t)
    (db : t) : t * option store_error :=
  if begin_fails e then (db, Some (ErrSQL ("begin " +:+ noun +:+ " transaction")))
  else match exec (exec1_fails e) stmt1 db with
  | None => (db, Some (ErrSQL doing1))
  | Some db1 =>
      match exec (exec2_fails e) stmt2 db1 with
      | None => (db, Some (ErrSQL doing2))
      | Some db2 =>
          match commit_fails e with
          | Some applied =>
              ((if applied : bool then db2 else db), Some (ErrSQL ("commit " +:+ noun +:+ " transaction")))
          | None => (db2, None)
          end
      end
  end.

Definition UpsertStation (e : env) (station : Station) (db : t) : t * option store_error :=
  match ValidateStation Valid station with
  | Some err => (db, Some err)
  | None =>
      transaction e "station" "upsert station" "insert boot event"
        (upsert_station station) (insert_boot_event station) db
  end.

Definition UpdateConnectorStatus (e : env) (status : ConnectorStatus) (db : t) :
    t * option store_error :=
  match ValidateConnectorStatus Valid status with
  | Some err => (db, Some err)
  | None =>
      transaction e "connector status" "upsert connector status" "insert status event"
        (upsert_status status) (insert_status_event status) db
  end.

#[export] Instance repository : Repository env t := {|
  StationStore.UpsertStation := UpsertStation;
  StationStore.UpdateConnectorStatus := UpdateConnectorStatus
|}.
End mysql.

(** [New]: the database handle it was given. *)
Definition New {database : Type} (d : option database) : result string database :=
  match d with None => Err "mysql database is nil" | Some d => Ok d end.
End MySQLStore.

(** ** Properties *)

Section memory_properties.
Context (Valid : string → bool).
Import MemoryStore.

(** The in-memory repository keeps the last record of every station and of
    every connector: an accepted update is what a read returns afterwards, no
    other key changes, and a refused one changes nothing. *)
Theorem memory_keeps_last e s c m :
  (∀ m', MemoryStore.UpsertStation Valid e s m = (m', None) →
     MemoryStore.Station (Identity s) m' = Some s ∧
     (∀ id, id ≠ Identity s → MemoryStore.Station id m' = MemoryStore.Station id m) ∧
     connectors m' = connectors m) ∧
  (∀ m', MemoryStore.UpdateConnectorStatus Valid e c m = (m', None) →
     MemoryStore.Connector (key_of c) m' = Some c ∧
     (∀ k, k ≠ key_of c → MemoryStore.Connector k m' = MemoryStore.Connector k m) ∧
     stations m' = stations m) ∧
  (∀ m' err, MemoryStore.UpsertStation Valid e s m = (m', Some err) → m' = m) ∧
  (∀ m' err, MemoryStore.UpdateConnectorStatus Valid e c m = (m', Some err) → m' = m).
Proof.
  unfold MemoryStore.UpsertStation, MemoryStore.UpdateConnectorStatus,
    MemoryStore.Station, MemoryStore.Connector.
  destruct (Ctx.Err _ _); [by split_and!; intros; simplify_eq|].
  destruct (ValidateStation Valid s), (ValidateConnectorStatus Valid c);
    split_and!; intros; simplify_eq/=; try done;
    (split_and!; [apply lookup_insert_eq|intros; by apply lookup_insert_ne|done]).
Qed.
End memory_properties.

Section mysql_properties.
Context (Valid : string → bool) (collate : string → string) (column_time : Time.t → Time.t).
Context (station_fits : Station → bool) (status_fits : ConnectorStatus → bool).
Import MySQLStore.
Abbreviation upsert := (MySQLStore.UpsertStation Valid collate column_time station_fits).
Abbreviation update := (MySQLStore.UpdateConnectorStatus Valid collate column_time status_fits).

(** The tables after a station or a status was accepted. *)
Definition with_station (s : Station) (db : t) : t :=
  let identity := from_option Identity (Identity s) (stations db !! collate (Identity s)) in
  mkTables (<[collate (Identity s) := station_row column_time identity s]> (stations db))
    (connector_status db)
    (boot_events db ++ [station_row column_time (Identity s) s]) (status_events db).
Definition with_status (c : ConnectorStatus) (db : t) : t :=
  let identity := from_option StationIdentity (StationIdentity c)
                    (connector_status db !! row_key collate c) in
  mkTables (stations db)
    (<[row_key collate c := status_row column_time identity c]> (connector_status db))
    (boot_events db) (status_events db ++ [status_row column_time (StationIdentity c) c]).

(** A transaction ends in all of its effect or none. *)
Lemma transaction_cases e noun d1 d2 (s1 s2 : t → option t) db db' r :
  transaction e noun d1 d2 s1 s2 db = (db', r) →
  (r = None ∧ s1 db ≫= s2 = Some db') ∨
  (r ≠ None ∧ (db' = db ∨ (commit_fails e = Some true ∧ s1 db ≫= s2 = Some db'))).
Proof.
  unfold transaction, exec. destruct (begin_fails e); [intros [= <- <-]; auto|].
  destruct (exec1_fails e); [intros [= <- <-]; auto|].
  destruct (s1 db) as [db1|]; cbn; [|intros [= <- <-]; auto].
  destruct (exec2_fails e); [intros [= <- <-]; auto|].
  destruct (s2 db1) as [db2|]; [|intros [= <- <-]; auto].
  destruct (commit_fails e) as [[]|]; intros [= <- <-]; auto.
Qed.

Lemma station_statements s db db' :
  upsert_station collate column_time station_fits s db
    ≫= insert_boot_event collate column_time station_fits s = Some db' →
  db' = with_station s db.
Proof.
  unfold upsert_station, insert_boot_event, known. destruct (station_fits s); [|done]. cbn.
  case_bool_decide; [|done]. by intros [= <-].
Qed.

Lemma status_statements c db db' :
  upsert_status collate column_time status_fits c db
    ≫= insert_status_event collate column_time status_fits c = Some db' →
  db' = with_status c db ∧ is_Some (stations db !! collate (StationIdentity c)).
Proof.
  unfold upsert_status, insert_status_event, known. destruct (status_fits c); [|done]. cbn.
  case_bool_decide as Hfk; cbn; [|done]. rewrite bool_decide_eq_true_2 by done. by intros [= <-].
Qed.

Lemma upsert_cases e s db db' r :
  upsert e s db = (db', r) →
  (r = None ∧ ValidateStation Valid s = None ∧ db' = with_station s db) ∨
  (r ≠ None ∧ (db' = db ∨ (commit_fails e = Some true ∧ ValidateStation Valid s = None ∧
     db' = with_station s db))).
Proof.
  unfold MySQLStore.UpsertStation. destruct (ValidateStation Valid s); [intros [= <- <-]; auto|].
  intros [[-> ->%station_statements]|[? [?|[? ->%station_statements]]]]%transaction_cases; auto 10.
Qed.

Lemma update_cases e c db db' r :
  update e c db = (db', r) →
  (r = None ∧ ValidateConnectorStatus Valid c = None ∧ db' = with_status c db ∧
     is_Some (stations db !! collate (StationIdentity c))) ∨
  (r ≠ None ∧ (db' = db ∨ (commit_fails e = Some true ∧ ValidateConnectorStatus Valid c = None ∧
     db' = with_status c db ∧ is_Some (stations db !! collate (StationIdentity c))))).
Proof.
  unfold MySQLStore.UpdateConnectorStatus.
  destruct (ValidateConnectorStatus Valid c); [intros [= <- <-]; auto|].
  intros [[-> [-> ?]%status_statements]|[? [?|[? [-> ?]%status_statements]]]]%transaction_cases;
    auto 12.
Qed.

(** C35: a boot notification is stored completely or not at all: after success the
    station's row is the new one and exactly one boot event was appended; after an
    error nothing changed, unless it was the commit itself whose outcome is
    unknown.  The same holds for a status notification, which moreover is stored
    only for a station that has a row. *)
Theorem mysql_all_or_nothing e s c db :
  (let '(db', r) := upsert e s db in
   (r = None ∧ ValidateStation Valid s = None ∧ db' = with_station s db) ∨
   (r ≠ None ∧ (db' = db ∨ (commit_fails e = Some true ∧ ValidateStation Valid s = None ∧
      db' = with_station s db)))) ∧
  (let '(db', r) := update e c db in
   (r = None ∧ ValidateConnectorStatus Valid c = None ∧ db' = with_status c db ∧
      is_Some (stations db !! collate (StationIdentity c))) ∨
   (r ≠ None ∧ (db' = db ∨ (commit_fails e = Some true ∧ ValidateConnectorStatus Valid c = None ∧
      db' = with_status c db ∧ is_Some (stations db !! collate (StationIdentity c)))))).
Proof.
  destruct (upsert e s db) as [db1 r1] eqn:E1, (update e c db) as [db2 r2] eqn:E2.
  split; [by apply upsert_cases in E1|by apply update_cases in E2].
Qed.

(** Every row refers to a station that has a row. *)
Record fk (db : t) : Prop := {
  fk_station k s : stations db !! k = Some s → collate (Identity s) = k;
  fk_status k c : connector_status db !! k = Some c →
    row_key collate c = k ∧ is_Some (stations db !! collate (StationIdentity c));
  fk_boot s : s ∈ boot_events db → is_Some (stations db !! collate (Identity s));
  fk_event c : c ∈ status_events db → is_Some (stations db !! collate (StationIdentity c))
}.

Lemma fk_with_station s db : fk db → fk (with_station s db).
Proof.
  intros [H0 H1 H2 H3].
  assert (∀ id, is_Some (stations db !! id) → is_Some (stations (with_station s db) !! id)) as Hmono.
  { intros id Hid. cbn. destruct (decide (id = collate (Identity s))) as [->|];
      [by rewrite lookup_insert_eq|by rewrite lookup_insert_ne]. }
  split; cbn.
  - intros k s' [[<- <-]|[_ ?%H0]]%lookup_insert_Some; [cbn|done].
    destruct (stations db !! collate (Identity s)) eqn:E; cbn; eauto.
  - intros k c [??]%H1. split; [done|by apply Hmono].
  - intros s' [?%H2| ->%list_elem_of_singleton]%elem_of_app; [by apply Hmono|].
    cbn. by rewrite lookup_insert_eq.
  - intros c ?%H3. by apply Hmono.
Qed.

Lemma fk_with_status c db :
  is_Some (stations db !! collate (StationIdentity c)) → fk db → fk (with_status c db).
Proof.
  intros Hc [H0 H1 H2 H3]. split; cbn; [done| |done|].
  - intros k c' [[<- <-]|[_ ?%H1]]%lookup_insert_Some; [|done].
    destruct (connector_status db !! row_key collate c) as [old|] eqn:E; [|done].
    apply H1 in E as [Ek ?]. injection Ek as E1 E2 E3. unfold row_key. cbn. by rewrite E1.
  - intros c' [?%H3| ->%list_elem_of_singleton]%elem_of_app; done.
Qed.

Lemma upsert_fk e s db db' r : fk db → upsert e s db = (db', r) → fk db'.
Proof.
  intros ? [(_ & _ & ->)|[_ [->|(_ & _ & ->)]]]%upsert_cases; auto using fk_with_station.
Qed.

Lemma update_fk e c db db' r : fk db → update e c db = (db', r) → fk db'.
Proof.
  intros ? [(_ & _ & -> & ?)|[_ [->|(_ & _ & -> & ?)]]]%update_cases; auto using fk_with_status.
Qed.

(** The primary and foreign keys hold whatever the two operations do and however
    their transactions end. *)
Theorem mysql_foreign_keys e s c db :
  fk db → fk (upsert e s db).1 ∧ fk (update e c db).1.
Proof.
  intros Hfk. split; [eapply upsert_fk|eapply update_fk]; eauto using surjective_pairing.
Qed.

(** The adapters differ on a status that arrives before the station's first
    boot notification: the in-memory repository accepts it, the MySQL one refuses
    it, although it passes the validation that names everything an adapter
    requires. *)
Theorem status_before_boot_differs e e' c db m :
  ValidateConnectorStatus Valid c = None → begin_fails e = false →
  stations db !! collate (StationIdentity c) = None →
  Ctx.Err (MemoryStore.ctx e') (MemoryStore.now e') = None →
  update e c db = (db, Some (ErrSQL "upsert connector status")) ∧
  (MemoryStore.UpdateConnectorStatus Valid e' c m).2 = None.
Proof.
  intros Hv Hb Hno Hctx. unfold MySQLStore.UpdateConnectorStatus, MemoryStore.UpdateConnectorStatus.
  rewrite Hv, Hctx. split; [|done]. unfold transaction, exec. rewrite Hb.
  destruct (exec1_fails e); [done|]. unfold upsert_status, known. rewrite Hno.
  rewrite bool_decide_eq_false_2, andb_false_r; [done|]. by intros [? ?].
Qed.

(** *** Sequences of notifications *)

Inductive notification : Type := Boot (s : Station) | Status_ (c : ConnectorStatus).

Fixpoint mysql_run (ops : list (env * notification)) (db : t) : t * bool :=
  match ops with
  | [] => (db, true)
  | (e, op) :: ops =>
      let '(db1, r) := match op with Boot s => upsert e s db | Status_ c => update e c db end in
      let '(db2, ok) := mysql_run ops db1 in
      (db2, bool_decide (r = None) && ok)
  end.

Fixpoint memory_run (e : MemoryStore.env) (ops : list notification) (m : MemoryStore.t) :
    MemoryStore.t * bool :=
  match ops with
  | [] => (m, true)
  | op :: ops =>
      let '(m1, r) := match op with
                      | Boot s => MemoryStore.UpsertStation Valid e s m
                      | Status_ c => MemoryStore.UpdateConnectorStatus Valid e c m
                      end in
      let '(m2, ok) := memory_run e ops m1 in
      (m2, bool_decide (r = None) && ok)
  end.

(** The events a sequence leaves behind. *)
Definition boots (ops : list notification) : list Station :=
  omap (λ op, if op is Boot s then Some (station_row column_time (Identity s) s) else None) ops.
Definition statuses (ops : list notification) : list ConnectorStatus :=
  omap (λ op, if op is Status_ c then Some (status_row column_time (StationIdentity c) c) else None)
    ops.

Section told_apart.
(** Identities that the collation of the columns tells apart: with a binary collation all
    of them, with MySQL's default those that do not differ in case or accents only. *)
Context (used : string → Prop).
Context (collate_inj : ∀ a b, used a → used b → collate a = collate b → a = b).

(** The latest-state tables hold what the in-memory repository holds, and nothing but
    rows of these identities. *)
Record same_latest (db : t) (m : MemoryStore.t) : Prop := {
  same_stations id : used id → stations db !! collate id =
    station_row column_time id <$> MemoryStore.stations m !! id;
  same_connectors id e n : used id → connector_status db !! (collate id, e, n) =
    status_row column_time id <$> MemoryStore.connectors m !! (id, e, n);
  used_stations k : is_Some (stations db !! k) → ∃ id, used id ∧ k = collate id;
  used_connectors k : is_Some (connector_status db !! k) → ∃ id, used id ∧ k.1.1 = collate id
}.

(** The identity a notification carries. *)
Definition identity_of (op : notification) : string :=
  match op with Boot s => Identity s | Status_ c => StationIdentity c end.

Lemma same_latest_station s db m :
  used (Identity s) → same_latest db m →
  same_latest (with_station s db)
    (MemoryStore.mkMemory (<[Identity s := s]> (MemoryStore.stations m)) (MemoryStore.connectors m)).
Proof.
  intros Hu [Hs Hc Us Uc]. split; cbn; [|done| |done].
  - intros id Hid. rewrite (Hs (Identity s)) by done.
    destruct (decide (id = Identity s)) as [->|Hne].
    + rewrite !lookup_insert_eq. by destruct (MemoryStore.stations m !! Identity s).
    + rewrite !lookup_insert_ne; [by apply Hs|done|]. intros E%collate_inj; congruence.
  - intros k [? [[<- _]|[_ E]]%lookup_insert_Some]; [by exists (Identity s)|]. eapply Us; eauto.
Qed.

Lemma same_latest_status c db m :
  used (StationIdentity c) → same_latest db m →
  same_latest (with_status c db)
    (MemoryStore.mkMemory (MemoryStore.stations m) (<[key_of c := c]> (MemoryStore.connectors m))).
Proof.
  intros Hu [Hs Hc Us Uc]. split; cbn; [done| |done|].
  - intros id e n Hid. unfold row_key. rewrite (Hc (StationIdentity c)) by done.
    destruct (decide ((id, e, n) = key_of c)) as [Hk|Hne].
    + injection Hk as -> -> ->. rewrite !lookup_insert_eq. by destruct (MemoryStore.connectors m !! _).
    + rewrite !lookup_insert_ne; [by apply Hc|done|]. unfold key_of in Hne.
      intros [= E%collate_inj ? ?]; congruence.
  - intros k [? [[<- _]|[_ E]]%lookup_insert_Some]; [by exists (StationIdentity c)|]. eapply Uc; eauto.
Qed.

Lemma run_step_memory e op m :
  Ctx.Err (MemoryStore.ctx e) (MemoryStore.now e) = None →
  match op with
  | Boot s => ValidateStation Valid s = None →
      MemoryStore.UpsertStation Valid e s m =
        (MemoryStore.mkMemory (<[Identity s := s]> (MemoryStore.stations m)) (MemoryStore.connectors m), None)
  | Status_ c => ValidateConnectorStatus Valid c = None →
      MemoryStore.UpdateConnectorStatus Valid e c m =
        (MemoryStore.mkMemory (MemoryStore.stations m) (<[key_of c := c]> (MemoryStore.connectors m)), None)
  end.
Proof.
  intros Hctx. destruct op; unfold MemoryStore.UpsertStation, MemoryStore.UpdateConnectorStatus;
    rewrite Hctx; by intros ->.
Qed.

(** C9: the MySQL adapter refines the in-memory one on identities that the collation of
    its columns tells apart: whenever every notification of a sequence that carries such
    identities was stored in MySQL, the in-memory repository accepts the same sequence and
    ends with the same stations and connectors, up to the precision of the time columns,
    and the event tables have grown by exactly the sequence, in order. *)
Theorem mysql_refines_memory e ops db m db' :
  Ctx.Err (MemoryStore.ctx e) (MemoryStore.now e) = None →
  Forall (λ op, used (identity_of op.2)) ops →
  same_latest db m → mysql_run ops db = (db', true) →
  ∃ m', memory_run e (snd <$> ops) m = (m', true) ∧ same_latest db' m' ∧
    boot_events db' = boot_events db ++ boots (snd <$> ops) ∧
    status_events db' = status_events db ++ statuses (snd <$> ops).
Proof.
  intros Hctx. revert db m. induction ops as [|[x op] ops IH]; intros db m Hids Hsame; cbn [mysql_run].
  { intros [= <-]. exists m. cbn. by rewrite !app_nil_r. }
  apply Forall_cons in Hids as [Hid Hids].
  destruct (match op with Boot s => upsert x s db | Status_ c => update x c db end)
    as [db1 r] eqn:E1.
  destruct (mysql_run ops db1) as [db2 ok] eqn:E2. intros [= -> Hok].
  apply andb_true_iff in Hok as [Hr%bool_decide_eq_true ->]. subst r.
  pose proof (run_step_memory e op m Hctx) as Hstep.
  cbn [fmap list_fmap memory_run snd]. destruct op as [s|c].
  - apply upsert_cases in E1 as [(_ & Hv & ->)|[? _]]; [|done]. rewrite (Hstep Hv).
    destruct (IH _ _ Hids (same_latest_station s _ _ Hid Hsame) E2) as (m' & -> & Hs' & -> & ->).
    exists m'. cbn. by rewrite <- app_assoc.
  - apply update_cases in E1 as [(_ & Hv & -> & _)|[? _]]; [|done]. rewrite (Hstep Hv).
    destruct (IH _ _ Hids (same_latest_status c _ _ Hid Hsame) E2) as (m' & -> & Hs' & -> & ->).
    exists m'. cbn. by rewrite <- app_assoc.
Qed.
End told_apart.

(** Where it does not, two stations whose identities it identifies share one row,
    which keeps the first identity and shows the second station's data. *)
Theorem collation_merges_stations e1 e2 s1 s2 db db1 db2 :
  collate (Identity s1) = collate (Identity s2) →
  stations db !! collate (Identity s1) = None →
  upsert e1 s1 db = (db1, None) → upsert e2 s2 db1 = (db2, None) →
  stations db2 !! collate (Identity s1) = Some (station_row column_time (Identity s1) s2) ∧
  size (stations db2) = S (size (stations db)).
Proof.
  intros Hc Hno [(_ & _ & ->)|[? _]]%upsert_cases [(_ & _ & ->)|[? _]]%upsert_cases; [|done..].
  cbn. rewrite <- Hc, lookup_insert_eq, insert_insert_eq, Hno. cbn.
  rewrite lookup_insert_eq. split; [done|by rewrite map_size_insert_None].
Qed.
End mysql_properties.

(** ** Both adapters keep the promise *)

Section laws.
Context (Valid : string → bool).

#[export] Program Instance memory_laws :
    @RepositoryLaws MemoryStore.env MemoryStore.t Valid (MemoryStore.repository Valid) := {|
  repo_ok _ := True;
  station_of := MemoryStore.Station;
  connector_of := MemoryStore.Connector;
  kept_time x := x
|}.
Next Obligation. done. Qed.
Next Obligation. done. Qed.
Next Obligation.
  cbn. unfold MemoryStore.UpsertStation, MemoryStore.Station. intros e s m m' r _ H.
  case_match; [left; by simplify_eq|]. case_match; [left; by simplify_eq|]. simplify_eq. right.
  split_and!; [done| |done]. intros id. cbn. destruct (decide (id = Identity s)) as [->|];
    [rewrite lookup_insert_eq; by destruct s|by rewrite lookup_insert_ne].
Qed.
Next Obligation.
  cbn. unfold MemoryStore.UpdateConnectorStatus, MemoryStore.Connector. intros e c m m' r _ H.
  case_match; [left; by simplify_eq|]. case_match; [left; by simplify_eq|]. simplify_eq. right.
  split_and!; [done| |done]. intros k. cbn. destruct (decide (k = key_of c)) as [->|];
    [rewrite lookup_insert_eq; by destruct c|by rewrite lookup_insert_ne].
Qed.

Context (collate : string → string) `{!Inj (=) (=) collate} (column_time : Time.t → Time.t).
Context (station_fits : Station → bool) (status_fits : ConnectorStatus → bool).

(** What is read from the keyed tables after a record was stored. *)
Lemma with_station_reads s db id :
  fk collate db →
  MySQLStore.stations (with_station collate column_time s db) !! collate id =
  if decide (id = Identity s) then Some (MySQLStore.station_row column_time (Identity s) s)
  else MySQLStore.stations db !! collate id.
Proof.
  intros Hfk. cbn. destruct (decide (id = Identity s)) as [->|].
  - rewrite lookup_insert_eq. do 2 f_equal.
    destruct (MySQLStore.stations db !! _) as [old|] eqn:E; [|done].
    by apply (fk_station _ _ Hfk), (inj collate) in E.
  - rewrite lookup_insert_ne; [done|]. by intros ?%(inj collate).
Qed.

Lemma with_status_reads c db k :
  fk collate db →
  MySQLStore.connector_status (with_status collate column_time c db) !! (collate k.1.1, k.1.2, k.2) =
  if decide (k = key_of c) then Some (MySQLStore.status_row column_time (StationIdentity c) c)
  else MySQLStore.connector_status db !! (collate k.1.1, k.1.2, k.2).
Proof.
  intros Hfk. cbn. destruct (decide (k = key_of c)) as [->|Hne].
  - cbn. rewrite lookup_insert_eq. do 2 f_equal.
    destruct (MySQLStore.connector_status db !! MySQLStore.row_key collate c) as [old|] eqn:E;
      [|done].
    apply (fk_status _ _ Hfk) in E as [E _]. by injection E as E%(inj collate) _ _.
  - rewrite lookup_insert_ne; [done|]. intros [= ?%(inj collate) ? ?].
    apply Hne. destruct k as [[? ?] ?]. unfold key_of. cbn in *. congruence.
Qed.

#[export] Program Instance mysql_laws :
    @RepositoryLaws MySQLStore.env MySQLStore.t Valid
      (MySQLStore.repository Valid collate column_time station_fits status_fits) := {|
  repo_ok := fk collate;
  station_of id db := MySQLStore.stations db !! collate id;
  connector_of k db := MySQLStore.connector_status db !! (collate k.1.1, k.1.2, k.2);
  kept_time := column_time
|}.
Next Obligation. intros e s m m' r Hok H. exact (upsert_fk _ _ _ _ e s m m' r Hok H). Qed.
Next Obligation. intros e c m m' r Hok H. exact (update_fk _ _ _ _ e c m m' r Hok H). Qed.
Next Obligation.
  intros e s m m' r Hfk [(_ & ? & ->)|[? [->|(_ & ? & ->)]]]%upsert_cases; [right|by left|right];
    (split_and!; [done|intros; by apply with_station_reads|done]).
Qed.
Next Obligation.
  intros e c m m' r Hfk [(_ & ? & -> & _)|[? [->|(_ & ? & -> & _)]]]%update_cases;
    [right|by left|right];
    (split_and!; [done|intros; by apply with_status_reads|done]).
Qed.
End laws.

(** ** Witnesses: a database with microsecond columns *)

Module StoreWitnesses.
Import MySQLStore.
Definition Valid (v : string) : bool := bool_decide (v ∈ ["1.6"; "2.0.1"; "2.1"]).
Definition column_time (x : Time.t) : Time.t := x `div` Time.Microsecond * Time.Microsecond.
Definition station_fits (s : Station) : bool := Nat.leb (String.length (Vendor s)) 50.
Definition status_fits (c : ConnectorStatus) : bool := Nat.leb (String.length (Status c)) 32.

Definition fine : env := Env false false false None.
Definition s1 : Station := mkStation "CP1" "1.6" "acme" "m1" "" "" "" 1500.
Definition s2 : Station := mkStation "CP1" "1.6" "acme" "m2" "" "" "" 2700.
Definition c1 : ConnectorStatus := mkConnectorStatus "CP1" "1.6" 0 1 "Available" "NoError" 3000 3001.
Definition s4 : Station := mkStation "CP2" "1.6" "acme" "m2" "" "" "" 2800.
Definition ops : list (env * notification) :=
  [(fine, Boot s1); (fine, Status_ c1); (fine, Boot s2); (fine, Boot s4)].
(** A case-insensitive collation, as far as these identities need one. *)
Definition ci (s : string) : string := if String.eqb s "cp1" then "CP1" else s.
Definition after : t := (mysql_run Valid ci column_time station_fits status_fits ops empty).1.
Definition seen (id : string) : Prop := id = "CP1" ∨ id = "CP2".
Definition e0 : MemoryStore.env := MemoryStore.Env Ctx.Background 10.

Lemma empty_fk collate : fk collate empty.
Proof. split; cbn; intros; set_solver. Qed.
Lemma empty_same collate used : same_latest collate column_time used empty MemoryStore.NewMemory.
Proof.
  split; cbn; [intros; by rewrite !lookup_empty..| |]; intros k [? E]; by rewrite lookup_empty in E.
Qed.

Lemma mysql_foreign_keys_witness :
  fk id (MySQLStore.UpsertStation Valid id column_time station_fits fine s1 empty).1 ∧
  fk id (MySQLStore.UpdateConnectorStatus Valid id column_time status_fits fine c1 empty).1.
Proof.
  apply (mysql_foreign_keys Valid id column_time station_fits status_fits fine s1 c1 empty),
    empty_fk.
Defined.

Lemma mysql_refines_memory_witness :
  length (boot_events after) = 3%nat ∧
  ∃ m', memory_run Valid e0 (snd <$> ops) MemoryStore.NewMemory = (m', true) ∧
    same_latest ci column_time seen after m' ∧
    boot_events after = boot_events empty ++ boots column_time (snd <$> ops) ∧
    status_events after = status_events empty ++ statuses column_time (snd <$> ops).
Proof.
  split; [reflexivity|].
  apply (mysql_refines_memory Valid ci column_time station_fits status_fits seen) with (e := e0);
    [by intros a b [->| ->] [->| ->]|reflexivity| |apply empty_same|by_evaluation].
  repeat apply Forall_cons_2; [by left..|by right|apply Forall_nil_2].
Defined.

Definition s3 : Station := mkStation "cp1" "1.6" "other" "m3" "" "" "" 5000.
Definition merged : t :=
  (mysql_run Valid ci column_time station_fits status_fits [(fine, Boot s1); (fine, Boot s3)] empty).1.
Example two_stations_one_row :
  stations merged !! "CP1" = Some (mkStation "CP1" "1.6" "other" "m3" "" "" "" 5000) ∧
  size (stations merged) = 1%nat.
Proof. split; by_evaluation. Qed.
End StoreWitnesses.
