(* ===== verification/Handlers.v ===== *)
(** * The OCPP handlers (handlers/core.go)

    The nine handlers a runtime registers, over the [Repository] interface: boot
    notifications, heartbeats and status notifications of OCPP 1.6, 2.0.1 and 2.1,
    and the registration with the router of the OCPP library. *)

From S2P Require Import Prelude GoStd Rfc3339 StationStore.
Import Rfc3339.

(** What the handlers read of a [csms.Session] and of the requests. *)
Record Session : Type := mkSession { session_identity : string; session_version : string }.

Record BootNotificationRequest16 : Type := mkBoot16 {
  ChargePointVendor : string;
  ChargePointModel : string;
  ChargePointSerialNumber : option string;
  ChargeBoxSerialNumber : option string;
  boot16_FirmwareVersion : option string
}.
(** Of OCPP 2.0.1 and 2.1 alike. *)
Record BootNotificationRequest2 : Type := mkBoot2 {
  VendorName : string;
  station_Model : string;
  station_SerialNumber : option string;
  station_FirmwareVersion : option string;
  Reason : string
}.
Record StatusNotificationRequest16 : Type := mkStatus16 {
  status16_ConnectorID : Z;
  status16_Status : string;
  status16_ErrorCode : string;
  status16_Timestamp : option string
}.
Record StatusNotificationRequest2 : Type := mkStatus2 {
  status2_Timestamp : string;
  status2_ConnectorStatus : string;
  status2_EVSEID : Z;
  status2_ConnectorID : Z
}.

Inductive RegistrationStatus : Type := Accepted | Pending | Rejected.
Record BootNotificationConfirmation : Type := mkBootConfirmation {
  CurrentTime : string;
  Interval : Z;
  boot_status : RegistrationStatus
}.

(** ** Helpers *)

Definition formatTime (x : Time.t) : string := FormatRFC3339 x.
Definition now (clock : Time.t) : string := FormatRFC3339 clock.

Definition value (pointer : option string) : string :=
  match pointer with None => "" | Some s => s end.

Fixpoint firstString (values : list (option string)) : string :=
  match values with
  | [] => ""
  | Some s :: values => if negb (String.eqb s "") then s else firstString values
  | None :: values => firstString values
  end.

Definition requiredTime (value : string) (fallback : Time.t) : Time.t :=
  match ParseRFC3339 value with Some parsed => parsed | None => fallback end.
Definition optionalTime (value : option string) (fallback : Time.t) : Time.t :=
  match value with None => fallback | Some v => requiredTime v fallback end.

(** ** The handlers

    Each takes the moment [time.Now()] returns and the circumstances of its call to
    the repository, and returns Go's pair: the confirmation is there also when
    there is an error. *)

Section handlers.
Context {Env S : Type} `{!Repository Env S} (interval : Z).

Definition bootNotification16 (e : Env) (clock : Time.t) (session : Session)
    (request : BootNotificationRequest16) (m : S) :
    S * (BootNotificationConfirmation * option store_error) :=
  let bootedAt := clock in
  let '(m, err) := UpsertStation e
    (mkStation (session_identity session) (session_version session) (ChargePointVendor request)
       (ChargePointModel request)
       (firstString [ChargePointSerialNumber request; ChargeBoxSerialNumber request])
       (value (boot16_FirmwareVersion request)) "" bootedAt) m in
  (m, (mkBootConfirmation (formatTime bootedAt) interval Accepted, err)).

Definition bootNotification201 (e : Env) (clock : Time.t) (session : Session)
    (request : BootNotificationRequest2) (m : S) :
    S * (BootNotificationConfirmation * option store_error) :=
  let bootedAt := clock in
  let '(m, err) := UpsertStation e
    (mkStation (session_identity session) (session_version session) (VendorName request)
       (station_Model request) (value (station_SerialNumber request))
       (value (station_FirmwareVersion request)) (Reason request) bootedAt) m in
  (m, (mkBootConfirmation (formatTime bootedAt) interval Accepted, err)).

Definition bootNotification21 (e : Env) (clock : Time.t) (session : Session)
    (request : BootNotificationRequest2) (m : S) :
    S * (BootNotificationConfirmation * option store_error) :=
  let bootedAt := clock in
  let '(m, err) := UpsertStation e
    (mkStation (session_identity session) (session_version session) (VendorName request)
       (station_Model request) (value (station_SerialNumber request))
       (value (station_FirmwareVersion request)) (Reason request) bootedAt) m in
  (m, (mkBootConfirmation (formatTime bootedAt) interval Accepted, err)).

(** The same for the three versions. *)
Definition heartbeat (clock : Time.t) (m : S) : S * (string * option store_error) :=
  (m, (now clock, None)).

Definition statusNotification16 (e : Env) (clock : Time.t) (session : Session)
    (request : StatusNotificationRequest16) (m : S) : S * option store_error :=
  let receivedAt := clock in
  UpdateConnectorStatus e
    (mkConnectorStatus (session_identity session) (session_version session) 0
       (status16_ConnectorID request) (status16_Status request) (status16_ErrorCode request)
       (optionalTime (status16_Timestamp request) receivedAt) receivedAt) m.

Definition statusNotification201 (e : Env) (clock : Time.t) (session : Session)
    (request : StatusNotificationRequest2) (m : S) : S * option store_error :=
  let receivedAt := clock in
  UpdateConnectorStatus e
    (mkConnectorStatus (session_identity session) (session_version session)
       (status2_EVSEID request) (status2_ConnectorID request) (status2_ConnectorStatus request) ""
       (requiredTime (status2_Timestamp request) receivedAt) receivedAt) m.

Definition statusNotification21 (e : Env) (clock : Time.t) (session : Session)
    (request : StatusNotificationRequest2) (m : S) : S * option store_error :=
  let receivedAt := clock in
  UpdateConnectorStatus e
    (mkConnectorStatus (session_identity session) (session_version session)
       (status2_EVSEID request) (status2_ConnectorID request) (status2_ConnectorStatus request) ""
       (requiredTime (status2_Timestamp request) receivedAt) receivedAt) m.
End handlers.

(** ** Registration *)

Inductive profile : Type := OCPP16 | OCPP201 | OCPP21.
Inductive action : Type := BootNotification | Heartbeat | StatusNotification.
#[export] Instance profile_eq_dec : EqDecision profile.
Proof. solve_decision. Defined.
#[export] Instance action_eq_dec : EqDecision action.
Proof. solve_decision. Defined.

(** The handler a registration installs, named by the profile and the action it was
    written for. *)
Inductive handler : Type := Handler (p : profile) (a : action).

Inductive register_error : Type :=
  | RouterIsNil
  | RepositoryIsNil
  | LibraryError (text : string).

Section register.
(** The router of the OCPP library, the profiles it makes and their [Handle...]
    methods. *)
Context {Router Profile : Type}.
Context (NewProfile : profile → Router → Router * result string Profile).
Context (Handle : Profile → action → handler → Router → Router * result string unit).

Definition try {A B} (f : Router → Router * result string A)
    (k : A → Router → Router * result register_error B) (r : Router) :
    Router * result register_error B :=
  match f r with
  | (r, Ok a) => k a r
  | (r, Err e) => (r, Err (LibraryError e))
  end.

(** [interval], [logger] and the repository itself are captured by the handlers. *)
Definition Register (router_is_nil repository_is_nil : bool) (r : Router) :
    Router * result register_error (Profile * Profile * Profile) :=
  if router_is_nil then (r, Err RouterIsNil)
  else if repository_is_nil then (r, Err RepositoryIsNil)
  else
    try (NewProfile OCPP16) (λ p16,
    try (NewProfile OCPP201) (λ p201,
    try (NewProfile OCPP21) (λ p21,
    try (Handle p16 BootNotification (Handler OCPP16 BootNotification)) (λ _,
    try (Handle p201 BootNotification (Handler OCPP201 BootNotification)) (λ _,
    try (Handle p21 BootNotification (Handler OCPP21 BootNotification)) (λ _,
    try (Handle p16 Heartbeat (Handler OCPP16 Heartbeat)) (λ _,
    try (Handle p201 Heartbeat (Handler OCPP201 Heartbeat)) (λ _,
    try (Handle p21 Heartbeat (Handler OCPP21 Heartbeat)) (λ _,
    try (Handle p16 StatusNotification (Handler OCPP16 StatusNotification)) (λ _,
    try (Handle p201 StatusNotification (Handler OCPP201 StatusNotification)) (λ _,
    try (Handle p21 StatusNotification (Handler OCPP21 StatusNotification)) (λ _ r,
    (r, Ok (p16, p201, p21)))))))))))))) r.
End register.

(** ** What the handlers leave in a repository that keeps its promise *)

Inductive inbound : Type :=
  | Boot16 (request : BootNotificationRequest16)
  | Boot201 (request : BootNotificationRequest2)
  | Boot21 (request : BootNotificationRequest2)
  | Beat (p : profile)
  | Status16 (request : StatusNotificationRequest16)
  | Status201 (request : StatusNotificationRequest2)
  | Status21 (request : StatusNotificationRequest2).

(** The record a message asks to store. *)
Definition boot_record (clock : Time.t) (session : Session) (i : inbound) : option Station :=
  match i with
  | Boot16 q =>
      Some (mkStation (session_identity session) (session_version session) (ChargePointVendor q)
              (ChargePointModel q) (firstString [ChargePointSerialNumber q; ChargeBoxSerialNumber q])
              (value (boot16_FirmwareVersion q)) "" clock)
  | Boot201 q | Boot21 q =>
      Some (mkStation (session_identity session) (session_version session) (VendorName q)
              (station_Model q) (value (station_SerialNumber q)) (value (station_FirmwareVersion q))
              (Reason q) clock)
  | _ => None
  end.
Definition status_record (clock : Time.t) (session : Session) (i : inbound) :
    option ConnectorStatus :=
  match i with
  | Status16 q =>
      Some (mkConnectorStatus (session_identity session) (session_version session) 0
              (status16_ConnectorID q) (status16_Status q) (status16_ErrorCode q)
              (optionalTime (status16_Timestamp q) clock) clock)
  | Status201 q | Status21 q =>
      Some (mkConnectorStatus (session_identity session) (session_version session)
              (status2_EVSEID q) (status2_ConnectorID q) (status2_ConnectorStatus q) ""
              (requiredTime (status2_Timestamp q) clock) clock)
  | _ => None
  end.

(** What a confirmation carries. *)
Inductive confirmation : Type :=
  | BootConfirmed (c : BootNotificationConfirmation)
  | BeatConfirmed (time : string)
  | StatusConfirmed.

Section keeping.
Context {Env S : Type} {Valid : string → bool}.
Context `{!Repository Env S, !RepositoryLaws Env S Valid} (interval : Z).

Record message : Type := mkMessage {
  circumstance : Env; clock : Time.t; session : Session; content : inbound }.

(** The handler the router selects for a message. *)
Definition handle (x : message) (m : S) : S * (confirmation * option store_error) :=
  let booted '(m, (c, err)) := (m, (BootConfirmed c, err)) in
  let status '(m, err) := (m, (StatusConfirmed, err)) in
  match content x with
  | Boot16 q => booted (bootNotification16 interval (circumstance x) (clock x) (session x) q m)
  | Boot201 q => booted (bootNotification201 interval (circumstance x) (clock x) (session x) q m)
  | Boot21 q => booted (bootNotification21 interval (circumstance x) (clock x) (session x) q m)
  | Beat _ => let '(m, (t, err)) := heartbeat (clock x) m in (m, (BeatConfirmed t, err))
  | Status16 q => status (statusNotification16 (circumstance x) (clock x) (session x) q m)
  | Status201 q => status (statusNotification201 (circumstance x) (clock x) (session x) q m)
  | Status21 q => status (statusNotification21 (circumstance x) (clock x) (session x) q m)
  end.

Fixpoint handle_all (l : list message) (m : S) : S * list (message * option store_error) :=
  match l with
  | [] => (m, [])
  | x :: l =>
      let '(m, (_, err)) := handle x m in
      let '(m, out) := handle_all l m in
      (m, (x, err) :: out)
  end.

(** The last stored record of a station and of a connector. *)
Definition newest_station (id : string) (stored : list message) (before : option Station) :
    option Station :=
  foldl (λ acc x, match boot_record (clock x) (session x) (content x) with
                  | Some s => if decide (id = Identity s) then Some (kept_station s) else acc
                  | None => acc
                  end) before stored.
Definition newest_status (k : ConnectorKey) (stored : list message)
    (before : option ConnectorStatus) : option ConnectorStatus :=
  foldl (λ acc x, match status_record (clock x) (session x) (content x) with
                  | Some c => if decide (k = key_of c) then Some (kept_status c) else acc
                  | None => acc
                  end) before stored.

(** What one message does: nothing and it reports an error, or its record is the
    newest. *)
Lemma handle_effect x m m' c r :
  repo_ok Valid m → handle x m = (m', (c, r)) →
  repo_ok Valid m' ∧
  ((r ≠ None ∧ m' = m) ∨
   ((∀ id, station_of Valid id m' = newest_station id [x] (station_of Valid id m)) ∧
    (∀ k, connector_of Valid k m' = newest_status k [x] (connector_of Valid k m)))).
Proof.
  intros Hok. destruct x as [e now_ se i]. unfold newest_station, newest_status, handle.
  destruct i; unfold bootNotification16, bootNotification201, bootNotification21,
    statusNotification16, statusNotification201, statusNotification21, heartbeat;
    cbn [content clock circumstance foldl session boot_record status_record];
    try (destruct (UpsertStation _ _ _) as [m1 r1] eqn:E; intros; simplify_eq/=;
         split; [by eapply upsert_ok|];
         destruct (upsert_effect _ _ _ _ _ Hok E) as [?|(_ & ? & ?)]; auto);
    try (destruct (UpdateConnectorStatus _ _ _) as [m1 r1] eqn:E; intros; simplify_eq/=;
         split; [by eapply update_ok|];
         destruct (update_effect _ _ _ _ _ Hok E) as [?|(_ & ? & ?)]; auto).
  intros; simplify_eq/=; auto.
Qed.

(** C10: whatever messages arrive, in whatever order and with whatever failures of the
    repository, there is a selection of them, in their order, that contains every
    message that was answered without an error, and the repository then holds
    exactly the newest record of every station and connector of that selection.
    Proved against the interface, so it holds of both adapters. *)
Theorem handlers_keep_newest l m m' out :
  repo_ok Valid m → handle_all l m = (m', out) →
  ∃ stored, stored `sublist_of` l ∧ (out.*1 = l) ∧
    (fst <$> filter (λ o, o.2 = None) out) `sublist_of` stored ∧
    (∀ id, station_of Valid id m' = newest_station id stored (station_of Valid id m)) ∧
    (∀ k, connector_of Valid k m' = newest_status k stored (connector_of Valid k m)).
Proof.
  revert m m' out. induction l as [|x l IH]; intros m m' out Hok; cbn [handle_all].
  { intros [= <- <-]. by exists []. }
  destruct (handle x m) as [m1 [c r]] eqn:Ex. destruct (handle_all l m1) as [m2 out2] eqn:El.
  intros [= <- <-]. apply handle_effect in Ex as [Hok1 Heff]; [|done].
  destruct (IH _ _ _ Hok1 El) as (stored & Hsub & Hout & Hack & Hst & Hco).
  destruct Heff as [[Hr ->]|[Hst1 Hco1]].
  - exists stored. split_and!; [by constructor|by cbn; f_equal| |done|done].
    by rewrite filter_cons_False.
  - exists (x :: stored). split_and!; [by constructor|by cbn; f_equal| | |].
    + rewrite filter_cons. case_decide; cbn; by constructor.
    + intros id. rewrite Hst, Hst1. done.
    + intros k. rewrite Hco, Hco1. done.
Qed.

End keeping.

(** ** Registration *)

Section registered.
Context {Router Profile : Type}.
Context (NewProfile : profile → Router → Router * result string Profile).
Context (Handle : Profile → action → handler → Router → Router * result string unit).
(** What the router calls for a profile's action, and whose profile a value is. *)
Context (dispatch : Router → profile → action → option handler) (owner : Profile → profile).
Hypothesis new_profile : ∀ p r r' P, NewProfile p r = (r', Ok P) →
  owner P = p ∧ ∀ q a, dispatch r' q a = dispatch r q a.
Hypothesis handle_installs : ∀ P a h r r', Handle P a h r = (r', Ok tt) →
  ∀ q b, dispatch r' q b =
         if decide ((q, b) = (owner P, a)) then Some h else dispatch r q b.

Lemma try_ok {A B} (f : Router → Router * result string A)
    (k : A → Router → Router * result register_error B) r r2 b :
  try f k r = (r2, Ok b) → ∃ r1 a, f r = (r1, Ok a) ∧ k a r1 = (r2, Ok b).
Proof. unfold try. destruct (f r) as [r1 [a|e]]; naive_solver. Qed.

(** After a successful registration every action of every version has a handler,
    and it is the one written for that version and action. *)
Theorem registered_handlers n1 n2 r r' ps :
  Register NewProfile Handle n1 n2 r = (r', Ok ps) →
  ∀ p a, dispatch r' p a = Some (Handler p a).
Proof.
  unfold Register. destruct n1; [done|]. destruct n2; [done|]. intros H.
  do 3 (apply try_ok in H as (?r & ?P & ?Hp & H)).
  do 9 (apply try_ok in H as (?r & [] & ?Hh & H)). simplify_eq/=.
  repeat match goal with
  | E : NewProfile _ _ = _ |- _ => apply new_profile in E as [?Ho _]
  | E : Handle _ _ _ _ = _ |- _ => pose proof (handle_installs _ _ _ _ _ E); clear E
  end.
  intros p a. repeat match goal with E : ∀ q b, dispatch ?r q b = _ |- context [dispatch ?r _ _] =>
    rewrite E; clear E end.
  repeat match goal with E : owner _ = _ |- _ => rewrite E; clear E end.
  by destruct p, a.
Qed.
End registered.

(** ** Witnesses *)

Module HandlerWitnesses.
Import StoreWitnesses.
#[local] Instance repo : Repository MemoryStore.env MemoryStore.t := MemoryStore.repository Valid.
#[local] Instance laws : RepositoryLaws MemoryStore.env MemoryStore.t Valid := memory_laws Valid.

Definition se : Session := mkSession "CP1" "1.6".
Definition request : BootNotificationRequest16 := mkBoot16 "acme" "m1" None (Some "S-1") None.
Definition boot : message := mkMessage e0 (1700000000 * Time.Second + 5) se (Boot16 request).
Definition status : message :=
  mkMessage e0 (1700000001 * Time.Second) se (Status16 (mkStatus16 1 "Available" "NoError" None)).
Definition out : list (message * option store_error) := [(boot, None); (status, None)].
Definition store : MemoryStore.t := (handle_all 300 [boot; status] MemoryStore.NewMemory).1.
Definition booted : MemoryStore.t := (handle 300 boot MemoryStore.NewMemory).1.

Lemma handlers_keep_newest_witness :
  MemoryStore.Connector ("CP1", 0, 1) store ≠ None ∧
  ∃ stored, stored `sublist_of` [boot; status] ∧ (out.*1 = [boot; status]) ∧
    (fst <$> filter (λ o, o.2 = None) out) `sublist_of` stored ∧
    (∀ id, station_of Valid id store =
       newest_station id stored (station_of Valid id MemoryStore.NewMemory)) ∧
    (∀ k, connector_of Valid k store =
       newest_status k stored (connector_of Valid k MemoryStore.NewMemory)).
Proof.
  split; [discriminate|].
  apply (handlers_keep_newest 300 [boot; status] MemoryStore.NewMemory store out);
    [exact I|by_evaluation].
Defined.


(** A router that is its own table. *)
Definition table : Type := list (profile * action * handler).
Definition new (p : profile) (r : table) : table * result string profile := (r, Ok p).
Definition put (p : profile) (a : action) (h : handler) (r : table) : table * result string unit :=
  ((p, a, h) :: r, Ok tt).
Fixpoint find (r : table) (p : profile) (a : action) : option handler :=
  match r with
  | [] => None
  | (q, b, h) :: r => if decide ((p, a) = (q, b)) then Some h else find r p a
  end.
Definition full : table := (Register new put false false []).1.

Lemma registered_handlers_witness :
  length full = 9%nat ∧ ∀ p a, find full p a = Some (Handler p a).
Proof.
  split; [reflexivity|].
  apply (registered_handlers new put find (λ p, p)) with (n1 := false) (n2 := false) (r := [])
    (ps := (OCPP16, OCPP201, OCPP21)).
  - intros p r r' P [= <- <-]. done.
  - intros P a h r r' [= <-] q b. done.
  - reflexivity.
Defined.
End HandlerWitnesses.
