(* ===== verification/Observability.v ===== *)
(** * Metrics and health (runtime/metrics.go, runtime/health.go)

    The metrics as the sequence of calls made to the Prometheus client, which is not
    part of the repository: a counter or a histogram of a label tuple is one time
    series. *)

From S2P Require Import Prelude GoStd Redis Lease CommandBus Json Commands StationStore Handlers.

(** ** Metrics *)

(** A call to the client library: [WithLabelValues(labels...).Inc()] or
    [.Observe(d.Seconds())]; the duration is kept in nanoseconds. *)
Inductive measurement : Type :=
  | CommandRequest (class : string)
  | CommandDuration (d : Time.Duration)
  | OcppEvent (type action version error_code : string)
  | OcppEventDuration (type action version : string) (d : Time.Duration).

(** *** The collectors *)

Inductive collector_kind : Type := GaugeFunc | CounterVec | Histogram | HistogramVec.
Record collector : Type := mkCollector {
  col_kind : collector_kind; col_name : string; col_labels : list string }.

Definition sessionsActive : collector := mkCollector GaugeFunc "csms_sessions_active" [].
Definition commandRequests : collector :=
  mkCollector CounterVec "csms_command_http_requests_total" ["class"].
Definition commandDuration : collector := mkCollector Histogram "csms_command_duration_seconds" [].
Definition ocppEvents : collector :=
  mkCollector CounterVec "csms_ocpp_events_total" ["type"; "action"; "version"; "error_code"].
Definition ocppEventDuration : collector :=
  mkCollector HistogramVec "csms_ocpp_event_duration_seconds" ["type"; "action"; "version"].

(** What is registered, and the value of the gauge. *)
Record runtimeMetrics : Type := mkMetrics { registered : list collector; active_sessions : Z }.
Definition newRuntimeMetrics (sessionCount : option Z) : runtimeMetrics :=
  mkMetrics [sessionsActive; commandRequests; commandDuration; ocppEvents; ocppEventDuration]
    (match sessionCount with None => 0 | Some n => n end).

(** The collector a measurement goes to, and the label values it comes with. *)
Definition collector_of (m : measurement) : collector * list string :=
  match m with
  | CommandRequest class => (commandRequests, [class])
  | CommandDuration _ => (commandDuration, [])
  | OcppEvent t a v c => (ocppEvents, [t; a; v; c])
  | OcppEventDuration t a v _ => (ocppEventDuration, [t; a; v])
  end.

(** [switch status / 100]; the division truncates. *)
Definition statusClass (status : Z) : string :=
  let k := status `quot` 100 in
  if k =? 2 then "2xx" else if k =? 4 then "4xx" else if k =? 5 then "5xx" else "other".

(** [statusRecorder]: the status it holds, and the calls it forwards. *)
Record statusRecorder : Type := mkRecorder { recorded : Z; forwarded : list Z }.
Definition WriteHeader (status : Z) (r : statusRecorder) : statusRecorder :=
  mkRecorder status (forwarded r ++ [status]).

(** The handler is described by its calls to [WriteHeader]. *)
Definition commandMiddleware (started finished : Time.t) (headers : list Z) :
    statusRecorder * list measurement :=
  let recorder := foldl (λ r s, WriteHeader s r) (mkRecorder 200 []) headers in
  (recorder, [CommandRequest (statusClass (recorded recorder)); CommandDuration (finished - started)]).

(** [csms.MetricEventType], with every other value the type can have. *)
Inductive MetricEventType : Type :=
  | MetricSessionConnected
  | MetricSessionDisconnected
  | MetricCallReceived
  | MetricCallCompleted
  | MetricCallRejected
  | MetricSendReceived
  | MetricSendCompleted
  | MetricSendDropped
  | MetricOutboundCallRejected
  | MetricOutboundCallSent
  | MetricOutboundCallCompleted
  | MetricOutboundCallFailed
  | MetricOutboundCallTimeout
  | MetricOutboundCallCanceled
  | MetricOther (code : Z).

Record MetricEvent : Type := mkEvent {
  Type_ : MetricEventType;
  event_Version : string;
  event_Action : string;
  event_ErrorCode : string;
  event_Duration : Time.Duration
}.

Definition ocppEventLabel (t : MetricEventType) : string :=
  match t with
  | MetricSessionConnected => "session_connected"
  | MetricSessionDisconnected => "session_disconnected"
  | MetricCallReceived => "call_received"
  | MetricCallCompleted => "call_completed"
  | MetricCallRejected => "call_rejected"
  | MetricSendReceived => "send_received"
  | MetricSendCompleted => "send_completed"
  | MetricSendDropped => "send_dropped"
  | MetricOutboundCallRejected => "outbound_call_rejected"
  | MetricOutboundCallSent => "outbound_call_sent"
  | MetricOutboundCallCompleted => "outbound_call_completed"
  | MetricOutboundCallFailed => "outbound_call_failed"
  | MetricOutboundCallTimeout => "outbound_call_timeout"
  | MetricOutboundCallCanceled => "outbound_call_canceled"
  | MetricOther _ => "unknown"
  end.

Definition knownOCPPActions : list string :=
  ["BootNotification"; "Heartbeat"; "StatusNotification"; resetAction].

Definition recordOCPPEvent (event : MetricEvent) : list measurement :=
  let eventType := ocppEventLabel (Type_ event) in
  let version := event_Version event in
  let action := if bool_decide (event_Action event ∈ knownOCPPActions) then event_Action event
                else "unknown" in
  OcppEvent eventType action version (event_ErrorCode event) ::
  (if 0 <? event_Duration event
   then [OcppEventDuration eventType action version (event_Duration event)] else []).

(** ** Health *)

Module Health.
Record t : Type := mkHealth { ready : bool }.
(** The status and the body written. *)
Definition live (h : t) : Z * string := (200, "").
Definition readiness (h : t) : Z * string :=
  if negb (ready h) then (503, "not ready" +:+ String (ascii_of_nat 10) "") else (200, "").
End Health.

(** ** The client library never panics

    [MustRegister] panics on a name that is taken or not a metric name, and
    [WithLabelValues] on a number of values other than that of the labels. *)

Definition name_char (c : ascii) : bool :=
  Json.between 97 122 c || Json.between 65 90 c || Json.between 48 57 c || Ascii.eqb c "_" || Ascii.eqb c ":".
Fixpoint name_chars (s : string) : bool :=
  match s with "" => true | String c s => name_char c && name_chars s end.
Definition valid_name (s : string) : bool :=
  match s with String c _ => negb (Json.between 48 57 c) && name_chars s | "" => false end.

Lemma registration_accepted sessionCount :
  NoDup (col_name <$> registered (newRuntimeMetrics sessionCount)) ∧
  Forall (λ c, valid_name (col_name c) = true ∧ NoDup (col_labels c) ∧ Forall (λ l, valid_name l = true) (col_labels c))
    (registered (newRuntimeMetrics sessionCount)).
Proof. split; by apply (bool_decide_unpack _); vm_compute. Qed.

Lemma measurements_labelled sessionCount m :
  (collector_of m).1 ∈ registered (newRuntimeMetrics sessionCount) ∧
  length (collector_of m).2 = length (col_labels (collector_of m).1).
Proof. split; [|by destruct m]. destruct m; cbn; set_solver. Qed.

(** ** The number of time series *)

Definition label_values : list string :=
  ["session_connected"; "session_disconnected"; "call_received"; "call_completed"; "call_rejected";
   "send_received"; "send_completed"; "send_dropped"; "outbound_call_rejected"; "outbound_call_sent";
   "outbound_call_completed"; "outbound_call_failed"; "outbound_call_timeout";
   "outbound_call_canceled"; "unknown"].

Definition event_series (l : list measurement) : list (string * string * string * string) :=
  omap (λ m, if m is OcppEvent t a v c then Some (t, a, v, c) else None) l.

Definition all_series (versions codes : list string) : list (string * string * string * string) :=
  t ← label_values; a ← "unknown" :: knownOCPPActions; v ← versions; c ← codes; [(t, a, v, c)].

Lemma label_known t : ocppEventLabel t ∈ label_values.
Proof. apply (bool_decide_unpack _). by destruct t. Qed.

Lemma elem_all_series t a v c versions codes :
  t ∈ label_values → a ∈ "unknown" :: knownOCPPActions → v ∈ versions → c ∈ codes →
  (t, a, v, c) ∈ all_series versions codes.
Proof.
  intros. unfold all_series. rewrite list_elem_of_bind. exists t. split; [|done].
  rewrite list_elem_of_bind. exists a. split; [|done].
  rewrite list_elem_of_bind. exists v. split; [|done].
  rewrite list_elem_of_bind. exists c. split; [|done]. by apply list_elem_of_singleton.
Qed.

Lemma recorded_series e versions codes :
  event_Version e ∈ versions → event_ErrorCode e ∈ codes →
  event_series (recordOCPPEvent e) ⊆ all_series versions codes.
Proof.
  intros Hv Hc x. unfold recordOCPPEvent, event_series.
  destruct (0 <? event_Duration e); cbn -[knownOCPPActions all_series]; intros ->%list_elem_of_singleton.
  all: apply elem_all_series; [apply label_known| |done|done].
  all: case_bool_decide; [by right|by left].
Qed.

Lemma size_list_to_set_le `{Countable A} (l : list A) :
  (size (list_to_set (C := gset A) l) ≤ length l)%nat.
Proof.
  induction l as [|x l IH]; cbn; [by rewrite size_empty|].
  rewrite size_union_alt, size_singleton.
  assert (size (list_to_set (C := gset A) l ∖ {[x]}) ≤ size (list_to_set (C := gset A) l))%nat
    by (apply subseteq_size; set_solver). lia.
Qed.

Lemma length_all_series versions codes :
  length (all_series versions codes) = (75 * (length versions * length codes))%nat.
Proof.
  unfold all_series.
  assert (∀ A B (f : A → list B) n l, (∀ x, length (f x) = n) →
    length (l ≫= f) = (length l * n)%nat) as Hbind.
  { intros A B f n l Hf. induction l as [|x l IH]; [done|]. cbn. by rewrite length_app, Hf, <- IH. }
  rewrite (Hbind _ _ _ (5 * (length versions * length codes))%nat); [cbn; lia|]. intros t.
  rewrite (Hbind _ _ _ (length versions * length codes)%nat); [cbn; lia|]. intros a.
  apply Hbind. intros v. rewrite (Hbind _ _ _ 1%nat); [lia|done].
Qed.

(** C37: the counter of OCPP events never has more time series than 75 times the number
    of versions and error codes that occur, however many events there are, whatever
    actions and event types they name and whatever station they come from. *)
Theorem event_series_bounded events versions codes :
  Forall (λ e, event_Version e ∈ versions ∧ event_ErrorCode e ∈ codes) events →
  (size (list_to_set (C := gset _) (event_series (events ≫= recordOCPPEvent)))
     ≤ 75 * (length versions * length codes))%nat.
Proof.
  intros Hall. rewrite <- (length_all_series versions codes).
  transitivity (size (list_to_set (C := gset (string * string * string * string))
    (all_series versions codes))).
  - apply subseteq_size. intros x. rewrite !elem_of_list_to_set. unfold event_series.
    induction Hall as [|e events [Hv Hc] _ IH]; [by intros ?%elem_of_nil|].
    cbn [mbind list_bind]. rewrite omap_app, elem_of_app. intros [H|H]; [|by apply IH].
    by eapply recorded_series.
  - apply size_list_to_set_le.
Qed.

Definition action_name (a : action) : string :=
  match a with
  | BootNotification => "BootNotification"
  | Heartbeat => "Heartbeat"
  | StatusNotification => "StatusNotification"
  end.

(** An action is a value of the label exactly when the runtime handles it or sends it. *)
Lemma known_actions s :
  s ∈ knownOCPPActions ↔ (∃ a, s = action_name a) ∨ s = resetAction.
Proof.
  unfold knownOCPPActions. rewrite !elem_of_cons, elem_of_nil. split.
  - intros [->|[->|[->|[->|[]]]]]; [left; by exists BootNotification|left; by exists Heartbeat|
      left; by exists StatusNotification|by right].
  - intros [[[] ->]| ->]; cbn; tauto.
Qed.

(** A handler that writes its header at most once is counted under the class of the
    status the client gets. *)
Lemma counted_class started finished h :
  commandMiddleware started finished [h] =
    (mkRecorder h [h], [CommandRequest (statusClass h); CommandDuration (finished - started)]) ∧
  commandMiddleware started finished [] =
    (mkRecorder 200 [], [CommandRequest "2xx"; CommandDuration (finished - started)]).
Proof. done. Qed.

Module MetricWitnesses.
Definition flood : list MetricEvent :=
  (λ n, mkEvent MetricCallReceived "1.6" (Strconv.FormatUint (Z.of_nat n)) "" 0) <$> seq 0 200.

Lemma event_series_bounded_witness :
  length flood = 200%nat ∧
  (size (list_to_set (C := gset _) (event_series (flood ≫= recordOCPPEvent))) ≤ 75 * (1 * 1))%nat.
Proof.
  split; [reflexivity|]. apply (event_series_bounded flood ["1.6"] [""]).
  apply Forall_fmap, Forall_true. intros n. split; apply elem_of_cons; by left.
Defined.
End MetricWitnesses.
