(* ===== verification/Config.v ===== *)
(** * Configuration from the environment (runtime/config.go) *)

From S2P Require Import Prelude GoStd GoText GoNet TrustedProxy Redis Lease CommandBus Json Commands.
Import Strconv.
Open Scope go_scope.

Definition defaultHTTPAddr : string := ":8080".
Definition defaultHeartbeatInterval : Z := 300.
Definition defaultShutdownTimeout : Time.Duration := 30 * Time.Second.
Definition defaultSessionLeaseTTL : Time.Duration := 30 * Time.Second.
Definition defaultSessionRenew : Time.Duration := 10 * Time.Second.
Definition defaultMySQLMaxOpenConns : Z := 25.
Definition defaultHandshakeRateLimit : Z := 30.
Definition defaultTLSCertFile : string := "/etc/csms/tls/server/tls.crt".
Definition defaultTLSKeyFile : string := "/etc/csms/tls/server/tls.key".
Definition defaultTLSClientCAFile : string := "/etc/csms/tls/ca/ca.crt".

Inductive Level : Type := LevelDebug | LevelInfo | LevelWarn | LevelError.

Record Config : Type := mkConfig {
  HTTPAddr : string;
  HeartbeatInterval : Z;
  ShutdownTimeout : Time.Duration;
  Versions : list version;
  LogLevel : Level;
  MySQLDSN : string;
  MySQLMaxOpenConns : Z;
  HandshakeRateLimit : Z;
  RedisURL : string;
  APIKeys : list string;
  CommandRateLimit : Z;
  InstanceID : string;
  SessionLeaseTTL : Time.Duration;
  SessionRenew : Time.Duration;
  TLSCertFile : string;
  TLSKeyFile : string;
  TLSClientCAFile : string;
  TrustedProxyCIDRs : list string
}.

(** The errors, by what they say and of which variable. *)
Inductive config_error : Type :=
  | MustNotBeEmpty (variable : string)
  | MustBePositiveInteger (variable : string)
  | MustBePositiveDuration (variable : string)
  | MustBeLogLevel
  | RenewMustBeShorter
  | InvalidCIDR (cidr : string).

(** The trimmed pieces that are not empty. *)
Fixpoint keep_nonempty (pieces : list string) : list string :=
  match pieces with
  | [] => []
  | candidate :: pieces =>
      let trimmed := TrimSpace candidate in
      if negb (String.eqb trimmed "") then trimmed :: keep_nonempty pieces else keep_nonempty pieces
  end.
Definition splitNonEmpty (value : string) : list string := keep_nonempty (Split value ",").

Section load.
Context (lookup : string → option string).

(** The two shapes of a numeric variable. *)
Definition positive_integer (variable : string) (unset : Z) : result config_error Z :=
  match lookup variable with
  | None => Ok unset
  | Some value =>
      match Atoi value with
      | Some n => if n <=? 0 then Err (MustBePositiveInteger variable) else Ok n
      | None => Err (MustBePositiveInteger variable)
      end
  end.
Definition positive_duration (variable : string) (unset : Time.Duration) :
    result config_error Time.Duration :=
  match lookup variable with
  | None => Ok unset
  | Some value =>
      match Duration.ParseDuration value with
      | Some d => if d <=? 0 then Err (MustBePositiveDuration variable) else Ok d
      | None => Err (MustBePositiveDuration variable)
      end
  end.
Definition trimmed_text (variable unset : string) : string :=
  match lookup variable with Some value => TrimSpace value | None => unset end.

Definition http_addr : result config_error string :=
  match lookup "CSMS_HTTP_ADDR" with
  | None => Ok defaultHTTPAddr
  | Some value =>
      if String.eqb (TrimSpace value) "" then Err (MustNotBeEmpty "CSMS_HTTP_ADDR") else Ok value
  end.

Definition log_level : result config_error Level :=
  match lookup "CSMS_LOG_LEVEL" with
  | None => Ok LevelInfo
  | Some value =>
      let v := ToLower (TrimSpace value) in
      if String.eqb v "debug" then Ok LevelDebug
      else if String.eqb v "info" then Ok LevelInfo
      else if String.eqb v "warn" then Ok LevelWarn
      else if String.eqb v "error" then Ok LevelError
      else Err MustBeLogLevel
  end.

Definition api_keys : list string :=
  match lookup "CSMS_API_KEYS" with
  | Some value => splitNonEmpty value
  | None =>
      match lookup "CSMS_API_KEY" with
      | Some value => if negb (String.eqb (TrimSpace value) "") then [TrimSpace value] else []
      | None => []
      end
  end.

Fixpoint check_cidrs (cidrs : list string) : result config_error unit :=
  match cidrs with
  | [] => Ok tt
  | cidr :: cidrs =>
      match ParseCIDR cidr with None => Err (InvalidCIDR cidr) | Some _ => check_cidrs cidrs end
  end.

Definition trusted_cidrs : result config_error (list string) :=
  match lookup "CSMS_TRUSTED_PROXY_CIDRS" with
  | None => Ok []
  | Some value =>
      let cidrs := splitNonEmpty value in
      let! _ := check_cidrs cidrs in Ok cidrs
  end.

(** The variables in the order of the code, so the first error is the one returned. *)
Definition loadConfig : result config_error Config :=
  let! addr := http_addr in
  let! interval := positive_integer "CSMS_HEARTBEAT_INTERVAL" defaultHeartbeatInterval in
  let! timeout := positive_duration "CSMS_SHUTDOWN_TIMEOUT" defaultShutdownTimeout in
  let! level := log_level in
  let dsn := trimmed_text "CSMS_MYSQL_DSN" "" in
  let! conns := positive_integer "CSMS_MYSQL_MAX_OPEN_CONNS" defaultMySQLMaxOpenConns in
  let! handshakes := positive_integer "CSMS_HANDSHAKE_RATE_LIMIT" defaultHandshakeRateLimit in
  let redis := trimmed_text "CSMS_REDIS_URL" "" in
  let keys := api_keys in
  let! commands := positive_integer "CSMS_COMMAND_RATE_LIMIT" 60 in
  let instance := trimmed_text "CSMS_INSTANCE_ID" "" in
  let! ttl := positive_duration "CSMS_SESSION_LEASE_TTL" defaultSessionLeaseTTL in
  let! renew := positive_duration "CSMS_SESSION_RENEW_INTERVAL" defaultSessionRenew in
  if ttl <=? renew then Err RenewMustBeShorter
  else
    let cert := trimmed_text "CSMS_TLS_CERT_FILE" defaultTLSCertFile in
    let key := trimmed_text "CSMS_TLS_KEY_FILE" defaultTLSKeyFile in
    let ca := trimmed_text "CSMS_TLS_CLIENT_CA_FILE" defaultTLSClientCAFile in
    let! cidrs := trusted_cidrs in
    Ok (mkConfig addr interval timeout [OCPP16; OCPP201; OCPP21] level dsn conns handshakes redis
          keys commands instance ttl renew cert key ca cidrs).
End load.

(** [os.LookupEnv] is the environment of the process. *)
Definition LoadConfig (LookupEnv : string → option string) : result config_error Config :=
  loadConfig LookupEnv.

Example default_config :
  loadConfig (λ _, None) =
  Ok (mkConfig ":8080" 300 (30 * Time.Second) [OCPP16; OCPP201; OCPP21] LevelInfo "" 25 30 "" [] 60 ""
        (30 * Time.Second) (10 * Time.Second) "/etc/csms/tls/server/tls.crt"
        "/etc/csms/tls/server/tls.key" "/etc/csms/tls/ca/ca.crt" []).
Proof. reflexivity. Qed.

(** ** Properties *)

(** A configured list entry. *)
Definition entry (s : string) : Prop := s ≠ "" ∧ trimmed s ∧ has_char "," s = false.

Lemma keep_nonempty_entries pieces :
  Forall (λ p, has_char "," p = false) pieces → Forall entry (keep_nonempty pieces).
Proof.
  induction 1 as [|p pieces Hp _ IH]; cbn [keep_nonempty]; [by constructor|].
  destruct (String.eqb_spec (TrimSpace p) ""); cbn [negb]; [done|]. constructor; [|done].
  split_and!; [done|apply TrimSpace_trimmed|]. destruct (TrimSpace_inside p) as (a & b & E).
  rewrite E, !has_char_app in Hp. bool_to_prop. done.
Qed.

Lemma splitNonEmpty_entries value : Forall entry (splitNonEmpty value).
Proof. apply keep_nonempty_entries. by apply split_from_pieces. Qed.

Lemma keep_nonempty_id l : Forall entry l → keep_nonempty l = l.
Proof.
  induction 1 as [|s l (Hne & Ht & _) _ IH]; [done|]. cbn [keep_nonempty].
  rewrite TrimSpace_id by done. apply String.eqb_neq in Hne. rewrite Hne. cbn. by rewrite IH.
Qed.

(** A list of keys or networks given joined with commas is read back as that list,
    whatever its entries are, as long as they are non-empty, without commas and
    without surrounding white space; and whatever is given, what is read is such a
    list. *)
Theorem joined_list_loads l value :
  Forall entry l →
  splitNonEmpty (join "," l) = l ∧ Forall entry (splitNonEmpty value).
Proof.
  intros Hl. split; [|apply splitNonEmpty_entries]. destruct l as [|x l]; [done|].
  unfold splitNonEmpty. rewrite Split_join; [by apply keep_nonempty_id|done|].
  eapply Forall_impl; [exact Hl|]. by intros s (_ & _ & ?).
Qed.

Section loaded.
Context (lookup : string → option string).

Lemma positive_integer_ok variable unset n :
  0 < unset ≤ int64_max → positive_integer lookup variable unset = Ok n → 0 < n ≤ int64_max.
Proof.
  unfold positive_integer. intros Hu. destruct (lookup variable); [|by intros [= <-]].
  destruct (Atoi _) as [m|] eqn:E; [|done]. case_match; [done|]. intros [= <-].
  apply ParseInt_range in E as [_ ?]. bool_to_prop. lia.
Qed.

Lemma positive_duration_ok variable unset d :
  0 < unset → positive_duration lookup variable unset = Ok d → 0 < d.
Proof.
  unfold positive_duration. intros Hu. repeat case_match; intros; simplify_eq; bool_to_prop; lia.
Qed.

Lemma check_cidrs_parse cidrs u :
  check_cidrs cidrs = Ok u → ∃ nets, parse_nets cidrs = Ok nets ∧ length nets = length cidrs.
Proof.
  induction cidrs as [|c cidrs IH]; cbn; [intros _; by exists []|].
  destruct (ParseCIDR c) as [n|]; [|done]. intros (nets & -> & Hl)%IH. exists (n :: nets).
  cbn. by rewrite Hl.
Qed.

Lemma trusted_cidrs_ok cidrs :
  trusted_cidrs lookup = Ok cidrs →
  Forall entry cidrs ∧
  ∃ r, newTrustedProxyResolver cidrs = Ok r ∧ length (trustedNets r) = length cidrs.
Proof.
  unfold trusted_cidrs, newTrustedProxyResolver. destruct (lookup _) as [v|].
  - destruct (check_cidrs _) as [u|] eqn:E; [|done]. intros [= <-].
    apply check_cidrs_parse in E as (nets & -> & Hl).
    split; [apply splitNonEmpty_entries|by exists (mkResolver nets)].
  - intros [= <-]. split; [constructor|by exists (mkResolver [])].
Qed.

Lemma api_keys_ok : Forall (λ k, k ≠ "" ∧ trimmed k) (api_keys lookup).
Proof.
  unfold api_keys. destruct (lookup "CSMS_API_KEYS") as [v|].
  - eapply Forall_impl; [apply splitNonEmpty_entries|]. by intros k (? & ? & _).
  - destruct (lookup "CSMS_API_KEY") as [v|]; [|constructor].
    destruct (String.eqb_spec (TrimSpace v) ""); [constructor|]. apply Forall_singleton.
    split; [done|apply TrimSpace_trimmed].
Qed.

(** C32: a configuration that loads can be run with: the listen address is not blank, every
    limit is a positive [int64], leases are renewed before they end, no credential is
    empty or padded, and the resolver accepts every trusted network. *)
Theorem loaded_config_sound c :
  loadConfig lookup = Ok c →
  TrimSpace (HTTPAddr c) ≠ "" ∧
  Forall (λ n, 0 < n ≤ int64_max)
    [HeartbeatInterval c; MySQLMaxOpenConns c; HandshakeRateLimit c; CommandRateLimit c] ∧
  0 < ShutdownTimeout c ∧ 0 < SessionRenew c < SessionLeaseTTL c ∧
  Forall (λ k, k ≠ "" ∧ trimmed k) (APIKeys c) ∧
  ∃ r, newTrustedProxyResolver (TrustedProxyCIDRs c) = Ok r ∧
       length (trustedNets r) = length (TrustedProxyCIDRs c).
Proof.
  unfold loadConfig. destruct (http_addr lookup) as [addr|] eqn:Ea; [|done].
  destruct (positive_integer lookup "CSMS_HEARTBEAT_INTERVAL" _) as [n1|] eqn:E1; [|done].
  destruct (positive_duration lookup "CSMS_SHUTDOWN_TIMEOUT" _) as [d1|] eqn:E2; [|done].
  destruct (log_level lookup); [|done].
  destruct (positive_integer lookup "CSMS_MYSQL_MAX_OPEN_CONNS" _) as [n2|] eqn:E3; [|done].
  destruct (positive_integer lookup "CSMS_HANDSHAKE_RATE_LIMIT" _) as [n3|] eqn:E4; [|done].
  destruct (positive_integer lookup "CSMS_COMMAND_RATE_LIMIT" _) as [n4|] eqn:E5; [|done].
  destruct (positive_duration lookup "CSMS_SESSION_LEASE_TTL" _) as [d2|] eqn:E6; [|done].
  destruct (positive_duration lookup "CSMS_SESSION_RENEW_INTERVAL" _) as [d3|] eqn:E7; [|done].
  case_match; [done|]. destruct (trusted_cidrs lookup) as [cidrs|] eqn:Ec; [|done].
  intros [= <-]. cbn. bool_to_prop.
  apply positive_integer_ok in E1, E3, E4, E5; [|by vm_compute..].
  apply positive_duration_ok in E2, E6, E7; [|by vm_compute..].
  apply trusted_cidrs_ok in Ec as [_ ?].
  split_and!; [|by rewrite !Forall_cons|done|done|done|apply api_keys_ok|done].
  revert Ea. unfold http_addr. destruct (lookup _); [|by intros [= <-]].
  destruct (String.eqb_spec (TrimSpace s) ""); [done|]. by intros [= <-].
Qed.
End loaded.

Module ConfigWitnesses.
Definition environment (name : string) : option string :=
  if String.eqb name "CSMS_API_KEYS" then Some " old-key, new-key ,"
  else if String.eqb name "CSMS_SESSION_LEASE_TTL" then Some "1m30s"
  else if String.eqb name "CSMS_TRUSTED_PROXY_CIDRS" then Some "10.0.0.0/8,fd00::/8"
  else if String.eqb name "CSMS_LOG_LEVEL" then Some " WARN " else None.
Definition config : Config :=
  match loadConfig environment with
  | Ok c => c
  | Err _ => mkConfig "" 0 0 [] LevelInfo "" 0 0 "" [] 0 "" 0 0 "" "" "" []
  end.

Lemma loaded_config_sound_witness :
  APIKeys config = ["old-key"; "new-key"] ∧
  (TrimSpace (HTTPAddr config) ≠ "" ∧
  Forall (λ n, 0 < n ≤ int64_max)
    [HeartbeatInterval config; MySQLMaxOpenConns config; HandshakeRateLimit config;
     CommandRateLimit config] ∧
  0 < ShutdownTimeout config ∧ 0 < SessionRenew config < SessionLeaseTTL config ∧
  Forall (λ k, k ≠ "" ∧ trimmed k) (APIKeys config) ∧
  ∃ r, newTrustedProxyResolver (TrustedProxyCIDRs config) = Ok r ∧
       length (trustedNets r) = length (TrustedProxyCIDRs config)).
Proof.
  split; [by_evaluation|]. apply (loaded_config_sound environment config). by_evaluation.
Defined.

Lemma joined_list_loads_witness :
  splitNonEmpty (join "," ["old-key"; "new-key"]) = ["old-key"; "new-key"] ∧
  Forall entry (splitNonEmpty " a,,b ").
Proof.
  apply (joined_list_loads ["old-key"; "new-key"] " a,,b ").
  repeat (apply Forall_cons; split; [split; [discriminate|split; [split; reflexivity|reflexivity]]|]).
  by apply Forall_nil.
Defined.

(** Nothing asks for a lease of a millisecond or more. *)
Example submillisecond_lease_loads :
  (let! c := loadConfig (λ name, if String.eqb name "CSMS_SESSION_LEASE_TTL" then Some "900us"
               else if String.eqb name "CSMS_SESSION_RENEW_INTERVAL" then Some "300us" else None)
   in Ok (SessionLeaseTTL c)) = Ok 900000.
Proof. by_evaluation. Qed.
End ConfigWitnesses.
