(* ===== verification/Migrate.v ===== *)
(** * The database migration (stationstore/mysqlstore/migrate.go)

    The statements of a migration file, executed one by one until one fails. *)

From S2P Require Import Prelude GoStd GoText.

Inductive migrate_error : Type :=
  | DatabaseIsNil
  | ReadMigration
  | ExecuteMigration (statement : string).

Section migrate.
(** The database and [ExecContext] on one statement, which reports whether it was
    executed. *)
Context {D : Type} (ExecContext : string → D → D * bool).

Fixpoint run_statements (statements : list string) (db : D) : D * option migrate_error :=
  match statements with
  | [] => (db, None)
  | statement :: statements =>
      let statement := TrimSpace statement in
      if String.eqb statement "" then run_statements statements db
      else match ExecContext statement db with
           | (db, true) => run_statements statements db
           | (db, false) => (db, Some (ExecuteMigration statement))
           end
  end.

(** [content] is the embedded file, [None] when it cannot be read. *)
Definition Migrate (content : option string) (db : option D) : option D * option migrate_error :=
  match db with
  | None => (None, Some DatabaseIsNil)
  | Some db =>
      match content with
      | None => (Some db, Some ReadMigration)
      | Some text =>
          let '(db, err) := run_statements (Split text ";") db in (Some db, err)
      end
  end.
End migrate.

(** ** Every statement, in order, once *)

(** A database that records what it executes and refuses what [bad] says. *)
Definition logging (bad : string → bool) (s : string) (log : list string) : list string * bool :=
  if bad s then (log, false) else (log ++ [s], true).

Lemma run_statements_log bad statements log log' err :
  run_statements (logging bad) statements log = (log', err) →
  ∃ done_, log' = log ++ done_ ∧ Forall (λ s, bad s = false) done_ ∧
    let wanted := filter (λ s, s ≠ "") (TrimSpace <$> statements) in
    match err with
    | None => done_ = wanted
    | Some e => ∃ s rest, wanted = done_ ++ s :: rest ∧ bad s = true ∧ e = ExecuteMigration s
    end.
Proof.
  revert log. induction statements as [|s statements IH]; intros log; cbn [run_statements].
  { intros [= <- <-]. exists []. by rewrite app_nil_r. }
  cbn [fmap list_fmap]. rewrite filter_cons. destruct (String.eqb_spec (TrimSpace s) "") as [E|E].
  { rewrite decide_False by auto. apply IH. }
  rewrite decide_True by done. unfold logging at 1. destruct (bad (TrimSpace s)) eqn:Eb.
  - intros [= <- <-]. exists []. rewrite app_nil_r. split_and!; [done|constructor|]. by eexists _, _.
  - intros (done_ & -> & Hall & H)%IH. exists (TrimSpace s :: done_).
    rewrite <- app_assoc. split_and!; [done|by constructor|]. destruct err as [e|].
    + destruct H as (s' & rest & -> & ? & ?). by exists s', rest.
    + by rewrite H.
Qed.

Example two_statements :
  Migrate (logging (λ _, false)) (Some "CREATE TABLE a (x INT); CREATE TABLE b (y INT) ; ") (Some [])
  = (Some ["CREATE TABLE a (x INT)"; "CREATE TABLE b (y INT)"], None).
Proof. vm_compute. reflexivity. Qed.
