(* ===== verification/Server.v ===== *)
(** * The runtime's server (runtime/server.go)

    Its construction from a configuration, with the resources it opens and closes,
    the TLS set-up and the authentication of stations, and its life: serving,
    supervising the command consumer, readiness and shutdown. *)

From S2P Require Import Prelude GoStd GoText GoNet TrustedProxy Redis Lease MemoryRegistry RedisRegistry Ownership.
From S2P Require Import CommandBus RateLimit Json Commands CommandAPI StationStore Config.

(** ** TLS *)

(** The file system and [crypto/tls] as [buildTLSConfig] sees them. *)
Record machine : Type := mkMachine {
  Stat : string → option bool;                   (** whether it is a directory *)
  LoadX509KeyPair : string → string → bool;      (** whether the pair loads *)
  ReadFile : string → option string;
  AppendCertsFromPEM : string → bool
}.

(** [ClientAuth] is [VerifyClientCertIfGiven] or left at its default; the minimum
    version is always TLS 1.2. *)
Record tlsConfig : Type := mkTLS { verifyClientCertIfGiven : bool }.

Inductive start_error : Type :=
  | TLSNeedsBoth
  | LoadTLSCertificate
  | ReadTLSClientCA
  | NoValidClientCA
  | OpenMySQL
  | PingMySQL
  | MigrateMySQL
  | MySQLStoreFailed
  | RegisterFailed
  | ParseRedisURL
  | PingRedis
  | RegistryFailed
  | ResolveInstanceID
  | BusFailed
  | CreateHandshakeLimiter
  | CreateProxyResolver
  | CreateOCPPServer.

Definition fileExists (m : machine) (path : string) : bool :=
  if String.eqb path "" then false
  else match Stat m path with Some isDir => negb isDir | None => false end.

Definition buildTLSConfig (m : machine) (config : Config) : result start_error (option tlsConfig) :=
  let certExists := fileExists m (TLSCertFile config) in
  let keyExists := fileExists m (TLSKeyFile config) in
  if negb certExists && negb keyExists then Ok None
  else if negb (Bool.eqb certExists keyExists) then Err TLSNeedsBoth
  else if negb (LoadX509KeyPair m (TLSCertFile config) (TLSKeyFile config)) then
    Err LoadTLSCertificate
  else if fileExists m (TLSClientCAFile config) then
    match ReadFile m (TLSClientCAFile config) with
    | None => Err ReadTLSClientCA
    | Some caBytes =>
        if negb (AppendCertsFromPEM m caBytes) then Err NoValidClientCA
        else Ok (Some (mkTLS true))
    end
  else Ok (Some (mkTLS false)).

(** ** Construction *)

(** A connection pool or client: never opened, open, or closed. *)
Inductive handle : Type := Unopened | Opened | Closed.
Record ledger : Type := mkLedger { database : handle; redis : handle }.
Definition openDatabase (l : ledger) : ledger := mkLedger Opened (redis l).
Definition closeDatabase (l : ledger) : ledger := mkLedger Closed (redis l).
Definition openRedis (l : ledger) : ledger := mkLedger (database l) Opened.
Definition closeRedis (l : ledger) : ledger := mkLedger (database l) Closed.

(** How the calls to other packages and services end. *)
Record outcomes : Type := mkOutcomes {
  sqlOpen : bool;
  databasePing : bool;
  migrate : bool;
  register : bool;                      (** [handlers.Register] *)
  parseURL : bool;
  redisPing : bool;
  Hostname : option string;
  NewIPRateLimiter : Z → bool;
  csmsNew : bool
}.

(** What handles commands when Redis is configured. *)
Record redisParts : Type := mkParts {
  ownership : ownershipManager;
  commandBus : Bus;
  rateLimiter : redisCommandRateLimiter
}.

Record Server : Type := mkServer {
  server_config : Config;
  server_tls : option tlsConfig;
  memoryStore : bool;                   (** the repository is the in-memory one *)
  parts : option redisParts;
  handshakeRateLimit : Z;
  proxyResolver : trustedProxyResolver;
  clientCertificateProfile : bool       (** [SecurityProfileTLSClientCertificate] with
                                            the authenticator *)
}.

(** [if handle != nil { handle.Close() }] *)
Definition closeDatabaseIfOpen (present : bool) (l : ledger) : ledger :=
  if present then closeDatabase l else l.
Definition closeRedisIfOpen (present : bool) (l : ledger) : ledger :=
  if present then closeRedis l else l.

(** Connecting to MySQL when it is configured; the flag says whether [database] is
    not nil afterwards. *)
Definition connectMySQL (x : outcomes) (config : Config) (l : ledger) :
    ledger * result start_error bool :=
  if String.eqb (MySQLDSN config) "" then (l, Ok false)
  else if negb (sqlOpen x) then (l, Err OpenMySQL)
  else
    let l := openDatabase l in
    if negb (databasePing x) then (closeDatabase l, Err PingMySQL)
    else if negb (migrate x) then (closeDatabase l, Err MigrateMySQL)
    else match MySQLStore.New (Some tt) with
         | Err _ => (closeDatabase l, Err MySQLStoreFailed)
         | Ok _ => (l, Ok true)
         end.

(** Connecting to Redis when it is configured. *)
Definition connectRedis (x : outcomes) (config : Config) (hasDatabase : bool) (l : ledger) :
    ledger * result start_error (option redisParts) :=
  if String.eqb (RedisURL config) "" then (l, Ok None)
  else if negb (parseURL x) then (closeDatabaseIfOpen hasDatabase l, Err ParseRedisURL)
  else
    let l := openRedis l in
    if negb (redisPing x) then (closeDatabaseIfOpen hasDatabase (closeRedis l), Err PingRedis)
    else match RedisRegistry.RedisStore.New (Some tt) "csms" with
    | Err _ => (closeDatabaseIfOpen hasDatabase (closeRedis l), Err RegistryFailed)
    | Ok _ =>
        let instanceID := if String.eqb (InstanceID config) "" then Hostname x
                          else Some (InstanceID config) in
        match instanceID with
        | None => (closeDatabaseIfOpen hasDatabase (closeRedis l), Err ResolveInstanceID)
        | Some id =>
            match CommandBus.New (Some tt) "csms" (5 * Time.Minute) with
            | Err _ => (closeDatabaseIfOpen hasDatabase (closeRedis l), Err BusFailed)
            | Ok (_, bus) =>
                (l, Ok (Some (mkParts
                   (newOwnershipManager id (SessionLeaseTTL config) (SessionRenew config)) bus
                   (mkLimiter "csms" (wrap_int64 (CommandRateLimit config)) Time.Minute))))
            end
        end
    end.

(** From the handshake limiter on: what is built over the connections, which are closed
    when a part cannot be. *)
Definition assemble (x : outcomes) (config : Config) (tls : option tlsConfig) (hasDatabase : bool)
    (parts : option redisParts) (l : ledger) : ledger * result start_error Server :=
  let hasRedis := bool_decide (is_Some parts) in
  let closeAll l := closeDatabaseIfOpen hasDatabase (closeRedisIfOpen hasRedis l) in
  let rateLimit := if HandshakeRateLimit config <=? 0 then defaultHandshakeRateLimit
                   else HandshakeRateLimit config in
  if negb (NewIPRateLimiter x rateLimit) then (closeAll l, Err CreateHandshakeLimiter)
  else match newTrustedProxyResolver (TrustedProxyCIDRs config) with
  | Err _ => (closeAll l, Err CreateProxyResolver)
  | Ok resolver =>
      let mutual := match tls with Some t => verifyClientCertIfGiven t | None => false end in
      if negb (csmsNew x) then (closeAll l, Err CreateOCPPServer)
      else (l, Ok (mkServer config tls (negb hasDatabase) parts rateLimit resolver mutual))
  end.

Definition New (m : machine) (x : outcomes) (config : Config) : ledger * result start_error Server :=
  let l := mkLedger Unopened Unopened in
  match buildTLSConfig m config with
  | Err e => (l, Err e)
  | Ok tls =>
      match connectMySQL x config l with
      | (l, Err e) => (l, Err e)
      | (l, Ok hasDatabase) =>
          if negb (register x) then (closeDatabaseIfOpen hasDatabase l, Err RegisterFailed)
          else match connectRedis x config hasDatabase l with
          | (l, Err e) => (l, Err e)
          | (l, Ok parts) => assemble x config tls hasDatabase parts l
          end
      end
  end.

(** ** Authentication of stations *)

(** The common names of the certificates a client presented; [None] without TLS. *)
Record AuthenticationRequest : Type := mkAuth { auth_Identity : string; PeerCertificates : option (list string) }.

(** The authenticator of the client certificate profile: the principal, or an error. *)
Definition Authenticator (request : AuthenticationRequest) : option string :=
  match PeerCertificates request with
  | Some (commonName :: _) =>
      if String.eqb commonName (auth_Identity request) then Some (auth_Identity request) else None
  | _ => None
  end.

(** [csms.LogLevel] and the level its records are logged at. *)
Inductive LogLevel : Type := LogDebug | LogInfo | LogWarn | LogError.
Definition ocppLogLevel (level : LogLevel) : Level :=
  match level with
  | LogDebug => LevelDebug
  | LogWarn => LevelWarn
  | LogError => LevelError
  | LogInfo => LevelInfo
  end.

(** ** Routing

    [http.ServeMux] for patterns without method, host or wildcard, on a clean path
    (any other path is redirected to its clean form first). *)

Inductive endpoint : Type := Live | Readiness | Metrics | CommandEndpoint | OCPPEndpoint.
Inductive routed : Type := Handled (e : endpoint) | RedirectToSlash | NotRouted.

Definition matches (pattern path : string) : bool :=
  String.eqb pattern path || (Strings.HasSuffix pattern "/" && Strings.HasPrefix path pattern).

(** The most specific pattern is the longest one that matches. *)
Fixpoint most_specific (table : list (string * endpoint)) (path : string) : option (string * endpoint) :=
  match table with
  | [] => None
  | (pattern, e) :: table =>
      let rest := most_specific table path in
      if matches pattern path then
        match rest with
        | Some (q, _) => if (String.length pattern <? String.length q)%nat then rest else Some (pattern, e)
        | None => Some (pattern, e)
        end
      else rest
  end.

Definition registered (table : list (string * endpoint)) (pattern : string) : bool :=
  existsb (λ row, String.eqb (fst row) pattern) table.

Definition ServeMux (table : list (string * endpoint)) (path : string) : routed :=
  if negb (registered table path) && negb (Strings.HasSuffix path "/") && registered table (path +:+ "/")
  then RedirectToSlash
  else match most_specific table path with Some (_, e) => Handled e | None => NotRouted end.

(** The patterns [New] registers. *)
Definition routes : list (string * endpoint) :=
  [("/livez", Live); ("/readyz", Readiness); ("/metrics", Metrics);
   ("/api/v1/stations/", CommandEndpoint); ("/", OCPPEndpoint)].

(** ** Properties of construction *)

Definition released (h : handle) : Prop := h ≠ Opened.

Lemma connectMySQL_spec x config l l' r :
  connectMySQL x config l = (l', r) → database l = Unopened → redis l = Unopened →
  redis l' = Unopened ∧
  match r with
  | Err _ => released (database l')
  | Ok true => database l' = Opened ∧ MySQLDSN config ≠ ""
  | Ok false => database l' = Unopened ∧ MySQLDSN config = ""
  end.
Proof.
  unfold connectMySQL, released. destruct (String.eqb_spec (MySQLDSN config) "") as [E|E].
  { intros [= <- <-]. by rewrite E. }
  destruct (sqlOpen x); cbn [negb]; [|intros [= <- <-] -> ->; done].
  destruct (databasePing x); cbn [negb]; [|by intros [= <- <-]].
  destruct (migrate x); cbn [negb]; [|by intros [= <- <-]].
  by intros [= <- <-].
Qed.

Lemma connectRedis_spec x config hasDatabase l l' r :
  connectRedis x config hasDatabase l = (l', r) →
  database l = (if hasDatabase then Opened else Unopened) → redis l = Unopened →
  match r with
  | Err _ => released (database l') ∧ released (redis l')
  | Ok (Some _) => database l' = database l ∧ redis l' = Opened ∧ RedisURL config ≠ ""
  | Ok None => database l' = database l ∧ redis l' = Unopened ∧ RedisURL config = ""
  end.
Proof.
  unfold connectRedis, released. destruct (String.eqb_spec (RedisURL config) "") as [E|E].
  { by intros [= <- <-]. }
  cbn [RedisRegistry.RedisStore.New CommandBus.New].
  destruct (parseURL x); cbn [negb]; [|intros [= <- <-] Hd Hr; destruct hasDatabase; cbn; split; congruence].
  destruct (redisPing x); cbn [negb]; [|intros [= <- <-] Hd Hr; destruct hasDatabase; cbn; split; congruence].
  destruct (if String.eqb (InstanceID config) "" then _ else _);
    [by intros [= <- <-]|intros [= <- <-] Hd Hr; destruct hasDatabase; cbn; split; congruence].
Qed.

(** The connections after [New]. *)
Lemma New_connections m x config l r :
  New m x config = (l, r) →
  match r with
  | Err _ => released (database l) ∧ released (redis l)
  | Ok s =>
      database l = (if String.eqb (MySQLDSN config) "" then Unopened else Opened) ∧
      redis l = (if String.eqb (RedisURL config) "" then Unopened else Opened) ∧
      memoryStore s = String.eqb (MySQLDSN config) "" ∧
      (is_Some (parts s) ↔ RedisURL config ≠ "")
  end.
Proof.
  unfold New, assemble. destruct (buildTLSConfig m config) as [tls|e]; [|by intros [= <- <-]].
  destruct (connectMySQL x config _) as [l1 [db|e]] eqn:E1;
    (apply connectMySQL_spec in E1 as [Hr1 H1]; [|done..]); [|intros [= <- <-]; by rewrite Hr1].
  assert (database l1 = (if db then Opened else Unopened) ∧ db = negb (String.eqb (MySQLDSN config) ""))
    as [Hd1 Hdb].
  { destruct db, H1 as [-> HE]; [apply String.eqb_neq in HE|apply String.eqb_eq in HE]; by rewrite HE. }
  destruct (register x); cbn [negb];
    [|intros [= <- <-]; unfold released; destruct db; cbn; rewrite ?Hd1, ?Hr1; done].
  destruct (connectRedis x config db l1) as [l2 [ps|e]] eqn:E2;
    apply connectRedis_spec in E2; try done; [|by intros [= <- <-]].
  assert (database l2 = database l1 ∧ redis l2 = (if String.eqb (RedisURL config) "" then Unopened else Opened)
    ∧ (is_Some ps ↔ RedisURL config ≠ "")) as (Hd2 & Hr2 & Hps).
  { destruct ps as [ps|]; destruct E2 as (? & -> & HE).
    - rewrite (proj2 (String.eqb_neq _ _) HE). split; [done|]. split; [done|]. split; eauto.
    - rewrite HE. split; [done|]. split; [done|]. split; [by intros []|done]. }
  assert (released (database (closeDatabaseIfOpen db (closeRedisIfOpen (bool_decide (is_Some ps)) l2))) ∧
          released (redis (closeDatabaseIfOpen db (closeRedisIfOpen (bool_decide (is_Some ps)) l2)))) as Hclose.
  { unfold released. destruct (String.eqb_spec (RedisURL config) "") as [HE|HE].
    - rewrite bool_decide_eq_false_2 by (rewrite Hps; auto). cbn. destruct db; cbn; rewrite ?Hd2, ?Hd1, Hr2; done.
    - rewrite bool_decide_eq_true_2 by (by rewrite Hps). cbn. destruct db; cbn; rewrite ?Hd2, ?Hd1; done. }
  destruct (NewIPRateLimiter x _); cbn [negb]; [|by intros [= <- <-]].
  destruct (newTrustedProxyResolver _); [|by intros [= <- <-]].
  destruct (csmsNew x); cbn [negb]; [|by intros [= <- <-]].
  intros [= <- <-]. cbn. rewrite Hd2, Hd1, Hr2, Hdb. split_and!; try done; [|by rewrite negb_involutive].
  by destruct (String.eqb (MySQLDSN config) "").
Qed.

(** C19: a server that cannot be built leaves nothing open, whichever step failed; one
    that is built has exactly the connections its configuration asks for. *)
Theorem new_releases_on_error m x config l r :
  New m x config = (l, r) →
  match r with
  | Err _ => released (database l) ∧ released (redis l)
  | Ok s =>
      database l = (if String.eqb (MySQLDSN config) "" then Unopened else Opened) ∧
      redis l = (if String.eqb (RedisURL config) "" then Unopened else Opened) ∧
      memoryStore s = String.eqb (MySQLDSN config) "" ∧
      (is_Some (parts s) ↔ RedisURL config ≠ "")
  end.
Proof. apply New_connections. Qed.

(** C20: when a client authority is installed beside the server's certificate, stations
    are asked for a certificate, and the authenticator lets a station in exactly when
    the first certificate it presents names its identity. *)
Theorem mutual_tls_binds_identity m x config l s request p :
  New m x config = (l, Ok s) →
  (clientCertificateProfile s = true ↔
     fileExists m (TLSCertFile config) = true ∧ fileExists m (TLSClientCAFile config) = true) ∧
  (Authenticator request = Some p ↔
     p = auth_Identity request ∧ ∃ others, PeerCertificates request = Some (p :: others)).
Proof.
  intros H. split.
  - revert H. unfold New, assemble. destruct (buildTLSConfig m config) as [tls|e] eqn:Et; [|done]. intros H.
    assert (clientCertificateProfile s =
      match tls with Some t => verifyClientCertIfGiven t | None => false end) as ->.
    { repeat (case_match; simplify_eq/=; try done). }
    revert Et. unfold buildTLSConfig.
    destruct (fileExists m (TLSCertFile config)) eqn:Ec, (fileExists m (TLSKeyFile config)) eqn:Ek;
      cbn [negb andb Bool.eqb]; try (intros [= <-]; naive_solver).
    destruct (LoadX509KeyPair _ _ _); cbn [negb]; [|done].
    destruct (fileExists m (TLSClientCAFile config)); [|intros [= <-]; naive_solver].
    destruct (ReadFile _ _); [|done]. destruct (AppendCertsFromPEM _ _); [|done].
    intros [= <-]. naive_solver.
  - unfold Authenticator. destruct (PeerCertificates request) as [[|cn others]|]; [naive_solver| |naive_solver].
    destruct (String.eqb_spec cn (auth_Identity request)) as [->|Hne]; naive_solver.
Qed.

(** *** Routing *)

(** Exact patterns, the subtree of the command API, and the rest. *)
Lemma routes_spec path :
  Strings.HasPrefix path "/" = true →
  ServeMux routes path =
    if String.eqb path "/livez" then Handled Live
    else if String.eqb path "/readyz" then Handled Readiness
    else if String.eqb path "/metrics" then Handled Metrics
    else if String.eqb path "/api/v1/stations" then RedirectToSlash
    else if Strings.HasPrefix path pathPrefix then Handled CommandEndpoint
    else Handled OCPPEndpoint.
Proof.
  intros Hslash.
  destruct (String.eqb_spec path "/livez") as [->|H1]; [done|].
  destruct (String.eqb_spec path "/readyz") as [->|H2]; [done|].
  destruct (String.eqb_spec path "/metrics") as [->|H3]; [done|].
  destruct (String.eqb_spec path "/api/v1/stations") as [->|H4]; [done|].
  assert (registered routes (path +:+ "/") = false ∨ path = "") as [Hr| ->]; [| |done].
  { destruct (String.eqb_spec path "") as [|Hne]; [auto|left].
    apply not_true_iff_false. intros H. apply existsb_exists in H as ([q e] & Hin & E).
    apply String.eqb_eq, Strings.strip_suffix_spec in E.
    by repeat (destruct Hin as [[= <- <-]|Hin]; [vm_compute in E; congruence|]). }
  unfold ServeMux. rewrite Hr, andb_false_r. cbn [routes most_specific]. unfold matches.
  rewrite (proj2 (String.eqb_neq "/livez" path)), (proj2 (String.eqb_neq "/readyz" path)),
    (proj2 (String.eqb_neq "/metrics" path)) by congruence.
  rewrite Hslash.
  change (Strings.HasSuffix "/livez" "/") with false. change (Strings.HasSuffix "/readyz" "/") with false.
  change (Strings.HasSuffix "/metrics" "/") with false.
  change (Strings.HasSuffix "/api/v1/stations/" "/") with true.
  change (Strings.HasSuffix "/" "/") with true. cbn [orb andb]. rewrite orb_true_r.
  destruct (String.eqb_spec "/api/v1/stations/" path) as [<-|_]; [done|]. cbn [orb].
  unfold pathPrefix. by destruct (Strings.HasPrefix path "/api/v1/stations/").
Qed.

(** Every request the command API answers reaches it. *)
Lemma reset_path_routed path identity :
  resetPathIdentity path = (identity, true) → ServeMux routes path = Handled CommandEndpoint.
Proof.
  unfold resetPathIdentity. destruct (Strings.HasPrefix path pathPrefix) eqn:Hp; [|done]. intros _.
  apply Strings.HasPrefix_true in Hp as [r ->].
  rewrite routes_spec by (by apply Strings.HasPrefix_true; eexists).
  assert (Strings.HasPrefix (pathPrefix +:+ r) pathPrefix = true) as -> by (apply Strings.HasPrefix_true; eauto).
  done.
Qed.

(** ** The life of a server

    [serve] runs in three goroutines: the main one, the HTTP server, and the
    supervisor of the command consumer.  A step is one action of one of them on the
    state they share: the readiness flag, the contexts, the channel of the HTTP
    server's result and the connections. *)

Module Life.
Inductive serve_error : Type := ErrServerClosed | ServeFailed (text : string).

(** Where the select of [serve] ended. *)
Inductive ending : Type := ByServer | ByContext.

Inductive main_pc : Type :=
  | Starting
  | Serving
  | ServerEnded (e : serve_error)        (** the channel was received from *)
  | ServerEndedUnready (e : serve_error)
  | ContextDone
  | ContextDoneUnready
  | RunCanceled
  | OCPPShutDown
  | HTTPShutDown
  | DatabaseClosed
  | Returned (how : ending).

(** [runCommandConsumer] *)
Inductive consumer_pc : Type :=
  | NoConsumer
  | Consuming                            (** inside [RunConsumer] *)
  | ConsumerReturned
  | ConsumerFailed
  | Waiting
  | Pinging
  | Recovered
  | Exited.

Record t : Type := mkLife {
  main : main_pc;
  consumer : consumer_pc;
  http : option serve_error;             (** what [errCh] holds *)
  ready : bool;
  ctxDone : bool;                        (** the context given to [serve] *)
  runCanceled : bool;                    (** [cancelRun] was called *)
  held : ledger;
  errors : list string                   (** what [errors.Join] gets *)
}.

(** [runCtx.Err() != nil] *)
Definition runDone (s : t) : bool := ctxDone s || runCanceled s.

Definition set_main (s : t) (p : main_pc) : t :=
  mkLife p (consumer s) (http s) (ready s) (ctxDone s) (runCanceled s) (held s) (errors s).
Definition set_consumer (s : t) (p : consumer_pc) : t :=
  mkLife (main s) p (http s) (ready s) (ctxDone s) (runCanceled s) (held s) (errors s).
Definition set_ready (s : t) (b : bool) : t :=
  mkLife (main s) (consumer s) (http s) b (ctxDone s) (runCanceled s) (held s) (errors s).
Definition set_canceled (s : t) : t :=
  mkLife (main s) (consumer s) (http s) (ready s) (ctxDone s) true (held s) (errors s).
Definition set_held (s : t) (l : ledger) : t :=
  mkLife (main s) (consumer s) (http s) (ready s) (ctxDone s) (runCanceled s) l (errors s).
Definition add_error (s : t) (e : option string) : t :=
  mkLife (main s) (consumer s) (http s) (ready s) (ctxDone s) (runCanceled s) (held s)
    (errors s ++ match e with Some e => [e] | None => [] end).

Definition isOpen (h : handle) : bool := match h with Opened => true | _ => false end.

(** [Run]: a listener, or everything is closed again. *)
Definition Run (listens : bool) (l : ledger) : result ledger t :=
  if negb listens
  then Err (closeRedisIfOpen (isOpen (redis l)) (closeDatabaseIfOpen (isOpen (database l)) l))
  else Ok (mkLife Starting NoConsumer None false false false l []).

Inductive step (s : Server) : t → t → Prop :=
  (* the environment *)
  | cancel_ctx st :
      step s st (mkLife (main st) (consumer st) (http st) (ready st) true (runCanceled st) (held st)
                   (errors st))
  | http_ends st e :
      main st ≠ Starting → http st = None →
      step s st (mkLife (main st) (consumer st) (Some e) (ready st) (ctxDone st) (runCanceled st)
                   (held st) (errors st))
  (* [serve] *)
  | start st :
      main st = Starting →
      step s st (set_consumer (set_main (set_ready st true) Serving)
                   (match parts s with Some _ => Consuming | None => NoConsumer end))
  | select_server st e :
      main st = Serving → http st = Some e → step s st (set_main st (ServerEnded e))
  | server_unready st e :
      main st = ServerEnded e →
      step s st (set_main (set_ready st false) (ServerEndedUnready e))
  | server_return st e :
      main st = ServerEndedUnready e →
      step s st (set_main (set_canceled (add_error st
        match e with ErrServerClosed => None | ServeFailed text => Some text end)) (Returned ByServer))
  | select_ctx st :
      main st = Serving → ctxDone st = true → step s st (set_main st ContextDone)
  | ctx_unready st :
      main st = ContextDone → step s st (set_main (set_ready st false) ContextDoneUnready)
  | ctx_cancel st :
      main st = ContextDoneUnready → step s st (set_main (set_canceled st) RunCanceled)
  | shutdown_ocpp st err :
      main st = RunCanceled → step s st (set_main (add_error st err) OCPPShutDown)
  | shutdown_http st err :
      main st = OCPPShutDown → step s st (set_main (add_error st err) HTTPShutDown)
  | close_database st err :
      main st = HTTPShutDown →
      step s st (set_main (if isOpen (database (held st))
                           then add_error (set_held st (closeDatabase (held st))) err else st)
                   DatabaseClosed)
  | close_redis st err :
      main st = DatabaseClosed →
      step s st (set_main (if isOpen (redis (held st))
                           then add_error (set_held st (closeRedis (held st))) err else st)
                   (Returned ByContext))
  (* [runCommandConsumer] *)
  | consumer_returns st : consumer st = Consuming → step s st (set_consumer st ConsumerReturned)
  | consumer_ends st :
      consumer st = ConsumerReturned → runDone st = true → step s st (set_consumer st Exited)
  | consumer_fails st :
      consumer st = ConsumerReturned → runDone st = false → step s st (set_consumer st ConsumerFailed)
  | consumer_unready st :
      consumer st = ConsumerFailed → step s st (set_consumer (set_ready st false) Waiting)
  | wait_ends st : consumer st = Waiting → runDone st = true → step s st (set_consumer st Exited)
  | wait_timer st : consumer st = Waiting → step s st (set_consumer st Pinging)
  | ping_fails st : consumer st = Pinging → step s st (set_consumer st Waiting)
  | ping_succeeds st : consumer st = Pinging → step s st (set_consumer st Recovered)
  | consumer_ready st :
      consumer st = Recovered → step s st (set_consumer (set_ready st true) Consuming).

(** Reached from a listener with connections [l]. *)
Inductive reachable (s : Server) (l : ledger) : t → Prop :=
  | reach_init st : Run true l = Ok st → reachable s l st
  | reach_step st st' : reachable s l st → step s st st' → reachable s l st'.

(** *** Readiness *)

(** Where the supervisor of the consumer is when it has no failure on record: there is
    none, [RunConsumer] runs, or it has returned and the flag is not cleared yet.  The
    other places are those between the two stores to the flag. *)
Definition no_failure_noted (c : consumer_pc) : bool :=
  match c with NoConsumer | Consuming | ConsumerReturned | ConsumerFailed => true | _ => false end.

Definition ready_inv (st : t) : Prop :=
  match main st with
  | Starting => consumer st = NoConsumer ∧ runCanceled st = false
  | Serving => runCanceled st = false ∧
      match consumer st with Exited => ctxDone st = true | c => ready st = no_failure_noted c end
  | _ => True
  end.

Lemma ready_inv_step s st st' : ready_inv st → step s st st' → ready_inv st'.
Proof.
  unfold ready_inv. intros Hinv Hstep.
  destruct Hstep; destruct st as [m c h r d k l errs]; cbn in *; subst;
    try (destruct m; destruct_and?; simplify_eq/=; try done; destruct c; done); try done.
  all: try (destruct (parts s); destruct_and?; subst; done).
  all: try (destruct m; destruct_and?; simplify_eq/=; try done; unfold runDone in *; cbn in *;
            subst; by rewrite ?orb_false_r in *).
  all: try (by destruct (isOpen _)).
Qed.

Lemma ready_inv_reachable s l st : reachable s l st → ready_inv st.
Proof.
  induction 1 as [st E|]; [|by eapply ready_inv_step]. unfold Run in E. cbn in E.
  by injection E as <-.
Qed.

(** C21: while the server serves and its context is not done, it is ready exactly when
    the supervisor of its command consumer has no failure on record: readiness is lost
    once it notices that the consumer returned and comes back when Redis answers again.
    A server without a command bus is ready throughout. *)
Theorem readiness_tracks_consumer s l st :
  reachable s l st → main st = Serving → ctxDone st = false → ready st = no_failure_noted (consumer st).
Proof.
  intros Hinv%ready_inv_reachable Hm Hd. unfold ready_inv in Hinv. rewrite Hm in Hinv.
  destruct Hinv as [_ H]. destruct (consumer st); congruence.
Qed.

(** *** Shutdown *)

Definition held_inv (st : t) : Prop :=
  match main st with
  | DatabaseClosed => released (database (held st)) ∧ runCanceled st = true
  | Returned ByContext =>
      released (database (held st)) ∧ released (redis (held st)) ∧ runCanceled st = true
  | RunCanceled | OCPPShutDown | HTTPShutDown => runCanceled st = true
  | _ => True
  end.

Lemma held_inv_step s st st' : held_inv st → step s st st' → held_inv st'.
Proof.
  unfold held_inv, released. intros Hinv Hstep.
  destruct Hstep; destruct st as [m c h r d k [db rd] errs]; cbn in *; subst; try done.
  - by destruct db; cbn in *.
  - destruct_and?. by destruct rd; cbn in *.
Qed.

Lemma held_inv_reachable s l st : reachable s l st → held_inv st.
Proof.
  induction 1 as [st E|]; [|by eapply held_inv_step]. unfold Run in E. cbn in E.
  by injection E as <-.
Qed.

(** A server that returns because its context is done has closed its connections
    and canceled the context of its consumer. *)
Theorem shutdown_closes s l st :
  reachable s l st → main st = Returned ByContext →
  released (database (held st)) ∧ released (redis (held st)) ∧ runDone st = true.
Proof.
  intros Hinv%held_inv_reachable Hm. unfold held_inv in Hinv. rewrite Hm in Hinv.
  destruct Hinv as (? & ? & Hc). unfold runDone. by rewrite Hc, orb_true_r.
Qed.

(** A server that cannot listen closes its connections. *)
Lemma listen_failure_closes l l' : Run false l = Err l' → released (database l') ∧ released (redis l').
Proof. unfold Run, released. destruct l as [[] []]; cbn; by intros [= <-]. Qed.

(** *** Concrete runs *)

Definition trivial : Server :=
  mkServer (match loadConfig (λ _, None) with
            | Ok c => c
            | Err _ => mkConfig "" 0 0 [] LevelInfo "" 0 0 "" [] 0 "" 0 0 "" "" "" []
            end) None false
    (Some (mkParts (newOwnershipManager "a" 30 10) (mkBus "csms" 60)
             (mkLimiter "csms" 60 Time.Minute)))
    30 (mkResolver []) false.
Definition connections : ledger := mkLedger Opened Opened.
Definition begin : t := mkLife Starting NoConsumer None false false false connections [].
Definition serving : t := mkLife Serving Consuming None true false false connections [].

Lemma begin_reachable : reachable trivial connections begin.
Proof. by constructor. Qed.
Lemma serving_reachable : reachable trivial connections serving.
Proof. eapply reach_step; [apply begin_reachable|]. by apply (start trivial begin). Qed.

(** Extends a reachable state by one step. *)
Ltac advance H rule :=
  let H' := fresh in
  epose proof (reach_step _ _ _ _ H ltac:(eapply rule; first [reflexivity|discriminate])) as H';
  cbn in H'; clear H; rename H' into H.

(** The readiness flag can be set after the shutdown: the supervisor has just seen
    Redis answer when the context ends, and stores [true] after [serve] stored
    [false]. *)
Lemma ready_after_shutdown :
  reachable trivial connections
    (mkLife (Returned ByContext) Consuming None true true true (mkLedger Closed Closed) []).
Proof.
  pose proof serving_reachable as H.
  advance H consumer_returns.
  advance H consumer_fails.
  advance H consumer_unready.
  advance H wait_timer.
  advance H ping_succeeds.
  advance H cancel_ctx.
  advance H select_ctx.
  advance H ctx_unready.
  advance H ctx_cancel.
  advance H (λ st, shutdown_ocpp trivial st None).
  advance H (λ st, shutdown_http trivial st None).
  advance H (λ st, close_database trivial st None).
  advance H (λ st, close_redis trivial st None).
  advance H consumer_ready.
  exact H.
Qed.

(** A server whose HTTP server ended returns with its connections open. *)
Lemma server_error_keeps_connections :
  reachable trivial connections
    (mkLife (Returned ByServer) Consuming (Some (ServeFailed "accept")) false false true connections
       ["accept"]).
Proof.
  pose proof serving_reachable as H.
  advance H (http_ends trivial serving (ServeFailed "accept")).
  advance H select_server.
  advance H server_unready.
  advance H server_return.
  exact H.
Qed.
End Life.

(** ** Witnesses *)

Module ServerWitnesses.
Import Life.

(** A machine with a certificate, its key and a client authority. *)
Definition host : machine := mkMachine (λ _, Some false) (λ _ _, true) (λ _, Some "pem") (λ _, true).
Definition fine : outcomes := mkOutcomes true true true true true true (Some "pod-0") (λ _, true) true.
Definition no_redis : outcomes := mkOutcomes true true true true true false None (λ _, true) true.
Definition config : Config :=
  mkConfig ":8080" 300 30 [OCPP16] LevelInfo "dsn" 25 30 "redis://r" ["k"] 60 "" (30 * Time.Second)
    (10 * Time.Second) "crt" "key" "ca" ["10.0.0.0/8"].
Definition built : ledger * result start_error Server := New host fine config.
Definition failed : ledger * result start_error Server := New host no_redis config.

Definition station : AuthenticationRequest := mkAuth "CP1" (Some ["CP1"; "intermediate"]).

Lemma new_releases_on_error_witness :
  failed.2 = Err PingRedis ∧ released (database failed.1) ∧ released (redis failed.1).
Proof.
  split; [by_evaluation|].
  apply (new_releases_on_error host no_redis config failed.1 (Err PingRedis)). by_evaluation.
Defined.

Definition server : Server := match built.2 with Ok s => s | Err _ => trivial end.

Lemma mutual_tls_binds_identity_witness :
  Authenticator station = Some "CP1" ∧
  (clientCertificateProfile server = true ↔
     fileExists host (TLSCertFile config) = true ∧ fileExists host (TLSClientCAFile config) = true) ∧
  (Authenticator station = Some "CP1" ↔
     "CP1" = auth_Identity station ∧ ∃ others, PeerCertificates station = Some ("CP1" :: others)).
Proof.
  split; [reflexivity|].
  apply (mutual_tls_binds_identity host fine config built.1 server station "CP1"). by_evaluation.
Defined.

Lemma readiness_tracks_consumer_witness : ready serving = true ∧ ready serving = no_failure_noted (consumer serving).
Proof.
  split; [reflexivity|].
  apply (readiness_tracks_consumer trivial connections serving); [apply serving_reachable|reflexivity..].
Defined.

Lemma shutdown_closes_witness :
  let st := mkLife (Returned ByContext) Consuming None true true true (mkLedger Closed Closed) [] in
  released (database (held st)) ∧ released (redis (held st)) ∧ runDone st = true.
Proof.
  apply (shutdown_closes trivial connections); [apply ready_after_shutdown|reflexivity].
Defined.
End ServerWitnesses.
