(* ===== verification/Process.v ===== *)
(** * The runtime's process (cmd/csms-server/main.go)

    From the environment to the exit status: the configuration is loaded, the server is
    built, listens and serves until a signal ends its context, and shuts down. *)

From S2P Require Import Prelude GoStd Redis Lease MemoryRegistry RedisRegistry Ownership.
From S2P Require Import CommandBus RateLimit Json Commands CommandAPI StationStore Config Server.
Import Life.

(** ** Start and exit *)

Inductive process : Type :=
  | Exits (status : Z) (l : ledger)         (** [os.Exit], with the connections as they are *)
  | Serves (s : Server) (st : Life.t).

Definition server_main (environment : string → option string) (m : machine) (x : outcomes)
    (listens : bool) : process :=
  match LoadConfig environment with
  | Err _ => Exits 2 (mkLedger Unopened Unopened)
  | Ok config =>
      match New m x config with
      | (l, Err _) => Exits 1 l
      | (l, Ok server) =>
          match Run listens l with
          | Err l => Exits 1 l
          | Ok st => Serves server st
          end
      end
  end.

(** [errors.Is] on what [errors.Join] made of the errors: [canceled] tells which of them
    are [context.Canceled]. *)
Definition exit_status (canceled : string → bool) (st : Life.t) : option Z :=
  match main st with
  | Returned _ =>
      Some (match errors st with
            | [] => 0
            | es => if existsb canceled es then 0 else 1
            end)
  | _ => None
  end.

(** ** Shutdown *)

(** How many steps [serve] has in front of it at most. *)
Definition ahead (p : main_pc) : nat :=
  match p with
  | Starting => 8
  | Serving => 7
  | ContextDone => 6
  | ContextDoneUnready => 5
  | RunCanceled => 4
  | OCPPShutDown => 3
  | HTTPShutDown => 2
  | DatabaseClosed => 1
  | ServerEnded _ => 2
  | ServerEndedUnready _ => 1
  | Returned _ => 0
  end.

(** Steps of the whole server, of which [n] are steps of [serve]. *)
Inductive runs (s : Server) : Life.t → nat → Life.t → Prop :=
  | runs_none st : runs s st 0 st
  | runs_other st st' n st'' :
      step s st st' → main st' = main st → runs s st' n st'' → runs s st n st''
  | runs_main st st' n st'' :
      step s st st' → main st' ≠ main st → runs s st' n st'' → runs s st (S n) st''.

Lemma step_main s st st' : step s st st' → main st' = main st ∨ (ahead (main st') < ahead (main st))%nat.
Proof.
  intros H. destruct H; cbn; auto.
  all: try match goal with H : main ?st = _ |- _ => rewrite H; cbn; right; lia end.
Qed.

Lemma runs_bounded s st n st' : runs s st n st' → (n + ahead (main st') ≤ ahead (main st))%nat.
Proof.
  induction 1 as [st|st st' n st'' Hs Hm _ IH|st st' n st'' Hs Hm _ IH]; [lia|by rewrite <- Hm|].
  apply step_main in Hs as [?|?]; [done|lia].
Qed.

(** With its context done [serve] always has a next step. *)
Lemma serve_proceeds s st :
  ctxDone st = true → (∀ how, main st ≠ Returned how) → ∃ st', step s st st' ∧ main st' ≠ main st.
Proof.
  intros Hd Hm. destruct (main st) as [| |e|e| | | | | | |how] eqn:E; [..|by destruct (Hm how)].
  - eexists. split; [by apply start|done].
  - eexists. split; [by apply select_ctx|done].
  - eexists. split; [by apply (server_unready s st e)|done].
  - eexists. split; [by apply (server_return s st e)|done].
  - eexists. split; [by apply ctx_unready|done].
  - eexists. split; [by apply ctx_cancel|done].
  - eexists. split; [by apply (shutdown_ocpp s st None)|done].
  - eexists. split; [by apply (shutdown_http s st None)|done].
  - eexists. split; [by apply (close_database s st None)|done].
  - eexists. split; [by apply (close_redis s st None)|done].
Qed.

Lemma ctx_stays_done s st st' : step s st st' → ctxDone st = true → ctxDone st' = true.
Proof.
  intros H. destruct H; cbn; auto; destruct (isOpen _); auto.
Qed.

Lemma runs_reachable s l st n st' : reachable s l st → runs s st n st' → reachable s l st'.
Proof. intros H. induction 1; eauto using reach_step. Qed.
Lemma runs_ctx_done s st n st' : ctxDone st = true → runs s st n st' → ctxDone st' = true.
Proof. intros H. induction 1; eauto using ctx_stays_done. Qed.

(** C22: the process of the runtime ends.  A process that does not get to serve exits with 2
    exactly when its configuration is refused and with 1 otherwise, with no connection
    left open.  One that serves returns after a signal: whatever its HTTP server and its
    consumer do meanwhile, [serve] takes at most eight more steps and always has a next one
    until it has returned; when it returned because of the signal its connections are
    closed, and the status is 0 if none of the shutdowns failed. *)
Theorem process_ends environment m x listens canceled :
  match server_main environment m x listens with
  | Exits status l =>
      released (database l) ∧ released (redis l) ∧ (status = 1 ∨ status = 2) ∧
      (status = 2 ↔ ∃ e, LoadConfig environment = Err e)
  | Serves s st =>
      ∀ st1 n st2, reachable s (held st) st1 → ctxDone st1 = true → runs s st1 n st2 →
        (n ≤ 8)%nat ∧
        (exit_status canceled st2 = None → ∃ st3, step s st2 st3 ∧ main st3 ≠ main st2) ∧
        (main st2 = Returned ByContext →
           released (database (held st2)) ∧ released (redis (held st2)) ∧
           (errors st2 = [] → exit_status canceled st2 = Some 0))
  end.
Proof.
  unfold server_main. destruct (LoadConfig environment) as [config|e].
  2: { split_and!; [done|done|by right|]. split; [by eexists|done]. }
  assert (∀ status : Z, status = 1 → status = 2 ↔ ∃ e, @Ok config_error Config config = Err e) as Hone
    by (intros status ->; split; [done|by intros [e ?]]).
  destruct (New m x config) as [l [s|e]] eqn:En.
  2: { apply New_connections in En as [Hd Hr]. split_and!; [done|done|by left|by apply Hone]. }
  destruct (Run listens l) as [st|l'] eqn:Er.
  2: { destruct listens; [done|]. apply listen_failure_closes in Er as [Hd Hr].
       split_and!; [done|done|by left|by apply Hone]. }
  intros st1 n st2 Hr Hd Hruns. split_and!.
  - apply runs_bounded in Hruns. assert (ahead (main st1) ≤ 8)%nat by (destruct (main st1); cbn; lia). lia.
  - intros He. apply serve_proceeds; [by eapply runs_ctx_done|]. intros how Hm. unfold exit_status in He.
    by rewrite Hm in He.
  - intros Hm. pose proof (held_inv_reachable _ _ _ (runs_reachable _ _ _ _ _ Hr Hruns)) as Hinv.
    unfold held_inv in Hinv. rewrite Hm in Hinv. destruct Hinv as (? & ? & _). split_and!; [done|done|].
    intros He. unfold exit_status. by rewrite Hm, He.
Qed.

(** A process on default settings serves. *)
Example default_process_serves :
  match server_main (λ _, None) ServerWitnesses.host ServerWitnesses.fine true with
  | Serves s st => memoryStore s = true ∧ parts s = None ∧ main st = Starting
  | Exits _ _ => False
  end.
Proof. vm_compute. by split_and!. Qed.
