(* ===== verification/Kube.v ===== *)
(** * The Kubernetes API and controller-runtime, as an interface

    Neither is part of the repository.  The objects are records of the fields the
    operator writes, with the rest of an object as opaque text; the calls the
    reconciler makes are the fields of the class [Kube], and [KubeLaws] states their
    documented behaviour.  [RefKube] is a cluster that satisfies the laws. *)

From S2P Require Import Prelude.

(** ** Objects *)

(** An owner reference: the object it names, and whether that is the controller. *)
Record ownerRef : Type := mkRef { ref_owner : string; ref_controller : bool }.

(** The controller of an object, if it has one. *)
Fixpoint controller_of (refs : list ownerRef) : option string :=
  match refs with
  | [] => None
  | r :: refs => if ref_controller r then Some (ref_owner r) else controller_of refs
  end.

Record ObjectMeta : Type := mkMeta {
  Labels : gmap string string;
  Annotations : gmap string string;
  OwnerReferences : list ownerRef
}.

Inductive IntOrString : Type := FromInt (n : Z) | FromString (s : string).

Record ConfigMap : Type := mkConfigMap {
  cm_meta : ObjectMeta;
  Data : gmap string string;
  cm_rest : string
}.

Record ServicePort : Type := mkServicePort { sp_Name : string; Port : Z; TargetPort : IntOrString }.
Record Service : Type := mkService {
  svc_meta : ObjectMeta;
  svc_Selector : gmap string string;
  Ports : list ServicePort;
  svc_rest : string
}.

Record ResourceRequirements : Type := mkResources {
  Requests : option (gmap string string);
  Limits : option (gmap string string)
}.
Inductive EnvFromSource : Type :=
  | ConfigMapRef (name : string)
  | SecretRef (name : string) (optional : bool).
(** A variable taken from a field of the Pod. *)
Record EnvVar : Type := mkEnvVar { env_Name : string; FieldPath : string }.
Record ContainerPort : Type := mkContainerPort { cp_Name : string; cp_Port : Z }.
Record Volume : Type := mkVolume { vol_Name : string; SecretName : string }.
Record VolumeMount : Type := mkMount { vm_Name : string; MountPath : string; ReadOnly : bool }.
Inductive URIScheme : Type := URISchemeHTTP | URISchemeHTTPS.
Record Probe : Type := mkProbe {
  probe_Path : string; probe_Port : IntOrString; Scheme : URIScheme; PeriodSeconds : Z }.
Record Container : Type := mkContainer {
  c_Name : string;
  c_Image : string;
  ImagePullPolicy : string;
  EnvFrom : list EnvFromSource;
  Env : list EnvVar;
  c_Ports : list ContainerPort;
  VolumeMounts : list VolumeMount;
  ReadinessProbe : Probe;
  LivenessProbe : Probe;
  Resources : ResourceRequirements
}.
Record PodTemplateSpec : Type := mkTemplate {
  tpl_Labels : gmap string string;
  pod_TerminationGracePeriodSeconds : Z;
  Volumes : list Volume;
  Containers : list Container;
  tpl_rest : string                (** what the server fills in *)
}.
Record Deployment : Type := mkDeployment {
  dep_meta : ObjectMeta;
  Replicas : Z;
  dep_Selector : gmap string string;
  Template : PodTemplateSpec;
  dep_rest : string;
  ready_replicas : Z;              (** [Status], written by Kubernetes *)
  status_replicas : Z
}.

Record PodDisruptionBudget : Type := mkPDB {
  pdb_meta : ObjectMeta;
  pdb_MinAvailable : option IntOrString;
  pdb_Selector : gmap string string;
  pdb_rest : string
}.

(** A rule with one path, which is what the operator writes. *)
Record IngressRule : Type := mkRule {
  rule_Host : string; rule_Path : string; rule_PathType : string;
  backend_Service : string; backend_Port : string }.
Record IngressTLS : Type := mkIngressTLS { Hosts : list string; tls_SecretName : string }.
Record Ingress : Type := mkIngress {
  ing_meta : ObjectMeta;
  ing_ClassName : option string;
  Rules : list IngressRule;
  TLS : list IngressTLS;
  ing_rest : string
}.

Inductive kind : Type := KConfigMap | KService | KDeployment | KPodDisruptionBudget | KIngress.
#[export] Instance kind_eq_dec : EqDecision kind.
Proof. solve_decision. Defined.

Definition obj (k : kind) : Type :=
  match k with
  | KConfigMap => ConfigMap
  | KService => Service
  | KDeployment => Deployment
  | KPodDisruptionBudget => PodDisruptionBudget
  | KIngress => Ingress
  end.

Definition noMeta : ObjectMeta := mkMeta ∅ ∅ [].
(** An object with only its name. *)
Definition blank (k : kind) : obj k :=
  match k with
  | KConfigMap => mkConfigMap noMeta ∅ ""
  | KService => mkService noMeta ∅ [] ""
  | KDeployment => mkDeployment noMeta 0 ∅ (mkTemplate ∅ 0 [] [] "") "" 0 0
  | KPodDisruptionBudget => mkPDB noMeta None ∅ ""
  | KIngress => mkIngress noMeta None [] [] ""
  end.

Definition metaOf (k : kind) : obj k → ObjectMeta :=
  match k with
  | KConfigMap => cm_meta
  | KService => svc_meta
  | KDeployment => dep_meta
  | KPodDisruptionBudget => pdb_meta
  | KIngress => ing_meta
  end.

(** What the operator writes of an object, and the status Kubernetes reports: all but
    the opaque rest. *)
Definition managed (k : kind) : obj k → obj k :=
  match k with
  | KConfigMap => λ o, mkConfigMap (cm_meta o) (Data o) ""
  | KService => λ o, mkService (svc_meta o) (svc_Selector o) (Ports o) ""
  | KDeployment => λ o,
      mkDeployment (dep_meta o) (Replicas o) (dep_Selector o)
        (mkTemplate (tpl_Labels (Template o)) (pod_TerminationGracePeriodSeconds (Template o))
           (Volumes (Template o)) (Containers (Template o)) "") "" (ready_replicas o) (status_replicas o)
  | KPodDisruptionBudget => λ o, mkPDB (pdb_meta o) (pdb_MinAvailable o) (pdb_Selector o) ""
  | KIngress => λ o, mkIngress (ing_meta o) (ing_ClassName o) (Rules o) (TLS o) ""
  end.

(** The selector of a Deployment cannot be changed once it exists: an update that would
    is rejected. *)
Definition immutable (k : kind) : obj k → option (gmap string string) :=
  match k with
  | KDeployment => λ o, Some (dep_Selector o)
  | _ => λ _, None
  end.
Definition acceptable (k : kind) (old : option (obj k)) (new : obj k) : Prop :=
  match old with Some o => immutable k o = immutable k new | None => True end.
#[export] Instance acceptable_dec k old new : Decision (acceptable k old new).
Proof. unfold acceptable. destruct old; apply _. Defined.

(** ** Status conditions *)

Record Condition : Type := mkCondition {
  cond_Type : string;
  cond_Status : bool;
  cond_Reason : string;
  cond_Message : string;
  cond_ObservedGeneration : Z;
  LastTransitionTime : Z
}.

Fixpoint find_condition (t : string) (l : list Condition) : option Condition :=
  match l with
  | [] => None
  | c :: l => if String.eqb (cond_Type c) t then Some c else find_condition t l
  end.

(** All but the time of the last transition. *)
Definition same_report (a b : Condition) : Prop :=
  cond_Type a = cond_Type b ∧ cond_Status a = cond_Status b ∧ cond_Reason a = cond_Reason b ∧
  cond_Message a = cond_Message b ∧ cond_ObservedGeneration a = cond_ObservedGeneration b.

(** ** The client *)

Definition key : Type := string * string.     (** namespace and name *)

Inductive api_error : Type :=
  | NotFound
  | AlreadyOwned
  | OtherError (text : string).
#[export] Instance api_error_eq_dec : EqDecision api_error.
Proof. solve_decision. Defined.

(** How a call goes: it is answered, refused without effect, or has its effect while
    the answer is an error. *)
Inductive attempt : Type :=
  | Answered
  | Refused (why : string)
  | Lost (why : string).

(** [C] is the custom resource. *)
Class Kube (C : Type) : Type := {
  cluster : Type;
  Get : attempt → key → cluster → result api_error C;
  (** [controllerutil.CreateOrUpdate] with its callback *)
  CreateOrUpdate (k : kind) :
    attempt → key → (obj k → result api_error (obj k)) → cluster → cluster * result api_error (obj k);
  Delete (k : kind) : attempt → key → cluster → cluster * result api_error unit;
  (** [Status().Update] *)
  UpdateStatus : attempt → key → C → cluster → cluster * result api_error unit;
  (** [controllerutil.SetControllerReference] on the owner references of an object *)
  SetControllerReference : string → list ownerRef → result api_error (list ownerRef);
  (** [meta.SetStatusCondition] at a time *)
  SetStatusCondition : Z → Condition → list Condition → list Condition
}.

Class KubeLaws (C : Type) (K : Kube C) : Type := {
  look : cluster → ∀ k, key → option (obj k);
  look_resource : cluster → key → option C;
  (** What the server stores of an object it accepts: defaults are filled in. *)
  stored : ∀ k, obj k → obj k;
  (** The status subresource: what is stored of a resource given an update of it. *)
  with_status : C → C → C;

  stored_managed k (o : obj k) : managed k (stored k o) = managed k o;

  Get_law a key s :
    Get a key s = match a with
                  | Answered => match look_resource s key with Some c => Ok c | None => Err NotFound end
                  | Refused e | Lost e => Err (OtherError e)
                  end;

  (** A refused call or a callback that fails changes nothing. *)
  CreateOrUpdate_refused k e key f s : CreateOrUpdate k (Refused e) key f s = (s, Err (OtherError e));
  CreateOrUpdate_callback k a key f s e :
    f (default (blank k) (look s k key)) = Err e →
    ∃ e', CreateOrUpdate k a key f s = (s, Err e') ∧ (a = Answered → e' = e);
  (** So does an update of what cannot be changed. *)
  CreateOrUpdate_immutable k a key f s o :
    f (default (blank k) (look s k key)) = Ok o → ¬ acceptable k (look s k key) o →
    ∃ e, CreateOrUpdate k a key f s = (s, Err e);
  (** Otherwise the object becomes what the callback made of it, and nothing else
      changes. *)
  CreateOrUpdate_law k a key f s o :
    f (default (blank k) (look s k key)) = Ok o → acceptable k (look s k key) o →
    (∀ e, a ≠ Refused e) →
    ∃ s', CreateOrUpdate k a key f s =
            (s', match a with Lost e => Err (OtherError e) | _ => Ok (stored k o) end) ∧
      look s' k key = Some (stored k o) ∧
      (∀ k' key', (k', key') ≠ (k, key) → look s' k' key' = look s k' key') ∧
      (∀ key', look_resource s' key' = look_resource s key');

  (** A deletion takes effect at once: the objects carry no finalizers, of which the
      operator sets none. *)
  Delete_refused k e key s : Delete k (Refused e) key s = (s, Err (OtherError e));
  Delete_law k a key s :
    (∀ e, a ≠ Refused e) →
    ∃ s', Delete k a key s =
            (s', match a with
                 | Lost e => Err (OtherError e)
                 | _ => match look s k key with Some _ => Ok tt | None => Err NotFound end
                 end) ∧
      look s' k key = None ∧
      (∀ k' key', (k', key') ≠ (k, key) → look s' k' key' = look s k' key') ∧
      (∀ key', look_resource s' key' = look_resource s key');

  UpdateStatus_refused e key c s : UpdateStatus (Refused e) key c s = (s, Err (OtherError e));
  UpdateStatus_law a key c s :
    (∀ e, a ≠ Refused e) →
    match look_resource s key with
    | None => ∃ e, UpdateStatus a key c s = (s, Err e)
    | Some old =>
        ∃ s', UpdateStatus a key c s = (s', match a with Lost e => Err (OtherError e) | _ => Ok tt end) ∧
          look_resource s' key = Some (with_status old c) ∧
          (∀ key', key' ≠ key → look_resource s' key' = look_resource s key') ∧
          (∀ k' key', look s' k' key' = look s k' key')
    end;

  (** Only one controller: another one is an error, the same one is kept. *)
  SetControllerReference_foreign owner refs o :
    controller_of refs = Some o → o ≠ owner → SetControllerReference owner refs = Err AlreadyOwned;
  SetControllerReference_law owner refs :
    controller_of refs = None ∨ controller_of refs = Some owner →
    ∃ refs', SetControllerReference owner refs = Ok refs' ∧ controller_of refs' = Some owner ∧
      SetControllerReference owner refs' = Ok refs';

  SetStatusCondition_same t c l :
    ∃ c', find_condition (cond_Type c) (SetStatusCondition t c l) = Some c' ∧ same_report c' c;
  SetStatusCondition_other t c l u :
    u ≠ cond_Type c → find_condition u (SetStatusCondition t c l) = find_condition u l;
  SetStatusCondition_again t c l c' :
    find_condition (cond_Type c) l = Some c' → same_report c' c → SetStatusCondition t c l = l
}.

(** ** A concrete cluster *)

Module RefKube.
Section ref.
Context {C : Type} (merge : C → C → C).

Record store : Type := mkStore {
  resources : gmap key C;
  config_maps : gmap key ConfigMap;
  services : gmap key Service;
  deployments : gmap key Deployment;
  budgets : gmap key PodDisruptionBudget;
  ingresses : gmap key Ingress
}.

Definition table (s : store) (k : kind) : gmap key (obj k) :=
  match k with
  | KConfigMap => config_maps s
  | KService => services s
  | KDeployment => deployments s
  | KPodDisruptionBudget => budgets s
  | KIngress => ingresses s
  end.

Definition set_table (s : store) (k : kind) : gmap key (obj k) → store :=
  match k with
  | KConfigMap => λ t, mkStore (resources s) t (services s) (deployments s) (budgets s) (ingresses s)
  | KService => λ t, mkStore (resources s) (config_maps s) t (deployments s) (budgets s) (ingresses s)
  | KDeployment => λ t, mkStore (resources s) (config_maps s) (services s) t (budgets s) (ingresses s)
  | KPodDisruptionBudget => λ t,
      mkStore (resources s) (config_maps s) (services s) (deployments s) t (ingresses s)
  | KIngress => λ t, mkStore (resources s) (config_maps s) (services s) (deployments s) (budgets s) t
  end.

(** The only default this server fills in is a mark in the pod template. *)
Definition fill (k : kind) : obj k → obj k :=
  match k with
  | KDeployment => λ o,
      mkDeployment (dep_meta o) (Replicas o) (dep_Selector o)
        (mkTemplate (tpl_Labels (Template o)) (pod_TerminationGracePeriodSeconds (Template o))
           (Volumes (Template o)) (Containers (Template o)) "restartPolicy: Always")
        (dep_rest o) (ready_replicas o) (status_replicas o)
  | _ => λ o, o
  end.

Definition create_or_update (k : kind) (a : attempt) (n : key)
    (f : obj k → result api_error (obj k)) (s : store) : store * result api_error (obj k) :=
  match a with
  | Refused e => (s, Err (OtherError e))
  | _ =>
      match f (default (blank k) (table s k !! n)) with
      | Err e => (s, Err e)
      | Ok o =>
          if decide (acceptable k (table s k !! n) o) then
            (set_table s k (<[n := fill k o]> (table s k)),
             match a with Lost e => Err (OtherError e) | _ => Ok (fill k o) end)
          else (s, Err (OtherError "field is immutable"))
      end
  end.

Definition delete_ (k : kind) (a : attempt) (n : key) (s : store) : store * result api_error unit :=
  match a with
  | Refused e => (s, Err (OtherError e))
  | _ => (set_table s k (delete n (table s k)),
          match a with
          | Lost e => Err (OtherError e)
          | _ => match table s k !! n with Some _ => Ok tt | None => Err NotFound end
          end)
  end.

Definition update_status (a : attempt) (n : key) (c : C) (s : store) : store * result api_error unit :=
  match a with
  | Refused e => (s, Err (OtherError e))
  | _ =>
      match resources s !! n with
      | None => (s, Err NotFound)
      | Some old =>
          (mkStore (<[n := merge old c]> (resources s)) (config_maps s) (services s) (deployments s)
             (budgets s) (ingresses s),
           match a with Lost e => Err (OtherError e) | _ => Ok tt end)
      end
  end.

Definition set_reference (owner : string) (refs : list ownerRef) : result api_error (list ownerRef) :=
  match controller_of refs with
  | None => Ok (refs ++ [mkRef owner true])
  | Some o => if String.eqb o owner then Ok refs else Err AlreadyOwned
  end.

Fixpoint set_condition (t : Z) (c : Condition) (l : list Condition) : list Condition :=
  match l with
  | [] => [mkCondition (cond_Type c) (cond_Status c) (cond_Reason c) (cond_Message c)
             (cond_ObservedGeneration c) t]
  | d :: l =>
      if String.eqb (cond_Type d) (cond_Type c) then
        mkCondition (cond_Type d) (cond_Status c) (cond_Reason c) (cond_Message c)
          (cond_ObservedGeneration c)
          (if Bool.eqb (cond_Status d) (cond_Status c) then LastTransitionTime d else t) :: l
      else d :: set_condition t c l
  end.

#[export] Instance server : Kube C := {|
  cluster := store;
  Get a n s := match a with
               | Answered => match resources s !! n with Some c => Ok c | None => Err NotFound end
               | Refused e | Lost e => Err (OtherError e)
               end;
  CreateOrUpdate := create_or_update;
  Delete := delete_;
  UpdateStatus := update_status;
  SetControllerReference := set_reference;
  SetStatusCondition := set_condition
|}.

Lemma table_set s k t : table (set_table s k t) k = t.
Proof. by destruct k. Qed.
Lemma table_other s k t k' : k' ≠ k → table (set_table s k t) k' = table s k'.
Proof. by destruct k, k'. Qed.
Lemma resources_set s k t : resources (set_table s k t) = resources s.
Proof. by destruct k. Qed.

(** A write to one entry of one table. *)
Lemma set_table_frame s k t n k' n' :
  (∀ m, m ≠ n → t !! m = table s k !! m) → (k', n') ≠ (k, n) →
  table (set_table s k t) k' !! n' = table s k' !! n'.
Proof.
  intros Ht Hne. destruct (decide (k' = k)) as [->|Hk].
  - rewrite table_set. apply Ht. congruence.
  - by rewrite table_other.
Qed.

Lemma controller_of_app refs owner :
  controller_of refs = None → controller_of (refs ++ [mkRef owner true]) = Some owner.
Proof. induction refs as [|r refs IH]; cbn; [done|]. by destruct (ref_controller r). Qed.

Lemma find_set_condition t c l :
  ∃ c', find_condition (cond_Type c) (set_condition t c l) = Some c' ∧ same_report c' c.
Proof.
  induction l as [|d l IH]; cbn.
  - rewrite String.eqb_refl. eexists. by split.
  - destruct (String.eqb_spec (cond_Type d) (cond_Type c)) as [E|E]; cbn.
    + rewrite E, String.eqb_refl. eexists. by split.
    + apply String.eqb_neq in E. by rewrite E.
Qed.

Lemma find_set_other t c l u :
  u ≠ cond_Type c → find_condition u (set_condition t c l) = find_condition u l.
Proof.
  intros Hu. induction l as [|d l IH]; cbn.
  - case_match; bool_to_prop; congruence.
  - destruct (String.eqb_spec (cond_Type d) (cond_Type c)) as [E|E]; cbn; [|by rewrite IH].
    case_match; bool_to_prop; [congruence|done].
Qed.

Lemma set_condition_again t c l c' :
  find_condition (cond_Type c) l = Some c' → same_report c' c → set_condition t c l = l.
Proof.
  intros Hf (H1 & H2 & H3 & H4 & H5). induction l as [|d l IH]; cbn in *; [done|].
  destruct (String.eqb_spec (cond_Type d) (cond_Type c)) as [E|E]; [|f_equal; auto].
  injection Hf as ->. f_equal. rewrite <- H2, <- H3, <- H4, <- H5, Bool.eqb_reflx. by destruct c'.
Qed.

#[export] Program Instance laws : KubeLaws C server := {|
  look := λ s k n, table s k !! n;
  look_resource := λ s n, resources s !! n;
  stored := fill;
  with_status := merge
|}.
Next Obligation. by intros []. Qed.
Next Obligation. done. Qed.
Next Obligation. done. Qed.
Next Obligation.
  intros k a n f s e E. cbn. unfold create_or_update. rewrite E.
  destruct a; eexists; by split.
Qed.
Next Obligation.
  intros k a n f s o E Hn. cbn. unfold create_or_update. rewrite E, decide_False by done.
  destruct a; eauto.
Qed.
Next Obligation.
  intros k a n f s o E Hok Ha. cbn. unfold create_or_update. rewrite E, decide_True by done.
  exists (set_table s k (<[n := fill k o]> (table s k))). split_and!.
  - destruct a; [done|by edestruct Ha|done].
  - by rewrite table_set, lookup_insert_eq.
  - intros k' n' Hne. apply (set_table_frame s k _ n); [|done]. intros. by apply lookup_insert_ne.
  - intros. by rewrite resources_set.
Qed.
Next Obligation. done. Qed.
Next Obligation.
  intros k a n s Ha. cbn. unfold delete_. exists (set_table s k (delete n (table s k))). split_and!.
  - destruct a; [done|by edestruct Ha|done].
  - by rewrite table_set, lookup_delete_eq.
  - intros k' n' Hne. apply (set_table_frame s k _ n); [|done]. intros. by apply lookup_delete_ne.
  - intros. by rewrite resources_set.
Qed.
Next Obligation. done. Qed.
Next Obligation.
  intros a n c s Ha. cbn. unfold update_status. destruct (resources s !! n) as [old|] eqn:E.
  - eexists. split; [destruct a; [done|by edestruct Ha|done]|]. split_and!; cbn.
    + by rewrite lookup_insert_eq.
    + intros. by rewrite lookup_insert_ne.
    + by intros [].
  - destruct a; [eauto|by edestruct Ha|eauto].
Qed.
Next Obligation.
  intros owner refs o E Hne. cbn. unfold set_reference. rewrite E.
  apply String.eqb_neq in Hne. by rewrite Hne.
Qed.
Next Obligation.
  intros owner refs [E|E]; cbn; unfold set_reference; rewrite E.
  - eexists. split_and!; [done|by apply controller_of_app|].
    by rewrite controller_of_app, String.eqb_refl.
  - rewrite String.eqb_refl. exists refs. by rewrite E, String.eqb_refl.
Qed.
Next Obligation. intros. apply find_set_condition. Qed.
Next Obligation. intros. by apply find_set_other. Qed.
Next Obligation. intros. by eapply set_condition_again. Qed.
End ref.
Arguments store : clear implicits.
End RefKube.
