(* ===== verification/Operator.v ===== *)
(** * The operator (api/v1alpha1 and internal/controller/csms_controller.go)

    The CSMS resource with its defaults and validation, and the reconciler that
    brings a ConfigMap, a Service, a Deployment and, optionally, a
    PodDisruptionBudget and an Ingress in line with it. *)

From S2P Require Import Prelude GoStd Kube.

(** ** The resource *)

Record CSMSTLS : Type := mkCSMSTLS { tlsSecretName : string; ClientCASecretName : string }.
Record CSMSIngress : Type := mkCSMSIngress {
  Host : string;
  IngressClassName : string;
  TLSSecretName : string;
  ingress_Annotations : gmap string string
}.

Record CSMSSpec : Type := mkSpec {
  Image : string;
  spec_Replicas : option Z;                        (** int32 *)
  spec_Port : Z;                                   (** int32 *)
  LivenessPath : string;
  ReadinessPath : string;
  TerminationGracePeriodSeconds : option Z;        (** int64 *)
  DatabaseSecretName : string;
  RedisSecretName : string;
  APISecretName : string;
  spec_Config : gmap string string;
  spec_Resources : ResourceRequirements;
  MinAvailable : option IntOrString;
  spec_Ingress : option CSMSIngress;
  spec_TLS : option CSMSTLS
}.

Definition CSMSConditionAvailable : string := "Available".
Definition CSMSConditionProgressing : string := "Progressing".

Record CSMSStatus : Type := mkStatus {
  cs_Replicas : Z;
  cs_ReadyReplicas : Z;
  cs_ObservedGeneration : Z;
  Conditions : list Condition
}.

Record CSMS : Type := mkCSMS {
  csms_Namespace : string;
  csms_Name : string;
  csms_Generation : Z;
  Spec : CSMSSpec;
  csms_Status : CSMSStatus
}.

(** [GroupVersion] *)
Definition Group : string := "csms.seanlee0923.dev".

(** *** Defaults and validation: the markers of csms_types.go

    The API server fills in the defaults of a field that is absent and then checks
    the constraints. *)

Definition or_default (s d : string) : string := if String.eqb s "" then d else s.

Definition defaulted (s : CSMSSpec) : CSMSSpec :=
  mkSpec (Image s) (Some (default 1 (spec_Replicas s)))
    (if spec_Port s =? 0 then 8080 else spec_Port s)
    (or_default (LivenessPath s) "/livez") (or_default (ReadinessPath s) "/readyz")
    (Some (default 30 (TerminationGracePeriodSeconds s)))
    (DatabaseSecretName s) (RedisSecretName s) (APISecretName s) (spec_Config s) (spec_Resources s)
    (MinAvailable s) (spec_Ingress s) (spec_TLS s).

Definition alnum (c : ascii) : bool :=
  let n := Z.of_nat (nat_of_ascii c) in
  ((97 <=? n) && (n <=? 122)) || ((48 <=? n) && (n <=? 57)).

(** [[-a-z0-9]*[a-z0-9]$] or the end *)
Fixpoint label_tail (last_ok : bool) (s : string) : bool :=
  match s with
  | "" => last_ok
  | String c s => (alnum c || Ascii.eqb c "-") && label_tail (alnum c) s
  end.
(** [^[a-z0-9]([-a-z0-9]*[a-z0-9])?$] *)
Definition label_pattern (s : string) : bool :=
  match s with "" => false | String c s => alnum c && label_tail true s end.
(** [^$|^[a-z0-9]([-a-z0-9]*[a-z0-9])?$] *)
Definition optional_label (s : string) : bool := String.eqb s "" || label_pattern s.

(** The pieces between dots. *)
Fixpoint dotted (piece s : string) : list string :=
  match s with
  | "" => [piece]
  | String c s => if Ascii.eqb c "." then piece :: dotted "" s else dotted (piece +:+ String c "") s
  end.
Definition host_pattern (s : string) : bool := forallb label_pattern (dotted "" s).

(** [^/] *)
Definition path_pattern (s : string) : bool :=
  match s with String c _ => Ascii.eqb c "/" | "" => false end.

Definition validTLS (t : CSMSTLS) : bool :=
  label_pattern (tlsSecretName t) && optional_label (ClientCASecretName t).
Definition validIngress (i : CSMSIngress) : bool :=
  host_pattern (Host i) && optional_label (IngressClassName i) && optional_label (TLSSecretName i).

Definition validSpec (s : CSMSSpec) : bool :=
  negb (String.eqb (Image s) "") &&
  match spec_Replicas s with Some n => 1 <=? n | None => true end &&
  ((1 <=? spec_Port s) && (spec_Port s <=? 65535)) &&
  path_pattern (LivenessPath s) && path_pattern (ReadinessPath s) &&
  match TerminationGracePeriodSeconds s with Some n => 0 <=? n | None => true end &&
  optional_label (DatabaseSecretName s) && optional_label (RedisSecretName s) &&
  optional_label (APISecretName s) &&
  match spec_Ingress s with Some i => validIngress i | None => true end &&
  match spec_TLS s with Some t => validTLS t | None => true end &&
  (* [!(self.replicas > 1) || size(self.redisSecretName) > 0] *)
  (negb (1 <? default 1 (spec_Replicas s)) || negb (String.eqb (RedisSecretName s) "")).

(** ** What is deployed *)

Definition labelName : string := "app.kubernetes.io/name".
Definition labelInstance : string := "app.kubernetes.io/instance".
Definition componentName : string := "csms-runtime".
Definition defaultPort : Z := 8080.
Definition defaultLivenessPath : string := "/livez".
Definition defaultReadinessPath : string := "/readyz".
Definition defaultTerminationGracePeriodSeconds : Z := 30.
Definition tlsServerVolumeName : string := "tls-server".
Definition tlsServerMountPath : string := "/etc/csms/tls/server".
Definition tlsCAVolumeName : string := "tls-ca".
Definition tlsCAMountPath : string := "/etc/csms/tls/ca".

Definition labels (csms : CSMS) : gmap string string :=
  <[labelName := componentName]> (<[labelInstance := csms_Name csms]> ∅).

Definition httpPort (csms : CSMS) : Z :=
  if negb (spec_Port (Spec csms) =? 0) then spec_Port (Spec csms) else defaultPort.
Definition livenessPath (csms : CSMS) : string :=
  if negb (String.eqb (LivenessPath (Spec csms)) "") then LivenessPath (Spec csms)
  else defaultLivenessPath.
Definition readinessPath (csms : CSMS) : string :=
  if negb (String.eqb (ReadinessPath (Spec csms)) "") then ReadinessPath (Spec csms)
  else defaultReadinessPath.
Definition terminationGracePeriodSeconds (csms : CSMS) : Z :=
  match TerminationGracePeriodSeconds (Spec csms) with
  | Some n => n
  | None => defaultTerminationGracePeriodSeconds
  end.
Definition probeScheme (csms : CSMS) : URIScheme :=
  match spec_TLS (Spec csms) with Some _ => URISchemeHTTPS | None => URISchemeHTTP end.

Definition tlsVolumes (csms : CSMS) : list Volume * list VolumeMount :=
  match spec_TLS (Spec csms) with
  | None => ([], [])
  | Some tls =>
      let volumes := [mkVolume tlsServerVolumeName (tlsSecretName tls)] in
      let mounts := [mkMount tlsServerVolumeName tlsServerMountPath true] in
      if negb (String.eqb (ClientCASecretName tls) "") then
        (volumes ++ [mkVolume tlsCAVolumeName (ClientCASecretName tls)],
         mounts ++ [mkMount tlsCAVolumeName tlsCAMountPath true])
      else (volumes, mounts)
  end.

(** [replicas] of reconcileDeployment and [desired] of updateStatus. *)
Definition desiredReplicas (csms : CSMS) : Z :=
  match spec_Replicas (Spec csms) with Some n => n | None => 1 end.

Definition containerResources (csms : CSMS) : ResourceRequirements :=
  let r := spec_Resources (Spec csms) in
  match Requests r, Limits r with
  | None, None =>
      mkResources (Some (<["cpu" := "50m"]> (<["memory" := "64Mi"]> ∅)))
        (Some (<["cpu" := "500m"]> (<["memory" := "256Mi"]> ∅)))
  | _, _ => r
  end.

Fixpoint secretSources (names : list string) : list EnvFromSource :=
  match names with
  | [] => []
  | n :: names =>
      if String.eqb n "" then secretSources names else SecretRef n true :: secretSources names
  end.
Definition envFrom (csms : CSMS) : list EnvFromSource :=
  ConfigMapRef (csms_Name csms) ::
  secretSources [DatabaseSecretName (Spec csms); RedisSecretName (Spec csms); APISecretName (Spec csms)].

Definition podTemplate (csms : CSMS) : PodTemplateSpec :=
  let '(volumes, volumeMounts) := tlsVolumes csms in
  mkTemplate (labels csms) (terminationGracePeriodSeconds csms) volumes
    [mkContainer "runtime" (Image (Spec csms)) "IfNotPresent" (envFrom csms)
       [mkEnvVar "CSMS_INSTANCE_ID" "metadata.name"]
       [mkContainerPort "http" (httpPort csms)]
       volumeMounts
       (mkProbe (readinessPath csms) (FromString "http") (probeScheme csms) 5)
       (mkProbe (livenessPath csms) (FromString "http") (probeScheme csms) 10)
       (containerResources csms)]
    "".

(** ** The reconciler *)

Section reconcile.
Context {K : Kube CSMS}.

(** The owner the references name. *)
Definition ownerOf (csms : CSMS) : string := Group +:+ "/CSMS/" +:+ csms_Name csms.
Definition keyOf (csms : CSMS) : key := (csms_Namespace csms, csms_Name csms).

(** The metadata after the labels were set and the controller reference was added. *)
Definition ownedMeta (csms : CSMS) (annotations : gmap string string) (m : ObjectMeta) :
    result api_error ObjectMeta :=
  match SetControllerReference (ownerOf csms) (OwnerReferences m) with
  | Ok refs => Ok (mkMeta (labels csms) annotations refs)
  | Err e => Err e
  end.

Definition mutateConfigMap (csms : CSMS) (cm : ConfigMap) : result api_error ConfigMap :=
  match ownedMeta csms (Annotations (cm_meta cm)) (cm_meta cm) with
  | Ok m => Ok (mkConfigMap m (spec_Config (Spec csms)) (cm_rest cm))
  | Err e => Err e
  end.
Definition reconcileConfigMap (a : attempt) (csms : CSMS) (s : cluster) :
    cluster * result api_error unit :=
  match CreateOrUpdate KConfigMap a (keyOf csms) (mutateConfigMap csms) s with
  | (s, Ok _) => (s, Ok tt)
  | (s, Err e) => (s, Err e)
  end.

Definition mutateService (csms : CSMS) (svc : Service) : result api_error Service :=
  match ownedMeta csms (Annotations (svc_meta svc)) (svc_meta svc) with
  | Ok m => Ok (mkService m (labels csms) [mkServicePort "http" (httpPort csms) (FromString "http")]
                  (svc_rest svc))
  | Err e => Err e
  end.
Definition reconcileService (a : attempt) (csms : CSMS) (s : cluster) :
    cluster * result api_error unit :=
  match CreateOrUpdate KService a (keyOf csms) (mutateService csms) s with
  | (s, Ok _) => (s, Ok tt)
  | (s, Err e) => (s, Err e)
  end.

Definition mutateDeployment (csms : CSMS) (d : Deployment) : result api_error Deployment :=
  match ownedMeta csms (Annotations (dep_meta d)) (dep_meta d) with
  | Ok m => Ok (mkDeployment m (desiredReplicas csms) (labels csms) (podTemplate csms) (dep_rest d)
                  (ready_replicas d) (status_replicas d))
  | Err e => Err e
  end.
Definition reconcileDeployment (a : attempt) (csms : CSMS) (s : cluster) :
    cluster * result api_error Deployment :=
  CreateOrUpdate KDeployment a (keyOf csms) (mutateDeployment csms) s.

(** [r.Delete], where an object that is not there is not an error. *)
Definition deleteIfPresent (k : kind) (a : attempt) (csms : CSMS) (s : cluster) :
    cluster * result api_error unit :=
  match Delete k a (keyOf csms) s with
  | (s, Err NotFound) => (s, Ok tt)
  | (s, r) => (s, r)
  end.

Definition mutatePodDisruptionBudget (csms : CSMS) (pdb : PodDisruptionBudget) :
    result api_error PodDisruptionBudget :=
  match ownedMeta csms (Annotations (pdb_meta pdb)) (pdb_meta pdb) with
  | Ok m => Ok (mkPDB m (MinAvailable (Spec csms)) (labels csms) (pdb_rest pdb))
  | Err e => Err e
  end.
Definition reconcilePodDisruptionBudget (a : attempt) (csms : CSMS) (s : cluster) :
    cluster * result api_error unit :=
  match MinAvailable (Spec csms) with
  | None => deleteIfPresent KPodDisruptionBudget a csms s
  | Some _ =>
      match CreateOrUpdate KPodDisruptionBudget a (keyOf csms) (mutatePodDisruptionBudget csms) s with
      | (s, Ok _) => (s, Ok tt)
      | (s, Err e) => (s, Err e)
      end
  end.

Definition mutateIngress (csms : CSMS) (spec : CSMSIngress) (i : Ingress) : result api_error Ingress :=
  match ownedMeta csms (ingress_Annotations spec) (ing_meta i) with
  | Ok m =>
      Ok (mkIngress m
            (if negb (String.eqb (IngressClassName spec) "") then Some (IngressClassName spec) else None)
            [mkRule (Host spec) "/" "Prefix" (csms_Name csms) "http"]
            (if negb (String.eqb (TLSSecretName spec) "")
             then [mkIngressTLS [Host spec] (TLSSecretName spec)] else [])
            (ing_rest i))
  | Err e => Err e
  end.
Definition reconcileIngress (a : attempt) (csms : CSMS) (s : cluster) :
    cluster * result api_error unit :=
  match spec_Ingress (Spec csms) with
  | None => deleteIfPresent KIngress a csms s
  | Some spec =>
      match CreateOrUpdate KIngress a (keyOf csms) (mutateIngress csms spec) s with
      | (s, Ok _) => (s, Ok tt)
      | (s, Err e) => (s, Err e)
      end
  end.

Definition replicasReady (deployment : Deployment) (csms : CSMS) : string :=
  Strconv.FormatInt (ready_replicas deployment) +:+ "/" +:+ Strconv.FormatInt (desiredReplicas csms)
    +:+ " replicas ready".

(** The two conditions; [SetStatusCondition] decides their transition times. *)
Definition availableCondition (csms : CSMS) (deployment : Deployment) : Condition :=
  if 0 <? ready_replicas deployment then
    mkCondition CSMSConditionAvailable true "ReplicasReady" (replicasReady deployment csms)
      (csms_Generation csms) 0
  else
    mkCondition CSMSConditionAvailable false "NoReadyReplicas" "no Runtime replica is ready"
      (csms_Generation csms) 0.
Definition progressingCondition (csms : CSMS) (deployment : Deployment) : Condition :=
  if ready_replicas deployment =? desiredReplicas csms then
    mkCondition CSMSConditionProgressing false "ReplicasReady" (replicasReady deployment csms)
      (csms_Generation csms) 0
  else
    mkCondition CSMSConditionProgressing true "ReplicasNotReady" (replicasReady deployment csms)
      (csms_Generation csms) 0.

Definition newStatus (now : Z) (csms : CSMS) (deployment : Deployment) : CSMSStatus :=
  mkStatus (status_replicas deployment) (ready_replicas deployment) (csms_Generation csms)
    (SetStatusCondition now (progressingCondition csms deployment)
       (SetStatusCondition now (availableCondition csms deployment) (Conditions (csms_Status csms)))).

Definition updateStatus (a : attempt) (now : Z) (csms : CSMS) (deployment : Deployment) (s : cluster) :
    cluster * result api_error unit :=
  UpdateStatus a (keyOf csms)
    (mkCSMS (csms_Namespace csms) (csms_Name csms) (csms_Generation csms) (Spec csms)
       (newStatus now csms deployment)) s.

(** How the calls of one run go, and when. *)
Record calls : Type := mkCalls {
  on_get : attempt; on_config : attempt; on_service : attempt; on_deployment : attempt;
  on_budget : attempt; on_ingress : attempt; on_status : attempt; at_time : Z }.

(** The step that failed, and how. *)
Definition reconcile_error : Type := string * api_error.

Definition Reconcile (x : calls) (req : key) (s : cluster) : cluster * option reconcile_error :=
  match Get (on_get x) req s with
  | Err NotFound => (s, None)
  | Err e => (s, Some ("get", e))
  | Ok csms =>
      match reconcileConfigMap (on_config x) csms s with
      | (s, Err e) => (s, Some ("reconcile configmap", e))
      | (s, Ok _) =>
          match reconcileService (on_service x) csms s with
          | (s, Err e) => (s, Some ("reconcile service", e))
          | (s, Ok _) =>
              match reconcileDeployment (on_deployment x) csms s with
              | (s, Err e) => (s, Some ("reconcile deployment", e))
              | (s, Ok deployment) =>
                  match reconcilePodDisruptionBudget (on_budget x) csms s with
                  | (s, Err e) => (s, Some ("reconcile poddisruptionbudget", e))
                  | (s, Ok _) =>
                      match reconcileIngress (on_ingress x) csms s with
                      | (s, Err e) => (s, Some ("reconcile ingress", e))
                      | (s, Ok _) =>
                          match updateStatus (on_status x) (at_time x) csms deployment s with
                          | (s, Err e) => (s, Some ("update status", e))
                          | (s, Ok _) => (s, None)
                          end
                      end
                  end
              end
          end
      end
  end.
End reconcile.
