(* ===== verification/OperatorProperties.v ===== *)
(** * What the operator guarantees

    Over any cluster that obeys the laws of Kube.v: a run that ends without an error
    has brought every object in line with the resource, whatever state it started
    from; another run changes nothing; objects of other owners are not overwritten;
    and what is deployed fits together and fits the runtime. *)

From S2P Require Import Prelude GoStd GoText GoNet TrustedProxy Config Kube Operator.

(** ** The five steps as one *)

Section steps.
Context {K : Kube CSMS} {KL : KubeLaws CSMS K}.
Implicit Types (csms : CSMS) (s : cluster) (k : kind).

(** Which objects a resource asks for. *)
Definition wanted csms k : bool :=
  match k with
  | KPodDisruptionBudget => bool_decide (is_Some (MinAvailable (Spec csms)))
  | KIngress => bool_decide (is_Some (spec_Ingress (Spec csms)))
  | _ => true
  end.

Definition mutate csms k : obj k → result api_error (obj k) :=
  match k with
  | KConfigMap => mutateConfigMap csms
  | KService => mutateService csms
  | KDeployment => mutateDeployment csms
  | KPodDisruptionBudget => mutatePodDisruptionBudget csms
  | KIngress => match spec_Ingress (Spec csms) with
                | Some i => mutateIngress csms i
                | None => λ _, Err NotFound
                end
  end.

(** The step for one kind; what [CreateOrUpdate] leaves in the object is returned. *)
Definition reconcileKind csms k (a : attempt) s : cluster * result api_error (option (obj k)) :=
  if wanted csms k then
    match CreateOrUpdate k a (keyOf csms) (mutate csms k) s with
    | (s, Ok o) => (s, Ok (Some o))
    | (s, Err e) => (s, Err e)
    end
  else
    match deleteIfPresent k a csms s with
    | (s, Ok _) => (s, Ok None)
    | (s, Err e) => (s, Err e)
    end.

Definition forget {A B} (r : cluster * result A B) : cluster * result A unit :=
  match r with (s, Ok _) => (s, Ok tt) | (s, Err e) => (s, Err e) end.

Lemma reconcileConfigMap_kind a csms s :
  reconcileConfigMap a csms s = forget (reconcileKind csms KConfigMap a s).
Proof. unfold reconcileConfigMap, reconcileKind. cbn. by destruct (CreateOrUpdate _ _ _ _ _) as [? []]. Qed.
Lemma reconcileService_kind a csms s :
  reconcileService a csms s = forget (reconcileKind csms KService a s).
Proof. unfold reconcileService, reconcileKind. cbn. by destruct (CreateOrUpdate _ _ _ _ _) as [? []]. Qed.
Lemma reconcileBudget_kind a csms s :
  reconcilePodDisruptionBudget a csms s = forget (reconcileKind csms KPodDisruptionBudget a s).
Proof.
  unfold reconcilePodDisruptionBudget, reconcileKind. cbn. destruct (MinAvailable (Spec csms)); cbn.
  - by destruct (CreateOrUpdate _ _ _ _ _) as [? []].
  - by destruct (deleteIfPresent _ _ _ _) as [? [[]|]].
Qed.
Lemma reconcileIngress_kind a csms s :
  reconcileIngress a csms s = forget (reconcileKind csms KIngress a s).
Proof.
  unfold reconcileIngress, reconcileKind. cbn. destruct (spec_Ingress (Spec csms)); cbn.
  - by destruct (CreateOrUpdate _ _ _ _ _) as [? []].
  - by destruct (deleteIfPresent _ _ _ _) as [? [[]|]].
Qed.
Lemma reconcileDeployment_kind a csms s :
  reconcileDeployment a csms s =
  match reconcileKind csms KDeployment a s with
  | (s, Ok (Some d)) => (s, Ok d)
  | (s, Ok None) => (s, Err NotFound)
  | (s, Err e) => (s, Err e)
  end.
Proof. unfold reconcileDeployment, reconcileKind. cbn. by destruct (CreateOrUpdate _ _ _ _ _) as [? []]. Qed.

(** *** Conforming objects *)

Definition owned csms (m : ObjectMeta) : Prop :=
  Labels m = labels csms ∧ controller_of (OwnerReferences m) = Some (ownerOf csms) ∧
  SetControllerReference (ownerOf csms) (OwnerReferences m) = Ok (OwnerReferences m).

(** What the resource asks of an object, of its managed fields. *)
Definition conforms csms k : obj k → Prop :=
  match k with
  | KConfigMap => λ o, owned csms (cm_meta o) ∧ Data o = spec_Config (Spec csms)
  | KService => λ o, owned csms (svc_meta o) ∧ svc_Selector o = labels csms ∧
      Ports o = [mkServicePort "http" (httpPort csms) (FromString "http")]
  | KDeployment => λ o, owned csms (dep_meta o) ∧ Replicas o = desiredReplicas csms ∧
      dep_Selector o = labels csms ∧ Template (managed KDeployment o) = podTemplate csms
  | KPodDisruptionBudget => λ o, owned csms (pdb_meta o) ∧
      pdb_MinAvailable o = MinAvailable (Spec csms) ∧ pdb_Selector o = labels csms
  | KIngress => λ o, owned csms (ing_meta o) ∧
      match spec_Ingress (Spec csms) with
      | None => False
      | Some i =>
          Annotations (ing_meta o) = ingress_Annotations i ∧
          ing_ClassName o = (if negb (String.eqb (IngressClassName i) "")
                             then Some (IngressClassName i) else None) ∧
          Rules o = [mkRule (Host i) "/" "Prefix" (csms_Name csms) "http"] ∧
          TLS o = (if negb (String.eqb (TLSSecretName i) "")
                   then [mkIngressTLS [Host i] (TLSSecretName i)] else [])
      end
  end.

Lemma conforms_managed csms k (o o' : obj k) :
  managed k o = managed k o' → conforms csms k o → conforms csms k o'.
Proof.
  destruct k, o, o'; cbn; intros [=]; subst; try done.
  all: intros (? & ? & ? & ?); split_and!; try done; congruence.
Qed.

Lemma ownedMeta_ok csms an m m' :
  ownedMeta csms an m = Ok m' →
  owned csms m' ∧ Annotations m' = an.
Proof.
  unfold ownedMeta, owned. destruct (SetControllerReference _ _) as [refs|] eqn:E; [|done].
  intros [= <-]. cbn. split; [|done]. split; [done|].
  destruct (controller_of (OwnerReferences m)) as [o|] eqn:Ec.
  - destruct (decide (o = ownerOf csms)) as [->|Hne].
    + destruct (SetControllerReference_law (ownerOf csms) (OwnerReferences m)) as (r & E' & ? & ?); [auto|].
      rewrite E in E'. by injection E' as ->.
    + by rewrite (SetControllerReference_foreign _ _ _ Ec Hne) in E.
  - destruct (SetControllerReference_law (ownerOf csms) (OwnerReferences m)) as (r & E' & ? & ?); [auto|].
    rewrite E in E'. by injection E' as ->.
Qed.

(** The callback makes an object that conforms. *)
Lemma mutate_conforms csms k o m :
  mutate csms k o = Ok m → conforms csms k m.
Proof.
  destruct k; cbn [mutate conforms].
  - unfold mutateConfigMap. destruct (ownedMeta _ _ _) eqn:E; [|done]. intros [= <-].
    by apply ownedMeta_ok in E as [??].
  - unfold mutateService. destruct (ownedMeta _ _ _) eqn:E; [|done]. intros [= <-].
    by apply ownedMeta_ok in E as [??].
  - unfold mutateDeployment. destruct (ownedMeta _ _ _) eqn:E; [|done]. intros [= <-].
    apply ownedMeta_ok in E as [??]. split_and!; try done. cbn.
    unfold podTemplate. by destruct (tlsVolumes csms).
  - unfold mutatePodDisruptionBudget. destruct (ownedMeta _ _ _) eqn:E; [|done]. intros [= <-].
    by apply ownedMeta_ok in E as [??].
  - destruct (spec_Ingress (Spec csms)); [|done]. unfold mutateIngress.
    destruct (ownedMeta _ _ _) eqn:E; [|done]. intros [= <-]. by apply ownedMeta_ok in E as [??].
Qed.

(** ... and leaves one that conforms as it is, but for what the server fills in. *)
Lemma mutate_fixed csms k o :
  conforms csms k o → ∃ m, mutate csms k o = Ok m ∧ managed k m = managed k o.
Proof.
  assert (∀ an m, owned csms m → an = Annotations m → ownedMeta csms an m = Ok m) as Hmeta.
  { intros an m (Hl & _ & Hs) ->. unfold ownedMeta. rewrite Hs, <- Hl. by destruct m. }
  destruct k, o; cbn [conforms mutate].
  - cbn. intros (Ho & ->). unfold mutateConfigMap. cbn. rewrite Hmeta by done. eauto.
  - cbn. intros (Ho & -> & ->). unfold mutateService. cbn. rewrite Hmeta by done. eauto.
  - intros (Ho & HR & HS & HT). cbn in *. subst. unfold mutateDeployment. cbn. rewrite Hmeta by done.
    eexists. split; [done|]. cbn. rewrite <- HT. done.
  - cbn. intros (Ho & -> & ->). unfold mutatePodDisruptionBudget. cbn. rewrite Hmeta by done. eauto.
  - destruct (spec_Ingress (Spec csms)) as [i|]; [|by intros [_ []]].
    cbn. intros (Ho & Ha & -> & -> & ->). unfold mutateIngress. cbn. rewrite Hmeta by done. eauto.
Qed.

(** *** One step *)

(** The state of a kind the resource asks for. *)
Definition settled csms k s : Prop :=
  if wanted csms k then ∃ o, look s k (keyOf csms) = Some o ∧ conforms csms k o
  else look s k (keyOf csms) = None.

(** A step touches its own object and no other, and no resource. *)
Definition frame csms k s s' : Prop :=
  (∀ k' n, (k', n) ≠ (k, keyOf csms) → look s' k' n = look s k' n) ∧
  (∀ n, look_resource s' n = look_resource s n).

Lemma frame_refl csms k s : frame csms k s s.
Proof. by split. Qed.

Lemma create_or_update_cases k a n f s s' r :
  CreateOrUpdate k a n f s = (s', r) →
  (s' = s ∧ ∃ e, r = Err e) ∨
  (∃ m, f (default (blank k) (look s k n)) = Ok m ∧ look s' k n = Some (stored k m) ∧
     (∀ o, r = Ok o → o = stored k m) ∧
     (∀ k' n', (k', n') ≠ (k, n) → look s' k' n' = look s k' n') ∧
     (∀ n', look_resource s' n' = look_resource s n')).
Proof.
  intros H. destruct (f (default (blank k) (look s k n))) as [m|e'] eqn:Ef.
  2: { destruct (CreateOrUpdate_callback _ a _ _ _ _ Ef) as (e'' & E & _).
       rewrite E in H. injection H as <- <-. eauto. }
  destruct (decide (acceptable k (look s k n) m)) as [Hok|Hok].
  2: { destruct (CreateOrUpdate_immutable _ a _ _ _ _ Ef Hok) as (e & E).
       rewrite E in H. injection H as <- <-. eauto. }
  destruct a as [|e|e] eqn:Ea.
  2: { rewrite CreateOrUpdate_refused in H. injection H as <- <-. eauto. }
  all: destruct (CreateOrUpdate_law _ a _ _ _ _ Ef Hok) as (s1 & E & ? & ? & ?); [intros e0; by subst a|];
       subst a; rewrite E in H; injection H as <- <-; right; exists m;
       split_and!; try done; by intros o [= <-].
Qed.

Lemma delete_cases k a n s s' r :
  Delete k a n s = (s', r) →
  (s' = s ∧ ∃ e, r = Err (OtherError e)) ∨
  (look s' k n = None ∧
     (∀ k' n', (k', n') ≠ (k, n) → look s' k' n' = look s k' n') ∧
     (∀ n', look_resource s' n' = look_resource s n')).
Proof.
  intros H. destruct a as [|e|e].
  2: { rewrite Delete_refused in H. injection H as <- <-. eauto. }
  1: destruct (Delete_law k Answered n s) as (s2 & E & ? & ? & ?); [done|].
  2: destruct (Delete_law k (Lost e) n s) as (s2 & E & ? & ? & ?); [done|].
  all: rewrite E in H; injection H as <- _; auto.
Qed.

Lemma reconcileKind_frame csms k a s s' r :
  reconcileKind csms k a s = (s', r) → frame csms k s s'.
Proof.
  unfold reconcileKind, deleteIfPresent. destruct (wanted csms k).
  - destruct (CreateOrUpdate _ _ _ _ _) as [s1 r1] eqn:E. intros H.
    assert (s' = s1) as -> by (destruct r1; congruence).
    apply create_or_update_cases in E as [[-> _]|(m & _ & _ & _ & ? & ?)]; [apply frame_refl|by split].
  - destruct (Delete _ _ _ _) as [s1 r1] eqn:E. intros H.
    assert (s' = s1) as -> by (destruct r1 as [[]|[]]; congruence).
    apply delete_cases in E as [[-> _]|(_ & ? & ?)]; [apply frame_refl|by split].
Qed.

(** A step that succeeds settles its kind, and leaves a settled one as it is. *)
Lemma reconcileKind_settles csms k a s s' r :
  reconcileKind csms k a s = (s', Ok r) →
  settled csms k s' ∧ r = look s' k (keyOf csms) ∧
  (settled csms k s → managed k <$> look s' k (keyOf csms) = managed k <$> look s k (keyOf csms)).
Proof.
  unfold reconcileKind, deleteIfPresent, settled. destruct (wanted csms k).
  - destruct (CreateOrUpdate _ _ _ _ _) as [s1 [o|e]] eqn:E; [|done]. intros [= <- <-].
    apply create_or_update_cases in E as [[_ [e ?]]|(m & Hm & Hl & Ho & _)]; [done|].
    rewrite Hl, (Ho o eq_refl). split_and!; [|done|].
    + exists (stored k m). split; [done|]. apply mutate_conforms in Hm.
      by eapply conforms_managed; [symmetry; apply stored_managed|].
    + intros (o0 & Hl0 & Hc). rewrite Hl0 in Hm |- *. cbn in *.
      destruct (mutate_fixed _ _ _ Hc) as (m' & Hm' & Hmg). rewrite Hm in Hm'.
      injection Hm' as <-. by rewrite stored_managed, Hmg.
  - destruct (Delete _ _ _ _) as [s1 r1] eqn:E. intros H.
    assert (s' = s1 ∧ r = None ∧ (r1 = Ok tt ∨ r1 = Err NotFound)) as (-> & -> & Hr).
    { destruct r1 as [[]|[]]; simplify_eq/=; auto. }
    apply delete_cases in E as [[-> [e ->]]|(Hl & _)]; [by destruct Hr|].
    rewrite Hl. split_and!; try done. by intros ->.
Qed.

(** No other controller has an object the resource asks for, and a Deployment that is
    there already selects the Pods of the resource. *)
Definition unclaimed csms k s : Prop :=
  wanted csms k = true → ∀ o, look s k (keyOf csms) = Some o →
  (controller_of (OwnerReferences (metaOf k o)) = None ∨
   controller_of (OwnerReferences (metaOf k o)) = Some (ownerOf csms)) ∧
  match immutable k o with Some selector => selector = labels csms | None => True end.

Lemma conforms_owned csms k o : conforms csms k o → owned csms (metaOf k o).
Proof. destruct k; cbn; naive_solver. Qed.

Lemma conforms_immutable csms k o :
  conforms csms k o → match immutable k o with Some selector => selector = labels csms | None => True end.
Proof. destruct k; cbn; naive_solver. Qed.

Lemma settled_unclaimed csms k s : settled csms k s → unclaimed csms k s.
Proof.
  unfold settled, unclaimed. destruct (wanted csms k); [|done].
  intros (o & Hl & Hc) _ o' Hl'. rewrite Hl in Hl'. injection Hl' as <-.
  split; [right; apply (conforms_owned _ _ _ Hc)|by apply conforms_immutable].
Qed.

Lemma ownedMeta_total csms an m :
  controller_of (OwnerReferences m) = None ∨ controller_of (OwnerReferences m) = Some (ownerOf csms) →
  ∃ m', ownedMeta csms an m = Ok m'.
Proof.
  intros H. destruct (SetControllerReference_law _ _ H) as (refs & E & _).
  unfold ownedMeta. rewrite E. eauto.
Qed.

Lemma mutate_total csms k o :
  wanted csms k = true →
  controller_of (OwnerReferences (metaOf k o)) = None ∨
  controller_of (OwnerReferences (metaOf k o)) = Some (ownerOf csms) →
  ∃ m, mutate csms k o = Ok m.
Proof.
  intros Hw H. destruct k; cbn in *.
  1: edestruct (ownedMeta_total csms (Annotations (cm_meta o)) (cm_meta o) H) as (m & E);
     unfold mutateConfigMap; rewrite E; eauto.
  1: edestruct (ownedMeta_total csms (Annotations (svc_meta o)) (svc_meta o) H) as (m & E);
     unfold mutateService; rewrite E; eauto.
  1: edestruct (ownedMeta_total csms (Annotations (dep_meta o)) (dep_meta o) H) as (m & E);
     unfold mutateDeployment; rewrite E; eauto.
  1: edestruct (ownedMeta_total csms (Annotations (pdb_meta o)) (pdb_meta o) H) as (m & E);
     unfold mutatePodDisruptionBudget; rewrite E; eauto.
  destruct (spec_Ingress (Spec csms)) as [i|]; [|done].
  destruct (ownedMeta_total csms (ingress_Annotations i) (ing_meta o) H) as (m & E).
  unfold mutateIngress. rewrite E. eauto.
Qed.

(** What the callback makes of an object that selects the right Pods is accepted. *)
Lemma mutate_acceptable csms k (o m : obj k) :
  match immutable k o with Some selector => selector = labels csms | None => True end →
  mutate csms k o = Ok m → immutable k o = immutable k m.
Proof.
  intros Ho Hm%mutate_conforms%conforms_immutable. destruct k; cbn in *; congruence.
Qed.

(** An answered step succeeds, unless another controller has the object or the selector
    of a Deployment would have to change. *)
Lemma reconcileKind_answered csms k s :
  unclaimed csms k s → ∃ s' r, reconcileKind csms k Answered s = (s', Ok r).
Proof.
  unfold reconcileKind, deleteIfPresent, unclaimed. destruct (wanted csms k) eqn:Hw.
  - intros Hu. destruct (mutate_total csms k (default (blank k) (look s k (keyOf csms))) Hw) as (m & Hm).
    { destruct (look s k (keyOf csms)); [by apply Hu|]. left. by destruct k. }
    edestruct (CreateOrUpdate_law k Answered (keyOf csms) (mutate csms k) s m) as (s' & -> & _);
      [done| |done|eauto].
    destruct (look s k (keyOf csms)) as [o|]; [|done]. cbn in *.
    eapply mutate_acceptable; [by apply Hu|done].
  - intros _. destruct (Delete_law k Answered (keyOf csms) s) as (s' & -> & _); [done|].
    destruct (look s k (keyOf csms)); eauto.
Qed.

(** A step does not let another controller in, nor does it take an object from one. *)
Lemma reconcileKind_unclaimed csms k a s s' r k' :
  reconcileKind csms k a s = (s', r) → unclaimed csms k' s → unclaimed csms k' s'.
Proof.
  intros E. destruct (reconcileKind_frame _ _ _ _ _ _ E) as [Hf _].
  destruct (decide (k' = k)) as [->|Hne].
  2: { unfold unclaimed. rewrite Hf by congruence. done. }
  revert E. unfold reconcileKind, unclaimed. intros E Hu Hw. rewrite Hw in E.
  destruct (CreateOrUpdate _ _ _ _ _) as [s1 r1] eqn:E1.
  assert (s' = s1) as -> by (destruct r1; congruence).
  apply create_or_update_cases in E1 as [[-> _]|(m & Hm & -> & _)]; [by apply Hu|].
  intros o [= <-]. apply mutate_conforms in Hm.
  apply (conforms_managed _ _ _ (stored k m)) in Hm; [|symmetry; apply stored_managed].
  split; [right; apply (conforms_owned _ _ _ Hm)|by apply conforms_immutable].
Qed.

(** An object the operator cannot take over: another controller owns it, or it is a
    Deployment with another selector. *)
Definition out_of_reach csms k (o : obj k) : Prop :=
  (∃ c, controller_of (OwnerReferences (metaOf k o)) = Some c ∧ c ≠ ownerOf csms) ∨
  (∃ selector, immutable k o = Some selector ∧ selector ≠ labels csms).

Lemma reconcileKind_foreign csms k a s s' r o :
  wanted csms k = true → look s k (keyOf csms) = Some o → out_of_reach csms k o →
  reconcileKind csms k a s = (s', r) → look s' k (keyOf csms) = Some o.
Proof.
  intros Hw Hl Hout. unfold reconcileKind. rewrite Hw.
  destruct (CreateOrUpdate _ _ _ _ _) as [s1 r1] eqn:E1. intros E.
  assert (s' = s1) as -> by (destruct r1; congruence).
  apply create_or_update_cases in E1 as H1. destruct H1 as [[-> _]|(m & Hm & _)]; [done|].
  rewrite Hl in Hm. cbn in Hm. destruct Hout as [(c & Hc & Hne)|(sel & Hsel & Hne)].
  - exfalso. revert Hm.
    destruct k; cbn in *; try (destruct (spec_Ingress (Spec csms)); [|done]);
      unfold mutateConfigMap, mutateService, mutateDeployment, mutatePodDisruptionBudget, mutateIngress, ownedMeta;
      by rewrite (SetControllerReference_foreign _ _ _ Hc Hne).
  - assert (¬ acceptable k (look s k (keyOf csms)) m) as Hno.
    { rewrite Hl. cbn. rewrite Hsel. apply mutate_conforms, conforms_immutable in Hm.
      intros Ei. by rewrite <- Ei in Hm. }
    destruct (CreateOrUpdate_immutable k a (keyOf csms) (mutate csms k) s m) as (e & E2);
      [by rewrite Hl|done|]. rewrite E2 in E1. by injection E1 as <- _.
Qed.

Lemma settled_frame csms k k' s s' : k ≠ k' → frame csms k' s s' → settled csms k s → settled csms k s'.
Proof. intros Hk [Hf _]. unfold settled. rewrite Hf by congruence. done. Qed.

(** *** A run *)

(** The states between the steps of a run that ends without an error. *)
Inductive run csms (x : calls) s s' : Prop :=
  | mkRun (d : Deployment) s1 s2 s3 s4 s5 r1 r2 r4 r5 :
      reconcileKind csms KConfigMap (on_config x) s = (s1, Ok r1) →
      reconcileKind csms KService (on_service x) s1 = (s2, Ok r2) →
      reconcileKind csms KDeployment (on_deployment x) s2 = (s3, Ok (Some d)) →
      reconcileKind csms KPodDisruptionBudget (on_budget x) s3 = (s4, Ok r4) →
      reconcileKind csms KIngress (on_ingress x) s4 = (s5, Ok r5) →
      updateStatus (on_status x) (at_time x) csms d s5 = (s', Ok tt) →
      run csms x s s'.

Lemma Reconcile_run x req s s' csms :
  look_resource s req = Some csms → Reconcile x req s = (s', None) → run csms x s s'.
Proof.
  intros Hc. unfold Reconcile. rewrite Get_law. destruct (on_get x); [|done..]. rewrite Hc.
  rewrite reconcileConfigMap_kind.
  destruct (reconcileKind csms KConfigMap _ s) as [s1 [r1|]] eqn:E1; [|done]. cbn [forget].
  rewrite reconcileService_kind.
  destruct (reconcileKind csms KService _ s1) as [s2 [r2|]] eqn:E2; [|done]. cbn [forget].
  rewrite reconcileDeployment_kind.
  destruct (reconcileKind csms KDeployment _ s2) as [s3 [[d|]|]] eqn:E3; [|done..].
  rewrite reconcileBudget_kind.
  destruct (reconcileKind csms KPodDisruptionBudget _ s3) as [s4 [r4|]] eqn:E4; [|done]. cbn [forget].
  rewrite reconcileIngress_kind.
  destruct (reconcileKind csms KIngress _ s4) as [s5 [r5|]] eqn:E5; [|done]. cbn [forget].
  destruct (updateStatus _ _ _ _ s5) as [s6 [[]|]] eqn:E6; [|done]. intros [= <-].
  econstructor; eassumption.
Qed.

(** ... and back. *)
Lemma run_Reconcile x req s s' csms :
  on_get x = Answered → look_resource s req = Some csms → run csms x s s' →
  Reconcile x req s = (s', None).
Proof.
  intros Ha Hc [d s1 s2 s3 s4 s5 r1 r2 r4 r5 E1 E2 E3 E4 E5 E6].
  unfold Reconcile. rewrite Get_law, Ha, Hc.
  rewrite reconcileConfigMap_kind, E1. cbn [forget]. rewrite reconcileService_kind, E2. cbn [forget].
  rewrite reconcileDeployment_kind, E3. rewrite reconcileBudget_kind, E4. cbn [forget].
  rewrite reconcileIngress_kind, E5. cbn [forget]. by rewrite E6.
Qed.

(** What holds of the cluster and is kept by every step is kept by a run, whether it
    ends early or not. *)
Lemma Reconcile_invariant (P : cluster → Prop) x req s s' r csms :
  look_resource s req = Some csms →
  (∀ k a s s' r, P s → reconcileKind csms k a s = (s', r) → P s') →
  (∀ a t d s s' r, P s → updateStatus a t csms d s = (s', r) → P s') →
  P s → Reconcile x req s = (s', r) → P s'.
Proof.
  intros Hc Hk Hu HP. unfold Reconcile. rewrite Get_law. destruct (on_get x).
  2,3: by intros [= <- _].
  rewrite Hc, reconcileConfigMap_kind.
  destruct (reconcileKind csms KConfigMap _ s) as [s1 [r1|]] eqn:E1; apply Hk in E1; [|done|by intros [= <- _]|done].
  cbn [forget]. rewrite reconcileService_kind.
  destruct (reconcileKind csms KService _ s1) as [s2 [r2|]] eqn:E2; apply Hk in E2; [|done|by intros [= <- _]|done].
  cbn [forget]. rewrite reconcileDeployment_kind.
  destruct (reconcileKind csms KDeployment _ s2) as [s3 [[d|]|]] eqn:E3; apply Hk in E3;
    [|done|by intros [= <- _]|done|by intros [= <- _]|done].
  rewrite reconcileBudget_kind.
  destruct (reconcileKind csms KPodDisruptionBudget _ s3) as [s4 [r4|]] eqn:E4; apply Hk in E4;
    [|done|by intros [= <- _]|done].
  cbn [forget]. rewrite reconcileIngress_kind.
  destruct (reconcileKind csms KIngress _ s4) as [s5 [r5|]] eqn:E5; apply Hk in E5; [|done|by intros [= <- _]|done].
  cbn [forget]. destruct (updateStatus _ _ _ _ s5) as [s6 [[]|]] eqn:E6; apply Hu in E6; try done; by intros [= <- _].
Qed.

(** An update of the status: refused, or stored. *)
Lemma updateStatus_cases a t csms d s s' r :
  updateStatus a t csms d s = (s', r) →
  (∀ k n, look s' k n = look s k n) ∧
  (∀ n, n ≠ keyOf csms → look_resource s' n = look_resource s n) ∧
  (look_resource s' (keyOf csms) = look_resource s (keyOf csms) ∧ (∃ e, r = Err e) ∨
   ∃ old, look_resource s (keyOf csms) = Some old ∧
     look_resource s' (keyOf csms) =
       Some (with_status old (mkCSMS (csms_Namespace csms) (csms_Name csms) (csms_Generation csms)
                                (Spec csms) (newStatus t csms d)))).
Proof.
  unfold updateStatus. intros H. destruct a as [|e|e].
  2: { rewrite UpdateStatus_refused in H. injection H as <- <-. split_and!; eauto. }
  1: pose proof (UpdateStatus_law Answered (keyOf csms)) as L.
  2: pose proof (UpdateStatus_law (Lost e) (keyOf csms)) as L.
  all: specialize (L (mkCSMS (csms_Namespace csms) (csms_Name csms) (csms_Generation csms)
                       (Spec csms) (newStatus t csms d)) s ltac:(done)).
  all: destruct (look_resource s (keyOf csms)) as [old|] eqn:El;
    [destruct L as (s1 & E & ? & ? & ?)|destruct L as (e1 & E)];
    rewrite E in H; injection H as <- <-; split_and!; eauto.
Qed.
End steps.

(** ** Convergence *)

(** Back through the frames to the step that settled the kind. *)
Ltac settle :=
  repeat first
    [ assumption
    | match goal with
      | F : frame _ _ _ ?s |- settled _ _ ?s => eapply settled_frame; [|exact F|]; [done|]
      end ].

Section converge.
Context {K : Kube CSMS} {KL : KubeLaws CSMS K}.
Implicit Types (csms : CSMS) (s : cluster) (k : kind).

(** The resource has a status subresource ([+kubebuilder:subresource:status]): an update
    of the status stores the status and nothing else. *)
Definition status_subresource : Prop :=
  ∀ old c, with_status old c =
    mkCSMS (csms_Namespace old) (csms_Name old) (csms_Generation old) (Spec old) (csms_Status c).

(** What the status says of a Deployment. *)
Definition reports csms (d : Deployment) : Prop :=
  let st := csms_Status csms in
  cs_Replicas st = status_replicas d ∧ cs_ReadyReplicas st = ready_replicas d ∧
  cs_ObservedGeneration st = csms_Generation csms ∧
  (∃ c, find_condition CSMSConditionAvailable (Conditions st) = Some c ∧
     cond_Status c = (0 <? ready_replicas d)) ∧
  (∃ c, find_condition CSMSConditionProgressing (Conditions st) = Some c ∧
     cond_Status c = negb (ready_replicas d =? desiredReplicas csms)).

Lemma available_type csms d : cond_Type (availableCondition csms d) = CSMSConditionAvailable.
Proof. unfold availableCondition. by destruct (0 <? _). Qed.
Lemma progressing_type csms d : cond_Type (progressingCondition csms d) = CSMSConditionProgressing.
Proof. unfold progressingCondition. by destruct (_ =? _). Qed.
Lemma available_status csms d : cond_Status (availableCondition csms d) = (0 <? ready_replicas d).
Proof. unfold availableCondition. by destruct (0 <? _). Qed.
Lemma progressing_status csms d :
  cond_Status (progressingCondition csms d) = negb (ready_replicas d =? desiredReplicas csms).
Proof. unfold progressingCondition. by destruct (_ =? _). Qed.

(** The two conditions after [updateStatus] set them. *)
Lemma newStatus_conditions t csms d :
  (∃ c, find_condition CSMSConditionAvailable (Conditions (newStatus t csms d)) = Some c ∧
     same_report c (availableCondition csms d)) ∧
  (∃ c, find_condition CSMSConditionProgressing (Conditions (newStatus t csms d)) = Some c ∧
     same_report c (progressingCondition csms d)).
Proof.
  cbn. split.
  - rewrite SetStatusCondition_other by (by rewrite progressing_type).
    rewrite <- (available_type csms d). apply SetStatusCondition_same.
  - rewrite <- (progressing_type csms d). apply SetStatusCondition_same.
Qed.

Lemma newStatus_reports t csms d ns nm :
  reports (mkCSMS ns nm (csms_Generation csms) (Spec csms) (newStatus t csms d)) d.
Proof.
  destruct (newStatus_conditions t csms d) as [(a & Ha & _ & Hsa & _) (p & Hp & _ & Hsp & _)].
  unfold reports. cbn [csms_Status]. split_and!; [done..| |].
  - exists a. by rewrite Hsa, available_status.
  - exists p. by rewrite Hsp, progressing_status.
Qed.

(** The objects a run leaves. *)
Lemma run_settles csms x s s' :
  look_resource s (keyOf csms) = Some csms → run csms x s s' →
  (∀ k, settled csms k s') ∧
  (∀ k n, n ≠ keyOf csms → look s' k n = look s k n) ∧
  (∀ n, n ≠ keyOf csms → look_resource s' n = look_resource s n) ∧
  ∃ d, look s' KDeployment (keyOf csms) = Some d ∧
    look_resource s' (keyOf csms) =
      Some (with_status csms (mkCSMS (csms_Namespace csms) (csms_Name csms) (csms_Generation csms)
              (Spec csms) (newStatus (at_time x) csms d))).
Proof.
  intros Hc [d s1 s2 s3 s4 s5 r1 r2 r4 r5 E1 E2 E3 E4 E5 E6].
  pose proof (reconcileKind_frame _ _ _ _ _ _ E1) as F1. apply reconcileKind_settles in E1 as (S1 & _).
  pose proof (reconcileKind_frame _ _ _ _ _ _ E2) as F2. apply reconcileKind_settles in E2 as (S2 & _).
  pose proof (reconcileKind_frame _ _ _ _ _ _ E3) as F3. apply reconcileKind_settles in E3 as (S3 & Hd & _).
  pose proof (reconcileKind_frame _ _ _ _ _ _ E4) as F4. apply reconcileKind_settles in E4 as (S4 & _).
  pose proof (reconcileKind_frame _ _ _ _ _ _ E5) as F5. apply reconcileKind_settles in E5 as (S5 & _).
  apply updateStatus_cases in E6 as (Hl & Hr & [[_ [e ?]]|(old & Hold & Hnew)]); [done|].
  assert (look_resource s5 (keyOf csms) = Some csms) as Hc5.
  { destruct F1 as [_ G1], F2 as [_ G2], F3 as [_ G3], F4 as [_ G4], F5 as [_ G5]. congruence. }
  split_and!.
  - assert (∀ k, settled csms k s5) as H5.
    { intros []; settle. }
    intros k. specialize (H5 k). unfold settled in *. by rewrite Hl.
  - intros k n Hn. rewrite Hl. destruct F1 as [G1 _], F2 as [G2 _], F3 as [G3 _], F4 as [G4 _], F5 as [G5 _].
    rewrite G5, G4, G3, G2, G1 by congruence. done.
  - intros n Hn. rewrite Hr by done.
    destruct F1 as [_ G1], F2 as [_ G2], F3 as [_ G3], F4 as [_ G4], F5 as [_ G5]. congruence.
  - exists d. rewrite Hl. destruct F4 as [G4 _], F5 as [G5 _]. rewrite G5, G4 by congruence.
    split; [done|]. congruence.
Qed.

(** The resource with another status asks for the same. *)
Definition same_request csms c : Prop :=
  csms_Namespace c = csms_Namespace csms ∧ csms_Name c = csms_Name csms ∧
  csms_Generation c = csms_Generation csms ∧ Spec c = Spec csms.
Lemma same_request_refl csms : same_request csms csms.
Proof. done. Qed.
Lemma same_request_steps csms c k :
  same_request csms c →
  keyOf c = keyOf csms ∧ ownerOf c = ownerOf csms ∧
  (∀ s, settled c k s ↔ settled csms k s) ∧ (∀ s, unclaimed c k s ↔ unclaimed csms k s).
Proof. destruct csms, c. intros (H1 & H2 & H3 & H4). cbn in *. subst. done. Qed.

(** All calls are answered. *)
Definition answered (t : Z) : calls :=
  mkCalls Answered Answered Answered Answered Answered Answered Answered t.

Lemma answered_run csms t s :
  look_resource s (keyOf csms) = Some csms → (∀ k, unclaimed csms k s) →
  ∃ s', Reconcile (answered t) (keyOf csms) s = (s', None).
Proof.
  intros Hc Hu.
  destruct (reconcileKind_answered csms KConfigMap s) as (s1 & r1 & E1); [done|].
  assert (∀ k, unclaimed csms k s1) as U1 by eauto using reconcileKind_unclaimed.
  destruct (reconcileKind_answered csms KService s1) as (s2 & r2 & E2); [done|].
  assert (∀ k, unclaimed csms k s2) as U2 by eauto using reconcileKind_unclaimed.
  destruct (reconcileKind_answered csms KDeployment s2) as (s3 & r3 & E3); [done|].
  assert (∀ k, unclaimed csms k s3) as U3 by eauto using reconcileKind_unclaimed.
  destruct (reconcileKind_answered csms KPodDisruptionBudget s3) as (s4 & r4 & E4); [done|].
  assert (∀ k, unclaimed csms k s4) as U4 by eauto using reconcileKind_unclaimed.
  destruct (reconcileKind_answered csms KIngress s4) as (s5 & r5 & E5); [done|].
  assert (∃ d, r3 = Some d) as [d ->].
  { pose proof (reconcileKind_settles _ _ _ _ _ _ E3) as ((d & Hd & _) & -> & _). eauto. }
  assert (look_resource s5 (keyOf csms) = Some csms) as Hc5.
  { apply reconcileKind_frame in E1 as [_ G1], E2 as [_ G2], E3 as [_ G3], E4 as [_ G4], E5 as [_ G5].
    congruence. }
  pose proof (UpdateStatus_law Answered (keyOf csms)
    (mkCSMS (csms_Namespace csms) (csms_Name csms) (csms_Generation csms) (Spec csms) (newStatus t csms d))
    s5 ltac:(done)) as L.
  rewrite Hc5 in L. destruct L as (s6 & E6 & _).
  exists s6. eapply run_Reconcile; [done|done|]. econstructor; eassumption.
Qed.

(** *** Claims *)

(** C11: A run of the operator that ends without an error leaves the cluster as the
    resource asks, whatever state it started from: the ConfigMap, the Service and the
    Deployment exist, are controlled by the resource and carry what its spec says; the
    PodDisruptionBudget and the Ingress do when the spec has them and are absent when
    it has not.  The status of the resource reports the Deployment; its spec, all other
    resources and all objects of other names are untouched. *)
Theorem reconcile_converges x csms s s' :
  status_subresource →
  look_resource s (keyOf csms) = Some csms →
  Reconcile x (keyOf csms) s = (s', None) →
  (∀ k, settled csms k s') ∧
  (∃ c d, look_resource s' (keyOf csms) = Some c ∧ same_request csms c ∧
     look s' KDeployment (keyOf csms) = Some d ∧ reports c d) ∧
  (∀ k n, n ≠ keyOf csms → look s' k n = look s k n) ∧
  (∀ n, n ≠ keyOf csms → look_resource s' n = look_resource s n).
Proof.
  intros Hsub Hc E. eapply Reconcile_run in E; [|done].
  apply run_settles in E as (? & ? & ? & d & Hd & Hr); [|done].
  split_and!; [done| |done..]. eexists _, d. rewrite Hr, Hsub.
  split_and!; [done|done|done|apply newStatus_reports].
Qed.

(** One step on a settled kind, or a frame around it, changes only what the server
    fills in. *)
Definition unchanged s s' : Prop :=
  (∀ k n, managed k <$> look s' k n = managed k <$> look s k n) ∧
  (∀ n, look_resource s' n = look_resource s n).
#[local] Instance unchanged_po : PreOrder unchanged.
Proof.
  split; [done|]. intros s s' s'' [H1 H2] [H3 H4]. split; intros; congruence.
Qed.
Lemma settled_step csms k a s s' r :
  (∀ k, settled csms k s) → reconcileKind csms k a s = (s', Ok r) →
  (∀ k, settled csms k s') ∧ unchanged s s'.
Proof.
  intros Hs E. pose proof (reconcileKind_frame _ _ _ _ _ _ E) as F.
  apply reconcileKind_settles in E as (S & _ & Hm). split.
  - intros k'. destruct (decide (k' = k)) as [->|Hne]; [done|]. eauto using settled_frame.
  - split; [|apply F]. intros k' n. destruct (decide ((k', n) = (k, keyOf csms))) as [[= -> ->]|Hne].
    + by apply Hm.
    + f_equal. by apply F.
Qed.

(** Reporting what is already reported. *)
Lemma newStatus_again t t' csms c d d' :
  same_request csms c → csms_Status c = newStatus t csms d →
  ready_replicas d' = ready_replicas d → status_replicas d' = status_replicas d →
  newStatus t' c d' = csms_Status c.
Proof.
  intros Hsame Hst Hr Hn.
  assert (availableCondition c d' = availableCondition csms d ∧
          progressingCondition c d' = progressingCondition csms d) as [Ha Hp].
  { destruct csms, c, Hsame as (? & ? & ? & ?), d, d'. cbn in *. by subst. }
  destruct (newStatus_conditions t csms d) as [(a & Fa & Ra) (p & Fp & Rp)].
  rewrite <- Hst in Fa, Fp. unfold newStatus at 1. rewrite Ha, Hp.
  rewrite (SetStatusCondition_again _ (availableCondition csms d) _ a)
    by (by rewrite ?available_type).
  rewrite (SetStatusCondition_again _ (progressingCondition csms d) _ p)
    by (by rewrite ?progressing_type).
  destruct Hsame as (_ & _ & Hg & _). rewrite Hst, Hr, Hn, Hg. done.
Qed.

Lemma settled_run csms x s s' c t :
  status_subresource → look_resource s (keyOf csms) = Some c → same_request csms c →
  (∀ k, settled csms k s) →
  (∃ d, look s KDeployment (keyOf csms) = Some d ∧ csms_Status c = newStatus t csms d) →
  run c x s s' → unchanged s s'.
Proof.
  intros Hsub Hc Hsame Hs (d & Hd & Hst) [d' s1 s2 s3 s4 s5 r1 r2 r4 r5 E1 E2 E3 E4 E5 E6].
  assert (keyOf c = keyOf csms) as Hk by (by destruct (same_request_steps _ _ KIngress Hsame)).
  assert (∀ k, settled c k s) as Hs0 by (intros k; by apply (same_request_steps _ _ k Hsame)).
  apply settled_step in E1 as [Hs1 U1]; [|done]. apply settled_step in E2 as [Hs2 U2]; [|done].
  assert (d' = d' ∧ look s3 KDeployment (keyOf c) = Some d') as [_ Hd'].
  { by apply reconcileKind_settles in E3 as (_ & -> & _). }
  apply settled_step in E3 as [Hs3 U3]; [|done]. apply settled_step in E4 as [Hs4 U4]; [|done].
  apply settled_step in E5 as [_ U5]; [|done].
  assert (unchanged s s3) as U03 by (by do 2 (etrans; [eassumption|])).
  assert (unchanged s s5) as U05 by (by do 2 (etrans; [eassumption|])).
  destruct U03 as [M _]. specialize (M KDeployment (keyOf csms)). rewrite <- Hk, Hd' in M.
  rewrite Hk, Hd in M. injection M as _ _ _ _ _ _ _ Hr Hn.
  apply updateStatus_cases in E6 as (Hl & Ho & [[_ [e ?]]|(old & Hold & Hnew)]); [done|].
  etrans; [exact U05|]. split; [intros k n; by rewrite Hl|]. intros n.
  destruct (decide (n = keyOf c)) as [->|Hne]; [|by apply Ho].
  rewrite Hnew, Hold, Hsub. destruct U05 as [_ U05]. rewrite U05, Hk, Hc in Hold. injection Hold as <-.
  cbn. rewrite (newStatus_again t _ csms c d d' Hsame Hst Hr Hn). by destruct c.
Qed.

(** C12: Once a run has ended without an error the operator is at rest: another run
    whose calls are answered succeeds too, and no run that succeeds changes a managed
    field of any object, the status it reported or any other resource. *)
Theorem reconcile_idempotent x csms s s' :
  status_subresource →
  look_resource s (keyOf csms) = Some csms →
  Reconcile x (keyOf csms) s = (s', None) →
  (∀ t, ∃ s'', Reconcile (answered t) (keyOf csms) s' = (s'', None)) ∧
  (∀ y s'', Reconcile y (keyOf csms) s' = (s'', None) → unchanged s' s'').
Proof.
  intros Hsub Hc E. eapply Reconcile_run in E; [|done].
  apply run_settles in E as (Hs & _ & _ & d & Hd & Hr); [|done]. rewrite Hsub in Hr. cbn in Hr.
  set (c := mkCSMS _ _ _ _ _) in Hr. assert (same_request csms c) as Hsame by done.
  split.
  - intros t. apply (answered_run c); [done|]. intros k.
    apply (same_request_steps _ _ k Hsame). by apply settled_unclaimed.
  - intros y s'' E'. eapply Reconcile_run in E'; [|done]. eapply settled_run; eauto.
Qed.

(** A series of runs, whatever happens to their calls. *)
Fixpoint runs (xs : list calls) (req : key) s : cluster :=
  match xs with
  | [] => s
  | x :: xs => runs xs req (fst (Reconcile x req s))
  end.

(** The resource is there, possibly with another status, and no other controller has
    what it asks for. *)
Definition manageable csms s : Prop :=
  (∃ c, look_resource s (keyOf csms) = Some c ∧ same_request csms c) ∧ ∀ k, unclaimed csms k s.

Lemma Reconcile_manageable csms x s :
  status_subresource → manageable csms s → manageable csms (fst (Reconcile x (keyOf csms) s)).
Proof.
  intros Hsub [(c & Hc & Hsame) Hu]. destruct (Reconcile x (keyOf csms) s) as [s' r] eqn:E. cbn.
  refine (Reconcile_invariant (manageable csms) _ _ _ _ _ _ Hc _ _ _ E); [| |split; eauto].
  - intros k a s0 s1 r1 [(c0 & Hc0 & ?) Hu0] E0. split.
    + destruct (reconcileKind_frame _ _ _ _ _ _ E0) as [_ Hr]. rewrite Hr. eauto.
    + intros k'. apply (same_request_steps _ _ _ Hsame).
      eapply reconcileKind_unclaimed; [done|]. by apply (same_request_steps _ _ _ Hsame).
  - intros a t d s0 s1 r1 [(c0 & Hc0 & Hs0) Hu0] E0.
    destruct (same_request_steps _ _ KIngress Hsame) as [Hk _].
    apply updateStatus_cases in E0 as (Hl & _ & Hr). rewrite Hk in Hr. split.
    + destruct Hr as [[-> _]|(old & Hold & ->)]; [eauto|].
      rewrite Hc0 in Hold. injection Hold as <-. eexists. split; [done|]. by rewrite Hsub.
    + intros k'. specialize (Hu0 k'). unfold unclaimed in *. by rewrite Hl.
Qed.

(** The operator recovers: after any number of runs in which calls were refused,
    or had their effect while their answer was lost, one run whose calls are answered
    ends without an error and leaves the cluster as the resource asks, unless another
    controller owned an object of that name or a Deployment of that name had another
    selector. *)
Theorem operator_recovers csms s xs t :
  status_subresource → manageable csms s →
  ∃ s', Reconcile (answered t) (keyOf csms) (runs xs (keyOf csms) s) = (s', None) ∧
    ∀ k, settled csms k s'.
Proof.
  intros Hsub. revert s. induction xs as [|x xs IH]; intros s Hm; cbn.
  - destruct Hm as [(c & Hc & Hsame) Hu].
    assert (keyOf c = keyOf csms) as Hk by (by destruct (same_request_steps _ _ KIngress Hsame)).
    rewrite <- Hk in *. destruct (answered_run c t s) as (s' & E); [done| |].
    { intros k. by apply (same_request_steps _ _ _ Hsame). }
    exists s'. split; [done|]. intros k. apply (same_request_steps _ _ k Hsame).
    eapply Reconcile_run in E; [|done]. by apply run_settles in E as (? & _).
  - by apply IH, Reconcile_manageable.
Qed.

(** C15: The operator does not take over objects: an object of the resource's name that
    the resource asks for and another controller owns, or a Deployment of that name with
    another selector, keeps its state through every run, and every such run ends with an
    error. *)
Theorem foreign_objects_kept x csms s s' r k o :
  look_resource s (keyOf csms) = Some csms →
  wanted csms k = true → look s k (keyOf csms) = Some o → out_of_reach csms k o →
  Reconcile x (keyOf csms) s = (s', r) →
  look s' k (keyOf csms) = Some o ∧ is_Some r.
Proof.
  intros Hc Hw Hl Hout E.
  assert (look s' k (keyOf csms) = Some o) as Hl'.
  { refine (Reconcile_invariant (λ s, look s k (keyOf csms) = Some o) _ _ _ _ _ _ Hc _ _ Hl E).
    - intros k' a s0 s1 r1 H0 E0. destruct (decide (k' = k)) as [->|].
      + by eapply reconcileKind_foreign.
      + apply reconcileKind_frame in E0 as [Hf _]. rewrite Hf by congruence. done.
    - intros a t d s0 s1 r1 H0 E0. apply updateStatus_cases in E0 as (Hl0 & _). by rewrite Hl0. }
  split; [done|]. destruct r; [done|]. eapply Reconcile_run in E; [|done].
  apply run_settles in E as (Hs & _); [|done]. specialize (Hs k). unfold settled in Hs.
  rewrite Hw in Hs. destruct Hs as (o' & Hl'' & Hcf). rewrite Hl' in Hl''. injection Hl'' as <-.
  destruct Hout as [(c & Ho & Hne)|(sel & Hsel & Hne)].
  - apply conforms_owned in Hcf as (_ & Hco & _). congruence.
  - apply conforms_immutable in Hcf. by rewrite Hsel in Hcf.
Qed.

(** ... but an Ingress or a PodDisruptionBudget the spec does not ask for is deleted
    whoever owns it. *)
Lemma unwanted_deleted_whoever_owns x csms s s' k :
  look_resource s (keyOf csms) = Some csms → wanted csms k = false →
  Reconcile x (keyOf csms) s = (s', None) → look s' k (keyOf csms) = None.
Proof.
  intros Hc Hw E. eapply Reconcile_run in E; [|done]. apply run_settles in E as (Hs & _); [|done].
  specialize (Hs k). unfold settled in Hs. by rewrite Hw in Hs.
Qed.
End converge.

(** ** Witnesses: a resource in the reference cluster *)

Module OperatorWitnesses.
(** The status subresource. *)
Definition merge (old c : CSMS) : CSMS :=
  mkCSMS (csms_Namespace old) (csms_Name old) (csms_Generation old) (Spec old) (csms_Status c).
#[local] Instance kube : Kube CSMS := RefKube.server merge.
#[local] Instance kube_laws : KubeLaws CSMS kube := RefKube.laws merge.

Definition spec : CSMSSpec :=
  defaulted
    (mkSpec "csms:1" (Some 2) 0 "" "" None "mysql" "redis" "" (<["CSMS_LOG_LEVEL" := "warn"]> ∅)
       (mkResources None None) (Some (FromInt 1))
       (Some (mkCSMSIngress "csms.example.com" "nginx" "" ∅)) (Some (mkCSMSTLS "server-tls" "client-ca"))).
Definition demo : CSMS := mkCSMS "prod" "demo" 3 spec (mkStatus 0 0 0 []).
Definition name : key := keyOf demo.
Definition empty : cluster := RefKube.mkStore {[name := demo]} ∅ ∅ ∅ ∅ ∅.
Definition after : cluster := fst (Reconcile (answered 10) name empty).
(** The write of the Deployment is lost, then the Service is refused. *)
Definition failures : list calls :=
  [mkCalls Answered Answered Answered (Lost "timeout") Answered Answered Answered 1;
   mkCalls Answered Answered (Refused "conflict") Answered Answered Answered Answered 2].

(** A Service of that name which another controller owns. *)
Definition other : Service := mkService (mkMeta ∅ ∅ [mkRef "apps/v1/Other/demo" true]) ∅ [] "".
Definition taken : cluster := RefKube.mkStore {[name := demo]} ∅ {[name := other]} ∅ ∅ ∅.

Lemma demo_valid : validSpec spec = true.
Proof. by_evaluation. Qed.
Lemma merge_subresource : status_subresource.
Proof. by intros ??. Qed.

Lemma reconcile_converges_witness :
  (∀ k, settled demo k after) ∧
  (∃ c d, look_resource after name = Some c ∧ same_request demo c ∧
     look after KDeployment name = Some d ∧ reports c d) ∧
  (∀ k n, n ≠ name → look after k n = look empty k n) ∧
  (∀ n, n ≠ name → look_resource after n = look_resource empty n).
Proof.
  apply (reconcile_converges (answered 10) demo empty after); [exact merge_subresource|by_evaluation..].
Defined.

Lemma reconcile_idempotent_witness :
  (∀ t, ∃ s, Reconcile (answered t) name after = (s, None)) ∧
  (∀ y s, Reconcile y name after = (s, None) → unchanged after s).
Proof.
  apply (reconcile_idempotent (answered 10) demo empty after); [exact merge_subresource|by_evaluation..].
Defined.

Lemma operator_recovers_witness :
  ∃ s, Reconcile (answered 10) name (runs failures name empty) = (s, None) ∧ ∀ k, settled demo k s.
Proof.
  apply (operator_recovers demo empty failures 10); [exact merge_subresource|].
  split; [exists demo; split; [by_evaluation|exact (same_request_refl demo)]|].
  intros [] _ o; discriminate.
Defined.

(** A Deployment made by hand, with a selector of its own and no owner. *)
Definition manual : Deployment :=
  mkDeployment (mkMeta ∅ ∅ []) 1 {["app" := "csms-runtime"]} (mkTemplate ∅ 30 [] [] "") "" 1 1.
Definition by_hand : cluster := RefKube.mkStore {[name := demo]} ∅ ∅ {[name := manual]} ∅ ∅.

Lemma foreign_objects_kept_witness :
  (look (fst (Reconcile (answered 10) name taken)) KService name = Some other ∧
   is_Some (snd (Reconcile (answered 10) name taken))) ∧
  (look (fst (Reconcile (answered 10) name by_hand)) KDeployment name = Some manual ∧
   is_Some (snd (Reconcile (answered 10) name by_hand))).
Proof.
  split.
  - apply (foreign_objects_kept (answered 10) demo taken _ _ KService other);
      [by_evaluation..|left; exists "apps/v1/Other/demo"; by split|by_evaluation].
  - apply (foreign_objects_kept (answered 10) demo by_hand _ _ KDeployment manual);
      [by_evaluation..| |by_evaluation].
    right. exists {["app" := "csms-runtime"]}. split; [reflexivity|].
    apply (bool_decide_eq_false_1 _). by_evaluation.
Defined.
End OperatorWitnesses.
