(* ===== verification/Deployed.v ===== *)
(** * What the operator deploys, and the runtime inside it

    The objects of one resource refer to each other by name: volumes, ports, labels.
    The runtime finds what the operator prepared for it: its identity, its port, its
    certificates, the paths its probes ask for.  How a Pod gets its environment and
    its files is Kubernetes' part and the interface [Kubelet]. *)

From S2P Require Import Prelude GoStd GoText GoNet TrustedProxy Redis Lease MemoryRegistry RedisRegistry Ownership.
From S2P Require Import CommandBus RateLimit Json Commands CommandAPI StationStore Config Server Kube Operator OperatorProperties.

(** ** Environment and files of a Pod *)

(** Below a directory. *)
Definition below (dir path : string) : Prop := ∃ rest, path = dir +:+ "/" +:+ rest.
Definition flat (key : string) : bool := negb (Strings.Contains key "/").

Class Kubelet : Type := {
  (** what the ConfigMaps and Secrets hold, and the files of the image *)
  source : EnvFromSource → gmap string string;
  secret : string → gmap string string;
  image_file : string → option string;
  (** what the container named in a Pod sees *)
  environment : string → Container → string → option string;
  file : list Volume → list VolumeMount → string → option string;

  (** [env] takes precedence over [envFrom]. *)
  environment_field pod c name :
    NoDup (env_Name <$> Env c) → mkEnvVar name "metadata.name" ∈ Env c →
    environment pod c name = Some pod;
  environment_unset pod c name :
    name ∉ (env_Name <$> Env c) → (∀ src, src ∈ EnvFrom c → source src !! name = None) →
    environment pod c name = None;
  (** A Secret is mounted with a file for each of its keys. *)
  file_mounted volumes mounts v m key :
    NoDup (vol_Name <$> volumes) → NoDup (MountPath <$> mounts) →
    v ∈ volumes → m ∈ mounts → vol_Name v = vm_Name m → flat key = true →
    (∀ m', m' ∈ mounts → ¬ below (MountPath m) (MountPath m')) →
    file volumes mounts (MountPath m +:+ "/" +:+ key) = secret (SecretName v) !! key;
  file_unmounted volumes mounts path :
    (∀ m, m ∈ mounts → ¬ below (MountPath m) path) →
    file volumes mounts path = image_file path
}.

(** ** The objects of one resource *)

(** A volume for each mount, and each under a name and a path of its own. *)
Definition mounts_resolve (p : PodTemplateSpec) : Prop :=
  NoDup (vol_Name <$> Volumes p) ∧
  ∀ c, c ∈ Containers p →
    NoDup (MountPath <$> VolumeMounts c) ∧
    ∀ m, m ∈ VolumeMounts c → ∃ v, v ∈ Volumes p ∧ vol_Name v = vm_Name m.

(** A port by name or number. *)
Definition port_resolves (ports : list ContainerPort) (p : IntOrString) (n : Z) : Prop :=
  match p with
  | FromInt m => m = n
  | FromString name => mkContainerPort name n ∈ ports ∧ ∀ m, mkContainerPort name m ∈ ports → m = n
  end.

(** What a valid spec, after the defaults were filled in, deploys. *)
Record fits (csms : CSMS) (svc : Service) (d : Deployment) (pdb : PodDisruptionBudget) : Prop := mkFits {
  fits_mounts : mounts_resolve (Template d);
  (** the Service, the budget and the Deployment select exactly the Pods of the template *)
  fits_selector : dep_Selector d = tpl_Labels (Template d);
  fits_service : svc_Selector svc = tpl_Labels (Template d);
  fits_budget : pdb_Selector pdb = tpl_Labels (Template d);
  (** the Service's port and the probes reach the container's port *)
  fits_ports : ∀ c, c ∈ Containers (Template d) →
    Forall (λ sp, port_resolves (c_Ports c) (TargetPort sp) (httpPort csms) ∧
                  Port sp = httpPort csms) (Ports svc) ∧
    port_resolves (c_Ports c) (probe_Port (ReadinessProbe c)) (httpPort csms) ∧
    port_resolves (c_Ports c) (probe_Port (LivenessProbe c)) (httpPort csms) ∧
    Strings.HasPrefix (probe_Path (ReadinessProbe c)) "/" = true ∧
    Strings.HasPrefix (probe_Path (LivenessProbe c)) "/" = true;
  fits_range : 1 ≤ httpPort csms ≤ 65535;
  fits_replicas : 1 ≤ Replicas d;
  fits_grace : 0 ≤ pod_TerminationGracePeriodSeconds (Template d);
  (** several replicas share a Redis *)
  fits_redis : 1 < Replicas d → ∀ c, c ∈ Containers (Template d) →
    ∃ name, name ≠ "" ∧ SecretRef name true ∈ EnvFrom c ∧ name = RedisSecretName (Spec csms)
}.

Lemma path_pattern_prefix s : path_pattern s = true → Strings.HasPrefix s "/" = true.
Proof.
  destruct s as [|c s]; [done|]. cbn. intros ->%Ascii.eqb_eq. apply Strings.HasPrefix_true. by exists s.
Qed.
Lemma path_pattern_nonempty s : path_pattern s = true → s ≠ "".
Proof. by intros H ->. Qed.

Lemma tlsVolumes_resolve csms volumes mounts :
  tlsVolumes csms = (volumes, mounts) →
  NoDup (vol_Name <$> volumes) ∧ NoDup (MountPath <$> mounts) ∧
  ∀ m, m ∈ mounts → ∃ v, v ∈ volumes ∧ vol_Name v = vm_Name m.
Proof.
  unfold tlsVolumes. destruct (spec_TLS (Spec csms)) as [t|].
  2: { intros [= <- <-]. split_and!; [constructor..|]. intros m Hm. by apply not_elem_of_nil in Hm. }
  destruct (negb _); intros [= <- <-]; cbn.
  - split_and!; [by apply (bool_decide_unpack _); vm_compute..|].
    intros m [->|[->|[]%not_elem_of_nil]%elem_of_cons]%elem_of_cons; set_solver.
  - split_and!; [by apply (bool_decide_unpack _); vm_compute..|]. set_solver.
Qed.

Lemma mutateService_shape `{Kube CSMS} csms o svc :
  mutateService csms o = Ok svc →
  svc_Selector svc = labels csms ∧ Ports svc = [mkServicePort "http" (httpPort csms) (FromString "http")].
Proof. unfold mutateService. destruct (ownedMeta _ _ _); [|done]. by intros [= <-]. Qed.
Lemma mutateDeployment_shape `{Kube CSMS} csms o d :
  mutateDeployment csms o = Ok d →
  dep_Selector d = labels csms ∧ Replicas d = desiredReplicas csms ∧ Template d = podTemplate csms.
Proof. unfold mutateDeployment. destruct (ownedMeta _ _ _); [|done]. by intros [= <-]. Qed.
Lemma mutateBudget_shape `{Kube CSMS} csms o pdb :
  mutatePodDisruptionBudget csms o = Ok pdb → pdb_Selector pdb = labels csms.
Proof. unfold mutatePodDisruptionBudget. destruct (ownedMeta _ _ _); [|done]. by intros [= <-]. Qed.
Lemma mutateIngress_shape `{Kube CSMS} csms i o ing :
  mutateIngress csms i o = Ok ing → Rules ing = [mkRule (Host i) "/" "Prefix" (csms_Name csms) "http"].
Proof. unfold mutateIngress. destruct (ownedMeta _ _ _); [|done]. by intros [= <-]. Qed.

(** The one container of the Pod. *)
Definition runtimeContainer (csms : CSMS) : Container :=
  mkContainer "runtime" (Image (Spec csms)) "IfNotPresent" (envFrom csms)
    [mkEnvVar "CSMS_INSTANCE_ID" "metadata.name"] [mkContainerPort "http" (httpPort csms)]
    (snd (tlsVolumes csms))
    (mkProbe (readinessPath csms) (FromString "http") (probeScheme csms) 5)
    (mkProbe (livenessPath csms) (FromString "http") (probeScheme csms) 10)
    (containerResources csms).
Lemma podTemplate_shape csms :
  podTemplate csms =
  mkTemplate (labels csms) (terminationGracePeriodSeconds csms) (fst (tlsVolumes csms))
    [runtimeContainer csms] "".
Proof. unfold podTemplate, runtimeContainer. by destruct (tlsVolumes csms). Qed.

Lemma http_resolves csms :
  port_resolves [mkContainerPort "http" (httpPort csms)] (FromString "http") (httpPort csms).
Proof. split; [by apply list_elem_of_singleton|]. intros m [= ->]%list_elem_of_singleton. done. Qed.

Lemma secretSources_in name names :
  name ∈ names → name ≠ "" → SecretRef name true ∈ secretSources names.
Proof.
  intros Hin Hne. induction names as [|n names IH]; [by apply not_elem_of_nil in Hin|]. cbn.
  apply elem_of_cons in Hin as [->|Hin].
  - rewrite (proj2 (String.eqb_neq _ _) Hne). by left.
  - case_match; [auto|right; auto].
Qed.

Lemma validSpec_facts csms :
  validSpec (Spec csms) = true →
  1 ≤ httpPort csms ≤ 65535 ∧ 1 ≤ desiredReplicas csms ∧ 0 ≤ terminationGracePeriodSeconds csms ∧
  Strings.HasPrefix (livenessPath csms) "/" = true ∧ Strings.HasPrefix (readinessPath csms) "/" = true ∧
  (1 < desiredReplicas csms → RedisSecretName (Spec csms) ≠ "").
Proof.
  unfold validSpec, httpPort, desiredReplicas, terminationGracePeriodSeconds, livenessPath, readinessPath,
    defaultTerminationGracePeriodSeconds.
  intros Hv. bool_to_prop.
  rewrite (proj2 (Z.eqb_neq (spec_Port (Spec csms)) 0)) by lia.
  repeat match goal with
  | H : path_pattern ?p = true |- _ =>
      rewrite (proj2 (String.eqb_neq _ _) (path_pattern_nonempty p H)); apply path_pattern_prefix in H
  end.
  split_and!; try done.
  - destruct (spec_Replicas (Spec csms)); bool_to_prop; lia.
  - destruct (TerminationGracePeriodSeconds (Spec csms)); bool_to_prop; lia.
  - intros Hr. destruct (spec_Replicas (Spec csms)) as [n|]; cbn in *; [|lia].
    match goal with H : _ ∨ _ |- _ => destruct H end; bool_to_prop; [lia|done].
Qed.

(** C17: The objects deployed for a resource whose spec the API server accepted fit
    together: each mount has its volume, the Service and the PodDisruptionBudget select
    the Pods of the Deployment, the Service, the Ingress and both probes name the port
    the container exposes, which is a port number, probe paths are absolute, there is
    at least one replica, and several replicas are given the Secret of their Redis. *)
Theorem deployed_objects_fit `{Kube CSMS} csms osvc odep opdb oing i svc d pdb ing :
  validSpec (Spec csms) = true →
  mutateService csms osvc = Ok svc → mutateDeployment csms odep = Ok d →
  mutatePodDisruptionBudget csms opdb = Ok pdb → mutateIngress csms i oing = Ok ing →
  fits csms svc d pdb ∧
  Forall (λ r, backend_Service r = csms_Name csms ∧ ∃ sp, sp ∈ Ports svc ∧ sp_Name sp = backend_Port r)
    (Rules ing).
Proof.
  intros Hv [Hs Hp]%mutateService_shape (Hd & Hr & Ht)%mutateDeployment_shape
    Hb%mutateBudget_shape Hi%mutateIngress_shape.
  rewrite podTemplate_shape in Ht.
  destruct (validSpec_facts _ Hv) as (Hrange & Hrep & Hgrace & Hlive & Hready & Hredis).
  split.
  2: { rewrite Hi, Hp. apply Forall_singleton. split; [done|]. eexists. split; [by apply list_elem_of_singleton|done]. }
  destruct (tlsVolumes_resolve csms _ _ (surjective_pairing _)) as (Hn & Hm & Hres).
  constructor; rewrite ?Ht, ?Hd, ?Hs, ?Hp, ?Hr, ?Hb; try done;
    cbn [Containers Volumes Template].
  - split; [done|]. by intros c ->%list_elem_of_singleton.
  - intros c ->%list_elem_of_singleton. cbn. split_and!; try apply http_resolves; try done.
    apply Forall_singleton. split; [apply http_resolves|done].
  - intros Hone c ->%list_elem_of_singleton. exists (RedisSecretName (Spec csms)).
    split_and!; [auto| |done]. cbn. right. apply secretSources_in; [|auto]. set_solver.
Qed.

(** ** The runtime in its Pod *)

Lemma loadConfig_fields lookup c :
  loadConfig lookup = Ok c →
  http_addr lookup = Ok (HTTPAddr c) ∧
  InstanceID c = trimmed_text lookup "CSMS_INSTANCE_ID" "" ∧
  TLSCertFile c = trimmed_text lookup "CSMS_TLS_CERT_FILE" defaultTLSCertFile ∧
  TLSKeyFile c = trimmed_text lookup "CSMS_TLS_KEY_FILE" defaultTLSKeyFile ∧
  TLSClientCAFile c = trimmed_text lookup "CSMS_TLS_CLIENT_CA_FILE" defaultTLSClientCAFile.
Proof.
  unfold loadConfig. destruct (http_addr lookup) as [addr|]; [|done].
  do 1 (destruct (positive_integer _ _ _); [|done]). destruct (positive_duration _ _ _); [|done].
  destruct (log_level lookup); [|done]. do 3 (destruct (positive_integer _ _ _); [|done]).
  do 2 (destruct (positive_duration _ _ _); [|done]). case_match; [done|].
  destruct (trusted_cidrs lookup); [|done]. by intros [= <-].
Qed.

Section pod.
Context {KB : Kubelet}.
Implicit Types (csms : CSMS) (m : machine).

Definition podFile csms : string → option string := file (fst (tlsVolumes csms)) (snd (tlsVolumes csms)).
Definition podEnvironment csms (pod : string) : string → option string :=
  environment pod (runtimeContainer csms).

(** The machine the runtime sees has the files of the Pod. *)
Definition runs_in csms m : Prop :=
  (∀ path, fileExists m path = bool_decide (path ≠ "" ∧ is_Some (podFile csms path))) ∧
  ∀ path, ReadFile m path = podFile csms path.

(** The variables the operator's conventions rely on are left to their defaults. *)
Definition conventional csms : Prop :=
  ∀ src name, src ∈ envFrom csms →
    name ∈ ["CSMS_HTTP_ADDR"; "CSMS_TLS_CERT_FILE"; "CSMS_TLS_KEY_FILE"; "CSMS_TLS_CLIENT_CA_FILE"] →
    source src !! name = None.
(** The image has no files of its own where Secrets are mounted. *)
Definition clean_image : Prop :=
  ∀ path, path ∈ [defaultTLSCertFile; defaultTLSKeyFile; defaultTLSClientCAFile] → image_file path = None.

(** The Secrets of [spec.tls] hold what the resource's documentation asks for. *)
Definition secrets_in_order csms m : Prop :=
  match spec_TLS (Spec csms) with
  | None => True
  | Some t =>
      is_Some (secret (tlsSecretName t) !! "tls.crt") ∧ is_Some (secret (tlsSecretName t) !! "tls.key") ∧
      LoadX509KeyPair m defaultTLSCertFile defaultTLSKeyFile = true ∧
      (ClientCASecretName t ≠ "" →
       ∃ pem, secret (ClientCASecretName t) !! "ca.crt" = Some pem ∧ AppendCertsFromPEM m pem = true)
  end.

(** Not below a mount, decided by computation. *)
Lemma not_below dir path : Strings.HasPrefix path (dir +:+ "/") = false → ¬ below dir path.
Proof.
  intros H [rest ->]. rewrite string_app_assoc in H. eapply Strings.HasPrefix_false in H. by apply H.
Qed.

Lemma pod_instance csms pod : podEnvironment csms pod "CSMS_INSTANCE_ID" = Some pod.
Proof.
  apply environment_field; cbn; [apply NoDup_singleton|by apply list_elem_of_singleton].
Qed.
Lemma pod_unset csms pod name :
  conventional csms →
  name ∈ ["CSMS_HTTP_ADDR"; "CSMS_TLS_CERT_FILE"; "CSMS_TLS_KEY_FILE"; "CSMS_TLS_CLIENT_CA_FILE"] →
  podEnvironment csms pod name = None.
Proof.
  intros Hc Hn. apply environment_unset; [|by intros; apply Hc]. cbn.
  intros ->%list_elem_of_singleton. revert Hn. set_solver.
Qed.

(** The files of the Secrets, where the runtime looks for them. *)
Lemma pod_files csms :
  clean_image →
  podFile csms defaultTLSCertFile =
    (t ← spec_TLS (Spec csms); secret (tlsSecretName t) !! "tls.crt") ∧
  podFile csms defaultTLSKeyFile =
    (t ← spec_TLS (Spec csms); secret (tlsSecretName t) !! "tls.key") ∧
  podFile csms defaultTLSClientCAFile =
    (t ← spec_TLS (Spec csms); if String.eqb (ClientCASecretName t) "" then None
                               else secret (ClientCASecretName t) !! "ca.crt").
Proof.
  intros Hi. destruct (tlsVolumes_resolve csms _ _ (surjective_pairing _)) as (Hv & Hm & _).
  revert Hv Hm. unfold podFile.
  unfold tlsVolumes. destruct (spec_TLS (Spec csms)) as [t|]; cbn [mbind option_bind].
  2: { intros _ _. cbn. split_and!; (rewrite file_unmounted; [apply Hi; set_solver|set_solver]). }
  set (server := mkVolume tlsServerVolumeName (tlsSecretName t)).
  set (ca := mkVolume tlsCAVolumeName (ClientCASecretName t)).
  set (ms := mkMount tlsServerVolumeName tlsServerMountPath true).
  set (mc := mkMount tlsCAVolumeName tlsCAMountPath true).
  assert (∀ m m' : VolumeMount, m ∈ [ms; mc] → m' ∈ [ms; mc] → ¬ below (MountPath m) (MountPath m')) as Hapart.
  { intros m m' Ha Hb. apply not_below. revert Ha Hb.
    by intros [->| ->%list_elem_of_singleton]%elem_of_cons [->| ->%list_elem_of_singleton]%elem_of_cons. }
  destruct (String.eqb_spec (ClientCASecretName t) "") as [E|E]; cbn [negb fst snd app]; intros Hv Hm.
  - split_and!.
    1: apply (file_mounted _ [ms] server ms "tls.crt"); try done; set_solver.
    1: apply (file_mounted _ [ms] server ms "tls.key"); try done; set_solver.
    rewrite file_unmounted; [apply Hi; set_solver|].
    intros m ->%list_elem_of_singleton. by apply not_below.
  - split_and!.
    1: apply (file_mounted _ [ms; mc] server ms "tls.crt"); try done; set_solver.
    1: apply (file_mounted _ [ms; mc] server ms "tls.key"); try done; set_solver.
    apply (file_mounted _ [ms; mc] ca mc "ca.crt"); try done; set_solver.
Qed.

(** C16: The runtime finds what the operator prepared.  Whatever the ConfigMap and the
    Secrets of its environment hold, a runtime whose configuration loads has the name of
    its Pod as its instance identity, the default probe paths are its own health endpoints
    and the probes use HTTPS exactly when the resource asks for TLS.  When neither the
    ConfigMap nor a Secret sets the listen address or one of the TLS file names, it listens,
    on the default port, where the Service and the probes send requests.  When moreover the
    image has no files of its own where Secrets are mounted and the Secrets hold a key
    pair, and an authority, that load, it serves TLS exactly when the resource asks for it,
    with client certificates exactly when the resource names the authority for them. *)
Theorem deployed_runtime_fits csms m pod c :
  trimmed pod → loadConfig (podEnvironment csms pod) = Ok c →
  InstanceID c = pod ∧
  (livenessPath csms = defaultLivenessPath → ServeMux routes (livenessPath csms) = Handled Live) ∧
  (readinessPath csms = defaultReadinessPath → ServeMux routes (readinessPath csms) = Handled Readiness) ∧
  (probeScheme csms = URISchemeHTTPS ↔ is_Some (spec_TLS (Spec csms))) ∧
  (conventional csms →
   (httpPort csms = defaultPort → HTTPAddr c = ":" +:+ Strconv.FormatInt (httpPort csms)) ∧
   (clean_image → runs_in csms m → secrets_in_order csms m →
    buildTLSConfig m c =
      Ok (t ← spec_TLS (Spec csms); Some (mkTLS (negb (String.eqb (ClientCASecretName t) "")))))).
Proof.
  intros Hpod (Ha & Hid & Hcert & Hkey & Hca)%loadConfig_fields. split_and!.
  - rewrite Hid. unfold trimmed_text. rewrite pod_instance. by apply TrimSpace_id.
  - by intros ->.
  - by intros ->.
  - unfold probeScheme. destruct (spec_TLS (Spec csms)); [by split; eauto|]. split; [done|by intros []].
  - intros Hconv.
    assert (∀ name unset,
      name ∈ ["CSMS_HTTP_ADDR"; "CSMS_TLS_CERT_FILE"; "CSMS_TLS_KEY_FILE"; "CSMS_TLS_CLIENT_CA_FILE"] →
      trimmed_text (podEnvironment csms pod) name unset = unset) as Hunset.
    { intros name unset Hn. unfold trimmed_text. by rewrite pod_unset. }
    rewrite Hunset in Hcert, Hkey, Hca by set_solver. split.
    + intros ->. unfold http_addr in Ha. rewrite pod_unset in Ha by (done || set_solver).
      injection Ha as <-. by_evaluation.
    + intros Himg [Hex Hread] Hsec. destruct (pod_files csms Himg) as (F1 & F2 & F3).
      unfold buildTLSConfig. rewrite Hcert, Hkey, Hca, !Hex, Hread, F1, F2, F3.
      unfold secrets_in_order in Hsec. destruct (spec_TLS (Spec csms)) as [t|]; cbn.
      2: { do 2 (rewrite bool_decide_eq_false_2 by (by intros [_ []])). done. }
      destruct Hsec as ([crt ->] & [key ->] & -> & Hauth).
      do 2 (rewrite bool_decide_eq_true_2 by (by split)). cbn.
      destruct (String.eqb_spec (ClientCASecretName t) "") as [E|E]; cbn.
      * rewrite bool_decide_eq_false_2 by (by intros [_ []]). done.
      * destruct (Hauth E) as (pem & -> & Hp). rewrite bool_decide_eq_true_2 by (by split). by rewrite Hp.
Qed.

(** Two Pods are never the same instance. *)
Lemma pods_are_distinct csms pod pod' c c' :
  trimmed pod → trimmed pod' → pod ≠ pod' →
  loadConfig (podEnvironment csms pod) = Ok c → loadConfig (podEnvironment csms pod') = Ok c' →
  InstanceID c ≠ InstanceID c'.
Proof.
  intros Ht Ht' Hne (_ & -> & _)%loadConfig_fields (_ & -> & _)%loadConfig_fields.
  unfold trimmed_text. rewrite !pod_instance, !TrimSpace_id by done. done.
Qed.
End pod.

(** ** A concrete kubelet *)

Module RefKubelet.
(** The directory and the name in it. *)
Fixpoint split_last (s : string) : option (string * string) :=
  match s with
  | "" => None
  | String c s =>
      match split_last s with
      | Some (d, b) => Some (String c d, b)
      | None => if Ascii.eqb c "/" then Some ("", s) else None
      end
  end.

Lemma split_last_flat key : flat key = true → split_last key = None.
Proof.
  unfold flat. intros H%negb_true_iff. induction key as [|c key IH]; [done|].
  cbn [Strings.Contains] in H. apply orb_false_iff in H as [H1 H2]. cbn. rewrite IH by done.
  destruct (Ascii.eqb_spec c "/") as [->|]; [|done].
  rewrite Strings.HasPrefix_false in H1. by destruct (H1 key).
Qed.
Lemma split_last_app dir key : flat key = true → split_last (dir +:+ "/" +:+ key) = Some (dir, key).
Proof.
  intros H. induction dir as [|c dir IH].
  - change ("/" +:+ key) with (String "/" key). rewrite string_app_nil_l. cbn. by rewrite split_last_flat.
  - rewrite string_app_cons. cbn. by rewrite IH.
Qed.
Lemma split_last_spec s d b : split_last s = Some (d, b) → s = d +:+ "/" +:+ b.
Proof.
  revert d. induction s as [|c s IH]; intros d; [done|]. cbn.
  destruct (split_last s) as [[d' b']|].
  - intros [= <- <-]. by rewrite string_app_cons, <- (IH d').
  - destruct (Ascii.eqb_spec c "/") as [->|]; [|done]. by intros [= <- <-].
Qed.

Fixpoint findBy {A} (name : A → string) (x : string) (l : list A) : option A :=
  match l with
  | [] => None
  | a :: l => if String.eqb (name a) x then Some a else findBy name x l
  end.
Lemma findBy_unique {A} (name : A → string) a l :
  NoDup (name <$> l) → a ∈ l → findBy name (name a) l = Some a.
Proof.
  induction l as [|b l IH]; cbn; intros Hnd Hin; [by apply not_elem_of_nil in Hin|].
  apply NoDup_cons in Hnd as [Hb Hnd]. apply elem_of_cons in Hin as [->|Hin].
  - by rewrite String.eqb_refl.
  - rewrite (proj2 (String.eqb_neq _ _)); [auto|]. intros E. apply Hb. rewrite E.
    by apply list_elem_of_fmap_2.
Qed.
Lemma findBy_sound {A} (name : A → string) x l a : findBy name x l = Some a → a ∈ l ∧ name a = x.
Proof.
  induction l as [|b l IH]; cbn; [done|]. destruct (String.eqb_spec (name b) x) as [E|].
  - intros [= <-]. split; [by left|done].
  - intros [? ?]%IH. split; [by right|done].
Qed.

Section ref.
Context (configs secrets : string → gmap string string).

Definition source_ (src : EnvFromSource) : gmap string string :=
  match src with ConfigMapRef n => configs n | SecretRef n _ => secrets n end.
(** The last source that has the name. *)
Fixpoint last_source (srcs : list EnvFromSource) (name : string) : option string :=
  match srcs with
  | [] => None
  | src :: srcs => match last_source srcs name with Some v => Some v | None => source_ src !! name end
  end.
Definition environment_ (pod : string) (c : Container) (name : string) : option string :=
  match findBy env_Name name (Env c) with
  | Some e => if String.eqb (FieldPath e) "metadata.name" then Some pod else None
  | None => last_source (EnvFrom c) name
  end.
Definition file_ (volumes : list Volume) (mounts : list VolumeMount) (path : string) : option string :=
  match split_last path with
  | Some (dir, key) =>
      match findBy MountPath dir mounts with
      | Some m => v ← findBy vol_Name (vm_Name m) volumes; secrets (SecretName v) !! key
      | None => None
      end
  | None => None
  end.

#[export] Program Instance kubelet : Kubelet := {|
  source := source_;
  secret := secrets;
  image_file := λ _, None;
  environment := environment_;
  file := file_
|}.
Next Obligation.
  intros pod c name Hnd Hin. unfold environment_.
  by rewrite (findBy_unique env_Name _ _ Hnd Hin : findBy env_Name name (Env c) = _).
Qed.
Next Obligation.
  intros pod c name Hnot Hsrc. unfold environment_. destruct (findBy _ _ _) as [e|] eqn:E.
  - apply findBy_sound in E as [Hin <-]. destruct Hnot. by apply list_elem_of_fmap_2.
  - clear E. induction (EnvFrom c) as [|src srcs IH]; [done|]. cbn.
    rewrite IH by (intros; apply Hsrc; by right). apply Hsrc. by left.
Qed.
Next Obligation.
  intros volumes mounts v m key Hv Hm Hin1 Hin2 E Hflat _. unfold file_.
  rewrite split_last_app by done. rewrite findBy_unique by done. rewrite <- E.
  by rewrite findBy_unique.
Qed.
Next Obligation.
  intros volumes mounts path H. unfold file_. destruct (split_last path) as [[d b]|] eqn:Es; [|done].
  destruct (findBy _ _ _) as [m|] eqn:E; [|done]. apply findBy_sound in E as [Hin <-].
  destruct (H _ Hin). exists b. by apply split_last_spec.
Qed.
End ref.
End RefKubelet.

(** ** Witnesses *)

Module DeployedWitnesses.
Import OperatorWitnesses.
#[local] Existing Instance kube.

Definition made {A} (blank : A) (r : result api_error A) : A :=
  match r with Ok a => a | Err _ => blank end.
Definition ingress : CSMSIngress := mkCSMSIngress "csms.example.com" "nginx" "" ∅.
Definition svc : Service := made (blank KService) (mutateService demo (blank KService)).
Definition dep : Deployment := made (blank KDeployment) (mutateDeployment demo (blank KDeployment)).
Definition pdb : PodDisruptionBudget :=
  made (blank KPodDisruptionBudget) (mutatePodDisruptionBudget demo (blank KPodDisruptionBudget)).
Definition ing : Ingress := made (blank KIngress) (mutateIngress demo ingress (blank KIngress)).

Lemma deployed_objects_fit_witness :
  fits demo svc dep pdb ∧
  Forall (λ r, backend_Service r = "demo" ∧ ∃ sp, sp ∈ Ports svc ∧ sp_Name sp = backend_Port r) (Rules ing).
Proof.
  apply (deployed_objects_fit demo (blank KService) (blank KDeployment) (blank KPodDisruptionBudget)
           (blank KIngress) ingress svc dep pdb ing); by_evaluation.
Defined.

(** The Secrets of the demo, and a machine with its files. *)
Definition vault (name : string) : gmap string string :=
  if String.eqb name "server-tls" then <["tls.crt" := "cert"]> (<["tls.key" := "key"]> ∅)
  else if String.eqb name "client-ca" then {["ca.crt" := "authority"]}
  else if String.eqb name "redis" then {["CSMS_REDIS_URL" := "redis://r"]} else ∅.
Definition settings (name : string) : gmap string string := spec_Config spec.
#[local] Instance node : Kubelet := RefKubelet.kubelet settings vault.

Definition host : machine :=
  mkMachine (λ path, match podFile demo path with Some _ => Some false | None => None end)
    (λ _ _, true) (podFile demo) (λ _, true).
Definition loaded : Config :=
  match loadConfig (podEnvironment demo "demo-5f9-x2") with Ok c => c | Err _ => ServerWitnesses.config end.

Lemma demo_conventional : conventional demo.
Proof.
  intros src name Hs Hn. apply list_elem_of_In in Hs, Hn.
  assert (forallb (λ src, forallb (λ name, bool_decide (source src !! name = None))
    ["CSMS_HTTP_ADDR"; "CSMS_TLS_CERT_FILE"; "CSMS_TLS_KEY_FILE"; "CSMS_TLS_CLIENT_CA_FILE"])
    (envFrom demo) = true) as H by by_evaluation.
  rewrite forallb_forall in H. specialize (H _ Hs). rewrite forallb_forall in H.
  by apply H, bool_decide_eq_true in Hn.
Qed.
Lemma host_runs : runs_in demo host.
Proof.
  split; [|done]. intros path. unfold fileExists, host. cbn [Stat].
  destruct (String.eqb_spec path "") as [->|Hne].
  - by rewrite bool_decide_eq_false_2 by (by intros [[] _]).
  - destruct (podFile demo path) as [f|].
    + by rewrite bool_decide_eq_true_2 by eauto.
    + by rewrite bool_decide_eq_false_2 by (by intros [_ []]).
Qed.
Lemma host_secrets : secrets_in_order demo host.
Proof.
  split; [by eexists|]. split; [by eexists|]. split; [done|]. intros _. exists "authority". by split.
Qed.

Lemma deployed_runtime_fits_witness :
  RedisURL loaded = "redis://r" ∧ InstanceID loaded = "demo-5f9-x2" ∧ HTTPAddr loaded = ":8080" ∧
  buildTLSConfig host loaded =
    Ok (t ← spec_TLS (Spec demo); Some (mkTLS (negb (String.eqb (ClientCASecretName t) "")))).
Proof.
  split; [by_evaluation|].
  destruct (deployed_runtime_fits demo host "demo-5f9-x2" loaded) as (Hid & _ & _ & _ & Hconv);
    [split; by_evaluation|by_evaluation|].
  destruct (Hconv demo_conventional) as [Haddr Htls].
  split; [exact Hid|]. split; [exact (Haddr eq_refl)|].
  apply Htls; [intros path _; reflexivity|exact host_runs|exact host_secrets].
Defined.
End DeployedWitnesses.
