(* ===== verification/Controller.v ===== *)
(** * The controller around the reconciler (controller/csms_controller.go, cmd/operator/main.go)

    What [SetupWithManager] registers, and the manager that [main] starts: the cache its
    client reads from, the notifications that bring it up to date, the queue of requests
    they fill, and runs of the reconciler that other writers of the cluster interrupt.
    A run is split into its calls, in the order of [Reconcile]. *)

From S2P Require Import Prelude GoStd Kube Operator OperatorProperties.

(** ** What is watched *)

(** [For] the resource, [Owns] these kinds. *)
Definition SetupWithManager : list kind :=
  [KDeployment; KService; KConfigMap; KPodDisruptionBudget; KIngress].

(** The resource an owner reference names; [For] made its group and kind the ones that
    count. *)
Definition owning_resource (owner : string) : option string :=
  Strings.strip_prefix (Group +:+ "/CSMS/") owner.

(** The requests an event on an object of a kind leads to: that of the resource which
    controls it. *)
Definition requests_for (k : kind) (n : key) (refs : list ownerRef) : gset key :=
  if bool_decide (k ∈ SetupWithManager) then
    match controller_of refs ≫= owning_resource with
    | Some name => {[ (n.1, name) ]}
    | None => ∅
    end
  else ∅.
Definition references (k : kind) (n : key) (o : option (obj k)) : gset key :=
  match o with Some o => requests_for k n (OwnerReferences (metaOf k o)) | None => ∅ end.

(** ** The cache

    The manager's client reads from a cache that notifications of the API server bring
    up to date, those about one object in the order of its changes. *)

Record view : Type := mkView {
  v_obj : ∀ k, key → option (obj k);
  v_res : key → option CSMS }.

Inductive event : Type :=
  | ObjectEvent (k : kind) (n : key) (o : option (obj k))
  | ResourceEvent (n : key) (c : option CSMS).

Definition about (e : event) : option kind * key :=
  match e with ObjectEvent k n _ => (Some k, n) | ResourceEvent n _ => (None, n) end.

Definition set_obj (v : view) (k : kind) (n : key) (o : option (obj k)) : view :=
  mkView (λ k' n',
    match decide (k = k') with
    | left E => if decide (n' = n) then eq_rect k (λ k, option (obj k)) o k' E else v_obj v k' n'
    | right _ => v_obj v k' n'
    end) (v_res v).
Definition set_res (v : view) (n : key) (c : option CSMS) : view :=
  mkView (v_obj v) (λ n', if decide (n' = n) then c else v_res v n').
Definition deliver (v : view) (e : event) : view :=
  match e with ObjectEvent k n o => set_obj v k n o | ResourceEvent n c => set_res v n c end.
(** The cache once all of these have arrived. *)
Definition final (l : list event) (v : view) : view := fold_left deliver l v.

(** The requests a notification leads to: for an object those of the resource that
    controlled it before and of the one that does now. *)
Definition requests (v : view) (e : event) : gset key :=
  match e with
  | ObjectEvent k n o => references k n (v_obj v k n) ∪ references k n o
  | ResourceEvent n _ => {[n]}
  end.
(** Those that a series of notifications leads to. *)
Definition announced (v : view) (l : list event) : gset key := ⋃ (requests v <$> l).

#[global] Arguments final : simpl never.
#[global] Arguments announced : simpl never.

Lemma set_obj_eq v k n o : v_obj (set_obj v k n o) k n = o.
Proof.
  cbn. destruct (decide (k = k)) as [E|]; [|done]. rewrite decide_True by done.
  by rewrite (proof_irrel E eq_refl).
Qed.
Lemma set_obj_ne v k n o k' n' : (k', n') ≠ (k, n) → v_obj (set_obj v k n o) k' n' = v_obj v k' n'.
Proof. cbn. intros Hne. destruct (decide (k = k')) as [<-|]; [|done]. rewrite decide_False by congruence. done. Qed.

Lemma final_snoc l e v : final (l ++ [e]) v = deliver (final l v) e.
Proof. unfold final. by rewrite fold_left_app. Qed.

(** A notification about something else does not change what the cache has of this. *)
Lemma deliver_obj_ne v e k n : about e ≠ (Some k, n) → v_obj (deliver v e) k n = v_obj v k n.
Proof. destruct e as [k' n' o|n' c]; [|done]. intros Hne. apply set_obj_ne. cbn in Hne. congruence. Qed.
Lemma deliver_res_ne v e n : about e ≠ (None, n) → v_res (deliver v e) n = v_res v n.
Proof. destruct e as [k' n' o|n' c]; [done|]. cbn. intros Hne. by rewrite decide_False by congruence. Qed.

(** What the cache ends with of an object: what it has, or what a notification says. *)
Lemma final_obj l v k n :
  v_obj (final l v) k n = v_obj v k n ∨
  ∃ o, ObjectEvent k n o ∈ l ∧ v_obj (final l v) k n = o.
Proof.
  induction l as [|e l IH] using rev_ind; [by left|]. rewrite final_snoc.
  destruct (decide (about e = (Some k, n))) as [Ea|Ha].
  - destruct e as [k' n' o|]; [|done]. cbn in Ea. injection Ea as -> ->. right. exists o.
    split; [set_solver|apply set_obj_eq].
  - rewrite deliver_obj_ne by done. destruct IH as [?|(o & ? & ?)]; [by left|right]. exists o. set_solver.
Qed.
Lemma final_obj_quiet l v k n :
  (∀ e, e ∈ l → about e ≠ (Some k, n)) → v_obj (final l v) k n = v_obj v k n.
Proof.
  induction l as [|e l IH] using rev_ind; intros H; [done|]. rewrite final_snoc.
  rewrite deliver_obj_ne by (apply H; set_solver). apply IH. intros e' He'. apply H. set_solver.
Qed.
Lemma final_res_quiet l v n :
  (∀ e, e ∈ l → about e ≠ (None, n)) → v_res (final l v) n = v_res v n.
Proof.
  induction l as [|e l IH] using rev_ind; intros H; [done|]. rewrite final_snoc.
  rewrite deliver_res_ne by (apply H; set_solver). apply IH. intros e' He'. apply H. set_solver.
Qed.

(** Views that show the same. *)
#[export] Instance view_equiv : Equiv view := λ v v',
  (∀ k n, v_obj v k n = v_obj v' k n) ∧ ∀ n, v_res v n = v_res v' n.
#[export] Instance view_equivalence : Equivalence (≡@{view}).
Proof.
  split; [by split| |].
  - intros v v' [H1 H2]. by split.
  - intros v v' v'' [H1 H2] [H3 H4]. split; intros; [by rewrite H1|by rewrite H2].
Qed.
Lemma deliver_same v v' e : v ≡ v' → deliver v e ≡ deliver v' e.
Proof.
  intros [H1 H2]. destruct e as [k n o|n c]; split; cbn; intros; repeat case_match; auto.
Qed.
Lemma final_same l v v' : v ≡ v' → final l v ≡ final l v'.
Proof. revert v v'. induction l as [|e l IH]; intros v v' H; [done|]. apply IH, deliver_same, H. Qed.
Lemma deliver_commute v e e' : about e ≠ about e' → deliver (deliver v e) e' ≡ deliver (deliver v e') e.
Proof.
  destruct e as [k n o|n c], e' as [k' n' o'|n' c']; cbn; intros Hne; split; cbn; try done.
  - intros k0 n0. destruct (decide (k = k0)) as [<-|], (decide (k' = k)) as [->|]; try done;
      repeat case_match; subst; try done; by destruct Hne.
  - intros n0. repeat case_match; subst; try done; by destruct Hne.
Qed.
(** A notification may overtake those about other things. *)
Lemma final_overtake l1 e l2 v :
  (∀ e', e' ∈ l1 → about e' ≠ about e) → final (l1 ++ e :: l2) v ≡ final (l1 ++ l2) (deliver v e).
Proof.
  revert v. induction l1 as [|e' l1 IH]; intros v H; [done|]. cbn.
  change (final (l1 ++ e :: l2) (deliver v e') ≡ final (l1 ++ l2) (deliver (deliver v e) e')).
  rewrite IH by (intros; apply H; set_solver). apply final_same, deliver_commute. apply H. set_solver.
Qed.

Lemma announced_elem v l n : n ∈ announced v l ↔ ∃ e, e ∈ l ∧ n ∈ requests v e.
Proof.
  unfold announced. rewrite elem_of_union_list. setoid_rewrite list_elem_of_fmap. naive_solver.
Qed.
Lemma announced_app v l l' : announced v (l ++ l') = announced v l ∪ announced v l'.
Proof. apply leibniz_equiv. intros n. rewrite elem_of_union, !announced_elem. set_solver. Qed.

Lemma announced_one v e : announced v [e] = requests v e.
Proof. unfold announced. cbn. apply leibniz_equiv. set_solver. Qed.

(** Delivering one notification loses no request. *)
Lemma announced_deliver v l1 e l2 n :
  (∀ e', e' ∈ l1 → about e' ≠ about e) → n ∈ announced v (l1 ++ e :: l2) →
  n ∈ requests v e ∨ n ∈ announced (deliver v e) (l1 ++ l2).
Proof.
  intros Hl1 (e' & He' & Hn)%announced_elem. rewrite announced_elem.
  assert (about e' ≠ about e → requests (deliver v e) e' = requests v e') as Hsame.
  { destruct e' as [k n' o|]; [|done]. intros Ha. unfold requests.
    rewrite deliver_obj_ne by (intros Eq; by apply Ha). done. }
  apply elem_of_app in He' as [He'|[->|He']%elem_of_cons]; [|by left|].
  - right. exists e'. rewrite Hsame by auto. set_solver.
  - destruct (decide (about e' = about e)) as [Ea|Ha]; [|right; exists e'; rewrite Hsame by done; set_solver].
    destruct e' as [k' n' o'|n' c'], e as [k0 n0 o|n0 c]; cbn in Ea; try done; simplify_eq.
    + cbn [requests] in *. apply elem_of_union in Hn as [Hn|Hn]; [left; set_solver|]. right.
      exists (ObjectEvent k0 n0 o'). split; [set_solver|]. cbn [requests]. set_solver.
    + by left.
Qed.

(** ** The manager *)

(** The calls of [Reconcile] on the objects, in order. *)
Definition order : list kind := [KConfigMap; KService; KDeployment; KPodDisruptionBudget; KIngress].

Section manager.
Context {K : Kube CSMS} {KL : KubeLaws CSMS K}.

(** A run: its request, the resource it read, the kinds it has still to see to and the
    Deployment it got. *)
Record current : Type := mkCurrent {
  request : key; subject : CSMS; todo : list kind; deployment : option Deployment }.
(** The cluster, the cache, the notifications that have not arrived, the queue and the
    run under way. *)
Record manager : Type := mkManager {
  objects : cluster; cache : view; feed : list event; queue : gset key; running : option current }.

(** Only the object of one kind and name changes, or only a resource. *)
Definition only_object (k : kind) (n : key) (s s' : cluster) : Prop :=
  (∀ k' n', (k', n') ≠ (k, n) → look s' k' n' = look s k' n') ∧
  (∀ n', look_resource s' n' = look_resource s n').
Definition only_resource (n : key) (s s' : cluster) : Prop :=
  (∀ k n', look s' k n' = look s k n') ∧
  (∀ n', n' ≠ n → look_resource s' n' = look_resource s n').

(** A write is announced; there may be none when it changed nothing. *)
Definition object_announced (k : kind) (n : key) (s s' : cluster) (f f' : list event) : Prop :=
  f' = f ++ [ObjectEvent k n (look s' k n)] ∨ (f' = f ∧ look s' k n = look s k n).
Definition resource_announced (n : key) (s s' : cluster) (f f' : list event) : Prop :=
  f' = f ++ [ResourceEvent n (look_resource s' n)] ∨
  (f' = f ∧ look_resource s' n = look_resource s n).

(** The Deployment a run knows after a call on the objects. *)
Definition deployment_seen (k : kind) : option (obj k) → option Deployment → option Deployment :=
  match k with
  | KDeployment => λ o _, o
  | _ => λ _ old, old
  end.

(** The run after it has seen to a kind. *)
Definition next (c : current) (k : kind) (rest : list kind) (o : option (obj k)) : current :=
  mkCurrent (request c) (subject c) rest (deployment_seen k o (deployment c)).

Inductive step : manager → manager → Prop :=
  (* users write and delete resources *)
  | resource_written s s' v f q r n :
      only_resource n s s' → (∀ c, look_resource s' n = Some c → keyOf c = n) →
      step (mkManager s v f q r)
        (mkManager s' v (f ++ [ResourceEvent n (look_resource s' n)]) q r)
  (* anyone creates, changes or deletes an object *)
  | object_written s s' v f q r k n :
      only_object k n s s' →
      step (mkManager s v f q r) (mkManager s' v (f ++ [ObjectEvent k n (look s' k n)]) q r)
  (* a notification arrives *)
  | delivered s v l1 e l2 q r :
      (∀ e', e' ∈ l1 → about e' ≠ about e) →
      step (mkManager s v (l1 ++ e :: l2) q r)
        (mkManager s (deliver v e) (l1 ++ l2) (q ∪ requests v e) r)
  (* other reasons for a request, as a resync *)
  | requested s v f q r n : step (mkManager s v f q r) (mkManager s v f (q ∪ {[n]}) r)
  (* a run: the resource is read from the cache *)
  | run_started s v f q n c :
      n ∈ q → v_res v n = Some c →
      step (mkManager s v f q None) (mkManager s v f (q ∖ {[n]}) (Some (mkCurrent n c order None)))
  | nothing_to_do s v f q n :
      n ∈ q → v_res v n = None → step (mkManager s v f q None) (mkManager s v f (q ∖ {[n]}) None)
  | not_read s v f q n :
      n ∈ q → step (mkManager s v f q None) (mkManager s v f (q ∖ {[n]} ∪ {[n]}) None)
  (* an object is read from the cache and written, which the server accepts only when
     what was read is what there is; a deletion reads nothing *)
  | seen_to s s' v f f' q c k rest a o :
      todo c = k :: rest →
      (wanted (subject c) k = true → v_obj v k (request c) = look s k (request c)) →
      reconcileKind (subject c) k a s = (s', Ok o) → object_announced k (request c) s s' f f' →
      step (mkManager s v f q (Some c)) (mkManager s' v f' q (Some (next c k rest o)))
  | not_seen_to s s' v f f' q c k rest a e :
      todo c = k :: rest →
      (wanted (subject c) k = true → v_obj v k (request c) = look s k (request c)) →
      reconcileKind (subject c) k a s = (s', Err e) → object_announced k (request c) s s' f f' →
      step (mkManager s v f q (Some c)) (mkManager s' v f' (q ∪ {[request c]}) None)
  (* an object that the callback leaves as it was read is not written *)
  | unchanged_kept s v f q c k rest o :
      todo c = k :: rest → wanted (subject c) k = true → v_obj v k (request c) = Some o →
      mutate (subject c) k o = Ok o →
      step (mkManager s v f q (Some c)) (mkManager s v f q (Some (next c k rest (Some o))))
  (* the server refuses a write based on an old version *)
  | conflict s v f q c k rest :
      todo c = k :: rest → wanted (subject c) k = true → v_obj v k (request c) ≠ look s k (request c) →
      step (mkManager s v f q (Some c)) (mkManager s v f (q ∪ {[request c]}) None)
  | reported s s' v f f' q c d a t :
      todo c = [] → deployment c = Some d → updateStatus a t (subject c) d s = (s', Ok tt) →
      resource_announced (request c) s s' f f' →
      step (mkManager s v f q (Some c)) (mkManager s' v f' q None)
  | not_reported s s' v f f' q c d a t e :
      todo c = [] → deployment c = Some d → updateStatus a t (subject c) d s = (s', Err e) →
      resource_announced (request c) s s' f f' →
      step (mkManager s v f q (Some c)) (mkManager s' v f' (q ∪ {[request c]}) None).

(** The view that shows the cluster as it is. *)
Definition shows (v : view) (s : cluster) : Prop :=
  (∀ k n, v_obj v k n = look s k n) ∧ (∀ n, v_res v n = look_resource s n).

(** The manager starts with a filled cache and a request for every resource there is. *)
Inductive reachable : manager → Prop :=
  | reach_start s v q :
      shows v s → (∀ n c, look_resource s n = Some c → keyOf c = n ∧ n ∈ q) →
      reachable (mkManager s v [] q None)
  | reach_step m m' : reachable m → step m m' → reachable m'.

(** ** Runs without interruption are [Reconcile] *)

Lemma requeued (q : gset key) n : n ∈ q → q ∖ {[n]} ∪ {[n]} = q.
Proof. intros H. apply leibniz_equiv. intros x. destruct (decide (x = n)); set_solver. Qed.

(** The cache shows these kinds of a name as they are. *)
Definition fresh_for (v : view) (n : key) (s : cluster) (ks : list kind) : Prop :=
  ∀ k, k ∈ ks → v_obj v k n = look s k n.

(** One call of a run. *)
Lemma seen_to_kind s s' v f q n c k rest d a r :
  keyOf c = n → fresh_for v n s (k :: rest) → k ∉ rest → reconcileKind c k a s = (s', r) →
  fresh_for v n s' rest ∧
  ∃ f', rtc step (mkManager s v f q (Some (mkCurrent n c (k :: rest) d)))
    match r with
    | Ok o => mkManager s' v f' q (Some (mkCurrent n c rest (deployment_seen k o d)))
    | Err _ => mkManager s' v f' (q ∪ {[n]}) None
    end.
Proof.
  intros <- Hf Hk E. split.
  { intros k' Hk'. destruct (reconcileKind_frame _ _ _ _ _ _ E) as [Hfr _].
    rewrite Hfr by (intros [= ->]; done). apply Hf. by right. }
  exists (f ++ [ObjectEvent k (keyOf c) (look s' k (keyOf c))]). apply rtc_once. destruct r as [o|e].
  - apply (seen_to s s' v f _ q (mkCurrent (keyOf c) c (k :: rest) d) k rest a o);
      [done|intros _; apply Hf; by left|done|by left].
  - apply (not_seen_to s s' v f _ q (mkCurrent (keyOf c) c (k :: rest) d) k rest a e);
      [done|intros _; apply Hf; by left|done|by left].
Qed.

(** Steps before steps that end with some notifications outstanding. *)
Lemma chained (m m1 : manager) (g : list event → manager) :
  rtc step m m1 → (∃ f', rtc step m1 (g f')) → ∃ f', rtc step m (g f').
Proof. intros H [f' H']. exists f'. by etrans. Qed.

(** Follows one call of a run. *)
Ltac see_to q n Hn E :=
  let F := fresh "Hfresh" in let f := fresh "f" in
  eapply (seen_to_kind _ _ _ _ (q ∖ {[n]}) n) in E as (F & f & E); [|done|eassumption|set_solver];
  cbn [forget];
  lazymatch type of E with
  | rtc _ _ (mkManager _ _ _ _ None) =>
      intros [= <- <-]; rewrite (requeued q n Hn) in E; exists f; exact E
  | _ =>
      let G := fresh in intros G;
      lazymatch goal with
      | |- ∃ f', rtc _ _ (mkManager ?s' ?v f' ?q' None) =>
          apply (chained _ _ (λ f', mkManager s' v f' q' None) E)
      end; clear E; revert G
  end.

(** A run that nothing interrupts, on a cache that shows its objects as they are, is
    [Reconcile]: it has its effect, and the request is done exactly when there was no
    error. *)
Lemma uninterrupted_run (x : calls) (n : key) (s s' : cluster) (r : option reconcile_error)
    (v : view) (f : list event) (q : gset key) :
  n ∈ q → fresh_for v n s order → v_res v n = look_resource s n →
  (∀ c, v_res v n = Some c → keyOf c = n) → Reconcile x n s = (s', r) →
  ∃ f', rtc step (mkManager s v f q None)
    (mkManager s' v f' (match r with None => q ∖ {[n]} | Some _ => q end) None).
Proof.
  intros Hn Hf Hv Hkey. unfold Reconcile. rewrite Get_law.
  assert (∃ f', rtc step (mkManager s v f q None) (mkManager s v f' q None)) as Hun.
  { exists f. apply rtc_once. rewrite <- (requeued q n Hn) at 2. by apply not_read. }
  destruct (on_get x); [|intros [= <- <-]; exact Hun..].
  destruct (look_resource s n) as [c|]; [|intros [= <- <-]; exists f; apply rtc_once; by apply nothing_to_do].
  specialize (Hkey c Hv). intros E.
  apply (chained _ (mkManager s v f (q ∖ {[n]}) (Some (mkCurrent n c order None)))
    (λ f', mkManager s' v f' _ None)); [apply rtc_once; by apply run_started|].
  revert E. unfold order in *.
  rewrite reconcileConfigMap_kind.
  destruct (reconcileKind c KConfigMap _ s) as [s1 [r1|]] eqn:E1; see_to q n Hn E1.
  rewrite reconcileService_kind.
  destruct (reconcileKind c KService _ s1) as [s2 [r2|]] eqn:E2; see_to q n Hn E2.
  rewrite reconcileDeployment_kind.
  destruct (reconcileKind c KDeployment _ s2) as [s3 [od|]] eqn:E3; [|see_to q n Hn E3].
  assert (∃ d, od = Some d) as [d ->].
  { pose proof (reconcileKind_settles _ _ _ _ _ _ E3) as ((d & Hd & _) & -> & _). eauto. }
  see_to q n Hn E3. rewrite reconcileBudget_kind.
  destruct (reconcileKind c KPodDisruptionBudget _ s3) as [s4 [r4|]] eqn:E4; see_to q n Hn E4.
  rewrite reconcileIngress_kind.
  destruct (reconcileKind c KIngress _ s4) as [s5 [r5|]] eqn:E5; see_to q n Hn E5.
  set (cur := mkCurrent _ _ _ _).
  destruct (updateStatus _ _ _ _ s5) as [s6 [[]|e]] eqn:E6; intros [= <- <-]; eexists; apply rtc_once.
  - by apply (reported _ _ _ _ _ _ cur d _ _ eq_refl eq_refl E6); left.
  - rewrite <- (requeued q n Hn) at 2.
    by apply (not_reported _ _ _ _ _ (q ∖ {[n]}) cur d _ _ _ eq_refl eq_refl E6); left.
Qed.

(** ** No drift goes unnoticed *)

(** An object is in order when the resource asks for it and it conforms, or the resource
    does without and it is not one of its own. *)
Definition in_order (c : CSMS) (k : kind) (s : cluster) : Prop :=
  if wanted c k then ∃ o, look s k (keyOf c) = Some o ∧ conforms c k o
  else ∀ o, look s k (keyOf c) = Some o →
    controller_of (OwnerReferences (metaOf k o)) ≠ Some (ownerOf c).

Lemma settled_in_order c k s : settled c k s → in_order c k s.
Proof. unfold settled, in_order. destruct (wanted c k); [done|]. intros -> o. done. Qed.
Lemma in_order_same c k s s' :
  look s' k (keyOf c) = look s k (keyOf c) → in_order c k s → in_order c k s'.
Proof. unfold in_order. by intros ->. Qed.
Lemma in_order_request c c' k s : same_request c c' → in_order c' k s ↔ in_order c k s.
Proof. destruct c, c'. intros (H1 & H2 & H3 & H4). cbn in *. subst. done. Qed.

(** An event on an object that a resource controls leads to a request for it. *)
Lemma controlled_references c k (o : obj k) :
  controller_of (OwnerReferences (metaOf k o)) = Some (ownerOf c) →
  keyOf c ∈ references k (keyOf c) (Some o).
Proof.
  intros Hc. unfold references, requests_for. rewrite Hc. cbn. unfold owning_resource, ownerOf.
  rewrite (proj2 (Strings.strip_prefix_spec _ _ (csms_Name c))) by done.
  rewrite bool_decide_true by (destruct k; unfold SetupWithManager; set_solver).
  by apply elem_of_singleton.
Qed.

(** The kinds of a resource that a run for it has still to see to. *)
Definition pending (r : option current) (n : key) : list kind :=
  match r with
  | Some cur => if decide (request cur = n) then todo cur else []
  | None => []
  end.
(** A run for the resource read it as it now asks. *)
Definition current_for (r : option current) (n : key) (c : CSMS) : Prop :=
  match r with
  | Some cur => request cur = n → same_request (subject cur) c
  | None => True
  end.

(** There is a request for the resource, or one will be when the outstanding
    notifications have arrived, or its objects are in order, but for those that a run is
    about to see to. *)
Definition noticed (m : manager) (n : key) (c : CSMS) : Prop :=
  n ∈ queue m ∪ announced (cache m) (feed m) ∨
  (current_for (running m) n c ∧ ∀ k, k ∉ pending (running m) n → in_order c k (objects m)).

(** Resources are filed under their names. *)
Definition well_named (n : key) (o : option CSMS) : Prop := ∀ c, o = Some c → keyOf c = n.
Definition names_ok (v : view) (f : list event) : Prop :=
  (∀ n, well_named n (v_res v n)) ∧ ∀ n c, ResourceEvent n c ∈ f → well_named n c.

(** The cache will show the cluster as it is once all notifications have arrived. *)
Record attentive (m : manager) : Prop := mkAttentive {
  at_shows : shows (final (feed m) (cache m)) (objects m);
  at_names : names_ok (cache m) (feed m);
  at_noticed n c : look_resource (objects m) n = Some c → noticed m n c;
  at_running : match running m with Some cur => keyOf (subject cur) = request cur | None => True end }.

Lemma final_res l v n :
  v_res (final l v) n = v_res v n ∨
  ∃ c, ResourceEvent n c ∈ l ∧ v_res (final l v) n = c.
Proof.
  induction l as [|e l IH] using rev_ind; [by left|]. rewrite final_snoc.
  destruct (decide (about e = (None, n))) as [Ea|Ha].
  - destruct e as [|n' c]; [done|]. cbn in Ea. injection Ea as ->. right. exists c. cbn.
    rewrite decide_True by done. split; [set_solver|done].
  - rewrite deliver_res_ne by done. destruct IH as [?|(c & ? & ?)]; [by left|right]. exists c. set_solver.
Qed.

Lemma live_named m n : attentive m → well_named n (look_resource (objects m) n).
Proof.
  intros [[_ Hs] [Hv Hf] _ _]. rewrite <- Hs. destruct (final_res (feed m) (cache m) n) as [->|(c & Hc & ->)];
    [apply Hv|by apply Hf].
Qed.

(** What there is of an object leads to a request when the next change of it arrives. *)
Lemma live_announced (s : cluster) v f k n o :
  shows (final f v) s → references k n (look s k n) ⊆ announced v (f ++ [ObjectEvent k n o]).
Proof.
  intros [Hs _]. rewrite <- Hs. intros x Hx. apply announced_elem.
  destruct (final_obj f v k n) as [E|(o' & Ho' & E)]; rewrite E in Hx.
  - exists (ObjectEvent k n o). cbn [requests]. set_solver.
  - exists (ObjectEvent k n o'). cbn [requests]. set_solver.
Qed.

(** More notifications and requests. *)
Lemma noticed_mono s v f f' q q' r n c :
  q ∪ announced v f ⊆ q' ∪ announced v f' →
  noticed (mkManager s v f q r) n c → noticed (mkManager s v f' q' r) n c.
Proof. intros Hsub [H|H]; [left; cbn in *; set_solver|by right]. Qed.

(** The view after a write that was announced. *)
Lemma shows_object k n s s' v f f' :
  only_object k n s s' → object_announced k n s s' f f' → shows (final f v) s → shows (final f' v) s'.
Proof.
  intros [Ho Hr] Hf [Hs1 Hs2]. destruct Hf as [->|[-> Hk]].
  - rewrite final_snoc. split; [|intros n'; cbn; by rewrite Hs2, Hr].
    intros k' n'. destruct (decide ((k', n') = (k, n))) as [[= -> ->]|Hne]; cbn [deliver].
    + apply set_obj_eq.
    + by rewrite set_obj_ne, Hs1, Ho.
  - split; [|intros; by rewrite Hs2, Hr]. intros k' n'. rewrite Hs1.
    destruct (decide ((k', n') = (k, n))) as [[= -> ->]|Hne]; [done|by rewrite Ho].
Qed.
Lemma shows_resource n s s' v f f' :
  only_resource n s s' → resource_announced n s s' f f' → shows (final f v) s → shows (final f' v) s'.
Proof.
  intros [Ho Hr] Hf [Hs1 Hs2]. destruct Hf as [->|[-> Hk]].
  - rewrite final_snoc. split; [intros k' n'; cbn; by rewrite Hs1, Ho|]. intros n'. cbn.
    destruct (decide (n' = n)) as [->|Hne]; [done|by rewrite Hs2, Hr].
  - split; [intros; by rewrite Hs1, Ho|]. intros n'. rewrite Hs2.
    destruct (decide (n' = n)) as [->|Hne]; [done|by rewrite Hr].
Qed.
Lemma names_object k n s s' v f f' : object_announced k n s s' f f' → names_ok v f → names_ok v f'.
Proof.
  intros [->|[-> _]] [Hv Hf]; [|done]. split; [done|]. intros n' c Hc. apply Hf.
  apply elem_of_app in Hc as [?|?%list_elem_of_singleton]; done.
Qed.
Lemma announced_mono k n s s' v f f' :
  object_announced k n s s' f f' → announced v f ⊆ announced v f'.
Proof. intros [->|[-> _]]; [rewrite announced_app|]; set_solver. Qed.
Lemma announced_mono_resource n s s' v f f' :
  resource_announced n s s' f f' → announced v f ⊆ announced v f'.
Proof. intros [->|[-> _]]; [rewrite announced_app|]; set_solver. Qed.

(** Others write a resource. *)
Lemma attentive_resource s s' v f q r n :
  only_resource n s s' → well_named n (look_resource s' n) → attentive (mkManager s v f q r) →
  attentive (mkManager s' v (f ++ [ResourceEvent n (look_resource s' n)]) q r).
Proof.
  intros Ho Hn [Hs Hnm Hno Hr]. cbn in *. split; cbn; [| | |done].
  - eapply (shows_resource n s s'); [done|by left|done].
  - destruct Hnm as [Hv Hf]. split; [done|]. intros n' c [?|[= -> ->]%list_elem_of_singleton]%elem_of_app; auto.
  - intros n' c Hc. destruct (decide (n' = n)) as [->|Hne].
    { left. cbn. rewrite announced_app, announced_one. cbn. set_solver. }
    destruct Ho as [Ho Hre]. rewrite Hre in Hc by done. destruct (Hno n' c Hc) as [H|[Hcur Hin]]; cbn in *.
    + left. cbn. rewrite announced_app. set_solver.
    + right. cbn. split; [done|]. intros k Hk. apply (in_order_same _ _ s); [apply Ho|by apply Hin].
Qed.

(** Others write an object. *)
Lemma attentive_object s s' v f q r k n :
  only_object k n s s' → attentive (mkManager s v f q r) →
  attentive (mkManager s' v (f ++ [ObjectEvent k n (look s' k n)]) q r).
Proof.
  intros Ho Hat. pose proof (live_named _ n Hat) as Hnamed. destruct Hat as [Hs Hnm Hno Hr]. cbn in *.
  split; cbn; [by eapply (shows_object k n s s'); [|left|]|by eapply (names_object k n s s'); [left|]| |done].
  intros n' c Hc. rewrite (proj2 Ho) in Hc. destruct (Hno n' c Hc) as [H|[Hcur Hin]]; cbn in *.
  { left. cbn. rewrite announced_app. set_solver. }
  assert (keyOf c = n') as Hkc.
  { destruct Hs as [_ Hs]. rewrite <- Hs in Hc. destruct Hnm as [Hv Hf].
    destruct (final_res f v n') as [E|(x & Hx & E)]; rewrite E in Hc; [by apply Hv|by eapply Hf]. }
  assert (∀ k', (k', n') ≠ (k, n) → k' ∉ pending r n' → in_order c k' s') as Hother.
  { intros k' Hk' Hp. apply (in_order_same _ _ s); [rewrite Hkc; by apply Ho|by apply Hin]. }
  destruct (decide (n' = n ∧ k ∉ pending r n')) as [[-> Hp]|Hnp].
  2: { right. cbn. split; [done|]. intros k' Hp. apply Hother; [|done]. intros [= -> ->]. tauto. }
  pose proof (Hin k Hp) as Hk. unfold in_order in Hk. destruct (wanted c k) eqn:Hw.
  - destruct Hk as (o & Hl & (_ & Hown & _)%conforms_owned). left. cbn.
    pose proof (live_announced s v f k n (look s' k n) Hs) as Hsub.
    pose proof (controlled_references c k o Hown) as Href. rewrite Hkc in Href, Hl. rewrite Hl in Hsub. set_solver.
  - destruct (look s' k n) as [o|] eqn:El.
    + destruct (decide (controller_of (OwnerReferences (metaOf k o)) = Some (ownerOf c))) as [Hown|Hown].
      * left. cbn. rewrite announced_app. pose proof (controlled_references c k o Hown) as Href.
        rewrite Hkc in Href. rewrite announced_one. cbn [requests]. set_solver.
      * right. cbn. split; [done|]. intros k' Hp'. destruct (decide (k' = k)) as [->|]; [|apply Hother; congruence].
        unfold in_order. rewrite Hw, Hkc, El. by intros ? [= <-].
    + right. cbn. split; [done|]. intros k' Hp'. destruct (decide (k' = k)) as [->|]; [|apply Hother; congruence].
      unfold in_order. rewrite Hw, Hkc, El. by intros ? [=].
Qed.

(** A notification arrives. *)
Lemma attentive_delivered s v l1 e l2 q r :
  (∀ e', e' ∈ l1 → about e' ≠ about e) → attentive (mkManager s v (l1 ++ e :: l2) q r) →
  attentive (mkManager s (deliver v e) (l1 ++ l2) (q ∪ requests v e) r).
Proof.
  intros Hl [[Hs1 Hs2] [Hv Hf] Hno Hr]. cbn in *.
  destruct (final_overtake l1 e l2 v Hl) as [E1 E2]. split; cbn; [| | |done].
  - split; intros; [by rewrite <- E1|by rewrite <- E2].
  - split; [|intros n c Hc; apply Hf; set_solver]. intros n.
    destruct (decide (about e = (None, n))) as [Ea|Ha]; [|by rewrite deliver_res_ne].
    destruct e as [|n' c]; [done|]. cbn in *. injection Ea as ->. rewrite decide_True by done.
    apply Hf. set_solver.
  - intros n c Hc. destruct (Hno n c Hc) as [H|H]; [|by right]. left. cbn in *.
    apply elem_of_union in H as [H|H]; [set_solver|].
    apply (announced_deliver v l1 e l2 n Hl) in H. set_solver.
Qed.

(** The resource a request is for is announced, or the cache shows it as it is. *)
Lemma read_resource s v f q r n :
  attentive (mkManager s v f q r) → n ∈ announced v f ∨ v_res v n = look_resource s n.
Proof.
  intros [[_ Hs] _ _ _]. cbn in *. destruct (decide (n ∈ announced v f)) as [|Hn]; [by left|right].
  rewrite <- Hs. symmetry. apply final_res_quiet. intros e He Ea. apply Hn, announced_elem.
  destruct e as [|n' c]; [done|]. cbn in Ea. injection Ea as ->. exists (ResourceEvent n c).
  split; [done|]. by apply elem_of_singleton.
Qed.

Lemma attentive_taken s v f q n r :
  attentive (mkManager s v f q None) →
  match r with Some cur => v_res v n = Some (subject cur) ∧ request cur = n ∧ todo cur = order
             | None => v_res v n = None end →
  attentive (mkManager s v f (q ∖ {[n]}) r).
Proof.
  intros Hat Hr. pose proof (read_resource _ _ _ _ _ n Hat) as Hread.
  destruct Hat as [Hs Hnm Hno _]. cbn in *. split; cbn; [done|done| |].
  - intros n' c Hc. destruct (decide (n' = n)) as [->|Hne].
    + destruct Hread as [?|Hread]; [left; cbn; set_solver|]. rewrite Hc in Hread.
      destruct r as [cur|]; [|congruence]. destruct Hr as (Hv & Hreq & Ht). right. cbn.
      rewrite Hread in Hv. injection Hv as <-. split; [done|]. intros k Hk. exfalso. apply Hk.
      rewrite decide_True, Ht by done. destruct k; unfold order; set_solver.
    + destruct (Hno n' c Hc) as [H|[_ Hin]]; cbn in *; [left; cbn; set_solver|]. right. cbn.
      split; [|intros k _; apply Hin, not_elem_of_nil]. destruct r as [cur|]; [|done]. cbn.
      intros E. destruct Hr as (_ & Hreq & _). congruence.
  - destruct r as [cur|]; [|done]. destruct Hr as (Hv & Hreq & _). rewrite Hreq.
    by apply (proj1 Hnm n).
Qed.

(** The calls of a run, as far as the objects go: only one object changes, and either the
    run goes on with its kind in order, or announced to be looked at again, or the
    request is back in the queue. *)
Lemma attentive_call s s' v f f' q c k rest o (go : bool) :
  attentive (mkManager s v f q (Some c)) → todo c = k :: rest →
  only_object k (request c) s s' → object_announced k (request c) s s' f f' →
  (go = true → in_order (subject c) k s' ∨ request c ∈ announced v f') →
  attentive (if go then mkManager s' v f' q (Some (mkCurrent (request c) (subject c) rest o))
             else mkManager s' v f' (q ∪ {[request c]}) None).
Proof.
  intros Hat Ht Ho Hf Hgo. pose proof (λ n, live_named _ n Hat) as Hnamed.
  destruct Hat as [Hs Hnm Hno Hr]. cbn in *. pose proof (announced_mono _ _ _ _ v _ _ Hf) as Hmono.
  assert (shows (final f' v) s' ∧ names_ok v f') as [Hs' Hnm']
    by (split; [by eapply shows_object|by eapply names_object]).
  assert (∀ n' c', look_resource s n' = Some c' → n' ≠ request c →
    n' ∈ q ∪ announced v f' ∨ ∀ k', in_order c' k' s') as Helse.
  { intros n' c' Hc' Hne. destruct (Hno n' c' Hc') as [H|[_ Hin]]; cbn in *; [left; set_solver|right].
    intros k'. apply (in_order_same _ _ s); [rewrite (Hnamed n' c' Hc'); apply Ho; congruence|].
    apply Hin. rewrite decide_False by done. apply not_elem_of_nil. }
  destruct go; split; cbn; try done.
  - intros n' c' Hc'. rewrite (proj2 Ho) in Hc'. destruct (decide (request c = n')) as [<-|Hne].
    2: { destruct (Helse n' c' Hc' ltac:(done)) as [H|H]; [by left|right]. split; [done|]. intros k' _. apply H. }
    destruct (Hgo eq_refl) as [Hk|Hk]; [|left; cbn; set_solver].
    destruct (Hno _ c' Hc') as [H|[Hcur Hin]]; cbn in *; [left; cbn; set_solver|right].
    specialize (Hcur eq_refl). split; [intros _; exact Hcur|]. intros k' Hp. cbn in Hp. rewrite decide_True in Hp by done.
    destruct (decide (k' = k)) as [->|Hk']; [by apply (in_order_request _ _ _ _ Hcur)|].
    apply (in_order_same _ _ s); [rewrite (Hnamed _ c' Hc'); apply Ho; congruence|].
    apply Hin. rewrite decide_True, Ht, elem_of_cons by done. tauto.
  - intros n' c' Hc'. rewrite (proj2 Ho) in Hc'. destruct (decide (n' = request c)) as [->|Hne];
      [left; cbn; set_solver|].
    destruct (Helse n' c' Hc' Hne) as [H|H]; [left; cbn; set_solver|right]. split; [done|]. intros k' _. apply H.
Qed.

(** The end of a run. *)
Lemma attentive_report s s' v f f' q c d a t r :
  status_subresource → attentive (mkManager s v f q (Some c)) → todo c = [] →
  updateStatus a t (subject c) d s = (s', r) → resource_announced (request c) s s' f f' →
  attentive (mkManager s' v f' (match r with Ok _ => q | Err _ => q ∪ {[request c]} end) None).
Proof.
  intros Hsub Hat Ht E Hf. pose proof (λ n, live_named _ n Hat) as Hnamed.
  destruct Hat as [Hs Hnm Hno Hrun]. cbn in *. apply updateStatus_cases in E as (Ho & Hr & Hc).
  rewrite Hrun in Hr, Hc. pose proof (announced_mono_resource _ _ _ v _ _ Hf) as Hmono.
  assert (only_resource (request c) s s') as Honly by done.
  assert (∀ n' c', look_resource s' n' = Some c' →
    ∃ c0, look_resource s n' = Some c0 ∧ same_request c0 c') as Hback.
  { intros n' c' Hc'. destruct (decide (n' = request c)) as [->|Hn].
    - destruct Hc as [[Hsame _]|(old & Hold & Hnew)]; [rewrite Hsame in Hc'; eauto using same_request_refl|].
      exists old. split; [done|]. rewrite Hnew, Hsub in Hc'. injection Hc' as <-. done.
    - rewrite Hr in Hc' by done. eauto using same_request_refl. }
  split; cbn; [by eapply shows_resource| | |done].
  - destruct Hf as [->|[-> _]]; [|done]. destruct Hnm as [Hv Hfe]. split; [done|].
    intros n' c' [?|[= -> ->]%list_elem_of_singleton]%elem_of_app; [auto|].
    intros x (c0 & Hc0 & Hsame)%Hback. rewrite <- (Hnamed _ _ Hc0).
    by destruct (same_request_steps _ _ KIngress Hsame).
  - intros n' c' (c0 & Hc0 & Hsame)%Hback.
    destruct (Hno n' c0 Hc0) as [Hin|[Hcur Hin]]; cbn in *; [left; cbn; destruct r; set_solver|].
    right. cbn. split; [done|]. intros k _. apply (in_order_request _ _ _ _ Hsame).
    apply (in_order_same _ _ s); [apply Ho|]. apply Hin. case_decide; [rewrite Ht|]; apply not_elem_of_nil.
Qed.

(** An object the cache shows as conforming is, or will be looked at again. *)
Lemma read_object s v f q c k o :
  attentive (mkManager s v f q (Some c)) → wanted (subject c) k = true →
  v_obj v k (request c) = Some o → conforms (subject c) k o →
  in_order (subject c) k s ∨ request c ∈ announced v f.
Proof.
  intros [[Hs _] _ _ Hr] Hw Hv Hc. cbn in *. rewrite <- Hr in *.
  pose proof (controlled_references _ _ _ (proj1 (proj2 (conforms_owned _ _ _ Hc)))) as Href.
  destruct (decide (keyOf (subject c) ∈ announced v f)) as [|Hn]; [by right|left].
  unfold in_order. rewrite Hw. exists o. split; [|done]. rewrite <- Hs, <- Hv.
  apply final_obj_quiet. intros e He Ea. apply Hn, announced_elem.
  destruct e as [k' n' o'|]; [|done]. cbn in Ea. injection Ea as -> ->. eexists. split; [exact He|].
  cbn [requests]. rewrite Hv. set_solver.
Qed.

Lemma attentive_step (m m' : manager) : status_subresource → attentive m → step m m' → attentive m'.
Proof.
  intros Hsub Hm Hstep. destruct Hstep as
    [s s' v f q r n Ho Hk|s s' v f q r k n Ho|s v l1 e l2 q r Hl|s v f q r n|s v f q n c Hin Hg|
     s v f q n Hin Hg|s v f q n Hin|s s' v f f' q c k rest a o Ht Hw E Hf|s s' v f f' q c k rest a e Ht Hw E Hf|
     s v f q c k rest o Ht Hw Hv E|s v f q c k rest Ht Hw Hv|
     s s' v f f' q c d a t Ht Hd E Hf|s s' v f f' q c d a t e Ht Hd E Hf].
  - by apply (attentive_resource s).
  - by apply (attentive_object s).
  - by apply attentive_delivered.
  - destruct Hm as [? ? Hno ?]. split; [done..| |done]. intros n' c Hc.
    apply (noticed_mono s v f f q); [set_solver|by apply Hno].
  - by apply attentive_taken.
  - by apply attentive_taken.
  - by rewrite requeued.
  - pose proof (at_running _ Hm) as Hr. cbn in Hr. pose proof (reconcileKind_frame _ _ _ _ _ _ E) as F.
    unfold frame in F. rewrite Hr in F. apply (attentive_call s s' v f f' q c k rest _ true Hm Ht F Hf).
    intros _. left. by apply settled_in_order, (reconcileKind_settles _ _ _ _ _ _ E).
  - pose proof (at_running _ Hm) as Hr. cbn in Hr. pose proof (reconcileKind_frame _ _ _ _ _ _ E) as F.
    unfold frame in F. rewrite Hr in F. by apply (attentive_call s s' v f f' q c k rest None false Hm Ht F Hf).
  - apply (attentive_call s s v f f q c k rest _ true Hm Ht); [by split|by right|].
    intros _. eapply read_object; [done..|]. by eapply mutate_conforms.
  - by apply (attentive_call s s v f f q c k rest None false Hm Ht); [split|right|].
  - exact (attentive_report _ _ _ _ _ _ _ _ _ _ _ Hsub Hm Ht E Hf).
  - exact (attentive_report _ _ _ _ _ _ _ _ _ _ _ Hsub Hm Ht E Hf).
Qed.

Lemma attentive_reachable (m : manager) : status_subresource → reachable m → attentive m.
Proof.
  intros Hsub. induction 1 as [s v q Hs H|m m' _ IH Hstep]; [|by eapply attentive_step].
  split; cbn; [done| | |done].
  - split; [|by intros n c ?%elem_of_nil]. intros n c Hc. rewrite (proj2 Hs) in Hc. by apply H.
  - intros n c Hc. left. cbn. destruct (H n c Hc). set_solver.
Qed.

(** C13: no drift goes unnoticed.  In every state the operator can reach, with users writing
    and deleting resources, anyone creating, changing and deleting objects, also in the
    middle of a run, a cache that lags behind and calls that fail, every resource has a
    request in the queue, or notifications on their way that lead to one, or a run under
    way that read it as it is and has seen to all but the listed kinds, or all of its
    objects are in order: what it asks for is there and conforms, and what it does without
    is not there as an object of its own.  When the queue is empty, no notification is on
    its way and no run under way, all objects of all resources are in order. *)
Theorem drift_noticed (m : manager) n c :
  status_subresource → reachable m → look_resource (objects m) n = Some c →
  n ∈ queue m ∨ n ∈ announced (cache m) (feed m) ∨
  (∃ cur, running m = Some cur ∧ request cur = n ∧ same_request (subject cur) c ∧
     ∀ k, k ∉ todo cur → in_order c k (objects m)) ∨
  (∀ k, in_order c k (objects m)).
Proof.
  intros Hsub Hm Hc. pose proof (at_noticed _ (attentive_reachable _ Hsub Hm) n c Hc) as [H|[Hcur Hs]];
    [set_solver|right; right].
  destruct (running m) as [cur|]; cbn in *; [|right; intros k; apply Hs, not_elem_of_nil].
  case_decide as E; [left; by exists cur; auto|right; intros k; apply Hs, not_elem_of_nil].
Qed.

(** ** Left alone, the operator settles everything *)




(** The resources are the same but for their status. *)
Definition same_resources (s s' : cluster) : Prop :=
  ∀ n, option_relation same_request (λ _, False) (λ _, False) (look_resource s n) (look_resource s' n).

Lemma same_request_trans c1 c2 c3 : same_request c1 c2 → same_request c2 c3 → same_request c1 c3.
Proof. intros (? & ? & ? & ?) (? & ? & ? & ?). split_and!; congruence. Qed.
#[local] Instance same_resources_po : PreOrder same_resources.
Proof.
  split.
  - intros s n. destruct (look_resource s n); [apply same_request_refl|done].
  - intros s1 s2 s3 H1 H2 n. specialize (H1 n). specialize (H2 n).
    destruct (look_resource s1 n), (look_resource s2 n), (look_resource s3 n); cbn in *; try done.
    by eapply same_request_trans.
Qed.





End manager.

(** ** The operator's process *)

(** The steps of [main] before the manager runs, and how the process ends: 0, or the
    status of the step that failed. *)
Inductive setup : Type := AddToScheme | GetConfig | NewManager | Healthz | Readyz | SetupController | StartManager.

Fixpoint first_failure (steps : list (setup * bool)) : option setup :=
  match steps with
  | [] => None
  | (x, ok) :: steps => if ok : bool then first_failure steps else Some x
  end.

(** [utilruntime.Must] panics, which ends a Go process with status 2; the others exit
    with 1. *)
Definition operator_main (ok : setup → bool) : Z :=
  match first_failure ((λ x, (x, ok x)) <$>
    [AddToScheme; GetConfig; NewManager; Healthz; Readyz; SetupController; StartManager]) with
  | None => 0
  | Some AddToScheme => 2
  | Some _ => 1
  end.

Definition healthzCheck : option string := None.

Lemma first_failure_None steps : first_failure steps = None ↔ Forall (λ x, x.2 = true) steps.
Proof.
  induction steps as [|[x ok] steps IH]; cbn; [by split|]. rewrite Forall_cons, <- IH.
  destruct ok; cbn; naive_solver.
Qed.

(** The process ends with status 0 only when every step succeeded. *)
Lemma operator_exit ok : operator_main ok = 0 ↔ ∀ x, ok x = true.
Proof.
  unfold operator_main. set (steps := (λ x, (x, ok x)) <$> _). pose proof (first_failure_None steps) as H.
  trans (first_failure steps = None); [destruct (first_failure steps) as [[]|]; naive_solver|].
  rewrite H. unfold steps. rewrite Forall_fmap, Forall_forall. split; [|intros Hall x _; apply Hall].
  intros Hall x. apply (Hall x). destruct x; rewrite !elem_of_cons; tauto.
Qed.

(** ** An instance: the Service is deleted while a run is under way *)
Module ControllerWitnesses.
Import OperatorWitnesses.
#[local] Existing Instances OperatorWitnesses.kube OperatorWitnesses.kube_laws.

(** The operator is started on a cluster it had settled before. *)
Definition stored_resource : CSMS := default demo (look_resource after name).
Definition shown : view := mkView (λ k n, look after k n) (look_resource after).
Definition started : manager := mkManager after shown [] {[name]} None.
(** It has read the resource when the Service is deleted. *)
Definition reading : manager :=
  mkManager after shown [] ({[name]} ∖ {[name]}) (Some (mkCurrent name stored_resource order None)).
Definition without : cluster := fst (Delete KService Answered name after).
Definition broken : manager :=
  mkManager without shown [ObjectEvent KService name (look without KService name)]
    ({[name]} ∖ {[name]}) (Some (mkCurrent name stored_resource order None)).

Lemma only_resource_there n c : look_resource after n = Some c → n = name ∧ c = stored_resource.
Proof.
  assert (RefKube.resources after = {[name := stored_resource]}) as E by by_evaluation.
  intros Hc. change (RefKube.resources after !! n = Some c) in Hc.
  rewrite E in Hc. by apply lookup_singleton_Some in Hc as [<- <-].
Qed.

Lemma broken_reachable : reachable broken.
Proof.
  apply (reach_step reading).
  - apply (reach_step started);
      [|apply (run_started after shown [] {[name]} name stored_resource); [set_solver|by_evaluation]].
    apply reach_start; [by split|]. intros n c [-> ->]%only_resource_there. split; [by_evaluation|set_solver].
  - apply (object_written after without shown [] ({[name]} ∖ {[name]}) _ KService name). unfold without.
    destruct (Delete KService Answered name after) as [s r] eqn:E.
    by apply delete_cases in E as [[-> _]|(_ & ? & ?)]; split.
Qed.

Lemma without_resource : look_resource without name = Some stored_resource.
Proof. by_evaluation. Qed.

Lemma drift_noticed_witness :
  look without KService name = None ∧
  bool_decide (name ∈ announced (cache broken) (feed broken)) = true ∧
  (name ∈ queue broken ∨ name ∈ announced (cache broken) (feed broken) ∨
   (∃ cur, running broken = Some cur ∧ request cur = name ∧ same_request (subject cur) stored_resource ∧
      ∀ k, k ∉ todo cur → in_order stored_resource k (objects broken)) ∨
   (∀ k, in_order stored_resource k (objects broken))).
Proof.
  split; [by_evaluation|]. split; [by_evaluation|].
  apply (drift_noticed broken name stored_resource);
    [exact merge_subresource|exact broken_reachable|exact without_resource].
Defined.


End ControllerWitnesses.
