(* ===== verification/DeepCopy.v ===== *)
(** * Deep copies of the resource (api/v1alpha1/zz_generated.deepcopy.go)

    The structs as Go has them, with pointers, maps and slices in a heap; the
    generated copy functions; and that a copy has the value of the original and
    shares no memory with it, which is what makes it safe for the reconciler to
    change the status of a resource it got from a cache. *)

From S2P Require Import Prelude GoStd Kube Operator.

(** ** The heap *)

Notation loc := nat (only parsing).

Record hIngress : Type := mkHIngress {
  h_Host : string; h_ClassName : string; h_TLSSecret : string; h_Annotations : option loc }.
Record hResources : Type := mkHResources { h_Requests : option loc; h_Limits : option loc }.
Record hSpec : Type := mkHSpec {
  h_Image : string;
  h_Replicas : option loc;
  h_Port : Z;
  h_LivenessPath : string;
  h_ReadinessPath : string;
  h_Grace : option loc;
  h_Database : string; h_Redis : string; h_API : string;
  h_Config : option loc;
  h_Resources : hResources;
  h_MinAvailable : option loc;
  h_Ingress : option loc;
  h_TLS : option loc
}.
Record hStatus : Type := mkHStatus {
  h_StatusReplicas : Z; h_Ready : Z; h_Observed : Z; h_Conditions : option loc }.
(** [metav1.TypeMeta], [metav1.Time], [metav1.ObjectMeta] and [metav1.ListMeta], with the
    pointers, maps and slices they have. *)
Record TypeMeta : Type := mkTypeMeta { Kind : string; APIVersion : string }.
Record metaTime : Type := mkMetaTime { instant : Time.t }.
Record hOwner : Type := mkHOwner {
  h_OwnerAPIVersion : string; h_OwnerKind : string; h_OwnerName : string; h_OwnerUID : string;
  h_Controller : option loc; h_BlockOwnerDeletion : option loc }.
Record hFields : Type := mkHFields { h_Raw : option loc }.
Record hManaged : Type := mkHManaged {
  h_Manager : string; h_Operation : string; h_ManagedVersion : string; h_FieldsType : string;
  h_Subresource : string; h_Time : option loc; h_FieldsV1 : option loc }.
Record hMeta : Type := mkHMeta {
  h_Name : string; h_GenerateName : string; h_Namespace : string; h_SelfLink : string;
  h_UID : string; h_ResourceVersion : string; h_Generation : Z; h_CreationTimestamp : metaTime;
  h_DeletionTimestamp : option loc;
  h_DeletionGracePeriodSeconds : option loc;
  h_Labels : option loc;
  h_MetaAnnotations : option loc;
  h_OwnerReferences : option loc;
  h_Finalizers : option loc;
  h_ManagedFields : option loc
}.
Record hListMeta : Type := mkHListMeta {
  h_ListSelfLink : string; h_ListVersion : string; h_Continue : string;
  h_RemainingItemCount : option loc }.

Record hCSMS : Type := mkHCSMS {
  h_Type : TypeMeta; h_Meta : hMeta; h_Spec : hSpec; h_Status : hStatus }.
Record hCSMSList : Type := mkHList {
  h_ListType : TypeMeta; h_ListMeta : hListMeta; h_Items : option loc }.

(** What a location holds. *)
Inductive cell : Type :=
  | CInt (n : Z)
  | CBool (b : bool)
  | CTime (t : metaTime)
  | CBytes (s : string)
  | CStrings (l : list string)
  | COwners (l : list hOwner)
  | CFields (f : hFields)
  | CManaged (l : list hManaged)
  | CMap (m : gmap string string)
  | CIntOrString (x : IntOrString)
  | CTLS (t : CSMSTLS)
  | CConditions (l : list Condition)
  | CIngress (i : hIngress)
  | CItems (l : list hCSMS)
  | CObject (o : hCSMS)
  | CSpec (x : hSpec)
  | CStatus (x : hStatus)
  | CList (x : hCSMSList).

Notation heap := (list cell) (only parsing).

(** ** Values in the heap

    [rd] is the value a struct stands for, [None] when it points to nothing or to a
    cell of another type; [lc] are the locations it consists of. *)
Class Layout (T V : Type) : Type := {
  rd : heap → T → option V;
  lc : heap → T → list loc;
  rd_local h h' x : (∀ l, l ∈ lc h x → h' !! l = h !! l) → rd h' x = rd h x ∧ lc h' x = lc h x;
  lc_valid h x v l : rd h x = Some v → l ∈ lc h x → (l < length h)%nat
}.

(** A heap that grew. *)
Lemma rd_grow `{Layout T V} h h' x v :
  h `prefix_of` h' → rd h x = Some v → rd h' x = Some v ∧ lc h' x = lc h x.
Proof.
  intros [ext ->] Hr. destruct (rd_local h (h ++ ext) x) as [E1 E2]; [|by rewrite E1, E2].
  intros l Hl. apply lookup_app_l. by eapply lc_valid.
Qed.

(** A copy function: it succeeds on what can be read, writes nothing that was there,
    and makes the same value out of new locations. *)
Definition copier (T : Type) : Type := heap → T → option (heap * T).
Definition copies {T V} `{Layout T V} (copy : copier T) : Prop :=
  ∀ h x v, rd h x = Some v →
    ∃ h' y, copy h x = Some (h', y) ∧ h `prefix_of` h' ∧ rd h' y = Some v ∧
      ∀ l, l ∈ lc h' y → (length h ≤ l)%nat.

(** What a copy function gives: both read the same, and a write to a location of one
    is not seen by the other. *)
Definition separates {T V} `{Layout T V} (copy : copier T) : Prop :=
  ∀ h x v, rd h x = Some v →
    ∃ h' y, copy h x = Some (h', y) ∧ rd h' y = Some v ∧ rd h' x = Some v ∧
      (∀ l c, l ∈ lc h' y → rd (<[l := c]> h') x = Some v) ∧
      (∀ l c, l ∈ lc h' x → rd (<[l := c]> h') y = Some v).

Lemma copies_separate `{Layout T V} (copy : copier T) : copies copy → separates copy.
Proof.
  intros Hc h x v Hr. destruct (Hc _ _ _ Hr) as (h' & y & E & P & Ry & Fy).
  destruct (rd_grow h h' x v P Hr) as [Rx Lx].
  assert (∀ l l', l ∈ lc h' y → l' ∈ lc h' x → l ≠ l') as Hd.
  { intros l l' Hl%Fy Hl'. rewrite Lx in Hl'. pose proof (lc_valid _ _ _ _ Hr Hl'). lia. }
  exists h', y. split_and!; [done..| |]; intros l c Hl.
  - destruct (rd_local h' (<[l:=c]> h') x) as [-> _]; [|done].
    intros l' Hl'. apply list_lookup_insert_ne. by apply Hd.
  - destruct (rd_local h' (<[l:=c]> h') y) as [-> _]; [|done].
    intros l' Hl'. apply list_lookup_insert_ne. apply not_eq_sym. by apply Hd.
Qed.

(** *** Values without pointers *)
Program Definition flat_layout (T : Type) : Layout T T := {|
  rd h x := Some x; lc h x := [] |}.
Next Obligation. done. Qed.
Next Obligation. intros. set_solver. Qed.

(** *** Pointers to a cell *)
Section pointer.
Context {T V : Type} `{L : Layout T V} (inj : T → cell) (prj : cell → option T).
Context (prj_inj : ∀ t, prj (inj t) = Some t).

Definition deref (h : heap) (l : loc) : option T := h !! l ≫= prj.

Definition rd_ptr (h : heap) (p : option loc) : option (option V) :=
  match p with
  | None => Some None
  | Some l => t ← deref h l; v ← rd h t; Some (Some v)
  end.
Definition lc_ptr (h : heap) (p : option loc) : list loc :=
  match p with
  | None => []
  | Some l => l :: match deref h l with Some t => lc h t | None => [] end
  end.

Program Definition pointer_layout : Layout (option loc) (option V) := {| rd := rd_ptr; lc := lc_ptr |}.
Next Obligation.
  intros h h' [l|] Hl; [|done]. cbn in *.
  assert (deref h' l = deref h l) as E by (unfold deref; by rewrite Hl by left).
  rewrite E. destruct (deref h l) as [t|]; [|done]. cbn.
  destruct (rd_local h h' t) as [-> ->]; [|done]. intros l' Hl'. apply Hl. by right.
Qed.
Next Obligation.
  intros h [l|] v l' Hr Hl'; cbn in *; [|by apply not_elem_of_nil in Hl'].
  destruct (deref h l) as [t|] eqn:E; [|done]. cbn in Hr.
  destruct (rd h t) as [v'|] eqn:Ev; [|done]. apply elem_of_cons in Hl' as [->|Hl'].
  - unfold deref in E. destruct (h !! l) as [c|] eqn:Ec; [|done]. by eapply lookup_lt_Some.
  - by eapply lc_valid.
Qed.

(** [*out = new(T)], then the copy into it. *)
Definition copyPointer (copy : copier T) : copier (option loc) := λ h p,
  match p with
  | None => Some (h, None)
  | Some l =>
      t ← deref h l;
      let out := length h in
      '(h, t') ← copy (h ++ [inj t]) t;
      Some (<[out := inj t']> h, Some out)
  end.

Lemma copyPointer_copies copy :
  copies copy → copies (H := pointer_layout) (copyPointer copy).
Proof.
  intros Hcopy h [l|] v; cbn.
  2: { intros [= <-]. exists h, None. split_and!; try done. set_solver. }
  destruct (deref h l) as [t|] eqn:Et; [|done]. cbn. destruct (rd h t) as [v'|] eqn:Ev; [|done].
  intros [= <-]. destruct (rd_grow h (h ++ [inj t]) t v') as [Ev1 _]; [by eexists|done|].
  destruct (Hcopy _ _ _ Ev1) as (h1 & t' & Ec & [ext ->] & Hv & Hfresh). rewrite Ec. clear Ec.
  exists (h ++ inj t' :: ext), (Some (length h)).
  assert (<[length h := inj t']> ((h ++ [inj t]) ++ ext) = h ++ inj t' :: ext) as Eins.
  { rewrite <- app_assoc, insert_app_r_alt, Nat.sub_diag by lia. done. }
  assert (deref (h ++ inj t' :: ext) (length h) = Some t') as Ed.
  { unfold deref. rewrite lookup_app_r, Nat.sub_diag by lia. apply prj_inj. }
  assert (∀ l', l' ∈ lc ((h ++ [inj t]) ++ ext) t' → (length h < l')%nat) as Hnew.
  { intros l' Hl'%Hfresh. rewrite length_app in Hl'. cbn in Hl'. lia. }
  destruct (rd_local ((h ++ [inj t]) ++ ext) (h ++ inj t' :: ext) t') as [Er El].
  { intros l' Hl'%Hnew. rewrite <- app_assoc, !lookup_app_r by lia.
    by destruct (l' - length h)%nat as [|k] eqn:Ek; [lia|]. }
  split_and!; [exact (f_equal (λ g, Some (g, Some (length h))) Eins)|by eexists| |].
  - cbn. rewrite Ed. cbn. by rewrite Er, Hv.
  - cbn. rewrite Ed, El. intros l' [->|Hl'%Hnew]%elem_of_cons; lia.
Qed.
End pointer.

(** *** Pairs, structs and slices *)
Section product.
Context {A VA B VB : Type} `{LA : Layout A VA} `{LB : Layout B VB}.
#[export] Program Instance prod_layout : Layout (A * B) (VA * VB) := {|
  rd h x := a ← rd h x.1; b ← rd h x.2; Some (a, b);
  lc h x := lc h x.1 ++ lc h x.2 |}.
Next Obligation.
  intros h h' [a b] Hl. cbn in *.
  destruct (rd_local h h' a) as [-> ->]; [set_solver|].
  destruct (rd_local h h' b) as [-> ->]; [set_solver|done].
Qed.
Next Obligation.
  intros h [a b] v l; cbn. destruct (rd h a) eqn:Ea; [|done]. destruct (rd h b) eqn:Eb; [|done].
  intros _ [Hl|Hl]%elem_of_app; [exact (lc_valid _ _ _ _ Ea Hl)|exact (lc_valid _ _ _ _ Eb Hl)].
Qed.

Definition copyPair (ca : copier A) (cb : copier B) : copier (A * B) := λ h x,
  '(h, a) ← ca h x.1; '(h, b) ← cb h x.2; Some (h, (a, b)).
Lemma copyPair_copies ca cb : copies ca → copies cb → copies (copyPair ca cb).
Proof.
  intros Ha Hb h [a b] v; cbn. destruct (rd h a) as [va|] eqn:Ea; [|done].
  destruct (rd h b) as [vb|] eqn:Eb; [|done]. intros [= <-]. unfold copyPair. cbn.
  destruct (Ha _ _ _ Ea) as (h1 & a' & -> & P1 & Ra & Fa). cbn.
  destruct (rd_grow h h1 b vb P1 Eb) as [Eb1 _].
  destruct (Hb _ _ _ Eb1) as (h2 & b' & -> & P2 & Rb & Fb). cbn.
  destruct (rd_grow h1 h2 a' va P2 Ra) as [Ra2 La2].
  exists h2, (a', b'). split_and!; [done|by etrans| |].
  - cbn. by rewrite Ra2, Rb.
  - cbn. rewrite La2. intros l [Hl%Fa|Hl%Fb]%elem_of_app; [done|].
    apply prefix_length in P1. lia.
Qed.
End product.

(** A struct [T] whose fields with pointers are the tuple [F]. *)
Section struct.
Context {T F VF V : Type} `{LF : Layout F VF} (fields : T → F) (put : T → F → T) (value : T → VF → V).
Context (fields_put : ∀ x f, fields (put x f) = f) (value_put : ∀ x f v, value (put x f) v = value x v).
Program Definition struct_layout : Layout T V := {|
  rd h x := value x <$> rd h (fields x);
  lc h x := lc h (fields x) |}.
Next Obligation. intros h h' x Hl. by destruct (rd_local h h' (fields x) Hl) as [-> ->]. Qed.
Next Obligation.
  intros h x v l. cbn. destruct (rd h (fields x)) eqn:E; [|done]. intros _ Hl. exact (lc_valid _ _ _ _ E Hl).
Qed.
(** [*out = *in], then the fields with pointers. *)
Definition copyStruct (cf : copier F) : copier T := λ h x,
  '(h, f) ← cf h (fields x); Some (h, put x f).
Lemma copyStruct_copies cf : copies cf → copies (H := struct_layout) (copyStruct cf).
Proof.
  intros Hf h x v; cbn. destruct (rd h (fields x)) as [vf|] eqn:E; [|done]. intros [= <-].
  destruct (Hf _ _ _ E) as (h1 & f & Ec & P & R & Fr). unfold copyStruct. rewrite Ec. cbn.
  exists h1, (put x f). split_and!; [done|done| |]; cbn; rewrite fields_put; [|done].
  rewrite R. cbn. by rewrite value_put.
Qed.
End struct.

Section slice.
Context {T V : Type} `{L : Layout T V}.
Fixpoint rd_all (h : heap) (l : list T) : option (list V) :=
  match l with
  | [] => Some []
  | x :: l => v ← rd h x; vs ← rd_all h l; Some (v :: vs)
  end.
#[export] Program Instance list_layout : Layout (list T) (list V) := {|
  rd := rd_all; lc h l := l ≫= lc h |}.
Next Obligation.
  intros h h' l. induction l as [|x l IH]; intros Hl; [done|]. cbn in *.
  destruct (rd_local h h' x) as [-> ->]; [set_solver|]. destruct IH as [-> ->]; [set_solver|done].
Qed.
Next Obligation.
  intros h l. induction l as [|x l IH]; intros v k; cbn; [set_solver|].
  destruct (rd h x) eqn:Ex; [|done]. cbn. destruct (rd_all h l) eqn:El; [|done].
  intros _ [Hk|Hk]%elem_of_app; [exact (lc_valid _ _ _ _ Ex Hk)|by eapply IH].
Qed.
(** A new slice, and each element copied into its place. *)
Fixpoint copySlice (copy : copier T) (h : heap) (l : list T) : option (heap * list T) :=
  match l with
  | [] => Some (h, [])
  | x :: l => '(h, y) ← copy h x; '(h, ys) ← copySlice copy h l; Some (h, y :: ys)
  end.
Lemma copySlice_copies copy : copies copy → copies (copySlice copy).
Proof.
  intros Hc h l. revert h. induction l as [|x l IH]; intros h v; cbn.
  { intros [= <-]. exists h, []. split_and!; try done. set_solver. }
  destruct (rd h x) as [vx|] eqn:Ex; [|done]. cbn. destruct (rd_all h l) as [vl|] eqn:El; [|done].
  intros [= <-]. destruct (Hc _ _ _ Ex) as (h1 & y & -> & P1 & Ry & Fy). cbn.
  destruct (rd_grow (H := list_layout) h h1 l vl P1 El) as [El1 _].
  destruct (IH _ _ El1) as (h2 & ys & -> & P2 & Rys & Fys). cbn.
  destruct (rd_grow h1 h2 y vx P2 Ry) as [Ry2 Ly2].
  exists h2, (y :: ys). split_and!; [done|by etrans| |].
  - cbn. rewrite Ry2. cbn. by rewrite (Rys : rd_all h2 ys = _).
  - cbn. rewrite Ly2. intros k [Hk%Fy|Hk%Fys]%elem_of_app; [done|]. apply prefix_length in P1. lia.
Qed.
End slice.

(** A value without pointers copied as it is. *)
Definition copyFlat {T} : copier T := λ h x, Some (h, x).
Lemma copyFlat_copies T : copies (H := flat_layout T) (@copyFlat T).
Proof. intros h x v [= <-]. exists h, x. split_and!; try done. set_solver. Qed.

(** ** The types of the resource *)

(** The values of the metadata and of the objects that carry it. *)
Record ownerValue : Type := mkOwnerValue {
  owner_APIVersion : string; owner_Kind : string; owner_Name : string; owner_UID : string;
  owner_Controller : option bool; owner_Block : option bool }.
Record managedValue : Type := mkManagedValue {
  managed_Manager : string; managed_Operation : string; managed_Version : string;
  managed_FieldsType : string; managed_Subresource : string;
  managed_Time : option metaTime; managed_Fields : option (option string) }.
Record metaValue : Type := mkMetaValue {
  meta_Name : string; meta_GenerateName : string; meta_Namespace : string; meta_SelfLink : string;
  meta_UID : string; meta_ResourceVersion : string; meta_Generation : Z; meta_Created : metaTime;
  meta_Deleted : option metaTime;
  meta_Grace : option Z;
  meta_Labels : option (gmap string string);
  meta_Annotations : option (gmap string string);
  meta_Owners : option (list ownerValue);
  meta_Finalizers : option (list string);
  meta_Managed : option (list managedValue)
}.
Record listMetaValue : Type := mkListMetaValue {
  list_SelfLink : string; list_Version : string; list_Continue : string; list_Remaining : option Z }.

(** A resource with all of its metadata, and what the reconciler reads of it. *)
Record storedCSMS : Type := mkStored {
  stored_Type : TypeMeta; stored_Meta : metaValue; stored_Spec : CSMSSpec; stored_Status : CSMSStatus }.
Definition csms_of (o : storedCSMS) : CSMS :=
  mkCSMS (meta_Namespace (stored_Meta o)) (meta_Name (stored_Meta o)) (meta_Generation (stored_Meta o))
    (stored_Spec o) (stored_Status o).
Record CSMSList : Type := mkCSMSList {
  list_Type : TypeMeta; list_Meta : listMetaValue; Items : list storedCSMS }.

Definition prjInt (c : cell) : option Z := match c with CInt n => Some n | _ => None end.
Definition prjBool (c : cell) : option bool := match c with CBool b => Some b | _ => None end.
Definition prjTime (c : cell) : option metaTime := match c with CTime t => Some t | _ => None end.
Definition prjBytes (c : cell) : option string := match c with CBytes x => Some x | _ => None end.
Definition prjStrings (c : cell) : option (list string) := match c with CStrings l => Some l | _ => None end.
Definition prjOwners (c : cell) : option (list hOwner) := match c with COwners l => Some l | _ => None end.
Definition prjFields (c : cell) : option hFields := match c with CFields f => Some f | _ => None end.
Definition prjManaged (c : cell) : option (list hManaged) := match c with CManaged l => Some l | _ => None end.
Definition prjMap (c : cell) : option (gmap string string) := match c with CMap m => Some m | _ => None end.
Definition prjIntOrString (c : cell) : option IntOrString :=
  match c with CIntOrString x => Some x | _ => None end.
Definition prjTLS (c : cell) : option CSMSTLS := match c with CTLS t => Some t | _ => None end.
Definition prjConditions (c : cell) : option (list Condition) :=
  match c with CConditions l => Some l | _ => None end.
Definition prjIngress (c : cell) : option hIngress := match c with CIngress i => Some i | _ => None end.
Definition prjItems (c : cell) : option (list hCSMS) := match c with CItems l => Some l | _ => None end.
Definition prjObject (c : cell) : option hCSMS := match c with CObject o => Some o | _ => None end.
Definition prjSpec (c : cell) : option hSpec := match c with CSpec x => Some x | _ => None end.
Definition prjStatus (c : cell) : option hStatus := match c with CStatus x => Some x | _ => None end.
Definition prjList (c : cell) : option hCSMSList := match c with CList x => Some x | _ => None end.

#[local] Instance int_layout : Layout (option loc) (option Z) := pointer_layout (L := flat_layout _) prjInt.
#[local] Instance map_layout : Layout (option loc) (option (gmap string string)) :=
  pointer_layout (L := flat_layout _) prjMap.
#[local] Instance intOrString_layout : Layout (option loc) (option IntOrString) :=
  pointer_layout (L := flat_layout _) prjIntOrString.
#[local] Instance tls_layout : Layout (option loc) (option CSMSTLS) :=
  pointer_layout (L := flat_layout _) prjTLS.
#[local] Instance conditions_layout : Layout (option loc) (option (list Condition)) :=
  pointer_layout (L := list_layout (L := flat_layout _)) prjConditions.

(** *** Metadata *)
#[local] Instance bool_layout : Layout (option loc) (option bool) := pointer_layout (L := flat_layout _) prjBool.
#[local] Instance time_layout : Layout (option loc) (option metaTime) :=
  pointer_layout (L := flat_layout _) prjTime.
#[local] Instance bytes_layout : Layout (option loc) (option string) :=
  pointer_layout (L := flat_layout _) prjBytes.
#[local] Instance strings_layout : Layout (option loc) (option (list string)) :=
  pointer_layout (L := list_layout (L := flat_layout _)) prjStrings.

Definition owner_value (o : hOwner) (v : option bool * option bool) : ownerValue :=
  mkOwnerValue (h_OwnerAPIVersion o) (h_OwnerKind o) (h_OwnerName o) (h_OwnerUID o) v.1 v.2.
#[export] Instance owner_layout : Layout hOwner ownerValue :=
  struct_layout (λ o, (h_Controller o, h_BlockOwnerDeletion o)) owner_value.
#[local] Instance owners_layout : Layout (option loc) (option (list ownerValue)) := pointer_layout prjOwners.

#[export] Instance fields_layout : Layout hFields (option string) := struct_layout h_Raw (λ _ v, v).
#[local] Instance fields_ptr_layout : Layout (option loc) (option (option string)) :=
  pointer_layout prjFields.
Definition managed_value (x : hManaged) (v : option metaTime * option (option string)) : managedValue :=
  mkManagedValue (h_Manager x) (h_Operation x) (h_ManagedVersion x) (h_FieldsType x) (h_Subresource x)
    v.1 v.2.
#[export] Instance managed_layout : Layout hManaged managedValue :=
  struct_layout (λ x, (h_Time x, h_FieldsV1 x)) managed_value.
#[local] Instance manageds_layout : Layout (option loc) (option (list managedValue)) :=
  pointer_layout prjManaged.

Definition meta_fields (x : hMeta) :=
  (h_DeletionTimestamp x, (h_DeletionGracePeriodSeconds x, (h_Labels x, (h_MetaAnnotations x,
   (h_OwnerReferences x, (h_Finalizers x, h_ManagedFields x)))))).
Definition meta_value (x : hMeta)
    (v : option metaTime * (option Z * (option (gmap string string) * (option (gmap string string) *
           (option (list ownerValue) * (option (list string) * option (list managedValue))))))) : metaValue :=
  let '(deleted, (grace, (labels, (annotations, (owners, (finalizers, managed)))))) := v in
  mkMetaValue (h_Name x) (h_GenerateName x) (h_Namespace x) (h_SelfLink x) (h_UID x)
    (h_ResourceVersion x) (h_Generation x) (h_CreationTimestamp x) deleted grace labels annotations
    owners finalizers managed.
#[export] Instance meta_layout : Layout hMeta metaValue := struct_layout meta_fields meta_value.

Definition list_meta_value (x : hListMeta) (v : option Z) : listMetaValue :=
  mkListMetaValue (h_ListSelfLink x) (h_ListVersion x) (h_Continue x) v.
#[export] Instance list_meta_layout : Layout hListMeta listMetaValue :=
  struct_layout h_RemainingItemCount list_meta_value.

(** *** CSMSIngress *)
Definition ingress_put (i : hIngress) (a : option loc) : hIngress :=
  mkHIngress (h_Host i) (h_ClassName i) (h_TLSSecret i) a.
Definition ingress_value (i : hIngress) (a : option (gmap string string)) : CSMSIngress :=
  mkCSMSIngress (h_Host i) (h_ClassName i) (h_TLSSecret i) (default ∅ a).
#[export] Instance ingress_layout : Layout hIngress CSMSIngress :=
  struct_layout h_Annotations ingress_value.
#[local] Instance ingress_ptr_layout : Layout (option loc) (option CSMSIngress) := pointer_layout prjIngress.

(** A pointer to a number, and a map. *)
Definition copyInt : copier (option loc) := copyPointer CInt prjInt copyFlat.
Definition copyMap : copier (option loc) := copyPointer CMap prjMap copyFlat.

Definition CSMSIngress_DeepCopyInto : copier hIngress := λ h i,
  '(h, annotations) ← copyMap h (h_Annotations i);
  Some (h, mkHIngress (h_Host i) (h_ClassName i) (h_TLSSecret i) annotations).

(** *** CSMSTLS *)
Definition CSMSTLS_DeepCopyInto : copier CSMSTLS := copyFlat.

(** *** CSMSStatus *)
Definition status_put (s : hStatus) (c : option loc) : hStatus :=
  mkHStatus (h_StatusReplicas s) (h_Ready s) (h_Observed s) c.
Definition status_value (s : hStatus) (c : option (list Condition)) : CSMSStatus :=
  mkStatus (h_StatusReplicas s) (h_Ready s) (h_Observed s) (default [] c).
#[export] Instance status_layout : Layout hStatus CSMSStatus := struct_layout h_Conditions status_value.
#[local] Instance status_ptr_layout : Layout (option loc) (option CSMSStatus) := pointer_layout prjStatus.
(** A condition has no pointers. *)
Definition CSMSStatus_DeepCopyInto : copier hStatus := λ h s,
  '(h, conditions) ← copyPointer CConditions prjConditions (copySlice copyFlat) h (h_Conditions s);
  Some (h, mkHStatus (h_StatusReplicas s) (h_Ready s) (h_Observed s) conditions).

(** *** CSMSSpec *)
Definition resources_value (r : hResources) (v : option (gmap string string) * option (gmap string string)) :
    ResourceRequirements := mkResources v.1 v.2.
#[export] Instance resources_layout : Layout hResources ResourceRequirements :=
  struct_layout (λ r, (h_Requests r, h_Limits r)) resources_value.

Definition spec_fields (s : hSpec) :=
  (h_Replicas s, (h_Grace s, (h_Config s, (h_Resources s, (h_MinAvailable s, (h_Ingress s, h_TLS s)))))).
Definition spec_put (s : hSpec)
    (f : option loc * (option loc * (option loc * (hResources * (option loc * (option loc * option loc)))))) :
    hSpec :=
  let '(replicas, (grace, (config, (resources, (minAvailable, (ingress, tls)))))) := f in
  mkHSpec (h_Image s) replicas (h_Port s) (h_LivenessPath s) (h_ReadinessPath s) grace (h_Database s)
    (h_Redis s) (h_API s) config resources minAvailable ingress tls.
Definition spec_value (s : hSpec)
    (v : option Z * (option Z * (option (gmap string string) * (ResourceRequirements *
           (option IntOrString * (option CSMSIngress * option CSMSTLS)))))) : CSMSSpec :=
  let '(replicas, (grace, (config, (resources, (minAvailable, (ingress, tls)))))) := v in
  mkSpec (h_Image s) replicas (h_Port s) (h_LivenessPath s) (h_ReadinessPath s) grace (h_Database s)
    (h_Redis s) (h_API s) (default ∅ config) resources minAvailable ingress tls.
#[export] Instance spec_layout : Layout hSpec CSMSSpec := struct_layout spec_fields spec_value.
#[local] Instance spec_ptr_layout : Layout (option loc) (option CSMSSpec) := pointer_layout prjSpec.

(** The [DeepCopyInto] of [corev1.ResourceRequirements], [metav1.ObjectMeta] and
    [metav1.ListMeta] are generated code of Kubernetes. *)
Section deepcopy.
Context (copyResources : copier hResources).
Context (copyObjectMeta : copier hMeta) (copyListMeta : copier hListMeta).

Definition CSMSSpec_DeepCopyInto : copier hSpec := λ h s,
  '(h, replicas) ← copyInt h (h_Replicas s);
  '(h, grace) ← copyInt h (h_Grace s);
  '(h, config) ← copyMap h (h_Config s);
  '(h, resources) ← copyResources h (h_Resources s);
  '(h, minAvailable) ← copyPointer CIntOrString prjIntOrString copyFlat h (h_MinAvailable s);
  '(h, ingress) ← copyPointer CIngress prjIngress CSMSIngress_DeepCopyInto h (h_Ingress s);
  '(h, tls) ← copyPointer CTLS prjTLS CSMSTLS_DeepCopyInto h (h_TLS s);
  Some (h, mkHSpec (h_Image s) replicas (h_Port s) (h_LivenessPath s) (h_ReadinessPath s) grace
             (h_Database s) (h_Redis s) (h_API s) config resources minAvailable ingress tls).

(** *** CSMS and CSMSList *)
Definition csms_value (o : hCSMS) (v : metaValue * (CSMSSpec * CSMSStatus)) : storedCSMS :=
  mkStored (h_Type o) v.1 v.2.1 v.2.2.
Definition csms_put (o : hCSMS) (f : hMeta * (hSpec * hStatus)) : hCSMS :=
  mkHCSMS (h_Type o) f.1 f.2.1 f.2.2.
#[export] Instance csms_layout : Layout hCSMS storedCSMS :=
  struct_layout (λ o, (h_Meta o, (h_Spec o, h_Status o))) csms_value.
Definition CSMS_DeepCopyInto : copier hCSMS := λ h o,
  '(h, meta) ← copyObjectMeta h (h_Meta o);
  '(h, spec) ← CSMSSpec_DeepCopyInto h (h_Spec o);
  '(h, status) ← CSMSStatus_DeepCopyInto h (h_Status o);
  Some (h, mkHCSMS (h_Type o) meta spec status).

#[local] Instance object_layout : Layout (option loc) (option storedCSMS) := pointer_layout prjObject.
#[local] Instance items_layout : Layout (option loc) (option (list storedCSMS)) := pointer_layout prjItems.

Definition list_value (o : hCSMSList) (v : listMetaValue * option (list storedCSMS)) : CSMSList :=
  mkCSMSList (h_ListType o) v.1 (default [] v.2).
Definition list_put (o : hCSMSList) (f : hListMeta * option loc) : hCSMSList :=
  mkHList (h_ListType o) f.1 f.2.
#[export] Instance csms_list_layout : Layout hCSMSList CSMSList :=
  struct_layout (λ o, (h_ListMeta o, h_Items o)) list_value.
#[local] Instance list_ptr_layout : Layout (option loc) (option CSMSList) := pointer_layout prjList.
Definition CSMSList_DeepCopyInto : copier hCSMSList := λ h o,
  '(h, meta) ← copyListMeta h (h_ListMeta o);
  '(h, items) ← copyPointer CItems prjItems (copySlice CSMS_DeepCopyInto) h (h_Items o);
  Some (h, mkHList (h_ListType o) meta items).

(** *** [DeepCopy] of pointers: nil, or a new struct that is copied into *)
Definition CSMSIngress_DeepCopy : copier (option loc) := copyPointer CIngress prjIngress CSMSIngress_DeepCopyInto.
Definition CSMSTLS_DeepCopy : copier (option loc) := copyPointer CTLS prjTLS CSMSTLS_DeepCopyInto.
Definition CSMSSpec_DeepCopy : copier (option loc) := copyPointer CSpec prjSpec CSMSSpec_DeepCopyInto.
Definition CSMSStatus_DeepCopy : copier (option loc) := copyPointer CStatus prjStatus CSMSStatus_DeepCopyInto.
Definition CSMS_DeepCopy : copier (option loc) := copyPointer CObject prjObject CSMS_DeepCopyInto.
Definition CSMSList_DeepCopy : copier (option loc) := copyPointer CList prjList CSMSList_DeepCopyInto.

(** Behind the interface [runtime.Object]: nil stays the nil interface. *)
Definition behind_interface (copy : copier (option loc)) : copier (option loc) := λ h p,
  '(h, c) ← copy h p;
  match c with Some l => Some (h, Some l) | None => Some (h, None) end.
Definition CSMS_DeepCopyObject : copier (option loc) := behind_interface CSMS_DeepCopy.
Definition CSMSList_DeepCopyObject : copier (option loc) := behind_interface CSMSList_DeepCopy.

(** ** Copies *)

Lemma copyInt_copies : copies (H := int_layout) copyInt.
Proof. apply copyPointer_copies; [done|apply copyFlat_copies]. Qed.
Lemma copyMap_copies : copies (H := map_layout) copyMap.
Proof. apply copyPointer_copies; [done|apply copyFlat_copies]. Qed.

(** A copy function that does what another one does. *)
Lemma copies_ext `{Layout T V} (c c' : copier T) : (∀ h x, c h x = c' h x) → copies c' → copies c.
Proof. intros E Hc h x v Hr. rewrite E. by apply Hc. Qed.

Lemma ingress_copies : copies CSMSIngress_DeepCopyInto.
Proof.
  apply (copyStruct_copies (V := CSMSIngress) h_Annotations ingress_put ingress_value); [done..|].
  apply copyMap_copies.
Qed.
Lemma status_copies : copies CSMSStatus_DeepCopyInto.
Proof.
  apply (copyStruct_copies (V := CSMSStatus) h_Conditions status_put status_value); [done..|].
  apply copyPointer_copies; [done|]. apply copySlice_copies, copyFlat_copies.
Qed.

Hypothesis resources_copies : copies copyResources.
Hypothesis object_meta_copies : copies copyObjectMeta.
Hypothesis list_meta_copies : copies copyListMeta.

Lemma spec_copies : copies CSMSSpec_DeepCopyInto.
Proof.
  apply (copies_ext _ (copyStruct spec_fields spec_put
    (copyPair copyInt (copyPair copyInt (copyPair copyMap (copyPair copyResources
      (copyPair (copyPointer CIntOrString prjIntOrString copyFlat)
        (copyPair (copyPointer CIngress prjIngress CSMSIngress_DeepCopyInto)
           (copyPointer CTLS prjTLS CSMSTLS_DeepCopyInto))))))))).
  { intros h s. unfold CSMSSpec_DeepCopyInto, copyStruct, copyPair, spec_fields. cbn.
    repeat (match goal with |- context [?o ≫= _] => destruct o as [[? ?]|]; cbn; [|done] end). done. }
  apply copyStruct_copies.
  - by intros x (? & ? & ? & ? & ? & ? & ?).
  - by intros x (? & ? & ? & ? & ? & ? & ?) v.
  - repeat apply copyPair_copies; try apply copyInt_copies; try apply copyMap_copies; try done.
    + apply copyPointer_copies; [done|apply copyFlat_copies].
    + apply copyPointer_copies; [done|apply ingress_copies].
    + apply copyPointer_copies; [done|apply copyFlat_copies].
Qed.

Lemma csms_copies : copies CSMS_DeepCopyInto.
Proof.
  apply (copies_ext _ (copyStruct (λ o, (h_Meta o, (h_Spec o, h_Status o))) csms_put
    (copyPair copyObjectMeta (copyPair CSMSSpec_DeepCopyInto CSMSStatus_DeepCopyInto)))).
  { intros h o. unfold CSMS_DeepCopyInto, copyStruct, copyPair. cbn.
    repeat (match goal with |- context [?o ≫= _] => destruct o as [[? ?]|]; cbn; [|done] end). done. }
  apply copyStruct_copies; [by intros ? (? & ? & ?)|done|].
  repeat apply copyPair_copies; [done|apply spec_copies|apply status_copies].
Qed.

Lemma list_copies : copies CSMSList_DeepCopyInto.
Proof.
  apply (copies_ext _ (copyStruct (λ o, (h_ListMeta o, h_Items o)) list_put
    (copyPair copyListMeta (copyPointer CItems prjItems (copySlice CSMS_DeepCopyInto))))).
  { intros h o. unfold CSMSList_DeepCopyInto, copyStruct, copyPair. cbn.
    repeat (match goal with |- context [?o ≫= _] => destruct o as [[? ?]|]; cbn; [|done] end). done. }
  apply copyStruct_copies; [by intros ? []|done|]. apply copyPair_copies; [done|].
  apply copyPointer_copies; [done|]. apply copySlice_copies, csms_copies.
Qed.

Lemma behind_interface_same copy h p : behind_interface copy h p = copy h p.
Proof. unfold behind_interface. destruct (copy h p) as [[h' [l|]]|]; done. Qed.

(** C18: A deep copy stands for the same value as the original and shares no memory with
    it, the metadata included (labels, annotations, owner references, finalizers, managed
    fields), given that Kubernetes' own copy functions do so: whatever is then written to
    a part of the one, the other still reads as before.  This holds of the copies of all six types, and of the two that are objects also
    behind their interface. *)
Theorem deep_copy_separate :
  separates (V := option storedCSMS) CSMS_DeepCopy ∧ separates (V := option CSMSList) CSMSList_DeepCopy ∧
  separates (V := option CSMSSpec) CSMSSpec_DeepCopy ∧ separates (V := option CSMSStatus) CSMSStatus_DeepCopy ∧
  separates (V := option CSMSIngress) CSMSIngress_DeepCopy ∧ separates (V := option CSMSTLS) CSMSTLS_DeepCopy ∧
  separates (V := option storedCSMS) CSMS_DeepCopyObject ∧
  separates (V := option CSMSList) CSMSList_DeepCopyObject.
Proof.
  split_and!; apply copies_separate.
  7,8: eapply copies_ext; [apply behind_interface_same|].
  all: apply copyPointer_copies; [done|].
  - apply csms_copies.
  - apply list_copies.
  - apply spec_copies.
  - apply status_copies.
  - apply ingress_copies.
  - apply copyFlat_copies.
  - apply csms_copies.
  - apply list_copies.
Qed.
End deepcopy.

Module CopyWitnesses.
#[local] Existing Instance object_layout.
#[local] Existing Instance items_layout.
#[local] Existing Instance map_layout.

#[local] Existing Instance int_layout.
#[local] Existing Instance bool_layout.
#[local] Existing Instance time_layout.
#[local] Existing Instance bytes_layout.
#[local] Existing Instance strings_layout.
#[local] Existing Instance owners_layout.
#[local] Existing Instance fields_ptr_layout.
#[local] Existing Instance manageds_layout.

(** The copy functions of Kubernetes: of the two maps of the resource requirements, *)
Definition copyMaps : copier hResources :=
  copyStruct (λ r, (h_Requests r, h_Limits r)) (λ _ f, mkHResources f.1 f.2) (copyPair copyMap copyMap).
Lemma copyMaps_copies : copies copyMaps.
Proof.
  apply copyStruct_copies; [by intros ? []|done|]. apply copyPair_copies; apply copyMap_copies.
Qed.

(** of an owner reference and of an entry of the managed fields, *)
Definition copyBool : copier (option loc) := copyPointer CBool prjBool copyFlat.
Definition copyTime : copier (option loc) := copyPointer CTime prjTime copyFlat.
Definition copyOwner : copier hOwner :=
  copyStruct (λ o, (h_Controller o, h_BlockOwnerDeletion o))
    (λ o f, mkHOwner (h_OwnerAPIVersion o) (h_OwnerKind o) (h_OwnerName o) (h_OwnerUID o) f.1 f.2)
    (copyPair copyBool copyBool).
Lemma copyOwner_copies : copies copyOwner.
Proof.
  apply copyStruct_copies; [by intros ? []|done|].
  apply copyPair_copies; (apply copyPointer_copies; [done|apply copyFlat_copies]).
Qed.
Definition copyFields : copier hFields :=
  copyStruct h_Raw (λ _, mkHFields) (copyPointer CBytes prjBytes copyFlat).
Lemma copyFields_copies : copies copyFields.
Proof.
  apply copyStruct_copies; [done|done|]. apply copyPointer_copies; [done|apply copyFlat_copies].
Qed.
Definition copyManaged : copier hManaged :=
  copyStruct (λ x, (h_Time x, h_FieldsV1 x))
    (λ x f, mkHManaged (h_Manager x) (h_Operation x) (h_ManagedVersion x) (h_FieldsType x)
              (h_Subresource x) f.1 f.2)
    (copyPair copyTime (copyPointer CFields prjFields copyFields)).
Lemma copyManaged_copies : copies copyManaged.
Proof.
  apply copyStruct_copies; [by intros ? []|done|]. apply copyPair_copies.
  - apply copyPointer_copies; [done|apply copyFlat_copies].
  - apply copyPointer_copies; [done|apply copyFields_copies].
Qed.

(** of the metadata of an object and of a list. *)
Definition meta_put (x : hMeta)
    (f : option loc * (option loc * (option loc * (option loc * (option loc * (option loc * option loc)))))) :
    hMeta :=
  let '(deleted, (grace, (labels, (annotations, (owners, (finalizers, managed)))))) := f in
  mkHMeta (h_Name x) (h_GenerateName x) (h_Namespace x) (h_SelfLink x) (h_UID x) (h_ResourceVersion x)
    (h_Generation x) (h_CreationTimestamp x) deleted grace labels annotations owners finalizers managed.
Definition copyMeta : copier hMeta :=
  copyStruct meta_fields meta_put
    (copyPair copyTime (copyPair copyInt (copyPair copyMap (copyPair copyMap
      (copyPair (copyPointer COwners prjOwners (copySlice copyOwner))
        (copyPair (copyPointer CStrings prjStrings (copySlice copyFlat))
           (copyPointer CManaged prjManaged (copySlice copyManaged)))))))).
Lemma copyMeta_copies : copies copyMeta.
Proof.
  apply copyStruct_copies.
  - by intros x (? & ? & ? & ? & ? & ? & ?).
  - by intros x (? & ? & ? & ? & ? & ? & ?) v.
  - repeat apply copyPair_copies; try apply copyInt_copies; try apply copyMap_copies.
    + apply copyPointer_copies; [done|apply copyFlat_copies].
    + apply copyPointer_copies; [done|]. apply copySlice_copies, copyOwner_copies.
    + apply copyPointer_copies; [done|]. apply copySlice_copies, copyFlat_copies.
    + apply copyPointer_copies; [done|]. apply copySlice_copies, copyManaged_copies.
Qed.
Definition copyListMeta : copier hListMeta :=
  copyStruct h_RemainingItemCount
    (λ x, mkHListMeta (h_ListSelfLink x) (h_ListVersion x) (h_Continue x)) copyInt.
Lemma copyListMeta_copies : copies copyListMeta.
Proof. apply copyStruct_copies; [done|done|apply copyInt_copies]. Qed.

Definition demo : hCSMS :=
  mkHCSMS (mkTypeMeta "CSMS" "csms.dev/v1alpha1")
    (mkHMeta "demo" "" "prod" "" "u-1" "42" 3 (mkMetaTime 7) None None (Some 9%nat) None (Some 10%nat)
       (Some 11%nat) (Some 12%nat))
    (mkHSpec "csms:1" (Some 0%nat) 8080 "/livez" "/readyz" None "" "redis" "" (Some 1%nat)
       (mkHResources None (Some 2%nat)) None (Some 3%nat) (Some 5%nat))
    (mkHStatus 2 1 3 (Some 6%nat)).
Definition memory : list cell :=
  [CInt 2; CMap {["CSMS_LOG_LEVEL" := "warn"]}; CMap {["cpu" := "1"]};
   CIngress (mkHIngress "csms.example.com" "nginx" "" (Some 4%nat)); CMap {["a" := "b"]};
   CTLS (mkCSMSTLS "tls" ""); CConditions [mkCondition "Available" true "r" "m" 3 0];
   CObject demo; CItems [demo; demo]; CMap {["team" := "charging"]};
   COwners [mkHOwner "v1" "App" "parent" "u-0" (Some 13%nat) None]; CStrings ["csms.dev/cleanup"];
   CManaged [mkHManaged "kubectl" "Update" "v1" "FieldsV1" "" (Some 14%nat) (Some 15%nat)];
   CBool true; CTime (mkMetaTime 9); CFields (mkHFields (Some 16%nat)); CBytes "{}"].
Definition value : storedCSMS :=
  mkStored (mkTypeMeta "CSMS" "csms.dev/v1alpha1")
    (mkMetaValue "demo" "" "prod" "" "u-1" "42" 3 (mkMetaTime 7) None None
       (Some {["team" := "charging"]}) None
       (Some [mkOwnerValue "v1" "App" "parent" "u-0" (Some true) None]) (Some ["csms.dev/cleanup"])
       (Some [mkManagedValue "kubectl" "Update" "v1" "FieldsV1" "" (Some (mkMetaTime 9)) (Some (Some "{}"))]))
    (mkSpec "csms:1" (Some 2) 8080 "/livez" "/readyz" None "" "redis" "" {["CSMS_LOG_LEVEL" := "warn"]}
       (mkResources None (Some {["cpu" := "1"]})) None
       (Some (mkCSMSIngress "csms.example.com" "nginx" "" {["a" := "b"]})) (Some (mkCSMSTLS "tls" "")))
    (mkStatus 2 1 3 [mkCondition "Available" true "r" "m" 3 0]).

Lemma deep_copy_separate_witness :
  csms_Name (csms_of value) = "demo" ∧
  ∃ h' p', CSMS_DeepCopy copyMaps copyMeta memory (Some 7%nat) = Some (h', p') ∧
    rd h' p' = Some (Some value) ∧ rd h' (Some 7%nat) = Some (Some value) ∧
    (∀ l c, l ∈ lc (Layout := object_layout) h' p' → rd (<[l := c]> h') (Some 7%nat) = Some (Some value)) ∧
    (∀ l c, l ∈ lc (Layout := object_layout) h' (Some 7%nat) → rd (<[l := c]> h') p' = Some (Some value)).
Proof.
  split; [reflexivity|].
  apply (proj1 (deep_copy_separate copyMaps copyMeta copyListMeta copyMaps_copies copyMeta_copies
    copyListMeta_copies) memory (Some 7%nat) (Some value)). by_evaluation.
Defined.
End CopyWitnesses.
